(* ===== verification/_CoqProject ===== *)
-Q . S2P
Prelude.v
Constants.v
Float64.v
Buffer.v
Replay.v
Queue.v
Text.v
Netip.v
Logging.v
Address.v
Simulator.v
AddressString.v
Crypto.v
SampleCrypto.v
Token.v
TokenGenerate.v
Packet.v
TokenEntries.v
Encryption.v
Socket.v
SocketIO.v
Client.v
ClientFailover.v
Server.v
ServerInvariant.v
ServerHandlers.v
ServerConnect.v
ServerReceive.v
ServerRun.v
Footprint.v
Startup.v
Process.v
Commands.v
Soak.v
ServerClaims.v
SessionMachine.v
ServerSession.v
Handshake.v
Delivery.v
