(* ===== verification/Prelude.v ===== *)
(** * A verification library for netcode.go

    netcode.go is a connection protocol over UDP for games: a web backend issues
    encrypted connect tokens, a client presents one to a dedicated server,
    answers a challenge, and then exchanges encrypted payload packets with it.

    ** The program and the files that model it

    Each file models one source file under src/ (netcode.go is the package
    root), translated definition by definition; names follow the Go names.

    - Prelude: Go semantics shared by all files. A w-bit integer is a [Z] kept in
      range by an explicit wrap-around; a byte slice or array is a [list byte];
      [M S A] is a computation over a Go struct [S] that may panic ([None]: an
      index or slice out of range, a nil callback, an explicit panic); [wp] is
      total correctness for it, [wlp] partial correctness, and [keeps R m] says
      that every run of [m] relates its states by [R]; [aget]/[aset] are index
      expressions; [first_] and [for_] are search and counting loops;
      [r <| f := v |>] is field assignment.
    - Constants (constants of all files, ClientStateName), Float64 (IEEE 754
      binary64 and binary32, from the executable specification floats of the
      standard library), Logging (the log level and printf of netcode.go).
    - Buffer (buffer.go): the little endian cursor, with the specifications
      [writes], [reads] and [reads_within] that every codec proof composes.
    - Replay (replay.go): the replay window, an abstract window (the set of
      accepted sequence numbers), and the refinement between them.
    - Queue (queue.go): the ring buffer of received payloads, refined to a bounded
      FIFO list.
    - Address, AddressString (address.go): addresses and Equal; ParseAddress,
      String and the conversions to and from net/netip. Text and Netip model what
      these use of strings, fmt and net/netip: decimal and hexadecimal digits,
      and ParseAddr, String, Unmap and As16 of netip.Addr, with the proof that
      printing and parsing an address are inverse.
    - Crypto (crypto.go): the in place AEAD calls. The AEAD constructions are code
      of golang.org/x/crypto: they are the class [CryptoLib], and the class
      [CryptoLaws] states what their documentation promises (the ciphertext is
      16 bytes longer, Open inverts Seal, Open accepts only what Seal produces).
      SampleCrypto instantiates it for concrete witnesses.
    - Token, TokenGenerate (token.go): private, challenge and public connect
      tokens; GenerateConnectToken, with crypto/rand as the class [Rand] (a
      stream of draws) and the law [RandLaws] that it fills its buffer.
    - Packet (packet.go): the seven packet types, writePacket and readPacket.
    - TokenEntries (token_entries.go): the server's history of connect tokens.
    - Encryption (encryption.go): the map from addresses to packet keys.
    - Socket (socket.go): dispatch of datagrams to a transport. What the program
      does to the outside is a list of [event]s.
    - SocketIO (socket.go, bind_error_*.go, tagging_*.go): creating, writing,
      reading and closing sockets. The operating system and Go's net package are
      the class [OS], whose answers are arbitrary and which says for which system
      the program was built; the reader goroutine and the caller are interleaved
      steps on the bounded channel.
    - Simulator (simulator.go): the network simulator, its xorshift generator and
      float32 arithmetic included.
    - Client (client.go): the client state machine over all of the above;
      ClientFailover, how it goes through the servers of its token.
    - Server (server.go): the server state and all its handlers, over the same
      components. ServerInvariant reads the parallel arrays of the struct as
      slots and states the invariant [server_wf]; ServerHandlers (disconnecting,
      starting and stopping, the periodic loops), ServerConnect (requests,
      challenge responses, packets of clients), ServerReceive (from a datagram to
      its effect) and ServerRun (the remaining API calls) prove one lemma per
      handler; ServerClaims has the claims and a concrete server that runs the
      handshake. SessionMachine is an abstract machine of sessions and sequence
      numbers: guarded steps (a packet, a join, a departure, a start, a stop), the
      steps each API call may take, and the distinctness of the numbers in any
      run; ServerSession proves that every call of the server takes only the steps
      the machine allows it, with exactly their datagrams.
    - Startup (client.go, server.go): NewClientDual, NewServerDual and the socket
      creation they share, over AddressString and SocketIO.
    - Handshake: a client and a server together, from the first request to the
      connected client and the session the two then share.
    - Delivery: payloads through a session, in both directions. The receiver is
      specified as an inbox (abstract replay window, bounded queue); the classes
      [SenderLaws] and [ReceiverLaws] say what an end promises, client.go and
      server.go discharge both, and the theorem on channels is proved once against
      the classes, for every schedule of deliveries, injections and fetches.
    - Footprint: what the operations of clients and servers leave alone, as
      relations that all of them keep: the sockets, the absence of loopback
      clients, the sizes of received payloads.
    - Process, Commands, Soak (cmd/): whole programs. Process has the state of a
      process, the class [World] of everything it may observe (interrupts, the
      clock, arriving datagrams, the operating system, math/rand), the interface
      [Endpoint]/[EndpointSpec] that clients and servers share, and an error monad
      for programs that exit or fail their own checks; Commands has the main
      functions of cmd/client, cmd/server and cmd/client_server, Soak that of
      cmd/soak with its global variables as state.

    ** What the theorems show

    - Codecs: every token and packet that the program writes reads back as
      itself, through encryption; decoders do not panic on any input.
    - Authenticity: readPacket returns a packet only if the datagram was sealed
      under the right key for this protocol id, type and sequence number; a
      forged datagram changes no state. The client becomes connected only by a
      sealed keep alive packet of its server.
    - Replay: below the sequence number 2^64 - 1 no packet is accepted twice; the
      number 2^64 - 1 itself is accepted each time it arrives.
    - Tokens: a consumed connect token is never admitted again before it expires.
    - Keys: the encryption manager never evicts live or client owned mappings;
      the datagrams of one client connection never share a nonce, and no
      connection or session of a server uses a sequence number twice: the server
      follows the machine of sessions, in which a stream of numbers starts anew
      only when a client joins or leaves, or the server starts or stops.
    - Admission: the server connects a client only on a response sealed under the
      keys of a mapping for its address, around a challenge token of its own.
    - Replies: the server answers a datagram with at most one, shorter datagram.
    - Delivery: from SendPacket on one side to ReceivePacket on the other, over a
      network that loses, duplicates, reorders and injects datagrams, payloads
      arrive unaltered, in the order of arrival and at most once, and all that
      arrive do come out as long as at most 256 are in play.
    - Handshake: a client with a token the server's key opens connects to a server
      with room for it in two round trips, and both ends agree on slot, client
      id, user data and keys. A client that hears nothing goes through the
      servers of its token in order and then reports the timeout.
    - Addresses: ParseAddress is total and inverts String; parsePort agrees with
      a reference definition; an address survives the way through a socket
      unless it is an IPv6 address that maps an IPv4 one.
    - Token generation: a generated token is what was asked for, to the client and
      to the server; errors are exactly the invalid arguments.
    - Sockets: constructors never leak a connection, the negotiation of buffer
      sizes terminates, and the channel never invents, alters, duplicates or
      reorders packets under any interleaving.
    - Simulator: packets are delivered only between the addresses they were sent
      between, at most twice each; a loss setting of zero can still lose one.
    - Invariants: no sequence of API calls on a client or on a server of any
      configuration panics, and the invariants [client_wf] and [server_wf] hold;
      the server's client count is exact. Two callbacks that the code calls without
      a test must be set where they are called: SendLoopbackPacketCallback for
      loopback clients ([client_loopback_needs_callback] and
      [server_loopback_needs_callback] show the panic without it), and
      ReceivePacketOverride when OverrideSendAndReceive replaces the sockets.
    - Programs: the four commands, in every environment, never run into a panic of
      the library, keep their clients and servers well formed, return on an
      interrupt (the soak test also after the iterations asked for), and have
      closed every connection they opened when they return.

    ** Bounds

    Loops are structural recursion on a list of indices, on the bytes of the
    input or on a counter; the loop that halves a socket buffer size has fuel 64,
    and [bufferBackoff_terminates] shows that this is enough for every 64 bit
    int; the digits of a printed number have as much fuel as a 64 bit number has
    digits. Counters are unbounded in the specifications and wrap at their Go width
    in the models; theorems that need it state the bound on the number of packets
    sent (2^64 for a client; for the server fewer than 2^63 steps, counted as 4096
    for each API call and two for each datagram that arrives). The main loops of the programs, which run until an interrupt,
    take a number of turns, and the theorems hold for every number; the loops that
    empty a receive queue have one turn more than a queue has entries, and running
    out would be a panic, which the theorems exclude. [handshake_completes] keeps the server's clock still between the
    request and the response.

    ** What is not modelled

    The calls of printf in the other components, which have no effect on their
    state, and the text that the programs print. System calls are the parameter
    [OS]. Callbacks are recorded as events; a callback that calls back into the
    library is outside the model. The clock, random bytes and received datagrams
    are arguments of the operations, or answers of the [World]; the number of
    packets waiting on a channel is bounded by SocketIO but not by the [World]. A
    byte slice is assumed to have no capacity beyond its length at the calls of
    the AEAD functions, which holds for all callers. The two server sockets'
    channels are drained in some interleaving, given as one list. Planned: the
    handshake through Update and over the simulator, and the contents check of the
    programs, which needs that no one else holds the private key. *)

From stdpp Require Export base countable list list_numbers option numbers sets.
From coqutil Require Export Word.LittleEndianList Byte.
From Stdlib Require Strings.Byte.
From Stdlib Require Export ZArith Lia.

#[export] Set Default Goal Selector "!".
Open Scope Z_scope.
#[global] Arguments replicate : simpl never.
#[global] Arguments Z.to_nat : simpl never.
#[global] Arguments Z.of_nat : simpl never.
#[global] Arguments le_split : simpl never.
#[global] Arguments le_combine : simpl never.
#[global] Arguments byte.of_Z : simpl never.
#[global] Arguments list_bind : simpl never.
#[global] Arguments seqZ : simpl never.

(** Bytes are the 256-constructor type of the standard library; a Go byte
    slice or array is a [list byte]. *)
Abbreviation byte := Init.Byte.byte.
#[export] Instance byte_eq_dec : EqDecision byte := Stdlib.Strings.Byte.byte_eq_dec.

#[export] Program Instance byte_countable : Countable byte :=
  inj_countable' byte.unsigned byte.of_Z _.
Next Obligation. apply byte.of_Z_unsigned. Qed.

(** The zero value of a byte array. *)
Definition zeros (n : nat) : list byte := replicate n (byte.of_Z 0).
Lemma length_zeros n : length (zeros n) = n.
Proof. apply length_replicate. Qed.

(** ** Machine integers

    A Go integer of width [w] is a [Z]; every conversion and every arithmetic
    operation that may leave the range is followed by its wrap-around. *)
Definition u8 (z : Z) : Z := z mod 2 ^ 8.
Definition u16 (z : Z) : Z := z mod 2 ^ 16.
Definition u32 (z : Z) : Z := z mod 2 ^ 32.
Definition u64 (z : Z) : Z := z mod 2 ^ 64.
(** The conversion int32(z): two's complement of the low 32 bits. *)
Definition i32 (z : Z) : Z :=
  let m := z mod 2 ^ 32 in if m <? 2 ^ 31 then m else m - 2 ^ 32.

Definition is_u8 (z : Z) : Prop := 0 ≤ z < 2 ^ 8.
Definition is_u16 (z : Z) : Prop := 0 ≤ z < 2 ^ 16.
Definition is_u32 (z : Z) : Prop := 0 ≤ z < 2 ^ 32.
Definition is_u64 (z : Z) : Prop := 0 ≤ z < 2 ^ 64.
Definition is_i32 (z : Z) : Prop := - 2 ^ 31 ≤ z < 2 ^ 31.

Lemma u64_id z : is_u64 z → u64 z = z.
Proof. apply Z.mod_small. Qed.
Lemma u64_range z : is_u64 (u64 z).
Proof. by apply Z.mod_pos_bound. Qed.
Lemma u32_range z : is_u32 (u32 z).
Proof. by apply Z.mod_pos_bound. Qed.

(** A signed 32 bit value survives the trip through uint32 that the wire
    format makes. *)
Lemma i32_u32 z : is_i32 z → i32 (u32 z) = z.
Proof.
  unfold is_i32, i32, u32. intros H.
  rewrite Z.mod_mod by lia.
  destruct (decide (0 ≤ z)).
  - rewrite Z.mod_small by lia. destruct (Z.ltb_spec z (2 ^ 31)); lia.
  - assert (z mod 2 ^ 32 = z + 2 ^ 32) as ->.
    { symmetry. apply Z.mod_unique with (-1); lia. }
    destruct (Z.ltb_spec (z + 2 ^ 32) (2 ^ 31)); lia.
Qed.
Lemma i32_id z : is_i32 z → i32 z = z.
Proof. intros H. rewrite <-(i32_u32 z H) at 2. unfold i32, u32. by rewrite Zmod_mod. Qed.
Lemma i32_range z : is_i32 (i32 z).
Proof.
  unfold is_i32, i32. pose proof (Z.mod_pos_bound z (2 ^ 32) ltac:(lia)).
  destruct (Z.ltb_spec (z mod 2 ^ 32) (2 ^ 31)); lia.
Qed.

(** ** Records with functional update

    [r <| f := v |>] is the record [r] with field [f] replaced by [v];
    [r <| f ::= g |>] applies [g] to the field. A record type opts in with an
    [Eta] instance that rebuilds it from its projections. *)
Class Eta (R : Type) := eta : R → R.
Class Setter {R E : Type} (getter : R → E) := setter : (E → E) → R → R.
Definition set {R E : Type} (getter : R → E) `{!Setter getter} : (E → E) → R → R := setter.

Ltac solve_setter getter :=
  lazymatch type of getter with
  | ?R → ?E =>
      let i := constr:(@eta R _) in
      let e := eval hnf in i in
      lazymatch eval pattern getter in e with
      | ?body _ =>
          let t := eval cbv beta in (fun u : E → E => body (fun r => u (getter r))) in
          exact t
      end
  end.
#[export] Hint Extern 1 (Setter ?g) => solve_setter g : typeclass_instances.

Notation "r <| f := v |>" := (set f (λ _, v) r)
  (at level 1, left associativity, f at next level, v at level 200, format "r <| f  :=  v |>").
Notation "r <| f ::= g |>" := (set f g r)
  (at level 1, left associativity, f at next level, g at level 200, format "r <| f  ::=  g |>").

(** ** Effects

    [M S A] is a computation that reads and updates a state [S], returns an
    [A], or panics ([None]): an index out of range, a slice out of range, or an
    explicit call to panic. *)
Definition M (S A : Type) : Type := S → option (A * S).
#[export] Instance M_ret S : MRet (M S) := λ A a s, Some (a, s).
#[export] Instance M_bind S : MBind (M S) := λ A B k m s, m s ≫= λ '(a, s'), k a s'.
Definition panic {S A : Type} : M S A := λ _, None.
Definition gets {S A : Type} (f : S → A) : M S A := λ s, Some (f s, s).
Definition modify {S : Type} (f : S → S) : M S unit := λ s, Some (tt, f s).
(** Lift a computation that may panic but does not touch the state. *)
Definition lift {S A : Type} (o : option A) : M S A := λ s, o ≫= λ a, Some (a, s).

(** [for i in ixs: body i] *)
Fixpoint for_ {S I : Type} (ixs : list I) (body : I → M S unit) : M S unit :=
  match ixs with
  | [] => mret tt
  | i :: ixs => body i;; for_ ixs body
  end.

(** Total correctness: [wp m Q s] says that [m] started in [s] does not panic
    and ends with a value and a state that satisfy [Q]. *)
Definition wp {S A : Type} (m : M S A) (Q : A → S → Prop) (s : S) : Prop :=
  match m s with Some (a, s') => Q a s' | None => False end.

Section wp_lemmas.
Context {S : Type}.
Lemma wp_ret {A} (a : A) Q (s : S) : Q a s → wp (mret a) Q s.
Proof. done. Qed.
Lemma wp_bind {A B} (m : M S A) (k : A → M S B) Q s :
  wp m (λ a s', wp (k a) Q s') s → wp (m ≫= k) Q s.
Proof. unfold wp, mbind, M_bind. destruct (m s) as [[a s']|]; simpl; done. Qed.
Lemma wp_assoc {A B D} (m : M S A) (k : A → M S B) (k' : B → M S D) Q s :
  wp ((m ≫= k) ≫= k') Q s → wp (m ≫= λ a, k a ≫= k') Q s.
Proof. unfold wp, mbind, M_bind. by destruct (m s) as [[a s']|]. Qed.
Lemma wp_mono {A} (m : M S A) (Q Q' : A → S → Prop) s :
  wp m Q s → (∀ a s', Q a s' → Q' a s') → wp m Q' s.
Proof. unfold wp. destruct (m s) as [[a s']|]; naive_solver. Qed.
Lemma wp_run {A} (m : M S A) Q s a s' : m s = Some (a, s') → wp m Q s ↔ Q a s'.
Proof. unfold wp. by intros ->. Qed.
Lemma wp_inv {A} (m : M S A) Q s : wp m Q s → ∃ a s', m s = Some (a, s') ∧ Q a s'.
Proof. unfold wp. destruct (m s) as [[a s']|]; naive_solver. Qed.
Lemma wp_for {I : Type} (Inv : list I → S → Prop) (body : I → M S unit) ixs s :
  Inv ixs s →
  (∀ i l s1, Inv (i :: l) s1 → wp (body i) (λ _ s2, Inv l s2) s1) →
  wp (for_ ixs body) (λ _ s', Inv [] s') s.
Proof.
  intros Hs Hstep. revert s Hs. induction ixs as [|i ixs IH]; intros s Hs; [done|].
  cbn [for_]. apply wp_bind. eapply wp_mono; [by apply Hstep|].
  intros [] s'. apply IH.
Qed.
(** A loop over consecutive indices. *)
Lemma wp_for_range (Inv : Z → S → Prop) (body : Z → M S unit) n s :
  0 ≤ n → Inv 0 s →
  (∀ i s1, 0 ≤ i < n → Inv i s1 → wp (body i) (λ _ s2, Inv (i + 1) s2) s1) →
  wp (for_ (seqZ 0 n) body) (λ _ s', Inv n s') s.
Proof.
  intros Hn H0 Hstep.
  eapply wp_mono; [apply (wp_for (λ l s1, ∃ i, 0 ≤ i ≤ n ∧ l = seqZ i (n - i) ∧ Inv i s1))|].
  - exists 0. rewrite Z.sub_0_r. by split_and!.
  - intros i l s1 (k & Hk & Hl & Hinv).
    destruct (decide (k = n)) as [->|]; [rewrite Z.sub_diag in Hl; done|].
    replace (n - k) with (Z.succ (n - Z.succ k)) in Hl by lia.
    rewrite seqZ_cons in Hl by lia. injection Hl as -> Hl.
    eapply wp_mono; [apply Hstep; [lia|done]|]. intros [] s2 Hs2. exists (k + 1).
    split_and!; [lia..| |done]. rewrite Hl. f_equal; lia.
  - intros [] s' (i & Hi & Hl & Hinv). destruct (decide (i = n)) as [->|]; [done|].
    rewrite seqZ_cons in Hl by lia. done.
Qed.
End wp_lemmas.

(** ** Go arrays

    [aget] and [aset] are the index expressions [a[i]] and [a[i] = v] of a Go
    array or slice: [None] (a panic) when the index is out of range. *)
Definition aget {A : Type} (l : list A) (i : Z) : option A :=
  if 0 <=? i then l !! Z.to_nat i else None.
Definition aset {A : Type} (l : list A) (i : Z) (v : A) : option (list A) :=
  if (0 <=? i) && (i <? Z.of_nat (length l)) then Some (<[Z.to_nat i := v]> l) else None.
(** The array that [aset] leaves when the index is in range. *)
Definition ainsert {A : Type} (i : Z) (v : A) (l : list A) : list A := <[Z.to_nat i := v]> l.

Create HintDb go.
Create Rewrite HintDb golen.

Section arrays.
Context {A : Type}.
Implicit Types (l : list A) (i j : Z) (x v : A).

Lemma aget_range l i x : aget l i = Some x → 0 ≤ i < Z.of_nat (length l).
Proof.
  unfold aget. destruct (Z.leb_spec 0 i); [|done].
  intros Hl%lookup_lt_Some. lia.
Qed.
Lemma aget_Some l i : 0 ≤ i < Z.of_nat (length l) → ∃ x, aget l i = Some x.
Proof.
  intros ?. unfold aget. destruct (Z.leb_spec 0 i); [|lia].
  apply lookup_lt_is_Some_2. lia.
Qed.
Lemma aget_outside l i : ¬ 0 ≤ i < Z.of_nat (length l) → aget l i = None.
Proof. intros H. destruct (aget l i) eqn:He; [|done]. by apply aget_range in He. Qed.
Lemma aset_Some l i v : 0 ≤ i < Z.of_nat (length l) → aset l i v = Some (ainsert i v l).
Proof.
  intros ?. unfold aset.
  destruct (Z.leb_spec 0 i), (Z.ltb_spec i (Z.of_nat (length l))); simpl; done || lia.
Qed.
Lemma length_ainsert l i v : length (ainsert i v l) = length l.
Proof. apply length_insert. Qed.
Lemma aget_ainsert_eq l i v : 0 ≤ i < Z.of_nat (length l) → aget (ainsert i v l) i = Some v.
Proof.
  intros ?. unfold aget, ainsert. destruct (Z.leb_spec 0 i); [|lia].
  apply list_lookup_insert_eq. lia.
Qed.
Lemma aget_ainsert_ne l i j v : 0 ≤ i → i ≠ j → aget (ainsert i v l) j = aget l j.
Proof.
  intros ??. unfold aget, ainsert. destruct (Z.leb_spec 0 j); [|done].
  apply list_lookup_insert_ne. lia.
Qed.
Lemma aget_ainsert l i j v :
  0 ≤ i < Z.of_nat (length l) →
  aget (ainsert i v l) j = if decide (i = j) then Some v else aget l j.
Proof.
  intros ?. case_decide; subst; [by apply aget_ainsert_eq | apply aget_ainsert_ne; lia].
Qed.
Lemma aget_replicate (n : nat) x i :
  0 ≤ i < Z.of_nat n → aget (replicate n x) i = Some x.
Proof.
  intros ?. unfold aget. destruct (Z.leb_spec 0 i); [|lia].
  rewrite lookup_replicate. split; [done|lia].
Qed.
Lemma aget_replicate_inv (n : nat) x y i :
  aget (replicate n x) i = Some y → y = x.
Proof. unfold aget. destruct (0 <=? i); [|done]. by intros [-> _]%lookup_replicate. Qed.
(** Two arrays of the same length that agree at every index are equal. *)
Lemma aget_ext l l' : length l = length l' → (∀ i, aget l i = aget l' i) → l = l'.
Proof.
  intros Hlen H. apply list_eq. intros n. specialize (H (Z.of_nat n)).
  unfold aget in H. destruct (Z.leb_spec 0 (Z.of_nat n)); [|lia].
  by rewrite Nat2Z.id in H.
Qed.
End arrays.
#[export] Hint Rewrite @length_ainsert @length_insert @length_replicate : golen.

(** ** Weights

    [sum_with w l] adds up a weight over a list: a count, when it is 0 or 1. *)
Definition sum_with {A : Type} (w : A → Z) (l : list A) : Z := foldr (λ x n, w x + n) 0 l.
Section weights.
Context {A : Type} (w : A → Z).
Lemma sum_with_app l l' : sum_with w (l ++ l') = sum_with w l + sum_with w l'.
Proof. unfold sum_with. induction l as [|x l IH]; [done|]. cbn [app foldr]. rewrite IH. lia. Qed.
Lemma sum_with_replicate n x : w x = 0 → sum_with w (replicate n x) = 0.
Proof.
  intros Hx. induction n as [|n IH]; [done|]. rewrite replicate_S.
  change (w x + sum_with w (replicate n x) = 0). lia.
Qed.
Lemma sum_with_insert l i x v :
  aget l i = Some x → sum_with w (ainsert i v l) = sum_with w l - w x + w v.
Proof.
  unfold aget, ainsert. destruct (Z.leb_spec 0 i); [|done]. generalize (Z.to_nat i) as n. clear i H.
  induction l as [|y l IH]; intros [|n] Hx; [done|done| |]; simpl in *.
  - injection Hx as ->. lia.
  - rewrite (IH _ Hx). unfold sum_with. lia.
Qed.
End weights.

(** Index [length pre] of [pre ++ x :: post]. *)
Lemma aget_middle {A : Type} (pre post : list A) x :
  aget (pre ++ x :: post) (Z.of_nat (length pre)) = Some x.
Proof.
  unfold aget. rewrite Nat2Z.id. destruct (Z.leb_spec 0 (Z.of_nat (length pre))); [|lia].
  by apply list_lookup_middle.
Qed.
Lemma aset_middle {A : Type} (pre post : list A) x y :
  aset (pre ++ x :: post) (Z.of_nat (length pre)) y = Some (pre ++ y :: post).
Proof.
  rewrite aset_Some by (rewrite length_app; simpl; lia). unfold ainsert. rewrite Nat2Z.id.
  f_equal. rewrite insert_app_r_alt by lia. by rewrite Nat.sub_diag.
Qed.
Lemma seqZ_S m n : seqZ m (Z.of_nat (S n)) = m :: seqZ (m + 1) (Z.of_nat n).
Proof. rewrite seqZ_cons by lia. f_equal; f_equal; lia. Qed.

(** Reads and writes of an array field of the state. *)
Definition aread {S A : Type} (fld : S → list A) (i : Z) : M S A :=
  λ s, aget (fld s) i ≫= λ a, Some (a, s).
Definition awrite {S A : Type} (fld : S → list A) `{!Setter fld} (i : Z) (v : A) : M S unit :=
  λ s, aset (fld s) i v ≫= λ l, Some (tt, s <| fld := l |>).

Section array_wp.
Context {S A : Type} (fld : S → list A).
Lemma wp_aread i Q s x : aget (fld s) i = Some x → Q x s → wp (aread fld i) Q s.
Proof. unfold wp, aread. by intros ->. Qed.
Lemma wp_awrite `{!Setter fld} i v Q s :
  0 ≤ i < Z.of_nat (length (fld s)) →
  Q tt (s <| fld := ainsert i v (fld s) |>) → wp (awrite fld i v) Q s.
Proof. intros ??. unfold wp, awrite. by rewrite aset_Some. Qed.
End array_wp.

(** ** Byte buffers

    [splice buf pos bs] overwrites [buf] with [bs] from offset [pos]; [slice
    buf pos n] is the [n] bytes at offset [pos]. *)
Definition splice {A : Type} (buf : list A) (pos : nat) (bs : list A) : list A :=
  take pos buf ++ bs ++ drop (pos + length bs)%nat buf.
Definition slice {A : Type} (buf : list A) (pos n : nat) : list A := take n (drop pos buf).

Section buffers.
Context {A : Type}.
Implicit Types (buf bs cs : list A).
Local Open Scope nat_scope.

Lemma length_splice buf pos bs :
  pos + length bs ≤ length buf → length (splice buf pos bs) = length buf.
Proof. intros. unfold splice. rewrite !length_app, length_take, length_drop. lia. Qed.
Lemma take_splice buf pos bs :
  pos ≤ length buf → take pos (splice buf pos bs) = take pos buf.
Proof. intros. unfold splice. rewrite take_app_le by (rewrite length_take; lia). rewrite take_take. f_equal. lia. Qed.
Lemma drop_splice buf pos bs :
  pos ≤ length buf → drop pos (splice buf pos bs) = bs ++ drop (pos + length bs) buf.
Proof. intros. unfold splice. rewrite drop_app_length'; [done|]. rewrite length_take. lia. Qed.
Lemma drop_splice_end buf pos bs :
  pos ≤ length buf →
  drop (pos + length bs) (splice buf pos bs) = drop (pos + length bs) buf.
Proof. intros. rewrite <-drop_drop, drop_splice by done. by rewrite drop_app_length. Qed.
Lemma splice_splice buf pos bs cs :
  pos + length bs ≤ length buf →
  splice (splice buf pos bs) (pos + length bs) cs = splice buf pos (bs ++ cs).
Proof.
  intros Hle. unfold splice at 1.
  rewrite <-(drop_drop (splice _ _ _)), drop_splice_end, drop_drop by lia.
  unfold splice. rewrite length_app, !app_assoc.
  f_equal; [|f_equal; lia].
  rewrite take_app_le by (rewrite !length_app, length_take; lia).
  rewrite take_ge; [done|]. rewrite !length_app, length_take. lia.
Qed.
Lemma slice_splice buf pos bs :
  pos ≤ length buf → slice (splice buf pos bs) pos (length bs) = bs.
Proof. intros. unfold slice. rewrite drop_splice by done. by rewrite take_app_length. Qed.
Lemma length_slice buf pos n :
  pos + n ≤ length buf → length (slice buf pos n) = n.
Proof. intros. unfold slice. rewrite length_take, length_drop. lia. Qed.
Lemma drop_slice buf pos n : drop pos buf = slice buf pos n ++ drop (pos + n) buf.
Proof. unfold slice. by rewrite <-drop_drop, take_drop. Qed.
(** Reading at an offset where the remaining input starts with [bs]. *)
Lemma slice_at buf pos bs rest :
  drop pos buf = bs ++ rest → slice buf pos (length bs) = bs.
Proof. unfold slice. intros ->. by rewrite take_app_length. Qed.
Lemma drop_at buf pos bs rest :
  drop pos buf = bs ++ rest → drop (pos + length bs) buf = rest.
Proof. intros H. rewrite <-drop_drop, H. by rewrite drop_app_length. Qed.
Lemma fits_at buf pos bs rest :
  pos ≤ length buf → drop pos buf = bs ++ rest → pos + length bs ≤ length buf.
Proof.
  intros Hp H. apply (f_equal length) in H. rewrite length_drop, length_app in H. lia.
Qed.
Lemma splice_full buf bs : length bs = length buf → splice buf 0 bs = bs.
Proof. intros H. unfold splice. simpl. rewrite drop_ge by lia. apply app_nil_r. Qed.
End buffers.

(** ** Little endian integers *)
Lemma le_combine_u64 bs : length bs = 8%nat → is_u64 (le_combine bs).
Proof. intros H. pose proof (le_combine_bound bs). rewrite H in *. done. Qed.
Lemma le_combine_u32 bs : length bs = 4%nat → is_u32 (le_combine bs).
Proof. intros H. pose proof (le_combine_bound bs). rewrite H in *. done. Qed.
Lemma le_combine_u16 bs : length bs = 2%nat → is_u16 (le_combine bs).
Proof. intros H. pose proof (le_combine_bound bs). rewrite H in *. done. Qed.
Lemma le_split_u64 z : is_u64 z → le_combine (le_split 8 z) = z.
Proof. intros. rewrite le_combine_split. by apply Z.mod_small. Qed.
Lemma le_split_u32 z : is_u32 z → le_combine (le_split 4 z) = z.
Proof. intros. rewrite le_combine_split. by apply Z.mod_small. Qed.
Lemma le_split_u16 z : is_u16 z → le_combine (le_split 2 z) = z.
Proof. intros. rewrite le_combine_split. by apply Z.mod_small. Qed.
#[export] Hint Rewrite length_le_split : golen.

Lemma byte_unsigned_range (b : byte) : is_u8 (byte.unsigned b).
Proof. apply byte.unsigned_range. Qed.
Lemma byte_of_Z_u8 z : is_u8 z → byte.unsigned (byte.of_Z z) = z.
Proof. intros H. rewrite byte.unsigned_of_Z. by apply Z.mod_small. Qed.
Lemma byte_of_Z_low z : byte.of_Z (Z.land z 0xFF) = byte.of_Z z.
Proof.
  rewrite <-(byte.of_Z_unsigned (byte.of_Z z)), byte.unsigned_of_Z. unfold byte.wrap.
  change 0xFF with (Z.ones 8). by rewrite Z.land_ones.
Qed.
Lemma le_combine_cons b bs : le_combine (b :: bs) = Z.lor (byte.unsigned b) (Z.shiftl (le_combine bs) 8).
Proof. done. Qed.
Lemma le_split_S n z : le_split (S n) z = byte.of_Z z :: le_split n (Z.shiftr z 8).
Proof. done. Qed.
Lemma le_split_combine n bs : length bs = n → le_split n (le_combine bs) = bs.
Proof. intros <-. apply split_le_combine. Qed.
(** The wire value of a signed integer determines it, and back. *)
Lemma u32_i32 z : is_u32 z → u32 (i32 z) = z.
Proof.
  unfold is_u32, u32, i32. intros H. rewrite (Z.mod_small z) by lia.
  destruct (Z.ltb_spec z (2 ^ 31)); [by apply Z.mod_small|].
  symmetry. apply Z.mod_unique with (-1); lia.
Qed.

(** Weakest preconditions of lifted options and state updates. *)
Lemma wp_lift {S A : Type} (o : option A) (a : A) Q (s : S) :
  o = Some a → Q a s → wp (lift o) Q s.
Proof. intros ->. done. Qed.
Lemma wp_gets {S A : Type} (f : S → A) Q (s : S) : Q (f s) s → wp (gets f) Q s.
Proof. done. Qed.
Lemma wp_modify {S : Type} (f : S → S) Q (s : S) : Q tt (f s) → wp (modify f) Q s.
Proof. done. Qed.

(** ** Search loops

    [first_ ixs test]: the first index that satisfies the test, the shape of a
    loop that returns from its body. *)
Fixpoint first_ {S I : Type} (ixs : list I) (test : I → M S bool) : M S (option I) :=
  match ixs with
  | [] => mret None
  | i :: ixs => b ← test i; if (b : bool) then mret (Some i) else first_ ixs test
  end.

Lemma first_spec {S I : Type} (ixs : list I) (test : I → M S bool) (b : I → bool) s :
  (∀ i, i ∈ ixs → test i s = Some (b i, s)) →
  first_ ixs test s = Some (List.find b ixs, s).
Proof.
  induction ixs as [|i ixs IH]; intros H; [done|]. cbn [first_ List.find].
  unfold mbind, M_bind. rewrite H by left. simpl. destruct (b i); [done|].
  apply IH. intros j Hj. apply H. by right.
Qed.
(** A search among consecutive indices finds the least one. *)
Lemma find_seqZ_Some (b : Z → bool) m n i :
  List.find b (seqZ m n) = Some i →
  m ≤ i < m + n ∧ b i = true ∧ ∀ j, m ≤ j < i → b j = false.
Proof.
  destruct (decide (0 ≤ n)) as [Hn|]; [|unfold seqZ; by rewrite Z2Nat.nonpos by lia].
  revert m. rewrite <-(Z2Nat.id n) by done. generalize (Z.to_nat n) as k. clear n Hn.
  induction k as [|k IH]; intros m; [done|]. rewrite seqZ_S. cbn [List.find].
  destruct (b m) eqn:Hm.
  - intros [= <-]. split_and!; [lia..|done|lia].
  - intros (? & ? & Hlt)%IH. split_and!; [lia..|done|].
    intros j Hj. destruct (decide (j = m)) as [->|]; [done|]. apply Hlt. lia.
Qed.
Lemma find_seqZ_None (b : Z → bool) m n :
  List.find b (seqZ m n) = None → ∀ j, m ≤ j < m + n → b j = false.
Proof.
  intros H j Hj. apply (find_none _ _ H). apply list_elem_of_In, elem_of_seqZ. lia.
Qed.
Lemma find_seqZ_first (b : Z → bool) m n i :
  m ≤ i < m + n → b i = true → (∀ j, m ≤ j < i → b j = false) →
  List.find b (seqZ m n) = Some i.
Proof.
  intros Hi Hb Hlt. destruct (List.find b (seqZ m n)) as [k|] eqn:Hf.
  - apply find_seqZ_Some in Hf as (? & Hk & Hlt').
    destruct (decide (k < i)); [rewrite Hlt in Hk by lia; done|].
    destruct (decide (i < k)); [rewrite Hlt' in Hb by lia; done|]. f_equal. lia.
  - by rewrite (find_seqZ_None _ _ _ Hf i) in Hb.
Qed.

(** ** More about loops and arrays *)
Lemma wp_for_app {S I : Type} (l l' : list I) (body : I → M S unit) Q s :
  wp (for_ l body) (λ _ s', wp (for_ l' body) Q s') s → wp (for_ (l ++ l') body) Q s.
Proof.
  revert s. induction l as [|i l IH]; intros s; cbn [app for_]; [done|].
  unfold wp, mbind, M_bind. destruct (body i s) as [[[] s1]|]; [apply IH|done].
Qed.
Lemma aget_ainsert_some {A : Type} (l : list A) i j v x :
  0 ≤ i → aget (ainsert i v l) j = Some x → (i = j ∧ x = v) ∨ (i ≠ j ∧ aget l j = Some x).
Proof.
  intros Hi H. destruct (decide (i = j)) as [->|Hne].
  - left. split; [done|]. pose proof (aget_range _ _ _ H) as Hr. rewrite length_ainsert in Hr.
    rewrite aget_ainsert_eq in H by done. congruence.
  - right. by rewrite aget_ainsert_ne in H.
Qed.
Lemma aget_Forall {A : Type} (P : A → Prop) (l : list A) i x : Forall P l → aget l i = Some x → P x.
Proof.
  rewrite list.Forall_forall. intros Hall. unfold aget. case_match; [|done]. intros Hx.
  eapply Hall. by eapply list_elem_of_lookup_2.
Qed.

(** ** Operations on a field of the state *)
Definition zoom {S T A : Type} (fld : S → T) `{!Setter fld} (m : M T A) : M S A :=
  λ s, '(a, t) ← m (fld s); Some (a, s <| fld := t |>).
Lemma wp_zoom {S T A : Type} (fld : S → T) `{!Setter fld} (m : M T A) Q s :
  wp m (λ a t, Q a (s <| fld := t |>)) (fld s) → wp (zoom fld m) Q s.
Proof. unfold wp, zoom. by destruct (m (fld s)) as [[a t]|]. Qed.

(** ** Partial correctness

    [wlp m Q s] says that [m] started in [s] panics or ends with a value and a
    state that satisfy [Q]: for properties that need no invariant to rule out
    panics. *)
Definition wlp {S A : Type} (m : M S A) (Q : A → S → Prop) (s : S) : Prop :=
  match m s with Some (a, s') => Q a s' | None => True end.
Section wlp_lemmas.
Context {S : Type}.
Lemma wlp_ret {A} (a : A) Q (s : S) : Q a s → wlp (mret a) Q s.
Proof. done. Qed.
Lemma wlp_bind {A B} (m : M S A) (k : A → M S B) Q s :
  wlp m (λ a s', wlp (k a) Q s') s → wlp (m ≫= k) Q s.
Proof. unfold wlp, mbind, M_bind. destruct (m s) as [[a s']|]; simpl; done. Qed.
Lemma wlp_assoc {A B D} (m : M S A) (k : A → M S B) (k' : B → M S D) Q s :
  wlp ((m ≫= k) ≫= k') Q s → wlp (m ≫= λ a, k a ≫= k') Q s.
Proof. unfold wlp, mbind, M_bind. by destruct (m s) as [[a s']|]. Qed.
Lemma wlp_mono {A} (m : M S A) (Q Q' : A → S → Prop) s :
  wlp m Q s → (∀ a s', Q a s' → Q' a s') → wlp m Q' s.
Proof. unfold wlp. destruct (m s) as [[a s']|]; naive_solver. Qed.
Lemma wlp_inv {A} (m : M S A) Q s a s' : wlp m Q s → m s = Some (a, s') → Q a s'.
Proof. unfold wlp. intros H Hm. by rewrite Hm in H. Qed.
Lemma wlp_gets {A} (f : S → A) Q s : Q (f s) s → wlp (gets f) Q s.
Proof. done. Qed.
Lemma wlp_modify (f : S → S) Q s : Q tt (f s) → wlp (modify f) Q s.
Proof. done. Qed.
Lemma wlp_lift {A} (o : option A) Q (s : S) : (∀ a, o = Some a → Q a s) → wlp (lift o) Q s.
Proof. unfold wlp, lift. destruct o; simpl; auto. Qed.
Lemma wlp_aread {A} (fld : S → list A) i Q s :
  (∀ x, aget (fld s) i = Some x → Q x s) → wlp (aread fld i) Q s.
Proof. unfold wlp, aread. destruct (aget (fld s) i); simpl; auto. Qed.
Lemma wlp_awrite {A} (fld : S → list A) `{!Setter fld} i v Q s :
  (0 ≤ i < Z.of_nat (length (fld s)) → Q tt (s <| fld := ainsert i v (fld s) |>)) →
  wlp (awrite fld i v) Q s.
Proof.
  intros H. unfold wlp, awrite, aset.
  destruct ((0 <=? i) && (i <? Z.of_nat (length (fld s)))) eqn:Hi; [|done]. apply H. lia.
Qed.
Lemma wlp_zoom {T A} (fld : S → T) `{!Setter fld} (m : M T A) Q s :
  (∀ a t, Q a (s <| fld := t |>)) → wlp (zoom fld m) Q s.
Proof. intros H. unfold wlp, zoom. by destruct (m (fld s)) as [[a t]|]; simpl. Qed.
End wlp_lemmas.

(** A computation with no final state panics. *)
Lemma wlp_never {S A : Type} (m : M S A) s : wlp m (λ _ _, False) s → m s = None.
Proof. unfold wlp. by destruct (m s) as [[a s']|]. Qed.
Lemma wp_wlp {S A : Type} (m : M S A) Q s : wp m Q s → wlp m Q s.
Proof. unfold wp, wlp. by destruct (m s) as [[a s']|]. Qed.
Lemma wp_and_wlp {S A : Type} (m : M S A) (Q Q' : A → S → Prop) s :
  wp m Q s → wlp m Q' s → wp m (λ a s', Q a s' ∧ Q' a s') s.
Proof. unfold wp, wlp. by destruct (m s) as [[a s']|]. Qed.
Lemma wlp_and {S A : Type} (m : M S A) (Q Q' : A → S → Prop) s :
  wlp m Q s → wlp m Q' s → wlp m (λ a s', Q a s' ∧ Q' a s') s.
Proof. unfold wlp. by destruct (m s) as [[a s']|]. Qed.

(** Every run of [m] that does not panic takes related states to related
    states. *)
Definition keeps {S A : Type} (R : S → S → Prop) (m : M S A) : Prop :=
  ∀ s, wlp m (λ _ s', R s s') s.
Section keeps_lemmas.
Context {S : Type} (R : S → S → Prop) `{!PreOrder R}.
Lemma keeps_bind {A B} (m : M S A) (k : A → M S B) :
  keeps R m → (∀ a, keeps R (k a)) → keeps R (m ≫= k).
Proof.
  intros Hm Hk s. apply wlp_bind. eapply wlp_mono; [apply Hm|]. intros a s1 H1.
  eapply wlp_mono; [apply Hk|]. intros b s2 H2. by transitivity s1.
Qed.
Lemma keeps_ret {A} (a : A) : keeps R (mret a).
Proof. intros s. apply wlp_ret. reflexivity. Qed.
Lemma keeps_panic {A} : keeps R (@panic S A).
Proof. done. Qed.
Lemma keeps_gets {A} (f : S → A) : keeps R (gets f).
Proof. intros s. apply wlp_gets. reflexivity. Qed.
Lemma keeps_lift {A} (o : option A) : keeps R (lift o).
Proof. intros s. apply wlp_lift. intros a _. reflexivity. Qed.
Lemma keeps_aread {A} (fld : S → list A) i : keeps R (aread fld i).
Proof. intros s. apply wlp_aread. intros x _. reflexivity. Qed.
Lemma keeps_for {I} (ixs : list I) body : (∀ i, keeps R (body i)) → keeps R (for_ ixs body).
Proof. intros H. induction ixs; cbn [for_]; [apply keeps_ret|]. by apply keeps_bind. Qed.
Lemma keeps_first {I} (ixs : list I) test : (∀ i, keeps R (test i)) → keeps R (first_ ixs test).
Proof.
  intros H. induction ixs; cbn [first_]; [apply keeps_ret|]. apply keeps_bind; [done|].
  intros []; [apply keeps_ret|done].
Qed.
Lemma keeps_modify (f : S → S) : (∀ s, R s (f s)) → keeps R (modify f).
Proof. intros H s. by apply wlp_modify. Qed.
Lemma keeps_awrite {A} (fld : S → list A) `{!Setter fld} i v :
  (∀ s l, R s (s <| fld := l |>)) → keeps R (awrite fld i v).
Proof. intros H s. apply wlp_awrite. intros _. apply H. Qed.
Lemma keeps_zoom {T A} (fld : S → T) `{!Setter fld} (m : M T A) :
  (∀ s t, R s (s <| fld := t |>)) → keeps R (zoom fld m).
Proof. intros H s. apply wlp_zoom. intros a t. apply H. Qed.
End keeps_lemmas.

(** Goes through a computation; [tac] proves what is left: the updates of the
    state and the calls of other operations. *)
Ltac keeps_auto tac :=
  repeat first
    [ solve [tac]
    | apply keeps_ret; apply _ | apply keeps_panic | apply keeps_gets; apply _
    | apply keeps_lift; apply _ | apply keeps_aread; apply _
    | apply keeps_for; [apply _|intros ?] | apply keeps_first; [apply _|intros ?]
    | apply keeps_modify; intros ?; solve [tac]
    | apply keeps_awrite; intros ? ?; solve [tac]
    | apply keeps_zoom; intros ? ?; solve [tac]
    | apply keeps_bind; [apply _| |intros ?]
    | case_match ].
