(* ===== verification/Constants.v ===== *)
(** The constants of netcode.go, packet.go, client.go, server.go, encryption.go
    and token_entries.go, and [ClientStateName]. Sizes that index byte buffers
    are [nat]; values that take part in integer arithmetic are [Z]. *)

From stdpp Require Import strings.
From S2P Require Import Prelude.

(** ** Sizes *)
Definition ConnectTokenBytes : nat := 2048.
Definition KeyBytes : nat := 32.
Definition MacBytes : nat := 16.
Definition UserDataBytes : nat := 256.
Definition MaxServersPerConnect : nat := 32.
Definition MaxPacketSize : nat := 1200.
Definition MaxClients : Z := 256.
Definition connectTokenNonceBytes : nat := 24.
Definition connectTokenPrivateBytes : nat := 1024.
Definition challengeTokenBytes : nat := 300.
Definition versionInfoBytes : nat := 13.
Definition maxPacketBytes : nat := 1300.
Definition maxPayloadBytes : nat := 1200.
Definition maxAddressStringLength : nat := 256.
Definition packetQueueSize : Z := 256.
Definition replayProtectionBufferSize : Z := 256.
Definition maxConnectTokenEntries : Z := MaxClients * 8.
Definition maxEncryptionMappings : Z := MaxClients * 4.

(** "NETCODE 1.02" in ASCII with a null terminator. *)
Definition versionInfo : list byte :=
  byte.of_Z <$> [78; 69; 84; 67; 79; 68; 69; 32; 49; 46; 48; 50; 0].

Definition numDisconnectPackets : Z := 10.

(** ** Packet types *)
Definition connectionRequestPacket : Z := 0.
Definition connectionDeniedPacket : Z := 1.
Definition connectionChallengePacket : Z := 2.
Definition connectionResponsePacket : Z := 3.
Definition connectionKeepAlivePacket : Z := 4.
Definition connectionPayloadPacket : Z := 5.
Definition connectionDisconnectPacket : Z := 6.
Definition connectionNumPackets : Z := 7.

(** ** Client states *)
Definition ClientStateConnectTokenExpired : Z := -6.
Definition ClientStateInvalidConnectToken : Z := -5.
Definition ClientStateConnectionTimedOut : Z := -4.
Definition ClientStateConnectionResponseTimedOut : Z := -3.
Definition ClientStateConnectionRequestTimedOut : Z := -2.
Definition ClientStateConnectionDenied : Z := -1.
Definition ClientStateDisconnected : Z := 0.
Definition ClientStateSendingConnectionRequest : Z := 1.
Definition ClientStateSendingConnectionResponse : Z := 2.
Definition ClientStateConnected : Z := 3.

Definition ClientStateName (clientState : Z) : string :=
  if clientState =? ClientStateConnectTokenExpired then "connect token expired"
  else if clientState =? ClientStateInvalidConnectToken then "invalid connect token"
  else if clientState =? ClientStateConnectionTimedOut then "connection timed out"
  else if clientState =? ClientStateConnectionRequestTimedOut then "connection request timed out"
  else if clientState =? ClientStateConnectionResponseTimedOut then "connection response timed out"
  else if clientState =? ClientStateConnectionDenied then "connection denied"
  else if clientState =? ClientStateDisconnected then "disconnected"
  else if clientState =? ClientStateSendingConnectionRequest then "sending connection request"
  else if clientState =? ClientStateSendingConnectionResponse then "sending connection response"
  else if clientState =? ClientStateConnected then "connected"
  else "???".

(** ** Disconnect reasons *)
Definition DisconnectReasonNone : Z := 0.
Definition DisconnectReasonTimedOut : Z := 1.
Definition DisconnectReasonClientDisconnect : Z := 2.
Definition DisconnectReasonServerDisconnect : Z := 3.

(** ** Arithmetic with the constants *)
Ltac unfold_constants :=
  unfold ConnectTokenBytes, KeyBytes, MacBytes, UserDataBytes, MaxServersPerConnect,
    MaxPacketSize, connectTokenNonceBytes, connectTokenPrivateBytes, challengeTokenBytes,
    versionInfoBytes, maxPacketBytes, maxPayloadBytes, maxAddressStringLength,
    packetQueueSize, replayProtectionBufferSize,
    maxConnectTokenEntries, maxEncryptionMappings, MaxClients,
    connectionRequestPacket, connectionDeniedPacket, connectionChallengePacket,
    connectionResponsePacket, connectionKeepAlivePacket, connectionPayloadPacket,
    connectionDisconnectPacket, connectionNumPackets, numDisconnectPackets,
    ClientStateConnectTokenExpired, ClientStateInvalidConnectToken,
    ClientStateConnectionTimedOut, ClientStateConnectionResponseTimedOut,
    ClientStateConnectionRequestTimedOut, ClientStateConnectionDenied,
    ClientStateDisconnected, ClientStateSendingConnectionRequest,
    ClientStateSendingConnectionResponse, ClientStateConnected,
    DisconnectReasonNone, DisconnectReasonTimedOut, DisconnectReasonClientDisconnect,
    DisconnectReasonServerDisconnect in *.
Ltac clia := unfold_constants; lia.

Lemma length_versionInfo : length versionInfo = versionInfoBytes.
Proof. reflexivity. Qed.
#[export] Hint Rewrite length_versionInfo : golen.
