(* ===== verification/Float64.v ===== *)
(** IEEE 754 binary64 and binary32, as Go's float64 and float32: the executable
    specification floats of the standard library at precision 53 (exponent
    bound 1024) and 24 (exponent bound 128), round to nearest even. Every
    comparison with a NaN is false. *)

From Stdlib Require Export SpecFloat.
From S2P Require Import Prelude.

Abbreviation float64 := spec_float.
Abbreviation float32 := spec_float.

Definition f64_add : float64 → float64 → float64 := SFadd 53 1024.
Definition f64_sub : float64 → float64 → float64 := SFsub 53 1024.
Definition f64_ltb : float64 → float64 → bool := SFltb.
Definition f64_leb : float64 → float64 → bool := SFleb.
(** float64(z) for an integer: correctly rounded. *)
Definition f64_of_Z (z : Z) : float64 := binary_normalize 53 1024 z 0 false.

(** float32 arithmetic, each operation rounded, and the exact conversion to
    float64. *)
Definition f32_add : float32 → float32 → float32 := SFadd 24 128.
Definition f32_sub : float32 → float32 → float32 := SFsub 24 128.
Definition f32_mul : float32 → float32 → float32 := SFmul 24 128.
Definition f32_div : float32 → float32 → float32 := SFdiv 24 128.
Definition f32_of_Z (z : Z) : float32 := binary_normalize 24 128 z 0 false.
Definition f64_of_f32 (x : float32) : float64 :=
  match x with
  | S754_finite s m e => binary_normalize 53 1024 (if s then Zneg m else Zpos m) e s
  | _ => x
  end.

(** The constants the sources use: 0.0, 1.0, -1.0, -1000.0 and 1.0/packetSendRate. *)
Definition f64_0 : float64 := f64_of_Z 0.
Definition f64_1 : float64 := f64_of_Z 1.
Definition f64_m1 : float64 := f64_of_Z (-1).
Definition f64_m1000 : float64 := f64_of_Z (-1000).
Definition packetSendRate : float64 := f64_of_Z 10.
Definition sendInterval : float64 := SFdiv 53 1024 f64_1 packetSendRate.

Lemma SFcompare_refl x c : SFcompare x x = Some c → c = Eq.
Proof.
  destruct x as [b|b| |b m e]; simpl; [congruence|destruct b; congruence|done|].
  rewrite Z.compare_refl, Pos.compare_cont_refl. destruct b; simpl; congruence.
Qed.
(** No float is less than itself. *)
Lemma f64_ltb_irrefl x : f64_ltb x x = false.
Proof.
  unfold f64_ltb, SFltb. destruct (SFcompare x x) as [c|] eqn:H; [|done].
  by rewrite (SFcompare_refl _ _ H).
Qed.
