(* ===== verification/Buffer.v ===== *)
(** buffer.go: the little endian cursor over a fixed size buffer. A [writer]
    and a [reader] are the Go structs; their methods are computations that
    panic past the end of the buffer. *)

From S2P Require Import Prelude Constants.

Record writer := mkWriter { w_buffer : list byte; w_pos : nat }.
Record reader := mkReader { r_buffer : list byte; r_pos : nat }.
#[export] Instance eta_writer : Eta writer := λ w, mkWriter (w_buffer w) (w_pos w).
#[export] Instance eta_reader : Eta reader := λ r, mkReader (r_buffer r) (r_pos r).

Module Writer.
(** w.buffer[w.pos] = value; w.pos++ *)
Definition uint8 (value : Z) : M writer unit := λ w,
  if decide (w_pos w < length (w_buffer w))%nat
  then Some (tt, mkWriter (<[w_pos w := byte.of_Z value]> (w_buffer w)) (w_pos w + 1))
  else None.

(** binary.LittleEndian.PutUintN(w.buffer[w.pos:], value); w.pos += n. The
    slice expression panics when pos is past the end of the buffer, PutUintN
    when fewer than n bytes are left. *)
Definition put_le (n : nat) (value : Z) : M writer unit := λ w,
  if decide (w_pos w + n ≤ length (w_buffer w))%nat
  then Some (tt, mkWriter (splice (w_buffer w) (w_pos w) (le_split n value)) (w_pos w + n))
  else None.
Definition uint16 (value : Z) : M writer unit := put_le 2 value.
Definition uint32 (value : Z) : M writer unit := put_le 4 value.
Definition uint64 (value : Z) : M writer unit := put_le 8 value.

(** copy(w.buffer[w.pos:], data); w.pos += len(data). [copy] copies what
    fits; only the slice expression panics. *)
Definition bytes (data : list byte) : M writer unit := λ w,
  if decide (w_pos w ≤ length (w_buffer w))%nat
  then Some (tt, mkWriter
               (splice (w_buffer w) (w_pos w) (take (length (w_buffer w) - w_pos w) data))
               (w_pos w + length data))
  else None.
End Writer.

Module Reader.
Definition uint8 : M reader Z := λ r,
  match r_buffer r !! r_pos r with
  | Some b => Some (byte.unsigned b, mkReader (r_buffer r) (r_pos r + 1))
  | None => None
  end.
Definition get_le (n : nat) : M reader Z := λ r,
  if decide (r_pos r + n ≤ length (r_buffer r))%nat
  then Some (le_combine (slice (r_buffer r) (r_pos r) n), mkReader (r_buffer r) (r_pos r + n))
  else None.
Definition uint16 : M reader Z := get_le 2.
Definition uint32 : M reader Z := get_le 4.
Definition uint64 : M reader Z := get_le 8.
(** copy(data, r.buffer[r.pos:r.pos+len(data)]) for a data of length [n]. *)
Definition bytes (n : nat) : M reader (list byte) := λ r,
  if decide (r_pos r + n ≤ length (r_buffer r))%nat
  then Some (slice (r_buffer r) (r_pos r) n, mkReader (r_buffer r) (r_pos r + n))
  else None.
End Reader.

(** ** Specification

    [writes f bs]: wherever [bs] fits, [f] overwrites the buffer with [bs] at
    the cursor and advances the cursor past it. [reads f bs a]: wherever the
    remaining input starts with [bs], [f] consumes exactly [bs] and returns
    [a]. Both compose along sequencing, which is how every encoder and decoder
    of tokens and packets is verified. *)
Definition writes (f : M writer unit) (bs : list byte) : Prop :=
  ∀ buf pos, (pos + length bs ≤ length buf)%nat →
    f (mkWriter buf pos) = Some (tt, mkWriter (splice buf pos bs) (pos + length bs)).
Definition reads {A : Type} (f : M reader A) (bs : list byte) (a : A) : Prop :=
  ∀ buf pos rest, (pos ≤ length buf)%nat → drop pos buf = bs ++ rest →
    f (mkReader buf pos) = Some (a, mkReader buf (pos + length bs)).
(** [reads_within f n Q]: with [n] bytes left, [f] does not panic, leaves the
    buffer alone, consumes at most [n] bytes and returns a value that satisfies
    [Q]. *)
Definition reads_within {A : Type} (f : M reader A) (n : nat) (Q : A → Prop) : Prop :=
  ∀ buf pos, (pos + n ≤ length buf)%nat →
    ∃ a pos', f (mkReader buf pos) = Some (a, mkReader buf pos') ∧ (pos ≤ pos' ≤ pos + n)%nat ∧ Q a.

Lemma writes_nil : writes (mret tt) [].
Proof.
  intros buf pos H. unfold splice. simpl in *. rewrite Nat.add_0_r, take_drop. done.
Qed.
Lemma writes_bind f g bs cs : writes f bs → writes g cs → writes (f;; g) (bs ++ cs).
Proof.
  intros Hf Hg buf pos Hle. rewrite length_app in *.
  unfold mbind, M_bind. rewrite Hf by lia. simpl.
  rewrite Hg by (rewrite length_splice; lia).
  rewrite splice_splice by lia. by rewrite Nat.add_assoc.
Qed.
Lemma writes_for {I : Type} (f : I → M writer unit) (enc : I → list byte) l :
  (∀ i, i ∈ l → writes (f i) (enc i)) → writes (for_ l f) (l ≫= enc).
Proof.
  induction l as [|i l IH]; intros H; [apply writes_nil|].
  cbn. apply writes_bind; [apply H; left|]. apply IH. intros j Hj. apply H. by right.
Qed.

Lemma reads_ret {A} (a : A) : reads (mret a) [] a.
Proof. intros buf pos rest _ _. simpl. rewrite Nat.add_0_r. done. Qed.
Lemma reads_bind {A B} (f : M reader A) (k : A → M reader B) bs cs a b :
  reads f bs a → reads (k a) cs b → reads (f ≫= k) (bs ++ cs) b.
Proof.
  intros Hf Hk buf pos rest Hp Hd. rewrite <-app_assoc in Hd.
  unfold mbind, M_bind. rewrite (Hf _ _ _ Hp Hd). simpl.
  rewrite (Hk _ _ rest); [|by eapply fits_at|by apply drop_at with (bs := bs)].
  by rewrite length_app, Nat.add_assoc.
Qed.
(** The final computation consumes nothing: the decoder ends with a test or a
    record construction. *)
Lemma reads_bind_ret {A B} (f : M reader A) (k : A → M reader B) bs a b :
  reads f bs a → reads (k a) [] b → reads (f ≫= k) bs b.
Proof. intros. rewrite <-(app_nil_r bs). by eapply reads_bind. Qed.

Lemma reads_within_mono {A} (f : M reader A) m n (Q R : A → Prop) :
  reads_within f m Q → (m ≤ n)%nat → (∀ a, Q a → R a) → reads_within f n R.
Proof.
  intros H ?? buf pos ?. destruct (H buf pos) as (a & p & ? & ? & ?); [lia|].
  exists a, p. split_and!; [done|lia..|by auto].
Qed.
Lemma reads_within_ret {A} (a : A) n (Q : A → Prop) : Q a → reads_within (mret a) n Q.
Proof. intros ? buf pos ?. exists a, pos. split_and!; [done|lia..|done]. Qed.
Lemma reads_within_bind {A B} (f : M reader A) (k : A → M reader B) m n Q R :
  reads_within f m Q → (∀ a, Q a → reads_within (k a) (n - m) R) → (m ≤ n)%nat →
  reads_within (f ≫= k) n R.
Proof.
  intros Hf Hk Hmn buf pos Hle. destruct (Hf buf pos) as (a & p & Hr & ? & HQ); [lia|].
  unfold mbind, M_bind. rewrite Hr. simpl.
  destruct (Hk a HQ buf p) as (b & p' & -> & ? & ?); [lia|].
  exists b, p'. split_and!; [done|lia..|done].
Qed.

(** *** The cursor operations meet their specifications *)
Lemma writes_uint8 v : writes (Writer.uint8 v) [byte.of_Z v].
Proof.
  intros buf pos Hle. unfold Writer.uint8. simpl in *.
  rewrite decide_True by lia. do 3 f_equal.
  unfold splice. rewrite insert_take_drop by lia. simpl.
  by rewrite Nat.add_1_r.
Qed.
Lemma writes_put_le n v : writes (Writer.put_le n v) (le_split n v).
Proof.
  intros buf pos Hle. unfold Writer.put_le. simpl. rewrite length_le_split in *.
  by rewrite decide_True by lia.
Qed.
Lemma writes_uint16 v : writes (Writer.uint16 v) (le_split 2 v).
Proof. apply writes_put_le. Qed.
Lemma writes_uint32 v : writes (Writer.uint32 v) (le_split 4 v).
Proof. apply writes_put_le. Qed.
Lemma writes_uint64 v : writes (Writer.uint64 v) (le_split 8 v).
Proof. apply writes_put_le. Qed.
Lemma writes_bytes bs : writes (Writer.bytes bs) bs.
Proof.
  intros buf pos Hle. unfold Writer.bytes. simpl.
  rewrite decide_True, take_ge by lia. done.
Qed.

Lemma reads_uint8 v : is_u8 v → reads Reader.uint8 [byte.of_Z v] v.
Proof.
  intros Hv buf pos rest Hp Hd. unfold Reader.uint8. simpl.
  assert (buf !! pos = Some (byte.of_Z v)) as ->.
  { rewrite <-(Nat.add_0_r pos), <-lookup_drop, Hd. done. }
  by rewrite byte_of_Z_u8.
Qed.
Lemma reads_get_le n v :
  le_combine (le_split n v) = v → reads (Reader.get_le n) (le_split n v) v.
Proof.
  intros Hv buf pos rest Hp Hd. unfold Reader.get_le. simpl.
  pose proof (fits_at _ _ _ _ Hp Hd). pose proof (slice_at _ _ _ _ Hd) as Hs.
  rewrite length_le_split in *. rewrite decide_True by lia. by rewrite Hs, Hv.
Qed.
Lemma reads_uint16 v : is_u16 v → reads Reader.uint16 (le_split 2 v) v.
Proof. intros. by apply reads_get_le, le_split_u16. Qed.
Lemma reads_uint32 v : is_u32 v → reads Reader.uint32 (le_split 4 v) v.
Proof. intros. by apply reads_get_le, le_split_u32. Qed.
Lemma reads_uint64 v : is_u64 v → reads Reader.uint64 (le_split 8 v) v.
Proof. intros. by apply reads_get_le, le_split_u64. Qed.
Lemma reads_bytes n bs : length bs = n → reads (Reader.bytes n) bs bs.
Proof.
  intros <- buf pos rest Hp Hd. unfold Reader.bytes. simpl.
  pose proof (fits_at _ _ _ _ Hp Hd). rewrite decide_True by lia.
  by rewrite (slice_at _ _ _ _ Hd).
Qed.

Lemma reads_within_uint8 : reads_within Reader.uint8 1 is_u8.
Proof.
  intros buf pos Hle. unfold Reader.uint8. simpl.
  destruct (lookup_lt_is_Some_2 buf pos) as [b ->]; [lia|].
  eexists _, _. split_and!; [done|lia..|apply byte_unsigned_range].
Qed.
Lemma reads_within_get_le n (Q : Z → Prop) :
  (∀ bs, length bs = n → Q (le_combine bs)) → reads_within (Reader.get_le n) n Q.
Proof.
  intros HQ buf pos Hle. unfold Reader.get_le. simpl. rewrite decide_True by lia.
  eexists _, _. split_and!; [done|lia..|]. by apply HQ, length_slice.
Qed.
Lemma reads_within_uint16 : reads_within Reader.uint16 2 is_u16.
Proof. apply reads_within_get_le, le_combine_u16. Qed.
Lemma reads_within_uint32 : reads_within Reader.uint32 4 is_u32.
Proof. apply reads_within_get_le, le_combine_u32. Qed.
Lemma reads_within_uint64 : reads_within Reader.uint64 8 is_u64.
Proof. apply reads_within_get_le, le_combine_u64. Qed.
Lemma reads_within_bytes n : reads_within (Reader.bytes n) n (λ bs, length bs = n).
Proof.
  intros buf pos Hle. unfold Reader.bytes. simpl. rewrite decide_True by lia.
  eexists _, _. split_and!; [done|lia..|]. by apply length_slice.
Qed.

(** The value [get_le] finds in any input. *)
Lemma reads_le_combine n bs : length bs = n → reads (Reader.get_le n) bs (le_combine bs).
Proof.
  intros <-. rewrite <-(split_le_combine bs) at 2. apply reads_get_le.
  by rewrite split_le_combine.
Qed.

(** [reads] and [reads_within] as weakest precondition rules. *)
Lemma wp_reads {A : Type} (f : M reader A) bs a Q buf pos rest :
  reads f bs a → (pos ≤ length buf)%nat → drop pos buf = bs ++ rest →
  Q a (mkReader buf (pos + length bs)) → wp f Q (mkReader buf pos).
Proof. intros Hf Hp Hd HQ. by apply (wp_run _ _ _ _ _ (Hf _ _ _ Hp Hd)). Qed.
Lemma wp_reads_within {A : Type} (f : M reader A) n P Q buf pos :
  reads_within f n P → (pos + n ≤ length buf)%nat →
  (∀ a pos', (pos ≤ pos' ≤ pos + n)%nat → P a → Q a (mkReader buf pos')) →
  wp f Q (mkReader buf pos).
Proof.
  intros Hf Hle HQ. destruct (Hf _ _ Hle) as (a & pos' & Hr & Hp & Ha).
  apply (wp_run _ _ _ _ _ Hr). by apply HQ.
Qed.

(** Reads of a known number of bytes of an arbitrary input. *)
Lemma wp_get_le n Q buf pos :
  (pos + n ≤ length buf)%nat → Q (le_combine (slice buf pos n)) (mkReader buf (pos + n)) →
  wp (Reader.get_le n) Q (mkReader buf pos).
Proof. intros. unfold wp, Reader.get_le. simpl. by rewrite decide_True. Qed.
Lemma wp_bytes n Q buf pos :
  (pos + n ≤ length buf)%nat → Q (slice buf pos n) (mkReader buf (pos + n)) →
  wp (Reader.bytes n) Q (mkReader buf pos).
Proof. intros. unfold wp, Reader.bytes. simpl. by rewrite decide_True. Qed.

(** A loop over the first elements of an array that writes each of them. *)
Lemma writes_for_array {A : Type} (f : A → M writer unit) (enc : A → list byte) (l : list A) n :
  (n ≤ length l)%nat → (∀ x, x ∈ take n l → writes (f x) (enc x)) →
  writes (for_ (seqZ 0 (Z.of_nat n)) (λ i, x ← lift (aget l i); f x)) (take n l ≫= enc).
Proof.
  intros Hn H.
  assert (∀ pre xs post, (∀ x, x ∈ xs → writes (f x) (enc x)) →
    writes (for_ (seqZ (Z.of_nat (length pre)) (Z.of_nat (length xs)))
              (λ i, x ← lift (aget (pre ++ xs ++ post) i); f x)) (xs ≫= enc)) as Hgen.
  { intros pre xs post. revert pre. induction xs as [|x xs IH]; intros pre Hx.
    - apply writes_nil.
    - cbn [length]. rewrite seqZ_S. cbn [for_]. apply writes_bind.
      + intros buf pos Hle. unfold lift, mbind, M_bind. simpl. rewrite aget_middle. simpl.
        apply Hx; [left|done].
      + specialize (IH (pre ++ [x])). rewrite length_app, <-app_assoc in IH. simpl in IH.
        replace (Z.of_nat (length pre) + 1) with (Z.of_nat (length pre + 1)) by lia.
        apply IH. intros y Hy. apply Hx. by right. }
  specialize (Hgen [] (take n l) (drop n l) H). rewrite length_take, Nat.min_l in Hgen by done.
  simpl in Hgen. by rewrite take_drop in Hgen.
Qed.

Create HintDb codec.
#[export] Hint Resolve writes_uint8 writes_uint16 writes_uint32 writes_uint64 writes_bytes
  writes_nil writes_bind : codec.
#[export] Hint Resolve reads_uint8 reads_uint16 reads_uint32 reads_uint64 reads_bytes
  reads_ret : codec.
#[export] Hint Resolve reads_within_uint8 reads_within_uint16 reads_within_uint32
  reads_within_uint64 reads_within_bytes : codec.

(** One step of a decoder: run its first read and name the value. *)
Ltac read_step x Hx :=
  eapply reads_within_bind; [by eauto with codec | cbv beta; intros x Hx | unfold_constants; lia].
