(* ===== verification/Replay.v ===== *)
(** replay.go: the sliding window that rejects replayed sequence numbers, its
    abstract specification (the set of sequence numbers accepted so far and
    the largest of them), and the refinement between the two. *)

From stdpp Require Import gmap.
From S2P Require Import Prelude Constants.

(** ** The component *)
Record replayProtection := mkReplay {
  mostRecentSequence : Z;
  receivedPacket : list Z;
}.
#[export] Instance eta_replay : Eta replayProtection :=
  λ r, mkReplay (mostRecentSequence r) (receivedPacket r).

(** 0xFFFFFFFFFFFFFFFF marks an empty entry. *)
Definition emptySequence : Z := 2 ^ 64 - 1.

Module Replay.
Definition reset : replayProtection :=
  mkReplay 0 (replicate (Z.to_nat replayProtectionBufferSize) emptySequence).

Definition alreadyReceived (r : replayProtection) (sequence : Z) : option bool :=
  if (mostRecentSequence r >=? replayProtectionBufferSize) &&
     (sequence <=? u64 (mostRecentSequence r - replayProtectionBufferSize))
  then Some true
  else
    let index := sequence mod replayProtectionBufferSize in
    received ← aget (receivedPacket r) index;
    if received =? emptySequence then Some false
    else Some (received >=? sequence).

Definition advanceSequence (sequence : Z) (r : replayProtection) : option replayProtection :=
  let r := if sequence >? mostRecentSequence r
           then r <| mostRecentSequence := sequence |> else r in
  l ← aset (receivedPacket r) (sequence mod replayProtectionBufferSize) sequence;
  Some (r <| receivedPacket := l |>).

(** What readPacket does with one authenticated packet: test, then advance. *)
Definition accept (r : replayProtection) (sequence : Z) : option (bool * replayProtection) :=
  already ← alreadyReceived r sequence;
  if (already : bool) then Some (false, r)
  else (r' ← advanceSequence sequence r; Some (true, r')).

(** The verdicts on a stream of packets. *)
Fixpoint verdicts (r : replayProtection) (stream : list Z) : option (list bool) :=
  match stream with
  | [] => Some []
  | s :: stream =>
      '(b, r') ← accept r s; bs ← verdicts r' stream; Some (b :: bs)
  end.
End Replay.

(** ** Abstract specification *)
Record absReplay := mkAbs { a_recent : Z; a_received : gset Z }.

Module AbsReplay.
Definition init : absReplay := mkAbs 0 ∅.
(** A sequence number is acceptable when it was not accepted before and is
    less than one window older than the most recent one. *)
Definition fresh (a : absReplay) (s : Z) : Prop :=
  (s ∉ a_received a) ∧ a_recent a - replayProtectionBufferSize < s.
#[global] Instance fresh_dec a s : Decision (fresh a s).
Proof. unfold fresh. apply _. Defined.
Definition accept (a : absReplay) (s : Z) : bool * absReplay :=
  if decide (fresh a s) then (true, mkAbs (Z.max (a_recent a) s) ({[s]} ∪ a_received a))
  else (false, a).
Fixpoint verdicts (a : absReplay) (stream : list Z) : list bool :=
  match stream with
  | [] => []
  | s :: stream => let '(b, a') := accept a s in b :: verdicts a' stream
  end.
End AbsReplay.

(** Sequence numbers the window can tell from its empty marker. *)
Definition windowed (s : Z) : Prop := 0 ≤ s < emptySequence.

(** ** Simulation *)
Record replay_repr (r : replayProtection) (a : absReplay) : Prop := {
  rr_length : length (receivedPacket r) = Z.to_nat replayProtectionBufferSize;
  rr_recent : mostRecentSequence r = a_recent a;
  rr_recent_range : 0 ≤ a_recent a < emptySequence;
  rr_received s : s ∈ a_received a → 0 ≤ s ≤ a_recent a;
  rr_slot i : 0 ≤ i < replayProtectionBufferSize →
    ∃ v, aget (receivedPacket r) i = Some v ∧
      (∀ s, s ∈ a_received a → s mod replayProtectionBufferSize = i → v ≠ emptySequence ∧ s ≤ v) ∧
      (v ≠ emptySequence → v ∈ a_received a ∧ v mod replayProtectionBufferSize = i);
}.

Lemma replay_repr_init : replay_repr Replay.reset AbsReplay.init.
Proof.
  split; simpl; try done.
  - intros i Hi. exists emptySequence. split; [|split; [set_solver|done]].
    apply aget_replicate. clia.
Qed.

(** Two sequence numbers in the same entry are a whole window apart. *)
Lemma same_slot_gap s v :
  s mod replayProtectionBufferSize = v mod replayProtectionBufferSize → s < v →
  s ≤ v - replayProtectionBufferSize.
Proof.
  unfold_constants. intros Hm Hlt.
  pose proof (Z.div_mod s 256). pose proof (Z.div_mod v 256). lia.
Qed.

Lemma alreadyReceived_spec r a s :
  replay_repr r a → windowed s →
  Replay.alreadyReceived r s = Some (bool_decide (¬ AbsReplay.fresh a s)).
Proof.
  intros HR Hs. destruct HR as [Hlen Hrec Hrange Hin Hslot].
  unfold Replay.alreadyReceived, AbsReplay.fresh. rewrite Hrec.
  assert (0 ≤ s mod replayProtectionBufferSize < replayProtectionBufferSize) as Hm
    by (apply Z.mod_pos_bound; clia).
  destruct (Hslot _ Hm) as (v & Hv & Hmax & Hmem). rewrite Hv. simpl.
  destruct (decide (s ≤ a_recent a - replayProtectionBufferSize)) as [Hold|Hnew].
  - rewrite (bool_decide_eq_true_2 (¬ _)) by lia.
    unfold windowed in Hs. rewrite u64_id by (unfold is_u64, emptySequence in *; clia).
    destruct (Z.geb_spec (a_recent a) replayProtectionBufferSize); [|clia].
    by destruct (Z.leb_spec s (a_recent a - replayProtectionBufferSize)); [|lia].
  - assert ((a_recent a >=? replayProtectionBufferSize) &&
      (s <=? u64 (a_recent a - replayProtectionBufferSize)) = false) as ->.
    { destruct (Z.geb_spec (a_recent a) replayProtectionBufferSize); [|done]. simpl.
      rewrite u64_id by (unfold is_u64, emptySequence in *; clia). apply Z.leb_gt. lia. }
    destruct (Z.eqb_spec v emptySequence) as [->|Hne].
    + rewrite bool_decide_eq_false_2; [done|]. intros Hf. apply Hf.
      split; [|lia]. intros Hs'. by destruct (Hmax _ Hs' eq_refl).
    + destruct (Hmem Hne) as [Hvin Hvm]. f_equal.
      destruct (Z.geb_spec v s) as [Hge|Hlt].
      * symmetry. apply bool_decide_eq_true_2. intros [Hns _].
        assert (v ≠ s) by congruence.
        pose proof (same_slot_gap s v (eq_sym Hvm) ltac:(lia)).
        pose proof (Hin _ Hvin). lia.
      * symmetry. apply bool_decide_eq_false_2. intros Hf. apply Hf.
        split; [|lia]. intros Hs'. destruct (Hmax _ Hs' eq_refl). lia.
Qed.

Lemma advanceSequence_spec r a s :
  replay_repr r a → windowed s → AbsReplay.fresh a s →
  ∃ r', Replay.advanceSequence s r = Some r' ∧
    replay_repr r' (mkAbs (Z.max (a_recent a) s) ({[s]} ∪ a_received a)).
Proof.
  intros HR Hs [Hnin Hwin]. destruct HR as [Hlen Hrec Hrange Hin Hslot].
  unfold windowed in Hs. unfold Replay.advanceSequence.
  set (r1 := if s >? mostRecentSequence r then _ else _).
  assert (receivedPacket r1 = receivedPacket r) as Hrp by (unfold r1; by case_match).
  assert (mostRecentSequence r1 = Z.max (a_recent a) s) as Hmr.
  { unfold r1. destruct (Z.gtb_spec s (mostRecentSequence r)); simpl; lia. }
  assert (0 ≤ s mod replayProtectionBufferSize < replayProtectionBufferSize) as Hm
    by (apply Z.mod_pos_bound; clia).
  rewrite Hrp, aset_Some by (rewrite Hlen; clia). simpl.
  eexists. split; [done|]. split; simpl.
  - by rewrite length_ainsert.
  - done.
  - lia.
  - intros t. rewrite elem_of_union, elem_of_singleton. intros [->|Ht]; [lia|].
    specialize (Hin _ Ht). lia.
  - intros i Hi. destruct (Hslot i Hi) as (v & Hv & Hmax & Hmem).
    rewrite aget_ainsert by (rewrite Hlen; clia). case_decide as Hi'.
    + subst i. exists s. split_and!; [done| |intros _; split; [apply elem_of_union_l, elem_of_singleton_2|]; done].
      intros t. rewrite elem_of_union, elem_of_singleton. intros [->|Ht] Htm; [lia|].
      split; [lia|]. destruct (Hmax _ Ht Htm) as [Hne Hle].
      destruct (Hmem Hne) as [Hvin Hvm].
      destruct (decide (s < v)) as [Hsv|]; [|lia].
      pose proof (same_slot_gap s v (eq_sym Hvm) Hsv). pose proof (Hin _ Hvin). lia.
    + exists v. split_and!; [done| |].
      * intros t. rewrite elem_of_union, elem_of_singleton. intros [->|Ht] Htm; [done|]. eauto.
      * intros Hne. destruct (Hmem Hne). split; [by apply elem_of_union_r|done].
Qed.

Lemma accept_refines r a s :
  replay_repr r a → windowed s →
  ∃ r', Replay.accept r s = Some ((AbsReplay.accept a s).1, r') ∧
    replay_repr r' (AbsReplay.accept a s).2.
Proof.
  intros HR Hs. unfold Replay.accept, AbsReplay.accept.
  rewrite (alreadyReceived_spec _ _ _ HR Hs). simpl.
  destruct (decide (AbsReplay.fresh a s)) as [Hf|Hf].
  - rewrite bool_decide_eq_false_2 by tauto.
    destruct (advanceSequence_spec _ _ _ HR Hs Hf) as (r' & -> & HR'). by exists r'.
  - rewrite bool_decide_eq_true_2 by done. by exists r.
Qed.

(** ** The window never panics *)
Definition replay_wf (r : replayProtection) : Prop :=
  length (receivedPacket r) = Z.to_nat replayProtectionBufferSize.
Lemma replay_wf_reset : replay_wf Replay.reset.
Proof. apply length_replicate. Qed.
Lemma window_index s : 0 ≤ s mod replayProtectionBufferSize < replayProtectionBufferSize.
Proof. apply Z.mod_pos_bound. clia. Qed.
Lemma alreadyReceived_total r s : replay_wf r → ∃ b, Replay.alreadyReceived r s = Some b.
Proof.
  intros Hwf. unfold Replay.alreadyReceived. case_match; [by eexists|].
  pose proof (window_index s).
  destruct (aget_Some (receivedPacket r) (s mod replayProtectionBufferSize)) as [v ->].
  { rewrite Hwf. clia. }
  simpl. case_match; by eexists.
Qed.
Lemma advanceSequence_total r s :
  replay_wf r → ∃ r', Replay.advanceSequence s r = Some r' ∧ replay_wf r'.
Proof.
  intros Hwf. unfold Replay.advanceSequence. pose proof (window_index s).
  set (r1 := if s >? mostRecentSequence r then _ else _).
  assert (receivedPacket r1 = receivedPacket r) as Hrp by (unfold r1; by case_match).
  rewrite Hrp, aset_Some by (rewrite Hwf; clia). simpl.
  eexists. split; [done|]. unfold replay_wf. simpl. by rewrite length_ainsert.
Qed.
#[export] Hint Resolve replay_wf_reset : go.
(** A sequence number the window has just taken in is one it has received. *)
Lemma advance_received r s r' :
  replay_wf r → windowed s → Replay.advanceSequence s r = Some r' →
  Replay.alreadyReceived r' s = Some true.
Proof.
  intros Hwf [Hs1 Hs2]. unfold Replay.advanceSequence. pose proof (window_index s).
  set (r1 := if s >? mostRecentSequence r then _ else _).
  assert (receivedPacket r1 = receivedPacket r) as Hrp by (unfold r1; by case_match).
  rewrite Hrp, aset_Some by (rewrite Hwf; clia). intros [= <-].
  unfold Replay.alreadyReceived. case_match; [done|]. simpl.
  rewrite aget_ainsert_eq by (rewrite Hwf; clia). cbn [mbind option_bind].
  destruct (Z.eqb_spec s emptySequence); [lia|]. by rewrite Z.geb_leb, Z.leb_refl.
Qed.

(** ** Streams *)
Lemma verdicts_refine r a stream :
  replay_repr r a → Forall windowed stream →
  Replay.verdicts r stream = Some (AbsReplay.verdicts a stream).
Proof.
  intros HR Hall. revert r a HR. induction Hall as [|s stream Hs _ IH]; intros r a HR; [done|].
  simpl. destruct (accept_refines _ _ _ HR Hs) as (r' & -> & HR').
  destruct (AbsReplay.accept a s) as [b a']. simpl in *. by rewrite (IH _ _ HR').
Qed.

(** The sequence numbers of a stream that got the verdict [true]. *)
Fixpoint accepted (stream : list Z) (bs : list bool) : list Z :=
  match stream, bs with
  | s :: stream, b :: bs => if (b : bool) then s :: accepted stream bs else accepted stream bs
  | _, _ => []
  end.

Lemma abs_accepted_NoDup a stream :
  NoDup (accepted stream (AbsReplay.verdicts a stream)) ∧
  (∀ s, s ∈ accepted stream (AbsReplay.verdicts a stream) → s ∉ a_received a).
Proof.
  revert a. induction stream as [|s stream IH]; intros a; simpl; [by split; [constructor|set_solver]|].
  unfold AbsReplay.accept. case_decide as Hf; simpl; [|apply IH].
  destruct Hf as [Hnin _].
  destruct (IH (mkAbs (Z.max (a_recent a) s) ({[s]} ∪ a_received a))) as [Hnd Hdis]. simpl in *.
  split; [constructor; set_solver | set_solver].
Qed.

(** C13. Refinement: on every stream of authenticated sequence numbers below
    2^64 - 1, the 256 entry window starting from [reset] never panics and gives
    exactly the verdicts of the abstract specification: a packet is accepted
    iff its sequence number was not accepted before and is less than one window
    older than the most recent accepted one, at every point of the sequence
    space (no overflow near its top). *)
Theorem replay_refines_window (stream : list Z) (Hs : Forall windowed stream) :
  Replay.verdicts Replay.reset stream = Some (AbsReplay.verdicts AbsReplay.init stream).
Proof. by apply verdicts_refine; [apply replay_repr_init|]. Qed.

Lemma replay_refines_window_witness :
  Replay.verdicts Replay.reset [5; 5; 300; 44; 45; 300; 2 ^ 64 - 2; 2 ^ 64 - 2; 2 ^ 64 - 258; 2 ^ 64 - 257] =
  Some (AbsReplay.verdicts AbsReplay.init
          [5; 5; 300; 44; 45; 300; 2 ^ 64 - 2; 2 ^ 64 - 2; 2 ^ 64 - 258; 2 ^ 64 - 257]) ∧
  Replay.verdicts Replay.reset [5; 5; 300; 44; 45; 300; 2 ^ 64 - 2; 2 ^ 64 - 2; 2 ^ 64 - 258; 2 ^ 64 - 257] =
  Some [true; false; true; false; true; false; true; false; false; true].
Proof.
  split; [|vm_compute; reflexivity].
  apply (replay_refines_window _). repeat constructor; unfold emptySequence; lia.
Defined.

(** Safety: no sequence number below 2^64 - 1 is accepted twice, whatever
    stream of (authenticated) sequence numbers arrives. *)
Theorem replay_accepts_once (stream : list Z) (bs : list bool)
  (Hs : Forall windowed stream) (Hv : Replay.verdicts Replay.reset stream = Some bs) :
  NoDup (accepted stream bs).
Proof.
  rewrite (verdicts_refine _ _ _ replay_repr_init Hs) in Hv. injection Hv as <-.
  apply abs_accepted_NoDup.
Qed.

Lemma replay_accepts_once_witness : NoDup (accepted [7; 7; 263; 7; 8] [true; false; true; false; true]).
Proof.
  apply (replay_accepts_once [7; 7; 263; 7; 8]); [|vm_compute; reflexivity].
  repeat constructor; unfold emptySequence; lia.
Defined.

(** ** The top of the sequence space *)

(** All numbers of the window have 64 bits. *)
Definition window_u64 (r : replayProtection) : Prop :=
  replay_wf r ∧ is_u64 (mostRecentSequence r) ∧ Forall is_u64 (receivedPacket r).
Lemma window_u64_reset : window_u64 Replay.reset.
Proof. split_and!; [apply replay_wf_reset|done|]. by apply Forall_replicate. Qed.
Lemma window_u64_advance r s r' :
  window_u64 r → is_u64 s → Replay.advanceSequence s r = Some r' → window_u64 r'.
Proof.
  intros (Hwf & Hrec & Hall) Hs Hadv. destruct (advanceSequence_total r s Hwf) as (r1 & E & Hwf1).
  rewrite Hadv in E. injection E as <-. split; [done|]. revert Hadv. unfold Replay.advanceSequence.
  set (r1 := if s >? mostRecentSequence r then _ else _).
  assert (receivedPacket r1 = receivedPacket r ∧ is_u64 (mostRecentSequence r1)) as [-> Hrec1]
    by (unfold r1; by case_match).
  pose proof (window_index s). rewrite aset_Some by (rewrite Hwf; clia). intros [= <-]. simpl. split; [done|].
  unfold ainsert. by apply Forall_insert.
Qed.
(** The marker of an empty entry passes the test, whatever was received. *)
Lemma top_never_received r : window_u64 r → Replay.alreadyReceived r emptySequence = Some false.
Proof.
  intros (Hwf & Hrec & Hall). unfold Replay.alreadyReceived. unfold is_u64, emptySequence in *.
  assert ((mostRecentSequence r >=? replayProtectionBufferSize) &&
    (2 ^ 64 - 1 <=? u64 (mostRecentSequence r - replayProtectionBufferSize)) = false) as ->.
  { destruct (Z.geb_spec (mostRecentSequence r) replayProtectionBufferSize); [|done]. cbn [andb].
    rewrite u64_id by (unfold is_u64; clia). apply Z.leb_gt. clia. }
  pose proof (window_index (2 ^ 64 - 1)).
  destruct (aget_Some (receivedPacket r) ((2 ^ 64 - 1) mod replayProtectionBufferSize)) as [v Hv];
    [rewrite Hwf; clia|].
  rewrite Hv. cbn [mbind option_bind]. apply (aget_Forall _ _ _ _ Hall) in Hv.
  destruct (Z.eqb_spec v (2 ^ 64 - 1)); [done|]. f_equal. rewrite Z.geb_leb. apply Z.leb_gt. lia.
Qed.

(** C40. The sequence number 2^64 - 1 is the window's empty marker and escapes the
    protection: in every stream of 64 bit sequence numbers it is accepted each
    time it arrives, whatever came before. *)
Theorem replay_top_always_accepted (stream : list Z) (Hs : Forall is_u64 stream) :
  ∃ bs, Replay.verdicts Replay.reset stream = Some bs ∧
    ∀ k, stream !! k = Some emptySequence → bs !! k = Some true.
Proof.
  enough (∀ r, window_u64 r → ∃ bs, Replay.verdicts r stream = Some bs ∧
    ∀ k, stream !! k = Some emptySequence → bs !! k = Some true) as H by apply H, window_u64_reset.
  induction Hs as [|s stream Hs _ IH]; intros r Hr; [by exists []|]. cbn [Replay.verdicts].
  unfold Replay.accept. destruct (alreadyReceived_total r s (proj1 Hr)) as [b Hb]. rewrite Hb.
  cbn [mbind option_bind]. destruct b.
  - destruct (IH r Hr) as (bs & Hbs & Htop). cbn [mbind option_bind]. rewrite Hbs. exists (false :: bs).
    split; [done|]. intros [|k] Hk; [|by apply Htop]. injection Hk as ->. by rewrite top_never_received in Hb.
  - destruct (advanceSequence_total r s (proj1 Hr)) as (r' & Hadv & _). rewrite Hadv. cbn [mbind option_bind].
    destruct (IH r') as (bs & Hbs & Htop); [by eapply window_u64_advance|]. rewrite Hbs. exists (true :: bs).
    split; [done|]. intros [|k] Hk; [done|by apply Htop].
Qed.
Lemma replay_top_always_accepted_witness :
  ∃ bs, Replay.verdicts Replay.reset [7; emptySequence; 9; emptySequence; 7] = Some bs ∧ bs !! 3%nat = Some true.
Proof.
  destruct (replay_top_always_accepted [7; emptySequence; 9; emptySequence; 7]) as (bs & Hbs & Htop);
    [by repeat constructor|].
  exists bs. split; [exact Hbs|]. apply Htop. reflexivity.
Defined.
