(* ===== verification/Queue.v ===== *)
(** queue.go: the fixed size ring buffer of received payload packets, and its
    refinement to a bounded FIFO list. A payload is any type [P]; a nil packet
    pointer is [None]. *)

From S2P Require Import Prelude Constants.

Record packetQueue (P : Type) := mkQueue {
  numPackets : Z;
  startIndex : Z;
  packets : list (option P);
  sequences : list Z;
}.
Arguments mkQueue {P}.
Arguments numPackets {P}.
Arguments startIndex {P}.
Arguments packets {P}.
Arguments sequences {P}.
#[export] Instance eta_queue P : Eta (packetQueue P) :=
  λ q, mkQueue (numPackets q) (startIndex q) (packets q) (sequences q).

Module Queue.
Section operations.
Context {P : Type}.

Definition clear : packetQueue P :=
  mkQueue 0 0 (replicate (Z.to_nat packetQueueSize) None)
    (replicate (Z.to_nat packetQueueSize) 0).

Definition push (packet : P) (sequence : Z) : M (packetQueue P) bool :=
  n ← gets numPackets;
  if n =? packetQueueSize then mret false
  else
    (start ← gets startIndex;
     let index := (start + n) mod packetQueueSize in
     awrite packets index (Some packet);;
     awrite sequences index sequence;;
     modify (set numPackets (λ n, n + 1));;
     mret true).

Definition pop : M (packetQueue P) (option P * Z) :=
  n ← gets numPackets;
  if n =? 0 then mret (None, 0)
  else
    (start ← gets startIndex;
     packet ← aread packets start;
     sequence ← aread sequences start;
     awrite packets start None;;
     modify (set startIndex (λ _, (start + 1) mod packetQueueSize));;
     modify (set numPackets (λ n, n - 1));;
     mret (packet, sequence)).
End operations.
End Queue.

(** ** Representation

    [queue_repr q l]: the ring buffer [q] holds the packets [l], oldest first. *)
Section refinement.
Context {P : Type}.
Implicit Types (q : packetQueue P) (l : list (P * Z)).

Record queue_repr q l : Prop := {
  qr_packets : length (packets q) = Z.to_nat packetQueueSize;
  qr_sequences : length (sequences q) = Z.to_nat packetQueueSize;
  qr_num : numPackets q = Z.of_nat (length l);
  qr_bound : Z.of_nat (length l) ≤ packetQueueSize;
  qr_start : 0 ≤ startIndex q < packetQueueSize;
  qr_entry k x : l !! k = Some x →
    let index := (startIndex q + Z.of_nat k) mod packetQueueSize in
    aget (packets q) index = Some (Some x.1) ∧ aget (sequences q) index = Some x.2;
}.

Lemma ring_index z : 0 ≤ z mod packetQueueSize < packetQueueSize.
Proof. apply Z.mod_pos_bound. clia. Qed.

(** Distinct offsets below the capacity are distinct entries of the ring. *)
Lemma ring_index_inj a j k :
  (a + j) mod packetQueueSize = (a + k) mod packetQueueSize →
  0 ≤ j < packetQueueSize → 0 ≤ k < packetQueueSize → j = k.
Proof.
  unfold_constants. intros Hm ??.
  pose proof (Z.div_mod (a + j) 256). pose proof (Z.div_mod (a + k) 256). lia.
Qed.

Lemma queue_repr_clear : queue_repr Queue.clear [].
Proof. split; simpl; rewrite ?length_replicate; try done; clia. Qed.

Lemma push_full q l p s :
  queue_repr q l → Z.of_nat (length l) = packetQueueSize →
  Queue.push p s q = Some (false, q).
Proof.
  intros HR Hfull. unfold Queue.push, mbind, M_bind. simpl.
  by rewrite (qr_num _ _ HR), Hfull, Z.eqb_refl.
Qed.

Lemma push_room q l p s :
  queue_repr q l → Z.of_nat (length l) < packetQueueSize →
  ∃ q', Queue.push p s q = Some (true, q') ∧ queue_repr q' (l ++ [(p, s)]).
Proof.
  intros HR Hroom. destruct HR as [Hp Hs Hn Hb Hst Hent].
  unfold Queue.push, mbind, M_bind. simpl. rewrite Hn.
  destruct (Z.eqb_spec (Z.of_nat (length l)) packetQueueSize); [lia|].
  unfold mbind, M_bind, awrite. simpl.
  set (i := (startIndex q + Z.of_nat (length l)) mod packetQueueSize).
  pose proof (ring_index (startIndex q + Z.of_nat (length l))) as Hi. fold i in Hi.
  rewrite (aset_Some (packets q)) by (rewrite Hp; clia). simpl.
  rewrite (aset_Some (sequences q)) by (rewrite Hs; clia). simpl.
  eexists. split; [done|]. split; simpl; rewrite ?length_ainsert, ?length_app; simpl; try done; try clia.
  intros k x Hk. destruct (decide (k = length l)) as [->|Hne].
  - rewrite list_lookup_middle in Hk by done. injection Hk as <-. simpl.
    split; apply aget_ainsert_eq; rewrite ?Hp, ?Hs; clia.
  - assert (k < length l)%nat as Hlt.
    { apply lookup_lt_Some in Hk. rewrite length_app in Hk. simpl in Hk. lia. }
    rewrite lookup_app_l in Hk by done. destruct (Hent _ _ Hk) as [H1 H2].
    rewrite !aget_ainsert_ne; try done; try clia.
    all: intros Heq; apply ring_index_inj in Heq; clia.
Qed.

Lemma pop_empty q : queue_repr q [] → Queue.pop q = Some ((None, 0), q).
Proof. intros HR. unfold Queue.pop, mbind, M_bind. simpl. by rewrite (qr_num _ _ HR). Qed.

Lemma pop_cons q p s l :
  queue_repr q ((p, s) :: l) →
  ∃ q', Queue.pop q = Some ((Some p, s), q') ∧ queue_repr q' l.
Proof.
  intros HR. destruct HR as [Hp Hs Hn Hb Hst Hent]. simpl in Hn, Hb.
  unfold Queue.pop, mbind, M_bind. simpl. rewrite Hn.
  destruct (Z.eqb_spec (Z.of_nat (S (length l))) 0); [lia|].
  destruct (Hent O (p, s) eq_refl) as [H1 H2].
  rewrite Z.add_0_r, Z.mod_small in H1, H2 by clia. simpl in H1, H2.
  unfold mbind, M_bind, aread, awrite. simpl. rewrite H1. simpl. rewrite H2. simpl.
  rewrite aset_Some by (rewrite Hp; clia). simpl.
  eexists. split; [done|].
  pose proof (ring_index (startIndex q + 1)) as Hi.
  split; simpl; rewrite ?length_ainsert; try done; try clia.
  intros k x Hk. destruct (Hent (S k) x Hk) as [H3 H4].
  assert (((startIndex q + 1) mod packetQueueSize + Z.of_nat k) mod packetQueueSize =
          (startIndex q + Z.of_nat (S k)) mod packetQueueSize) as ->.
  { rewrite Z.add_mod_idemp_l by clia. f_equal. lia. }
  apply lookup_lt_Some in Hk.
  rewrite aget_ainsert_ne; try done; try clia.
  rewrite <-(Z.mod_small (startIndex q) packetQueueSize) at 1 by clia.
  rewrite <-(Z.add_0_r (startIndex q)) at 1.
  intros Heq. apply ring_index_inj in Heq; clia.
Qed.
End refinement.

(** ** Runs of operations *)
Inductive queue_op (P : Type) := OpClear | OpPush (packet : P) (sequence : Z) | OpPop.
Inductive queue_result (P : Type) := ResClear | ResPush (ok : bool) | ResPop (packet : option P) (sequence : Z).
Arguments OpClear {P}. Arguments OpPush {P}. Arguments OpPop {P}.
Arguments ResClear {P}. Arguments ResPush {P}. Arguments ResPop {P}.

Section runs.
Context {P : Type}.

Definition ring_step (o : queue_op P) (q : packetQueue P) : option (queue_result P * packetQueue P) :=
  match o with
  | OpClear => Some (ResClear, Queue.clear)
  | OpPush p s => '(b, q') ← Queue.push p s q; Some (ResPush b, q')
  | OpPop => '(x, q') ← Queue.pop q; Some (ResPop x.1 x.2, q')
  end.
Fixpoint ring_run (q : packetQueue P) (ops : list (queue_op P)) : option (list (queue_result P)) :=
  match ops with
  | [] => Some []
  | o :: ops => '(r, q') ← ring_step o q; rs ← ring_run q' ops; Some (r :: rs)
  end.

(** The specification: a list of at most [packetQueueSize] packets, pushed at
    the back, popped at the front; a push onto a full list drops the packet. *)
Definition fifo_step (o : queue_op P) (l : list (P * Z)) : queue_result P * list (P * Z) :=
  match o with
  | OpClear => (ResClear, [])
  | OpPush p s =>
      if decide (Z.of_nat (length l) = packetQueueSize) then (ResPush false, l)
      else (ResPush true, l ++ [(p, s)])
  | OpPop =>
      match l with
      | [] => (ResPop None 0, [])
      | (p, s) :: l => (ResPop (Some p) s, l)
      end
  end.
Fixpoint fifo_run (l : list (P * Z)) (ops : list (queue_op P)) : list (queue_result P) :=
  match ops with
  | [] => []
  | o :: ops => let '(r, l') := fifo_step o l in r :: fifo_run l' ops
  end.

Lemma ring_step_refines o q l :
  queue_repr q l →
  ∃ q', ring_step o q = Some ((fifo_step o l).1, q') ∧ queue_repr q' (fifo_step o l).2.
Proof.
  intros HR. destruct o as [|p s|]; simpl.
  - eexists. split; [done|]. apply queue_repr_clear.
  - case_decide as Hf.
    + rewrite (push_full _ _ p s HR Hf). by exists q.
    + pose proof (qr_bound _ _ HR).
      destruct (push_room _ _ p s HR ltac:(lia)) as (q' & -> & HR'). by exists q'.
  - destruct l as [|[p s] l].
    + rewrite (pop_empty _ HR). by exists q.
    + destruct (pop_cons _ _ _ _ HR) as (q' & -> & HR'). by exists q'.
Qed.

(** C26. Refinement: on every sequence of clears, pushes and pops, the ring
    buffer never panics and returns what a bounded FIFO list returns: packets
    come out oldest first with their own sequence numbers, a push is refused
    exactly when 256 packets are queued, and a pop of an empty queue returns
    nil. *)
Theorem queue_refines_fifo (ops : list (queue_op P)) :
  ring_run Queue.clear ops = Some (fifo_run [] ops).
Proof.
  assert (∀ q l, queue_repr q l → ring_run q ops = Some (fifo_run l ops)) as Hgen.
  { induction ops as [|o ops IH]; intros q l HR; [done|]. simpl.
    destruct (ring_step_refines o q l HR) as (q' & -> & HR').
    destruct (fifo_step o l) as [r l']. simpl in *. by rewrite (IH _ _ HR'). }
  apply Hgen, queue_repr_clear.
Qed.

(** A queue that represents some list; what the client and the server keep. *)
Definition queue_wf (q : packetQueue P) : Prop := ∃ l, queue_repr q l.
Lemma queue_wf_clear : queue_wf Queue.clear.
Proof. eexists. apply queue_repr_clear. Qed.
Lemma push_total q p s : queue_wf q → ∃ b q', Queue.push p s q = Some (b, q') ∧ queue_wf q'.
Proof.
  intros [l HR]. destruct (ring_step_refines (OpPush p s) q l HR) as (q' & Hr & HR').
  simpl in Hr. destruct (Queue.push p s q) as [[b q1]|]; [|done]. simpl in Hr.
  injection Hr as _ <-. by eexists _, _; split; [done|eexists].
Qed.
Lemma pop_total q :
  queue_wf q → ∃ x q', Queue.pop q = Some (x, q') ∧ queue_wf q' ∧
    (is_Some x.1 → numPackets q' < numPackets q).
Proof.
  intros [[|[p s] l] HR].
  - eexists _, _. split; [by apply pop_empty|]. split; [by eexists|]. by intros [].
  - destruct (pop_cons _ _ _ _ HR) as (q' & Hp & HR'). eexists _, _. split; [done|]. split; [by eexists|].
    intros _. rewrite (qr_num _ _ HR), (qr_num _ _ HR'). simpl. lia.
Qed.
Lemma queue_count q : queue_wf q → 0 ≤ numPackets q ≤ packetQueueSize.
Proof. intros [l HR]. rewrite (qr_num _ _ HR). pose proof (qr_bound _ _ HR). lia. Qed.
End runs.
#[export] Hint Resolve queue_wf_clear : go.
