(* ===== verification/Text.v ===== *)
(** Go strings as lists of bytes: characters, positional numbers in base 10 and
    16, as fmt's %d and the standard library's address formatting print them. *)

From S2P Require Import Prelude Constants.
From Stdlib Require Import Strings.Byte.

Bind Scope byte_scope with byte.
Definition chr (c : byte) : byte := c.
Arguments chr c%_byte.
(** ** Positional numbers *)

(** The digits of [z] in base [b], most significant first; [fuel] bounds their
    number. *)
Fixpoint digits (b : Z) (fuel : nat) (z : Z) : list Z :=
  match fuel with
  | O => []
  | S fuel => if z <? b then [z] else digits b fuel (z / b) ++ [z mod b]
  end.
(** The number that digits denote, after a prefix worth [acc]. *)
Definition value (b acc : Z) (ds : list Z) : Z := foldl (λ acc d, acc * b + d) acc ds.

Definition digit_char (d : Z) : byte :=
  byte.of_Z (if d <? 10 then 48 + d else 87 + d).
(** fmt.Sprintf("%d", z) for 0 <= z < 2^64. *)
Definition decimal (z : Z) : list byte := digit_char <$> digits 10 20 z.
(** Lower case hexadecimal of a 16 bit number, without leading zeros. *)
Definition hexadecimal (z : Z) : list byte := digit_char <$> digits 16 4 z.

Section positional.
Context (b : Z) (Hb : 2 ≤ b).

Lemma value_app acc ds ds' : value b acc (ds ++ ds') = value b (value b acc ds) ds'.
Proof. apply foldl_app. Qed.
Lemma value_ge acc ds : 0 ≤ acc → Forall (λ d, 0 ≤ d) ds → acc ≤ value b acc ds.
Proof.
  revert acc. induction ds as [|d ds IH]; intros acc Hacc Hds; [done|].
  apply Forall_cons in Hds as [Hd Hds]. cbn [value foldl]. etrans; [|apply IH; [nia|done]]. nia.
Qed.

Lemma digits_value n z : (0 < n)%nat → 0 ≤ z < b ^ Z.of_nat n → value b 0 (digits b n z) = z.
Proof.
  revert z. induction n as [|n IH]; intros z Hn Hz; [lia|]. cbn [digits].
  destruct (Z.ltb_spec z b); [done|].
  pose proof (Z.div_mod z b). pose proof (Z.mod_pos_bound z b).
  rewrite Nat2Z.inj_succ, Z.pow_succ_r in Hz by lia.
  assert (0 < n)%nat. { destruct n; [|lia]. rewrite Z.pow_0_r in Hz. lia. }
  rewrite value_app, IH; [cbn; lia|done|]. split; [apply Z.div_pos; lia|].
  apply Z.div_lt_upper_bound; lia.
Qed.
Lemma digits_range n z : 0 ≤ z → Forall (λ d, 0 ≤ d < b) (digits b n z).
Proof.
  revert z. induction n as [|n IH]; intros z Hz; [done|]. cbn [digits].
  destruct (Z.ltb_spec z b); [by repeat constructor|].
  apply Forall_app. split; [apply IH, Z.div_pos; lia|]. repeat constructor; apply Z.mod_pos_bound; lia.
Qed.
Lemma digits_length n z : (length (digits b n z) ≤ n)%nat.
Proof.
  revert z. induction n as [|n IH]; intros z; [done|]. cbn [digits]. case_match; [simpl; lia|].
  rewrite length_app. specialize (IH (z / b)). simpl. lia.
Qed.
Lemma digits_nonempty n z : (0 < n)%nat → (1 ≤ length (digits b n z))%nat.
Proof.
  destruct n as [|n]; [lia|]. intros _. cbn [digits]. case_match; [simpl; lia|].
  rewrite length_app. simpl. lia.
Qed.
(** No more digits than needed. *)
Lemma digits_length_bound n z (m : nat) :
  (1 ≤ m)%nat → 0 ≤ z < b ^ Z.of_nat m → (length (digits b n z) ≤ m)%nat.
Proof.
  revert z m. induction n as [|n IH]; intros z m Hm Hz; [simpl; lia|]. cbn [digits].
  destruct (Z.ltb_spec z b); [simpl; lia|]. rewrite length_app. simpl.
  destruct m as [|[|m]]; [lia|rewrite Z.pow_1_r in Hz; lia|].
  enough (length (digits b n (z / b)) ≤ S m)%nat by lia.
  apply IH; [lia|]. rewrite Nat2Z.inj_succ, Z.pow_succ_r in Hz by lia.
  split; [apply Z.div_pos; lia|apply Z.div_lt_upper_bound; lia].
Qed.
(** No leading zero, except for zero itself. *)
Lemma digits_leading n z d ds :
  0 ≤ z < b ^ Z.of_nat n → digits b n z = d :: ds → d = 0 → ds = [].
Proof.
  revert z d ds. induction n as [|n IH]; intros z d ds Hz; [done|]. cbn [digits].
  destruct (Z.ltb_spec z b); [by intros [= -> <-]|]. intros Hd ->.
  rewrite Nat2Z.inj_succ, Z.pow_succ_r in Hz by lia.
  assert (0 ≤ z / b < b ^ Z.of_nat n) as Hq.
  { split; [apply Z.div_pos; lia|apply Z.div_lt_upper_bound; lia]. }
  destruct (digits b n (z / b)) as [|d' ds'] eqn:Hds.
  - destruct n as [|n]; [|pose proof (digits_nonempty (S n) (z / b)); rewrite Hds in *; simpl in *; lia].
    rewrite Z.pow_0_r in Hq. pose proof (Z.div_str_pos z b). lia.
  - injection Hd as -> <-. assert (ds' = []) as -> by (by eapply (IH (z / b))).
    assert (z / b = 0) as H0.
    { rewrite <-(digits_value n (z / b)), Hds; [done| |done].
      destruct n; [done|lia]. }
    pose proof (Z.div_str_pos z b). lia.
Qed.
End positional.

(** ** Digit characters *)
Definition is_digit (c : byte) : bool := (48 <=? byte.unsigned c) && (byte.unsigned c <=? 57).
(** The value of a hexadecimal digit, either case. *)
Definition hex_value (c : byte) : option Z :=
  let c := byte.unsigned c in
  if (48 <=? c) && (c <=? 57) then Some (c - 48)
  else if (97 <=? c) && (c <=? 102) then Some (c - 87)
  else if (65 <=? c) && (c <=? 70) then Some (c - 55)
  else None.

Lemma digit_char_value d : 0 ≤ d < 16 →
  byte.unsigned (digit_char d) = if d <? 10 then 48 + d else 87 + d.
Proof. intros. unfold digit_char. apply byte_of_Z_u8. unfold is_u8. case_match; lia. Qed.
Lemma digit_char_decimal d : 0 ≤ d < 10 →
  is_digit (digit_char d) = true ∧ byte.unsigned (digit_char d) - 48 = d.
Proof.
  intros Hd. unfold is_digit. rewrite digit_char_value by lia. destruct (Z.ltb_spec d 10); [|lia].
  split; [|lia]. apply andb_true_intro. split; apply Z.leb_le; lia.
Qed.
Lemma digit_char_hex d : 0 ≤ d < 16 → hex_value (digit_char d) = Some d.
Proof.
  intros Hd. unfold hex_value. rewrite digit_char_value by lia.
  destruct (Z.ltb_spec d 10).
  - destruct (Z.leb_spec 48 (48 + d)), (Z.leb_spec (48 + d) 57); cbn [andb]; try lia; f_equal; lia.
  - destruct (Z.leb_spec (87 + d) 57); [lia|]. rewrite andb_false_r.
    destruct (Z.leb_spec 97 (87 + d)), (Z.leb_spec (87 + d) 102); cbn [andb]; try lia; f_equal; lia.
Qed.
(** Hexadecimal digits are none of the separators of an address string. *)
Lemma hex_value_sep c d : hex_value c = Some d → c ≠ chr ":" ∧ c ≠ chr "." ∧ c ≠ chr "%" ∧ c ≠ chr "[" ∧ c ≠ chr "]".
Proof. intros H. split_and!; intros ->; vm_compute in H; done. Qed.

Lemma decimal_chars z : 0 ≤ z → Forall (λ c, is_digit c = true) (decimal z).
Proof.
  intros Hz. apply Forall_fmap. eapply Forall_impl; [by apply (digits_range 10); lia|].
  intros d Hd. by apply digit_char_decimal.
Qed.
Lemma is_digit_hex c : is_digit c = true → ∃ d, hex_value c = Some d.
Proof. unfold is_digit, hex_value. intros ->. eauto. Qed.
Lemma hexadecimal_chars z : 0 ≤ z → Forall (λ c, is_Some (hex_value c)) (hexadecimal z).
Proof.
  intros Hz. apply Forall_fmap. eapply Forall_impl; [by apply (digits_range 16); lia|].
  intros d Hd. simpl in *. rewrite digit_char_hex by lia. by eexists.
Qed.
