(* ===== verification/Netip.v ===== *)
(** What address.go and socket.go use of the standard library's net/netip: the
    address type, ParseAddr and String, and what ParseAddr makes of a printed
    address. *)

From S2P Require Import Prelude Constants Text.

(** A netip.Addr: IPv4, or IPv6 with a zone (empty when there is none). *)
Inductive netipAddr :=
| Addr4 (a4 : list byte)
| Addr16 (a16 : list byte) (zone : list byte).

Module Netip.
Definition Is4 (a : netipAddr) : bool := match a with Addr4 _ => true | Addr16 _ _ => false end.
Definition Is6 (a : netipAddr) : bool := match a with Addr4 _ => false | Addr16 _ _ => true end.
(** The prefix ::ffff:0:0/96 of IPv4-mapped addresses. *)
Definition mapped_prefix : list byte := zeros 10 ++ [byte.of_Z 255; byte.of_Z 255].
Definition Is4In6 (raw : list byte) : bool := bool_decide (take 12 raw = mapped_prefix).
Definition Unmap (a : netipAddr) : netipAddr :=
  match a with
  | Addr16 raw _ => if Is4In6 raw then Addr4 (drop 12 raw) else a
  | Addr4 _ => a
  end.
(** As16 of an IPv4 address is its mapped form. *)
Definition As16 (a : netipAddr) : list byte :=
  match a with Addr4 a4 => mapped_prefix ++ a4 | Addr16 raw _ => raw end.

(** ** ParseAddr *)

(** The fields of an IPv4 address. [start] holds at the start of the text and
    after a dot; [value] and [digLen] are those of the current field. *)
Fixpoint parseIPv4Fields (s : list byte) (start : bool) (value : Z) (digLen : nat)
  (fields : list byte) : option (list byte) :=
  match s with
  | [] => if bool_decide (length fields < 3)%nat then None else Some (fields ++ [byte.of_Z value])
  | c :: s =>
      if is_digit c then
        (if bool_decide (digLen = 1%nat) && (value =? 0) then None
         else
           let value := value * 10 + (byte.unsigned c - 48) in
           if value >? 255 then None else parseIPv4Fields s false value (S digLen) fields)
      else if bool_decide (c = chr ".") then
        (if start || bool_decide (s = []) then None
         else if bool_decide (length fields = 3%nat) then None
         else parseIPv4Fields s true 0 0 (fields ++ [byte.of_Z value]))
      else None
  end.
Definition parseIPv4 (s : list byte) : option netipAddr := Addr4 <$> parseIPv4Fields s true 0 0 [].

(** The digits at the front of [s]: their number, their value and the rest; an
    error for a fifth digit. *)
Fixpoint hexGroup (s : list byte) (off : nat) (acc : Z) : option (nat * Z * list byte) :=
  match s with
  | [] => Some (off, acc, [])
  | c :: s' =>
      match hex_value c with
      | Some d =>
          let acc := acc * 16 + d in
          if bool_decide (3 < off)%nat then None
          else if acc >? 65535 then None
          else hexGroup s' (S off) acc
      | None => Some (off, acc, s)
      end
  end.

(** The loop over the groups: [n] groups still fit, [ip] are the bytes so far,
    [ellipsis] the position of a double colon. The rest of the text, the bytes
    and the ellipsis. *)
Fixpoint parseGroups (n : nat) (s ip : list byte) (ellipsis : option nat)
  : option (list byte * list byte * option nat) :=
  match n with
  | O => Some (s, ip, ellipsis)
  | S n =>
      '(off, acc, rest) ← hexGroup s 0 0;
      if bool_decide (off = 0%nat) then None
      else if bool_decide (head rest = Some (chr ".")) then
        (if bool_decide (ellipsis = None) && negb (bool_decide (length ip = 12%nat)) then None
         else if bool_decide (16 < length ip + 4)%nat then None
         else a4 ← parseIPv4Fields s true 0 0 []; Some ([], ip ++ a4, ellipsis))
      else
        let ip := ip ++ [byte.of_Z (Z.shiftr acc 8); byte.of_Z acc] in
        match rest with
        | [] => Some ([], ip, ellipsis)
        | c :: s =>
            if negb (bool_decide (c = chr ":")) then None
            else match s with
            | [] => None
            | c :: s' =>
                if bool_decide (c = chr ":") then
                  match ellipsis with
                  | Some _ => None
                  | None =>
                      if bool_decide (s' = []) then Some ([], ip, Some (length ip))
                      else parseGroups n s' ip (Some (length ip))
                  end
                else parseGroups n s ip ellipsis
            end
        end
  end.

(** The text is used up, and a double colon stands for the missing bytes. *)
Definition expandEllipsis (s ip : list byte) (ellipsis : option nat) : option (list byte) :=
  if negb (bool_decide (s = [])) then None
  else if bool_decide (length ip < 16)%nat then
    match ellipsis with
    | None => None
    | Some e => Some (take e ip ++ zeros (16 - length ip) ++ drop e ip)
    end
  else match ellipsis with None => Some ip | Some _ => None end.

(** The text before the first percent sign, and the zone after it. *)
Fixpoint cutZone (s : list byte) : list byte * option (list byte) :=
  match s with
  | [] => ([], None)
  | c :: s => if bool_decide (c = chr "%") then ([], Some s)
              else let '(addr, zone) := cutZone s in (c :: addr, zone)
  end.

Definition parseIPv6 (s : list byte) : option netipAddr :=
  let '(s, zone) := cutZone s in
  if bool_decide (zone = Some []) then None
  else
    let zone := default [] zone in
    if bool_decide (take 2 s = [chr ":"; chr ":"]) then
      (let s := drop 2 s in
       if bool_decide (s = []) then Some (Addr16 (zeros 16) zone)
       else
         '(rest, ip, ellipsis) ← parseGroups 8 s [] (Some 0%nat);
         ip ← expandEllipsis rest ip ellipsis; Some (Addr16 ip zone))
    else
      ('(rest, ip, ellipsis) ← parseGroups 8 s [] None;
       ip ← expandEllipsis rest ip ellipsis; Some (Addr16 ip zone)).

(** The first dot, colon or percent sign decides. *)
Fixpoint dispatch (s whole : list byte) : option netipAddr :=
  match s with
  | [] => None
  | c :: s =>
      if bool_decide (c = chr ".") then parseIPv4 whole
      else if bool_decide (c = chr ":") then parseIPv6 whole
      else if bool_decide (c = chr "%") then None
      else dispatch s whole
  end.
Definition ParseAddr (s : list byte) : option netipAddr := dispatch s s.

(** ** String *)
Definition string4 (a4 : list byte) : list byte :=
  match a4 with
  | [a; b; c; d] =>
      decimal (byte.unsigned a) ++ [chr "."] ++ decimal (byte.unsigned b) ++ [chr "."] ++
      decimal (byte.unsigned c) ++ [chr "."] ++ decimal (byte.unsigned d)
  | _ => []
  end.

(** The 16 bit groups of an IPv6 address, big endian. *)
Fixpoint groups (raw : list byte) : list Z :=
  match raw with
  | hi :: lo :: raw => Z.lor (Z.shiftl (byte.unsigned hi) 8) (byte.unsigned lo) :: groups raw
  | _ => []
  end.
Fixpoint zeroRun (gs : list Z) : nat :=
  match gs with g :: gs => if g =? 0 then S (zeroRun gs) else 0%nat | [] => 0%nat end.
(** The first longest run of two or more zero groups, as its start and end. *)
Fixpoint longestRun (n i : nat) (gs : list Z) (best : nat * nat) : nat * nat :=
  match n with
  | O => best
  | S n =>
      let l := zeroRun (drop i gs) in
      longestRun n (S i) gs
        (if bool_decide (2 ≤ l)%nat && bool_decide (best.2 - best.1 < l)%nat then (i, i + l)%nat else best)
  end.
(** The groups from [i] on, the run abbreviated. *)
Fixpoint appendGroups (n i : nat) (gs : list Z) (run : nat * nat) : list byte :=
  match n with
  | O => []
  | S n =>
      if (8 <=? i)%nat then []
      else if (i =? run.1)%nat then
        [chr ":"; chr ":"] ++
        (if (8 <=? run.2)%nat then []
         else hexadecimal (nth run.2 gs 0) ++ appendGroups n (S run.2) gs run)
      else
        (if (0 <? i)%nat then [chr ":"] else []) ++
        hexadecimal (nth i gs 0) ++ appendGroups n (S i) gs run
  end.
Definition string6 (gs : list Z) : list byte := appendGroups 8 0 gs (longestRun 8 0 gs (255%nat, 255%nat)).

Definition String_ (a : netipAddr) : list byte :=
  match a with
  | Addr4 a4 => string4 a4
  | Addr16 raw zone =>
      (if Is4In6 raw
       then [chr ":"; chr ":"; chr "f"; chr "f"; chr "f"; chr "f"; chr ":"] ++ string4 (drop 12 raw)
       else string6 (groups raw)) ++
      match zone with [] => [] | _ => [chr "%"] ++ zone end
  end.

(** ** Parsing what [String_] prints *)

Lemma ParseAddr_skip l rest whole :
  Forall (λ c, is_Some (hex_value c)) l → dispatch (l ++ rest) whole = dispatch rest whole.
Proof.
  induction 1 as [|c l [d Hd] _ IH]; [done|]. apply hex_value_sep in Hd as (?&?&?&_).
  cbn [dispatch app]. by rewrite !bool_decide_eq_false_2.
Qed.
Lemma decimal_hex_chars b : Forall (λ c, is_Some (hex_value c)) (decimal (byte.unsigned b)).
Proof.
  eapply Forall_impl; [apply decimal_chars, byte.unsigned_range|].
  intros c Hc. by apply is_digit_hex in Hc.
Qed.

(** A field: the digits of a byte, whatever follows. *)
Lemma parseIPv4Fields_digits ds rest start v n fields :
  Forall (λ d, 0 ≤ d < 10) ds → 0 ≤ v → value 10 v ds ≤ 255 → n ≠ 0%nat →
  (n = 1%nat → v = 0 → ds = []) →
  parseIPv4Fields ((digit_char <$> ds) ++ rest) false v n fields =
  parseIPv4Fields rest false (value 10 v ds) (n + length ds) fields
  ∧ (∀ d, 0 ≤ d < 10 → v = d → n = 1%nat →
     parseIPv4Fields ((digit_char <$> d :: ds) ++ rest) start 0 0 fields =
     parseIPv4Fields ((digit_char <$> ds) ++ rest) false v n fields).
Proof.
  intros Hds Hv Hle Hn Hz. split.
  - revert v n Hv Hle Hn Hz. induction ds as [|d ds IH]; intros v n Hv Hle Hn Hz; [by rewrite Nat.add_0_r|].
    apply Forall_cons in Hds as [Hd Hds]. destruct (digit_char_decimal d Hd) as [Hd1 Hd2].
    change (value 10 v (d :: ds)) with (value 10 (v * 10 + d) ds) in *.
    assert (v * 10 + d ≤ 255) as Hle'.
    { etrans; [|exact Hle]. apply value_ge; [lia|lia|]. eapply Forall_impl; [exact Hds|]. intros; simpl in *; lia. }
    cbn [fmap list_fmap app parseIPv4Fields]. rewrite Hd1, Hd2.
    replace (bool_decide (n = 1%nat) && (v =? 0)) with false.
    2: { symmetry. apply andb_false_iff. destruct (decide (n = 1%nat)); [right|left; by apply bool_decide_eq_false_2].
      apply Z.eqb_neq. intros ?. by discriminate Hz. }
    rewrite Z.gtb_ltb, (proj2 (Z.ltb_ge _ _)) by lia.
    change (list_fmap _ _ digit_char ds) with (digit_char <$> ds).
    rewrite IH by (done || lia). cbn [length]. by rewrite Nat.add_succ_r.
  - intros d Hd <- ->. destruct (digit_char_decimal v Hd) as [Hd1 Hd2].
    cbn [fmap list_fmap app parseIPv4Fields]. rewrite Hd1, Hd2. cbn [bool_decide decide_rel andb].
    rewrite bool_decide_eq_false_2 by done. cbn [andb]. rewrite Z.gtb_ltb, (proj2 (Z.ltb_ge _ _)) by lia. done.
Qed.
Lemma parseIPv4Fields_byte b rest fields : ∃ n,
  parseIPv4Fields (decimal (byte.unsigned b) ++ rest) true 0 0 fields =
  parseIPv4Fields rest false (byte.unsigned b) n fields.
Proof.
  pose proof (byte.unsigned_range b) as Hb. unfold decimal.
  pose proof (digits_value 10 ltac:(lia) 20 (byte.unsigned b) ltac:(lia) ltac:(lia)) as Hv.
  pose proof (digits_range 10 ltac:(lia) 20 (byte.unsigned b) ltac:(lia)) as Hr.
  pose proof (digits_nonempty 10 20 (byte.unsigned b) ltac:(lia)) as Hne.
  pose proof (digits_leading 10 ltac:(lia) 20 (byte.unsigned b)) as Hl.
  destruct (digits 10 20 (byte.unsigned b)) as [|d ds]; [simpl in Hne; lia|].
  apply Forall_cons in Hr as [Hd Hds].
  change (value 10 0 (d :: ds)) with (value 10 d ds) in Hv.
  destruct (parseIPv4Fields_digits ds rest true d 1 fields) as [H1 H2]; try (done || lia).
  { intros _ ->. by eapply Hl; [lia|done..]. }
  exists (1 + length ds)%nat. by rewrite (H2 d), H1, Hv.
Qed.
Lemma parseIPv4Fields_dot b s n fields :
  s ≠ [] → length fields ≠ 3%nat →
  parseIPv4Fields (chr "." :: s) false (byte.unsigned b) n fields =
  parseIPv4Fields s true 0 0 (fields ++ [b]).
Proof.
  intros Hs Hf. cbn [parseIPv4Fields]. change (is_digit (chr ".")) with false.
  rewrite (bool_decide_eq_true_2 (chr "." = chr ".")) by done.
  rewrite (bool_decide_eq_false_2 (s = [])), bool_decide_eq_false_2 by done.
  cbn [orb]. by rewrite byte.of_Z_unsigned.
Qed.
Lemma decimal_nonempty z : decimal z ≠ [].
Proof.
  unfold decimal. intros H%fmap_nil_inv. pose proof (digits_nonempty 10 20 z ltac:(lia)) as Hn.
  rewrite H in Hn. inversion Hn.
Qed.
Lemma parseIPv4Fields_string4 a b c d :
  parseIPv4Fields (string4 [a; b; c; d]) true 0 0 [] = Some [a; b; c; d].
Proof.
  assert (∀ z l, decimal z ++ l ≠ []) as Hne.
  { intros z l [H _]%app_nil. by apply decimal_nonempty in H. }
  cbn [string4].
  edestruct (parseIPv4Fields_byte a) as [n1 ->]. cbn [app]. rewrite parseIPv4Fields_dot by (done || apply Hne).
  edestruct (parseIPv4Fields_byte b) as [n2 ->]. rewrite parseIPv4Fields_dot by (done || apply Hne).
  edestruct (parseIPv4Fields_byte c) as [n3 ->].
  rewrite parseIPv4Fields_dot by (done || apply decimal_nonempty).
  edestruct (parseIPv4Fields_byte d []) as [n4 Hd]. rewrite app_nil_r in Hd. rewrite Hd.
  cbn. by rewrite byte.of_Z_unsigned.
Qed.
Lemma ParseAddr_string4 a4 : length a4 = 4%nat → ParseAddr (string4 a4) = Some (Addr4 a4).
Proof.
  destruct a4 as [|a [|b [|c [|d [|]]]]]; try done. intros _. unfold ParseAddr.
  cbn [string4]. rewrite ParseAddr_skip by apply decimal_hex_chars.
  cbn [app dispatch]. rewrite bool_decide_eq_true_2 by done.
  change (Addr4 <$> parseIPv4Fields (string4 [a; b; c; d]) true 0 0 [] = Some (Addr4 [a; b; c; d])).
  by rewrite parseIPv4Fields_string4.
Qed.

(** A group: the hexadecimal digits of 16 bits. *)
Definition not_hex_head (s : list byte) : Prop :=
  match s with [] => True | c :: _ => hex_value c = None end.
Lemma hexGroup_digits ds rest off acc :
  Forall (λ d, 0 ≤ d < 16) ds → 0 ≤ acc → (off + length ds ≤ 4)%nat →
  value 16 acc ds ≤ 65535 → not_hex_head rest →
  hexGroup ((digit_char <$> ds) ++ rest) off acc = Some ((off + length ds)%nat, value 16 acc ds, rest).
Proof.
  revert off acc. induction ds as [|d ds IH]; intros off acc Hds Hacc Hoff Hv Hrest.
  - rewrite Nat.add_0_r. destruct rest; cbn in *; [done|]. by rewrite Hrest.
  - apply Forall_cons in Hds as [Hd Hds]. cbn [fmap list_fmap app hexGroup].
    rewrite digit_char_hex by done. simpl in Hoff.
    rewrite bool_decide_eq_false_2 by lia.
    change (value 16 acc (d :: ds)) with (value 16 (acc * 16 + d) ds) in *.
    assert (acc * 16 + d ≤ 65535) as Hle.
    { etrans; [|exact Hv]. apply value_ge; [lia..|]. eapply Forall_impl; [exact Hds|]. simpl; lia. }
    rewrite Z.gtb_ltb, (proj2 (Z.ltb_ge _ _)) by lia.
    change (foldr _ _ _) with (digit_char <$> ds).
    rewrite IH by (done || lia). cbn [length]. by rewrite Nat.add_succ_r.
Qed.

Lemma hexGroup_hexadecimal g rest :
  is_u16 g → not_hex_head rest →
  ∃ n, n ≠ 0%nat ∧ hexGroup (hexadecimal g ++ rest) 0 0 = Some (n, g, rest).
Proof.
  unfold is_u16. intros Hg Hrest. exists (length (digits 16 4 g)).
  pose proof (digits_nonempty 16 4 g). pose proof (digits_length 16 4 g).
  pose proof (digits_value 16 ltac:(lia) 4 g ltac:(lia) ltac:(lia)) as Hv.
  split; [lia|]. unfold hexadecimal. rewrite hexGroup_digits, Hv; try done; try lia.
  by apply digits_range; lia.
Qed.

(** The two bytes of a group. *)
Definition group_bytes (g : Z) : list byte := [byte.of_Z (Z.shiftr g 8); byte.of_Z g].
Definition bytes_of_groups (gs : list Z) : list byte := gs ≫= group_bytes.
Lemma bytes_of_groups_app gs gs' :
  bytes_of_groups (gs ++ gs') = bytes_of_groups gs ++ bytes_of_groups gs'.
Proof. apply bind_app. Qed.
Lemma bytes_of_groups_length gs : length (bytes_of_groups gs) = (2 * length gs)%nat.
Proof. induction gs as [|g gs IH]; [done|]. change (S (S (length (bytes_of_groups gs))) = 2 * S (length gs))%nat. lia. Qed.
Lemma bytes_of_groups_zeros n : bytes_of_groups (replicate n 0) = zeros (2 * n).
Proof.
  induction n as [|n IH]; [done|]. replace (2 * S n)%nat with (S (S (2 * n))) by lia.
  change (byte.of_Z 0 :: byte.of_Z 0 :: bytes_of_groups (replicate n 0) =
          byte.of_Z 0 :: byte.of_Z 0 :: zeros (2 * n)). by rewrite IH.
Qed.

(** Groups separated by colons. *)
Fixpoint join (gs : list Z) : list byte :=
  match gs with
  | [] => []
  | [g] => hexadecimal g
  | g :: gs => hexadecimal g ++ chr ":" :: join gs
  end.
Lemma join_cons g gs : gs ≠ [] → join (g :: gs) = hexadecimal g ++ chr ":" :: join gs.
Proof. by destruct gs. Qed.
Lemma hexadecimal_head g : is_u16 g → ∃ c l, hexadecimal g = c :: l ∧ is_Some (hex_value c).
Proof.
  unfold is_u16. intros Hg. pose proof (hexadecimal_chars g ltac:(lia)) as Hc.
  destruct (hexadecimal g) as [|c l] eqn:Hl; [|apply Forall_cons in Hc as [Hc _]; eauto].
  apply fmap_nil_inv in Hl. pose proof (digits_nonempty 16 4 g ltac:(lia)) as Hn.
  rewrite Hl in Hn. inversion Hn.
Qed.
Lemma join_head gs : gs ≠ [] → Forall is_u16 gs → ∃ c l, join gs = c :: l ∧ is_Some (hex_value c).
Proof.
  destruct gs as [|g gs]; [done|]. intros _ [Hg _]%Forall_cons.
  destruct (hexadecimal_head g Hg) as (c & l & Hc & Hd).
  destruct (decide (gs = [])) as [->|]; [simpl; eauto|]. rewrite join_cons, Hc by done. simpl. eauto.
Qed.
Lemma not_colon c : is_Some (hex_value c) → c ≠ chr ":".
Proof. intros [d Hd]. by apply hex_value_sep in Hd as []. Qed.

(** One group of the loop. *)
Lemma parseGroups_group n g rest ip e :
  is_u16 g → not_hex_head rest → head rest ≠ Some (chr ".") →
  parseGroups (S n) (hexadecimal g ++ rest) ip e =
    let ip := ip ++ group_bytes g in
    match rest with
    | [] => Some ([], ip, e)
    | c :: s =>
        if negb (bool_decide (c = chr ":")) then None
        else match s with
        | [] => None
        | c :: s' =>
            if bool_decide (c = chr ":") then
              match e with
              | Some _ => None
              | None =>
                  if bool_decide (s' = []) then Some ([], ip, Some (length ip))
                  else parseGroups n s' ip (Some (length ip))
              end
            else parseGroups n s ip e
        end
    end.
Proof.
  intros Hg Hrest Hdot. cbn [parseGroups].
  destruct (hexGroup_hexadecimal g rest Hg Hrest) as (k & Hk & ->). cbn [mbind option_bind].
  by rewrite (bool_decide_eq_false_2 (k = 0%nat)), (bool_decide_eq_false_2 (head rest = _)) by done.
Qed.
Lemma parseGroups_join n gs ip e :
  gs ≠ [] → (length gs ≤ n)%nat → Forall is_u16 gs →
  parseGroups n (join gs) ip e = Some ([], ip ++ bytes_of_groups gs, e).
Proof.
  revert n ip. induction gs as [|g gs IH]; intros n ip Hne Hn Hgs; [done|].
  apply Forall_cons in Hgs as [Hg Hgs]. destruct n as [|n]; simpl in Hn; [lia|].
  destruct (decide (gs = [])) as [->|Hgs'].
  - cbn [join]. rewrite <-(app_nil_r (hexadecimal g)), parseGroups_group by done. done.
  - rewrite join_cons, parseGroups_group by done.
    destruct (join_head gs Hgs' Hgs) as (c & l & Hc & Hd%not_colon).
    pose proof (IH n (ip ++ group_bytes g) Hgs' ltac:(lia) Hgs) as Hrec. rewrite Hc in *.
    cbn zeta iota. rewrite bool_decide_eq_true_2, bool_decide_eq_false_2 by done. cbn [negb].
    rewrite Hrec. by rewrite <-app_assoc.
Qed.
Lemma parseGroups_ellipsis n gs tail ip :
  gs ≠ [] → (length gs ≤ n)%nat → Forall is_u16 gs →
  parseGroups n (join gs ++ chr ":" :: chr ":" :: tail) ip None =
    let ip := ip ++ bytes_of_groups gs in
    if bool_decide (tail = []) then Some ([], ip, Some (length ip))
    else parseGroups (n - length gs) tail ip (Some (length ip)).
Proof.
  revert n ip. induction gs as [|g gs IH]; intros n ip Hne Hn Hgs; [done|].
  apply Forall_cons in Hgs as [Hg Hgs]. destruct n as [|n]; simpl in Hn; [lia|].
  destruct (decide (gs = [])) as [->|Hgs'].
  - cbn [join]. rewrite parseGroups_group by done. cbn zeta iota.
    rewrite !(bool_decide_eq_true_2 (chr ":" = chr ":")) by done. cbn [negb length].
    by replace (S n - 1)%nat with n by lia.
  - rewrite join_cons, <-app_assoc, <-app_comm_cons, parseGroups_group by done.
    destruct (join_head gs Hgs' Hgs) as (c & l & Hc & Hd%not_colon).
    pose proof (IH n (ip ++ group_bytes g) Hgs' ltac:(lia) Hgs) as Hrec. rewrite Hc in *.
    cbn zeta iota. cbn [app] in *. rewrite bool_decide_eq_true_2, bool_decide_eq_false_2 by done. cbn [negb].
    rewrite Hrec. by rewrite <-app_assoc.
Qed.

(** The run that [string6] abbreviates: at least two groups, all zero. *)
Definition zero_run (gs : list Z) (run : nat * nat) : Prop :=
  (run.1 + 2 ≤ run.2 ≤ 8)%nat ∧ take (run.2 - run.1) (drop run.1 gs) = replicate (run.2 - run.1) 0.
Lemma zeroRun_spec gs :
  (zeroRun gs ≤ length gs)%nat ∧ take (zeroRun gs) gs = replicate (zeroRun gs) 0.
Proof.
  induction gs as [|g gs [IH1 IH2]]; [done|]. simpl. destruct (Z.eqb_spec g 0) as [->|]; [|by split; [lia|]].
  split; [lia|]. cbn [take]. by rewrite IH2.
Qed.
Lemma longestRun_spec n i gs best :
  length gs = 8%nat → best = (255, 255)%nat ∨ zero_run gs best → (i + n ≤ 8)%nat →
  longestRun n i gs best = (255, 255)%nat ∨ zero_run gs (longestRun n i gs best).
Proof.
  intros Hgs. revert i best. induction n as [|n IH]; intros i best Hbest Hi; [done|].
  cbn [longestRun]. apply IH; [|lia]. case_match eqn:Hc; [|done]. right.
  apply andb_prop in Hc as [H2 _]. apply bool_decide_eq_true in H2.
  destruct (zeroRun_spec (drop i gs)) as [Hl Ht]. rewrite length_drop, Hgs in Hl.
  unfold zero_run. cbn [fst snd]. replace (i + zeroRun (drop i gs) - i)%nat with (zeroRun (drop i gs)) by lia.
  split; [lia|done].
Qed.
Lemma zero_run_split gs run :
  zero_run gs run → gs = take run.1 gs ++ replicate (run.2 - run.1) 0 ++ drop run.2 gs.
Proof.
  intros [Hr <-]. rewrite <-(take_drop run.1 gs) at 1. f_equal.
  rewrite <-(take_drop (run.2 - run.1) (drop run.1 gs)) at 1. f_equal. rewrite drop_drop. f_equal. lia.
Qed.
(** What [string6] prints: all groups, or the groups around the run. *)
Lemma appendGroups_none gs : length gs = 8%nat → appendGroups 8 0 gs (255, 255)%nat = join gs.
Proof.
  do 8 (destruct gs as [|? gs]; [done|]). destruct gs; [|done]. intros _. cbn -[hexadecimal]. by rewrite app_nil_r.
Qed.
Lemma appendGroups_run gs a b :
  length gs = 8%nat → (a + 2 ≤ b ≤ 8)%nat →
  appendGroups 8 0 gs (a, b) = join (take a gs) ++ chr ":" :: chr ":" :: join (drop b gs).
Proof.
  do 8 (destruct gs as [|? gs]; [done|]). destruct gs; [|done]. intros _ Hab.
  do 7 (destruct a as [|a]; [do 9 (destruct b as [|b]; [first [lia | cbn -[hexadecimal]; rewrite ?app_nil_r; repeat (rewrite <-app_assoc; cbn [app]); reflexivity]|]); lia|]).
  lia.
Qed.

(** ** The round trip of an address without a zone *)

(** Characters other than the zone separator and brackets. *)
Definition plain (c : byte) : Prop := c ≠ chr "%" ∧ c ≠ chr "[" ∧ c ≠ chr "]".
Lemma plain_hex c : is_Some (hex_value c) → plain c.
Proof. intros [d Hd]. by apply hex_value_sep in Hd as (?&?&?&?&?). Qed.
Lemma plain_colon : plain (chr ":").
Proof. done. Qed.
Lemma plain_dot : plain (chr ".").
Proof. done. Qed.
Hint Resolve plain_colon plain_dot : core.

Lemma cutZone_none s : Forall plain s → cutZone s = (s, None).
Proof.
  induction 1 as [|c s [Hc _] _ IH]; [done|]. cbn [cutZone]. by rewrite bool_decide_eq_false_2, IH.
Qed.
Lemma hexadecimal_plain z : 0 ≤ z → Forall plain (hexadecimal z).
Proof. intros Hz. eapply Forall_impl; [by apply hexadecimal_chars|]. apply plain_hex. Qed.
Lemma join_plain gs : Forall is_u16 gs → Forall plain (join gs).
Proof.
  induction 1 as [|g gs Hg _ IH]; [done|]. unfold is_u16 in Hg.
  pose proof (hexadecimal_plain g ltac:(lia)).
  destruct (decide (gs = [])) as [->|]; [done|]. rewrite join_cons by done.
  apply Forall_app. split; [done|]. by constructor.
Qed.
Lemma join_length gs : (length (join gs) ≤ 5 * length gs)%nat.
Proof.
  induction gs as [|g gs IH]; [done|].
  assert (length (hexadecimal g) ≤ 4)%nat.
  { unfold hexadecimal. rewrite length_fmap. apply digits_length. }
  destruct (decide (gs = [])) as [->|]; [simpl; lia|]. rewrite join_cons by done.
  rewrite length_app. cbn [length]. lia.
Qed.

(** The end of parseIPv6 on groups around a double colon. *)
Lemma expandEllipsis_run gs run :
  length gs = 8%nat → zero_run gs run →
  expandEllipsis [] (bytes_of_groups (take run.1 gs ++ drop run.2 gs)) (Some (2 * run.1)%nat) =
  Some (bytes_of_groups gs).
Proof.
  intros Hgs Hrun. pose proof (zero_run_split gs run Hrun) as Hsplit. destruct Hrun as [Hr _].
  unfold expandEllipsis.
  assert (length (bytes_of_groups (take run.1 gs)) = 2 * run.1)%nat as Hl1.
  { rewrite bytes_of_groups_length, length_take. lia. }
  assert (length (bytes_of_groups (drop run.2 gs)) = 2 * (8 - run.2))%nat as Hl2.
  { rewrite bytes_of_groups_length, length_drop. lia. }
  rewrite bytes_of_groups_app, (bool_decide_eq_true_2 ([] = [])), bool_decide_eq_true_2
    by (done || (rewrite length_app; lia)). cbn [negb]. f_equal.
  assert (bytes_of_groups gs = bytes_of_groups (take run.1 gs) ++
    zeros (2 * (run.2 - run.1)) ++ bytes_of_groups (drop run.2 gs)) as ->.
  { rewrite Hsplit at 1. by rewrite !bytes_of_groups_app, bytes_of_groups_zeros. }
  rewrite <-Hl1, take_app_length, drop_app_length, length_app. f_equal. f_equal. f_equal. lia.
Qed.
(** parseIPv6 without a zone, by whether the text starts with a double colon. *)
Lemma parseIPv6_groups s rest ip e :
  Forall plain s → take 2 s ≠ [chr ":"; chr ":"] →
  parseGroups 8 s [] None = Some (rest, ip, e) →
  parseIPv6 s = ip ← expandEllipsis rest ip e; Some (Addr16 ip []).
Proof.
  intros Hs H2 Hg. unfold parseIPv6. rewrite cutZone_none by done.
  rewrite (bool_decide_eq_false_2 (None = _)), bool_decide_eq_false_2 by done. by rewrite Hg.
Qed.
Lemma parseIPv6_colons s rest ip e :
  Forall plain s → s ≠ [] →
  parseGroups 8 s [] (Some 0%nat) = Some (rest, ip, e) →
  parseIPv6 (chr ":" :: chr ":" :: s) = ip ← expandEllipsis rest ip e; Some (Addr16 ip []).
Proof.
  intros Hs Hne Hg. unfold parseIPv6. rewrite cutZone_none by by repeat constructor.
  rewrite (bool_decide_eq_false_2 (None = _)), bool_decide_eq_true_2 by done.
  cbn zeta. change (drop 2 (chr ":" :: chr ":" :: s)) with s.
  rewrite bool_decide_eq_false_2 by done. by rewrite Hg.
Qed.
Lemma join_no_colons gs rest : gs ≠ [] → Forall is_u16 gs → take 2 (join gs ++ rest) ≠ [chr ":"; chr ":"].
Proof.
  intros Hne Hu. destruct (join_head gs Hne Hu) as (c & l & -> & Hd%not_colon). cbn [take app]. congruence.
Qed.

Lemma parseIPv6_string6 gs :
  length gs = 8%nat → Forall is_u16 gs → parseIPv6 (string6 gs) = Some (Addr16 (bytes_of_groups gs) []).
Proof.
  intros Hgs Hu. unfold string6.
  destruct (longestRun_spec 8 0 gs (255, 255)%nat Hgs ltac:(by left) ltac:(lia)) as [->|Hrun].
  { rewrite appendGroups_none by done. assert (gs ≠ []) as Hne by by intros ->.
    pose proof (join_no_colons gs [] Hne Hu) as H2. rewrite app_nil_r in H2.
    erewrite parseIPv6_groups; [|by apply join_plain|done|by apply parseGroups_join; [..|lia|]].
    unfold expandEllipsis. cbn [app]. rewrite (bool_decide_eq_true_2 ([] = [])), bool_decide_eq_false_2 by
      (done || (rewrite bytes_of_groups_length; lia)). done. }
  destruct (longestRun 8 0 gs (255, 255)%nat) as [a b]. pose proof (proj1 Hrun) as Hab. cbn [fst snd] in Hab.
  rewrite appendGroups_run by (done || lia).
  pose proof (Forall_take _ a _ Hu) as Hut. pose proof (Forall_drop _ b _ Hu) as Hud.
  pose proof (join_plain _ Hut) as Hpt. pose proof (join_plain _ Hud) as Hpd.
  pose proof (expandEllipsis_run gs (a, b) Hgs Hrun) as Hexp. cbn [fst snd] in Hexp.
  assert (length (drop b gs) = 8 - b)%nat as Hld by (rewrite length_drop; lia).
  assert (length (take a gs) = a)%nat as Hlt by (rewrite length_take; lia).
  assert (join (drop b gs) = [] ↔ drop b gs = []) as Hjd.
  { split; [|by intros ->]. intros Hj. apply dec_stable. intros Hne.
    destruct (join_head _ Hne Hud) as (?&?&?&_). congruence. }
  destruct a as [|a].
  - change (parseIPv6 (chr ":" :: chr ":" :: join (drop b gs)) = Some (Addr16 (bytes_of_groups gs) [])).
    destruct (decide (drop b gs = [])) as [Hd|Hd].
    { rewrite Hd in *. change (Some (zeros 16) = Some (bytes_of_groups gs)) in Hexp.
      injection Hexp as <-. reflexivity. }
    erewrite parseIPv6_colons; [|done|by rewrite Hjd|by apply parseGroups_join; [..|lia|]].
    change (take 0 gs ++ drop b gs) with (drop b gs) in Hexp.
    change (2 * 0)%nat with 0%nat in Hexp. cbn [app]. by rewrite Hexp.
  - assert (take (S a) gs ≠ []) as Hne by (intros Hn; by rewrite Hn in Hlt).
    rewrite (parseIPv6_groups _ [] (bytes_of_groups (take (S a) gs ++ drop b gs)) (Some (2 * S a)%nat)).
    { by rewrite Hexp. }
    { apply Forall_app. split; [done|]. by repeat constructor. }
    { by apply join_no_colons. }
    rewrite parseGroups_ellipsis by (done || lia). cbn [app].
    rewrite bytes_of_groups_length, Hlt, bytes_of_groups_app. destruct (decide (drop b gs = [])) as [Hd|Hd].
    + rewrite bool_decide_eq_true_2 by by rewrite Hd. by rewrite Hd, app_nil_r.
    + rewrite bool_decide_eq_false_2 by by rewrite Hjd. apply parseGroups_join; [done|lia|done].
Qed.
(** The groups of the raw bytes, and back. *)
Lemma lor_shift8 a b : 0 ≤ b < 2 ^ 8 → Z.lor (Z.shiftl a 8) b = a * 2 ^ 8 + b.
Proof.
  intros Hb. rewrite <-Z.add_lor_land, Z.shiftl_mul_pow2 by lia.
  enough (Z.land (a * 2 ^ 8) b = 0) as -> by lia.
  apply Z.bits_inj'. intros n Hn. rewrite Z.land_spec, Z.bits_0.
  destruct (decide (n < 8)); [by rewrite Z.mul_pow2_bits_low by lia|].
  rewrite (Z.bits_above_log2 b), andb_false_r; [done|lia|].
  destruct (decide (b = 0)) as [->|]; [simpl; lia|].
  apply Z.log2_lt_pow2; [lia|]. apply Z.lt_le_trans with (2 ^ 8); [lia|]. apply Z.pow_le_mono_r; lia.
Qed.
Lemma group_of_bytes hi lo :
  is_u16 (Z.lor (Z.shiftl (byte.unsigned hi) 8) (byte.unsigned lo)) ∧
  group_bytes (Z.lor (Z.shiftl (byte.unsigned hi) 8) (byte.unsigned lo)) = [hi; lo].
Proof.
  pose proof (byte.unsigned_range hi). pose proof (byte.unsigned_range lo).
  rewrite lor_shift8 by lia. unfold is_u16. split; [lia|]. unfold group_bytes.
  rewrite Z.shiftr_div_pow2, Z.div_add_l, Z.div_small by lia.
  rewrite Z.add_0_r, byte.of_Z_unsigned. f_equal. f_equal.
  rewrite <-(byte.of_Z_unsigned lo) at 2. apply byte.unsigned_inj. rewrite !byte.unsigned_of_Z.
  unfold byte.wrap. rewrite Z.add_comm, Z.mod_add by lia. done.
Qed.
Lemma groups_of_bytes gs : Forall is_u16 gs → groups (bytes_of_groups gs) = gs.
Proof.
  induction 1 as [|g gs Hg _ IH]; [done|]. unfold is_u16 in Hg.
  change (Z.lor (Z.shiftl (byte.unsigned (byte.of_Z (Z.shiftr g 8))) 8) (byte.unsigned (byte.of_Z g))
    :: groups (bytes_of_groups gs) = g :: gs). rewrite IH. f_equal.
  rewrite !byte.unsigned_of_Z. unfold byte.wrap. rewrite Z.shiftr_div_pow2 by lia.
  pose proof (Z.mod_pos_bound g (2 ^ 8)). pose proof (Z.div_mod g (2 ^ 8)).
  rewrite lor_shift8, (Z.mod_small (g / _)) by
    (lia || (split; [apply Z.div_pos|apply Z.div_lt_upper_bound]; lia)). lia.
Qed.
Lemma groups_spec raw n :
  length raw = (2 * n)%nat →
  length (groups raw) = n ∧ Forall is_u16 (groups raw) ∧ bytes_of_groups (groups raw) = raw.
Proof.
  revert raw. induction n as [|n IH]; intros raw Hraw; [by destruct raw|].
  destruct raw as [|hi [|lo raw]]; simpl in Hraw; [lia..|].
  destruct (IH raw ltac:(lia)) as (H1 & H2 & H3). destruct (group_of_bytes hi lo) as [Hu Hb].
  cbn [groups length]. split_and!; [by rewrite H1|by constructor|].
  change (group_bytes (Z.lor (Z.shiftl (byte.unsigned hi) 8) (byte.unsigned lo)) ++ bytes_of_groups (groups raw)
    = hi :: lo :: raw). by rewrite Hb, H3.
Qed.

Lemma string6_dispatch gs whole :
  length gs = 8%nat → Forall is_u16 gs → dispatch (string6 gs) whole = parseIPv6 whole.
Proof.
  intros Hgs Hu.
  assert (∀ l, dispatch (chr ":" :: l) whole = parseIPv6 whole) as Hcolon.
  { intros l. cbn [dispatch]. by rewrite bool_decide_eq_false_2, bool_decide_eq_true_2. }
  assert (∀ gs l, Forall is_u16 gs → dispatch (join gs ++ chr ":" :: l) whole = parseIPv6 whole) as Hjoin.
  { intros [|g [|g' gs']] l Hgs'; [apply Hcolon|..]; apply Forall_cons in Hgs' as [Hg _]; unfold is_u16 in Hg;
      cbn [join]; [|rewrite <-app_assoc]; rewrite ParseAddr_skip by (apply hexadecimal_chars; lia); apply Hcolon. }
  unfold string6. destruct (longestRun_spec 8 0 gs (255, 255)%nat Hgs ltac:(by left) ltac:(lia)) as [->|Hrun].
  - rewrite appendGroups_none by done. destruct gs as [|g [|g' gs]]; [done..|].
    apply Forall_cons in Hu as [Hg _]. unfold is_u16 in Hg. rewrite join_cons by done.
    rewrite ParseAddr_skip by (apply hexadecimal_chars; lia). apply Hcolon.
  - destruct (longestRun 8 0 gs (255, 255)%nat) as [a b]. destruct Hrun as [Hab _]. cbn [fst snd] in Hab.
    rewrite appendGroups_run by (done || lia). by apply Hjoin, Forall_take.
Qed.

(** The dotted form of an IPv4-mapped address. *)
Lemma hexGroup_decimal b rest : not_hex_head rest →
  ∃ n v, n ≠ 0%nat ∧ hexGroup (decimal (byte.unsigned b) ++ rest) 0 0 = Some (n, v, rest).
Proof.
  intros Hrest. pose proof (byte.unsigned_range b).
  pose proof (digits_nonempty 10 20 (byte.unsigned b) ltac:(lia)) as Hn.
  pose proof (digits_length_bound 10 ltac:(lia) 20 (byte.unsigned b) 3 ltac:(lia) ltac:(lia)) as Hl.
  pose proof (digits_range 10 ltac:(lia) 20 (byte.unsigned b) ltac:(lia)) as Hr.
  unfold decimal. destruct (digits 10 20 (byte.unsigned b)) as [|d1 [|d2 [|d3 [|]]]];
    try (exfalso; cbn [length] in *; lia); repeat apply Forall_cons in Hr as [? Hr];
    (rewrite hexGroup_digits;
     [do 2 eexists; split; [|done]; cbn [length]; lia
     |repeat constructor; lia|lia|cbn [length]; lia|cbn [value foldl]; lia|done]).
Qed.
Lemma string4_plain a4 : Forall plain (string4 a4).
Proof.
  assert (∀ b, Forall plain (decimal (byte.unsigned b))) as Hd.
  { intros b. eapply Forall_impl; [apply decimal_hex_chars|]. apply plain_hex. }
  destruct a4 as [|a [|b [|c [|d [|]]]]]; try done. cbn [string4].
  repeat (apply Forall_app; split; [done|]; apply Forall_cons; split; [done|]). done.
Qed.
Lemma parseIPv6_mapped a4 : length a4 = 4%nat →
  parseIPv6 ([chr ":"; chr ":"; chr "f"; chr "f"; chr "f"; chr "f"; chr ":"] ++ string4 a4) =
  Some (Addr16 (mapped_prefix ++ a4) []).
Proof.
  intros H4. destruct a4 as [|a [|b [|c [|d [|]]]]]; try done.
  pose proof (string4_plain [a; b; c; d]) as Hp.
  pose proof (parseIPv4Fields_string4 a b c d) as Hf.
  set (s4 := string4 [a; b; c; d]) in *.
  assert (∃ n v rest, n ≠ 0%nat ∧ hexGroup s4 0 0 = Some (n, v, rest) ∧ head rest = Some (chr ".")) as (n & v & rest & Hn & Hh & Hdot).
  { destruct (hexGroup_decimal a ([chr "."] ++ decimal (byte.unsigned b) ++ [chr "."] ++
      decimal (byte.unsigned c) ++ [chr "."] ++ decimal (byte.unsigned d)) ltac:(done)) as (n & v & Hn & Hh).
    exists n, v. eexists. by split_and!. }
  cbn [app].
  rewrite (parseIPv6_colons _ [] [byte.of_Z 255; byte.of_Z 255; a; b; c; d] (Some 0%nat)); [done|by repeat constructor|done|].
  change (chr "f" :: chr "f" :: chr "f" :: chr "f" :: chr ":" :: s4) with (hexadecimal 65535 ++ chr ":" :: s4).
  rewrite parseGroups_group by (done || unfold is_u16; lia). cbn zeta iota.
  destruct s4 as [|c0 l0] eqn:Hs4; [by cbn in Hh; injection Hh as <- _ _|].
  assert (c0 ≠ chr ":") as Hc0. { intros ->. by cbn in Hh; injection Hh as <- _ _. }
  rewrite bool_decide_eq_true_2, bool_decide_eq_false_2 by done. cbn [negb app].
  cbn [parseGroups]. rewrite Hh. cbn [mbind option_bind].
  rewrite (bool_decide_eq_false_2 (n = 0%nat)), (bool_decide_eq_true_2 (head rest = _)) by done.
  rewrite (bool_decide_eq_false_2 (Some 0%nat = None)) by done. cbn [andb].
  rewrite bool_decide_eq_false_2 by (cbn; lia). rewrite Hf. done.
Qed.

(** [ParseAddr] recovers the address that [String_] printed. *)
Lemma ParseAddr_String6 raw : length raw = 16%nat → ParseAddr (String_ (Addr16 raw [])) = Some (Addr16 raw []).
Proof.
  intros Hraw. unfold ParseAddr. cbn [String_]. rewrite app_nil_r.
  unfold Is4In6. case_bool_decide as Hm.
  - rewrite <-(take_drop 12 raw) at 3. rewrite Hm.
    rewrite <-parseIPv6_mapped by (rewrite length_drop; lia). cbn [app dispatch].
    by rewrite bool_decide_eq_false_2, bool_decide_eq_true_2.
  - destruct (groups_spec raw 8 Hraw) as (Hl & Hu & Hb).
    rewrite string6_dispatch, parseIPv6_string6 by done. by rewrite Hb.
Qed.

(** ** Shape of the printed text and of the parsed address *)
Lemma string6_plain gs :
  length gs = 8%nat → Forall is_u16 gs → Forall plain (string6 gs) ∧ (length (string6 gs) ≤ 42)%nat.
Proof.
  intros Hgs Hu. unfold string6.
  destruct (longestRun_spec 8 0 gs (255, 255)%nat Hgs ltac:(by left) ltac:(lia)) as [->|[Hab _]].
  - rewrite appendGroups_none by done. pose proof (join_length gs). split; [by apply join_plain|lia].
  - destruct (longestRun 8 0 gs (255, 255)%nat) as [a b]. cbn [fst snd] in Hab.
    rewrite appendGroups_run by (done || lia). pose proof (join_length (take a gs)) as H1.
    pose proof (join_length (drop b gs)) as H2. rewrite length_take in H1. rewrite length_drop in H2. split.
    + apply Forall_app. split; [by apply join_plain, Forall_take|].
      repeat (apply Forall_cons; split; [done|]). by apply join_plain, Forall_drop.
    + rewrite length_app. cbn [length]. lia.
Qed.
Lemma decimal_byte_length b : (length (decimal (byte.unsigned b)) ≤ 3)%nat.
Proof.
  pose proof (byte.unsigned_range b). unfold decimal. rewrite length_fmap.
  by apply digits_length_bound; lia.
Qed.
Lemma string4_length a4 : (length (string4 a4) ≤ 15)%nat.
Proof.
  destruct a4 as [|a [|b [|c [|d [|]]]]]; cbn [string4 length]; try lia.
  rewrite !length_app. cbn [length]. pose proof (decimal_byte_length a). pose proof (decimal_byte_length b).
  pose proof (decimal_byte_length c). pose proof (decimal_byte_length d). lia.
Qed.
Lemma String_plain raw : length raw = 16%nat →
  Forall plain (String_ (Addr16 raw [])) ∧ (length (String_ (Addr16 raw [])) ≤ 42)%nat.
Proof.
  intros Hraw. cbn [String_]. rewrite app_nil_r. destruct (Is4In6 raw).
  - pose proof (string4_length (drop 12 raw)). pose proof (string4_plain (drop 12 raw)).
    split; [|rewrite length_app; cbn [length]; lia].
    cbn [app]. by repeat (apply Forall_cons; split; [done|]).
  - destruct (groups_spec raw 8 Hraw) as (Hl & Hu & _). by apply string6_plain.
Qed.

Lemma parseIPv4Fields_length s start v n fields l :
  parseIPv4Fields s start v n fields = Some l → (length fields ≤ 3)%nat → length l = 4%nat.
Proof.
  revert start v n fields. induction s as [|c s IH]; intros start v n fields; cbn [parseIPv4Fields].
  - case_bool_decide as Hf; [done|]. intros [= <-] ?. rewrite length_app. simpl. lia.
  - repeat (case_match; try done); intros Hp Hf; (eapply IH; [exact Hp|]); [done|].
    rewrite length_app. simpl. case_bool_decide; [done|]. lia.
Qed.
Lemma parseGroups_length n s ip e rest ip' e' :
  parseGroups n s ip e = Some (rest, ip', e') → (length ip + 2 * n = 16)%nat →
  from_option (λ e, e ≤ length ip)%nat True e →
  (length ip' ≤ 16)%nat ∧ from_option (λ e, e ≤ length ip')%nat True e'.
Proof.
  revert s ip e. induction n as [|n IH]; intros s ip e; cbn [parseGroups].
  { intros [= <- <- <-] ??. split; [lia|done]. }
  intros H Hl He. apply bind_Some in H as ([[off acc] r] & _ & H).
  assert (∀ v, length (ip ++ [byte.of_Z (Z.shiftr v 8); byte.of_Z v]) = length ip + 2)%nat as Hl'
    by (intros; by rewrite length_app).
  assert (∀ v, from_option (λ e, e ≤ length (ip ++ [byte.of_Z (Z.shiftr v 8); byte.of_Z v]))%nat True e) as He'.
  { intros. destruct e; simpl in *; [rewrite Hl'; lia|done]. }
  repeat (case_match; simplify_eq; try done);
    try (eapply IH; [exact H|rewrite Hl'; lia|(simpl; lia) || apply He']).
  - apply bind_Some in H as (a4 & Ha4%parseIPv4Fields_length & [= <- <- <-]); [|simpl; lia].
    rewrite length_app, Ha4. case_bool_decide; [done|]. split; [lia|]. destruct e; simpl in *; [lia|done].
  - split; [rewrite Hl'; lia|apply He'].
  - rewrite Hl'. simpl. lia.
Qed.
Lemma expandEllipsis_length rest ip e l :
  expandEllipsis rest ip e = Some l → (length ip ≤ 16)%nat →
  from_option (λ e, e ≤ length ip)%nat True e → length l = 16%nat.
Proof.
  unfold expandEllipsis. repeat case_match; try done; intros [= <-] ??; simpl in *.
  - rewrite !length_app, length_take, length_drop, length_zeros. lia.
  - case_bool_decide; [done|]. lia.
Qed.
(** A parsed address has the bytes of its family. *)
Definition valid_netip (a : netipAddr) : Prop :=
  match a with Addr4 a4 => length a4 = 4%nat | Addr16 raw _ => length raw = 16%nat end.
Lemma ParseAddr_valid s a : ParseAddr s = Some a → valid_netip a.
Proof.
  assert (∀ s a, parseIPv4 s = Some a → valid_netip a) as H4.
  { intros s' a' (l & Hl & ->)%fmap_Some. by apply parseIPv4Fields_length in Hl; [|simpl; lia]. }
  assert (∀ s e, from_option (λ e, e ≤ 0)%nat True e → ∀ rest ip e' l zone,
    parseGroups 8 s [] e = Some (rest, ip, e') → expandEllipsis rest ip e' = Some l →
    valid_netip (Addr16 l zone)) as Hg.
  { intros s' e He rest ip e' l zone Hp Hl. apply parseGroups_length in Hp as [??]; [|done|done].
    by apply expandEllipsis_length in Hl. }
  assert (∀ s a, parseIPv6 s = Some a → valid_netip a) as H6.
  { intros s' a'. unfold parseIPv6. destruct (cutZone s') as [t zone].
    destruct (bool_decide (zone = Some [])); [done|]. case_bool_decide; [case_bool_decide|].
    { by intros [= <-]. }
    all: intros ([[rest ip] e] & Hp & (l & Hl & [= <-])%bind_Some)%bind_Some.
    - by eapply (Hg _ (Some 0%nat)); [simpl; lia|exact Hp|exact Hl].
    - by eapply (Hg _ None); [exact I|exact Hp|exact Hl]. }
  unfold ParseAddr. assert (∀ w, dispatch s w = Some a → valid_netip a) as Hd; [|by apply Hd].
  intros w. induction s as [|c s IH]; [done|]. cbn [dispatch]. repeat case_match; eauto; done.
Qed.
End Netip.
