(* ===== verification/Logging.v ===== *)
(** The logging of netcode.go: the global log level and printf function. The
    type of the arguments of a message is a parameter, a [printfFunction] is
    known by a name, and what is handed to one is recorded. *)

From S2P Require Import Prelude Constants.

Definition LogLevelNone : Z := 0.
Definition LogLevelError : Z := 1.
Definition LogLevelInfo : Z := 2.
Definition LogLevelDebug : Z := 3.

(** fmt.Printf, or a function of the application. *)
Inductive printfTarget := FmtPrintf | Custom (name : nat).
#[export] Instance printfTarget_eq_dec : EqDecision printfTarget.
Proof. solve_decision. Defined.

Record logState (V : Type) := mkLogState {
  logLevel : Z;
  printfFunction : printfTarget;
  (** The calls made: the function, the format and the arguments. *)
  log_calls : list (printfTarget * list byte * list V);
}.
Arguments mkLogState {V}.
Arguments logLevel {V}.
Arguments printfFunction {V}.
Arguments log_calls {V}.
#[export] Instance eta_logState V : Eta (logState V) :=
  λ s, mkLogState (logLevel s) (printfFunction s) (log_calls s).

Module Logging.
Section logging.
Context {V : Type}.
(** The values of the globals at the start of a process. *)
Definition initial : logState V := mkLogState LogLevelNone FmtPrintf [].
Definition SetLogLevel (level : Z) : M (logState V) unit := modify (set logLevel (λ _, level)).
(** [None] is a nil function. *)
Definition SetPrintfFunction (function : option printfTarget) : M (logState V) unit :=
  match function with
  | None => panic
  | Some f => modify (set printfFunction (λ _, f))
  end.
Definition printf (level : Z) (format : list byte) (args : list V) : M (logState V) unit :=
  threshold ← gets logLevel;
  if level >? threshold then mret tt
  else
    (f ← gets printfFunction;
     modify (set log_calls (λ l, l ++ [(f, format, args)]))).

(** ** What is logged *)
Inductive log_op :=
| LogSetLevel (level : Z)
| LogSetFunction (f : printfTarget)
| LogPrint (level : Z) (format : list byte) (args : list V).
Definition log_step (op : log_op) : M (logState V) unit :=
  match op with
  | LogSetLevel level => SetLogLevel level
  | LogSetFunction f => SetPrintfFunction (Some f)
  | LogPrint level format args => printf level format args
  end.
(** The setting in force after some operations. *)
Definition level_after (level : Z) (ops : list log_op) : Z :=
  foldl (λ l op, match op with LogSetLevel l' => l' | _ => l end) level ops.
Definition function_after (f : printfTarget) (ops : list log_op) : printfTarget :=
  foldl (λ f op, match op with LogSetFunction f' => f' | _ => f end) f ops.
(** A message comes out exactly when its level is at most the level in force,
    and goes to the function in force. *)
Fixpoint logged (level : Z) (f : printfTarget) (ops : list log_op) : list (printfTarget * list byte * list V) :=
  match ops with
  | [] => []
  | op :: ops =>
      (match op with
       | LogPrint l format args => if l <=? level then [(f, format, args)] else []
       | _ => []
       end) ++ logged (level_after level [op]) (function_after f [op]) ops
  end.

Lemma log_run ops s :
  for_ ops log_step s =
  Some (tt, mkLogState (level_after (logLevel s) ops) (function_after (printfFunction s) ops)
              (log_calls s ++ logged (logLevel s) (printfFunction s) ops)).
Proof.
  revert s. induction ops as [|op ops IH]; intros s; [destruct s; simpl; by rewrite app_nil_r|].
  cbn [for_]. unfold mbind, M_bind. destruct op as [l|f|l format args]; [by simpl; rewrite IH..|].
  simpl. unfold printf, mbind, M_bind. simpl. rewrite Z.gtb_ltb, Z.ltb_antisym.
  destruct (l <=? logLevel s); simpl; rewrite IH; [simpl; by rewrite <-(assoc _)|done].
Qed.
(** At the default level nothing but messages of level 0 is printed. *)
Lemma silent_by_default ops :
  Forall (λ op, match op with LogPrint l _ _ => 0 < l | LogSetLevel _ => False | _ => True end) ops →
  ∃ s, for_ ops log_step initial = Some (tt, s) ∧ log_calls s = [].
Proof.
  intros H. rewrite log_run. eexists. split; [done|]. simpl. generalize FmtPrintf as f.
  induction H as [|op ops Hop _ IH]; intros f; [done|]. simpl.
  destruct op as [l|g|l format args]; simpl in *; [done|apply IH|].
  destruct (Z.leb_spec l LogLevelNone); [unfold LogLevelNone in *; lia|apply IH].
Qed.
End logging.
Arguments log_op V : clear implicits.
End Logging.
