(* ===== verification/Address.v ===== *)
(** address.go: the address type and [Equal]. *)

From S2P Require Import Prelude Constants.

Definition AddressNone : Z := 0.
Definition AddressIPv4 : Z := 1.
Definition AddressIPv6 : Z := 2.

(** A network address: four bytes for IPv4, eight 16 bit groups for IPv6. *)
Record Address := mkAddress {
  Type_ : Z;
  IPv4 : list byte;
  IPv6 : list Z;
  Port : Z;
}.
#[export] Instance eta_address : Eta Address := λ a, mkAddress (Type_ a) (IPv4 a) (IPv6 a) (Port a).
#[export] Instance Address_eq_dec : EqDecision Address.
Proof. solve_decision. Defined.

(** The zero value Address{}. *)
Definition zeroAddress : Address :=
  mkAddress AddressNone (replicate 4 (byte.of_Z 0)) (replicate 8 0) 0.

(** address.Equal(other): false for addresses of type AddressNone, or of any
    other type than IPv4 and IPv6. *)
Definition Equal (address other : Address) : bool :=
  if negb (Type_ address =? Type_ other) then false
  else if negb (Port address =? Port other) then false
  else if Type_ address =? AddressIPv4 then bool_decide (IPv4 address = IPv4 other)
  else if Type_ address =? AddressIPv6 then bool_decide (IPv6 address = IPv6 other)
  else false.

(** The part of an address that [Equal] compares. *)
Definition same_address (a b : Address) : Prop :=
  Type_ a = Type_ b ∧ Port a = Port b ∧
  ((Type_ a = AddressIPv4 ∧ IPv4 a = IPv4 b) ∨ (Type_ a = AddressIPv6 ∧ IPv6 a = IPv6 b)).

Lemma Equal_spec a b : Equal a b = true ↔ same_address a b.
Proof.
  unfold Equal, same_address.
  destruct (Z.eqb_spec (Type_ a) (Type_ b)); simpl; [|naive_solver].
  destruct (Z.eqb_spec (Port a) (Port b)); simpl; [|naive_solver].
  destruct (Z.eqb_spec (Type_ a) AddressIPv4) as [H4|H4].
  { rewrite bool_decide_eq_true. split; [by eauto 6|].
    intros (_ & _ & [[_ ?]|[H6 _]]); [done|]. by rewrite H4 in H6. }
  destruct (Z.eqb_spec (Type_ a) AddressIPv6) as [H6|H6].
  { rewrite bool_decide_eq_true. split; [by eauto 6|]. by intros (_ & _ & [[]|[]]). }
  split; [done|]. by intros (_ & _ & [[]|[]]).
Qed.
Lemma Equal_false a b : Equal a b = false ↔ ¬ same_address a b.
Proof. rewrite <-Equal_spec. by destruct (Equal a b). Qed.

(** [Equal] is a partial equivalence: symmetric and transitive, and reflexive
    exactly on IPv4 and IPv6 addresses. *)
#[export] Instance same_address_sym : Symmetric same_address.
Proof.
  unfold same_address. intros a b (Ht & Hp & [[??]|[??]]); split_and!; try done.
  - left. by split; [congruence|].
  - right. by split; [congruence|].
Qed.
#[export] Instance same_address_trans : Transitive same_address.
Proof.
  unfold same_address. intros a b c (?&?&Hab) (?&?&Hbc). split_and!; [congruence..|].
  unfold AddressIPv4, AddressIPv6 in *.
  destruct Hab as [[??]|[??]], Hbc as [[??]|[??]]; first [left; split; congruence | right; split; congruence | lia].
Qed.
#[export] Instance Equal_proper : Proper (same_address ==> same_address ==> eq) Equal.
Proof.
  intros a a' Ha b b' Hb. apply eq_true_iff_eq. rewrite !Equal_spec.
  split; intros H; [rewrite <-Ha, H | rewrite Ha, H]; done.
Qed.
Lemma Equal_sym a b : Equal a b = Equal b a.
Proof. apply eq_true_iff_eq. rewrite !Equal_spec. split; intros H; by symmetry. Qed.
Lemma Equal_refl a : Equal a a = true ↔ Type_ a = AddressIPv4 ∨ Type_ a = AddressIPv6.
Proof. rewrite Equal_spec. unfold same_address. naive_solver. Qed.
Lemma Equal_not_none a b : Equal a b = true → Type_ a ≠ AddressNone ∧ Type_ b ≠ AddressNone.
Proof.
  rewrite Equal_spec. unfold same_address, AddressIPv4, AddressIPv6, AddressNone.
  intros (Ht & _ & [[]|[]]); lia.
Qed.

(** Addresses in the shape every constructor of the package gives them: a
    known type, the family in use filled in, the other one zero. *)
Record valid_address (a : Address) : Prop := {
  va_port : is_u16 (Port a);
  va_family :
    (Type_ a = AddressIPv4 ∧ length (IPv4 a) = 4%nat ∧ IPv6 a = replicate 8 0) ∨
    (Type_ a = AddressIPv6 ∧ IPv4 a = replicate 4 (byte.of_Z 0) ∧
     length (IPv6 a) = 8%nat ∧ Forall is_u16 (IPv6 a));
}.
(** On such addresses [Equal] is equality. *)
Lemma Equal_valid a b : valid_address a → valid_address b → Equal a b = true ↔ a = b.
Proof.
  intros [_ Ha] [_ Hb]. rewrite Equal_spec. unfold same_address. split.
  - destruct a, b; simpl in *. unfold AddressIPv4, AddressIPv6 in *.
    intros (-> & -> & H). destruct Ha as [(?&?&?)|(?&?&?&?)], Hb as [(?&?&?)|(?&?&?&?)];
      destruct H as [[]|[]]; subst; done || (exfalso; lia).
  - intros ->. naive_solver.
Qed.
