(* ===== verification/Simulator.v ===== *)
(** simulator.go: the in-memory network that stands in for sockets. The state is
    the Go struct. Floating point operations are rounded one at a time, without
    fused multiply-add. *)

From S2P Require Import Prelude Constants Float64 Address.

Definition simulatorNumPacketEntries : Z := MaxClients * 256.
Definition simulatorNumPendingReceivePackets : Z := MaxClients * 64.
Definition simulatorRNGSeed : Z := 0x9E3779B97F4A7C15.

(** [None] is a nil packetData: a free entry. *)
Record simulatorPacketEntry := mkSimulatorPacketEntry {
  se_from : Address;
  se_to : Address;
  se_deliveryTime : float64;
  se_packetData : option (list byte);
}.
#[export] Instance eta_simulatorPacketEntry : Eta simulatorPacketEntry := λ e,
  mkSimulatorPacketEntry (se_from e) (se_to e) (se_deliveryTime e) (se_packetData e).
Definition zeroEntry : simulatorPacketEntry := mkSimulatorPacketEntry zeroAddress zeroAddress f64_0 None.

Record NetworkSimulator := mkNetworkSimulator {
  ns_LatencyMilliseconds : float32;
  ns_JitterMilliseconds : float32;
  ns_PacketLossPercent : float32;
  ns_DuplicatePacketPercent : float32;
  ns_rngState : Z;
  ns_time : float64;
  ns_currentIndex : Z;
  ns_numPendingReceivePackets : Z;
  ns_packetEntries : list simulatorPacketEntry;
  ns_pendingReceivePackets : list simulatorPacketEntry;
}.
#[export] Instance eta_simulator : Eta NetworkSimulator := λ s,
  mkNetworkSimulator (ns_LatencyMilliseconds s) (ns_JitterMilliseconds s) (ns_PacketLossPercent s)
    (ns_DuplicatePacketPercent s) (ns_rngState s) (ns_time s) (ns_currentIndex s)
    (ns_numPendingReceivePackets s) (ns_packetEntries s) (ns_pendingReceivePackets s).

Module Simulator.
Definition NewNetworkSimulator : NetworkSimulator :=
  mkNetworkSimulator (f32_of_Z 0) (f32_of_Z 0) (f32_of_Z 0) (f32_of_Z 0) simulatorRNGSeed f64_0 0 0
    (replicate (Z.to_nat simulatorNumPacketEntries) zeroEntry)
    (replicate (Z.to_nat simulatorNumPendingReceivePackets) zeroEntry).

Definition Reset : M NetworkSimulator unit :=
  n ← gets (λ s, Z.of_nat (length (ns_packetEntries s)));
  for_ (seqZ 0 n) (λ i, awrite ns_packetEntries i zeroEntry);;
  num ← gets ns_numPendingReceivePackets;
  for_ (seqZ 0 num) (λ i, awrite ns_pendingReceivePackets i zeroEntry);;
  modify (λ s, s <| ns_currentIndex := 0 |> <| ns_numPendingReceivePackets := 0 |>
                 <| ns_rngState := simulatorRNGSeed |>).

(** xorshift64*: the state after a step. *)
Definition xorshift (x : Z) : Z :=
  let x := Z.lxor x (Z.shiftr x 12) in
  let x := Z.lxor x (u64 (Z.shiftl x 25)) in
  Z.lxor x (Z.shiftr x 27).
Definition randomUint64 : M NetworkSimulator Z :=
  x ← gets (λ s, xorshift (ns_rngState s));
  modify (set ns_rngState (λ _, x));;
  mret (u64 (x * 0x2545F4914F6CDD1D)).
Definition randomFloat (a b : float32) : M NetworkSimulator float32 :=
  r ← randomUint64;
  let random := f32_div (f32_of_Z (Z.shiftr r 40)) (f32_of_Z (Z.shiftl 1 24)) in
  mret (f32_add a (f32_mul random (f32_sub b a))).

(** append([]byte(nil), packetData...) is nil when there is nothing to append. *)
Definition copyData (packetData : list byte) : option (list byte) :=
  match packetData with [] => None | _ => Some packetData end.
Definition queuePacket (from to : Address) (packetData : list byte) (delay : float32) : M NetworkSimulator unit :=
  index ← gets ns_currentIndex;
  time ← gets ns_time;
  awrite ns_packetEntries index
    (mkSimulatorPacketEntry from to (f64_add time (f64_of_f32 delay)) (copyData packetData));;
  modify (set ns_currentIndex (λ i, (i + 1) mod simulatorNumPacketEntries)).

Definition f32_neg (x : float32) : float32 := SFopp x.
Definition SendPacket (from to : Address) (packetData : list byte) : M NetworkSimulator unit :=
  draw ← randomFloat (f32_of_Z 0) (f32_of_Z 100);
  loss ← gets ns_PacketLossPercent;
  if SFleb draw loss then mret tt
  else
    (latency ← gets ns_LatencyMilliseconds;
     jitter ← gets ns_JitterMilliseconds;
     let delay := f32_div latency (f32_of_Z 1000) in
     delay ← (if SFltb (f32_of_Z 0) jitter then
                draw ← randomFloat (f32_neg jitter) jitter;
                mret (f32_add delay (f32_div draw (f32_of_Z 1000)))
              else mret delay);
     queuePacket from to packetData delay;;
     draw ← randomFloat (f32_of_Z 0) (f32_of_Z 100);
     duplicate ← gets ns_DuplicatePacketPercent;
     if SFleb draw duplicate then
       (draw ← randomFloat (f32_of_Z 0) (f32_of_Z 1);
        queuePacket from to packetData (f32_add delay draw))
     else mret tt).

(** The loop of ReceivePackets; [n] packets are already collected. *)
Fixpoint receiveLoop (ixs : list Z) (to : Address) (n maxPackets : Z)
  : M NetworkSimulator (list (list byte * Address)) :=
  match ixs with
  | [] => mret []
  | i :: ixs =>
      if n =? maxPackets then mret []
      else
        (entry ← aread ns_pendingReceivePackets i;
         match se_packetData entry with
         | None => receiveLoop ixs to n maxPackets
         | Some packetData =>
             if negb (Equal (se_to entry) to) then receiveLoop ixs to n maxPackets
             else
               (awrite ns_pendingReceivePackets i (entry <| se_packetData := None |>);;
                rest ← receiveLoop ixs to (n + 1) maxPackets;
                mret ((packetData, se_from entry) :: rest))
         end)
  end.
(** The payloads with the addresses they were sent from. *)
Definition ReceivePackets (to : Address) (maxPackets : Z) : M NetworkSimulator (list (list byte * Address)) :=
  num ← gets ns_numPendingReceivePackets;
  receiveLoop (seqZ 0 num) to 0 maxPackets.

(** The loop of Update over the entries in flight. *)
Fixpoint updateLoop (ixs : list Z) (time : float64) : M NetworkSimulator unit :=
  match ixs with
  | [] => mret tt
  | i :: ixs =>
      entry ← aread ns_packetEntries i;
      match se_packetData entry with
      | None => updateLoop ixs time
      | Some _ =>
          num ← gets ns_numPendingReceivePackets;
          if num =? simulatorNumPendingReceivePackets then mret tt
          else if f64_leb (se_deliveryTime entry) time then
            (awrite ns_pendingReceivePackets num entry;;
             modify (set ns_numPendingReceivePackets (λ n, n + 1));;
             awrite ns_packetEntries i (entry <| se_packetData := None |>);;
             updateLoop ixs time)
          else updateLoop ixs time
      end
  end.
Definition Update (time : float64) : M NetworkSimulator unit :=
  modify (set ns_time (λ _, time));;
  num ← gets ns_numPendingReceivePackets;
  for_ (seqZ 0 num) (λ i,
    entry ← aread ns_pendingReceivePackets i;
    awrite ns_pendingReceivePackets i (entry <| se_packetData := None |>));;
  modify (set ns_numPendingReceivePackets (λ _, 0));;
  n ← gets (λ s, Z.of_nat (length (ns_packetEntries s)));
  updateLoop (seqZ 0 n) time.

(** ** The random number generator never gets stuck at zero *)
Lemma lxor_u64 a b : is_u64 a → is_u64 b → is_u64 (Z.lxor a b).
Proof.
  unfold is_u64. intros Ha Hb. assert (0 ≤ Z.lxor a b) as Hn by (apply Z.lxor_nonneg; lia).
  split; [done|]. destruct (decide (Z.lxor a b = 0)) as [->|]; [lia|].
  apply Z.log2_lt_pow2; [lia|]. pose proof (Z.log2_lxor a b ltac:(lia) ltac:(lia)).
  assert (∀ z, 0 ≤ z < 2 ^ 64 → Z.log2 z < 64) as Hlog.
  { intros z Hz. destruct (decide (z = 0)) as [->|]; [done|]. apply Z.log2_lt_pow2; lia. }
  pose proof (Hlog a). pose proof (Hlog b). lia.
Qed.
Lemma shiftr_step x k : 0 < x < 2 ^ 64 → 0 < k → 0 < Z.lxor x (Z.shiftr x k) < 2 ^ 64.
Proof.
  intros Hx Hk. rewrite Z.shiftr_div_pow2 by lia.
  assert (1 < 2 ^ k) by (apply Z.pow_gt_1; lia).
  pose proof (Z.div_lt x (2 ^ k)). pose proof (Z.div_pos x (2 ^ k)).
  destruct (lxor_u64 x (x / 2 ^ k)); [unfold is_u64; lia..|].
  assert (Z.lxor x (x / 2 ^ k) ≠ 0) by (intros He%Z.lxor_eq; lia). lia.
Qed.
Lemma shiftl_step x : 0 < x < 2 ^ 64 → 0 < Z.lxor x (u64 (Z.shiftl x 25)) < 2 ^ 64.
Proof.
  intros Hx. destruct (lxor_u64 x (u64 (Z.shiftl x 25))); [unfold is_u64; lia|apply u64_range|].
  assert (Z.lxor x (u64 (Z.shiftl x 25)) ≠ 0) as Hne; [|lia]. intros He%Z.lxor_eq.
  rewrite Z.shiftl_mul_pow2 in He by lia. unfold u64 in He.
  assert (2 ^ 64 | (2 ^ 25 - 1) * x)%Z as Hdiv.
  { exists ((x * 2 ^ 25) / 2 ^ 64). pose proof (Z.div_mod (x * 2 ^ 25) (2 ^ 64)). lia. }
  apply Z.gauss in Hdiv; [|done].
  apply Z.divide_pos_le in Hdiv; lia.
Qed.
Lemma xorshift_range x : 0 < x < 2 ^ 64 → 0 < xorshift x < 2 ^ 64.
Proof.
  intros Hx. unfold xorshift. apply shiftr_step; [|lia]. apply shiftl_step. by apply shiftr_step; [|lia].
Qed.

(** ** Invariant *)
Record simulator_wf (s : NetworkSimulator) : Prop := {
  sw_rng : 0 < ns_rngState s < 2 ^ 64;
  sw_index : 0 ≤ ns_currentIndex s < simulatorNumPacketEntries;
  sw_num : 0 ≤ ns_numPendingReceivePackets s ≤ simulatorNumPendingReceivePackets;
  sw_entries : Z.of_nat (length (ns_packetEntries s)) = simulatorNumPacketEntries;
  sw_pending : Z.of_nat (length (ns_pendingReceivePackets s)) = simulatorNumPendingReceivePackets;
}.

Section conservation.
(** The packets to be counted; the predicate cannot tell equal destinations
    apart. *)
Context (P : Address → Address → list byte → bool).
Context (HP : ∀ from to to' d, same_address to to' → P from to d = P from to' d).

Definition countIf (from to : Address) (d : list byte) : Z := if P from to d then 1 else 0.
Definition live (e : simulatorPacketEntry) : Z :=
  match se_packetData e with Some d => countIf (se_from e) (se_to e) d | None => 0 end.
Definition inflight (s : NetworkSimulator) : Z :=
  sum_with live (ns_packetEntries s) + sum_with live (ns_pendingReceivePackets s).
(** A step that adds at most [n] packets to those in flight. *)
Definition grows (s s' : NetworkSimulator) (n : Z) : Prop :=
  simulator_wf s' ∧ inflight s' ≤ inflight s + n.

Lemma countIf_range from to d : 0 ≤ countIf from to d ≤ 1.
Proof. unfold countIf. destruct (P _ _ _); lia. Qed.
Lemma live_range e : 0 ≤ live e ≤ 1.
Proof. unfold live. destruct (se_packetData e); [apply countIf_range|lia]. Qed.
Lemma live_copyData from to t d : live (mkSimulatorPacketEntry from to t (copyData d)) ≤ countIf from to d.
Proof. unfold live. destruct d; simpl; pose proof (countIf_range from to []); lia. Qed.
Lemma live_none e : live (e <| se_packetData := None |>) = 0.
Proof. done. Qed.
Lemma grows_refl s : simulator_wf s → grows s s 0.
Proof. split; [done|lia]. Qed.
Lemma grows_trans s1 s2 s3 a b : grows s1 s2 a → grows s2 s3 b → grows s1 s3 (a + b).
Proof. intros [_ ?] [? ?]. split; [done|lia]. Qed.

Lemma randomUint64_wp s Q :
  simulator_wf s → (∀ r s', grows s s' 0 → Q r s') → wp randomUint64 Q s.
Proof.
  intros Hwf HQ. apply HQ. split; [|unfold inflight; simpl; lia].
  destruct Hwf. split; simpl; try done. by apply xorshift_range.
Qed.
Lemma randomFloat_wp a b s Q :
  simulator_wf s → (∀ r s', grows s s' 0 → Q r s') → wp (randomFloat a b) Q s.
Proof. intros Hwf HQ. apply wp_bind, randomUint64_wp; [done|]. intros r s' Hs'. by apply wp_ret, HQ. Qed.
Lemma queuePacket_wp from to d delay s :
  simulator_wf s → wp (queuePacket from to d delay) (λ _ s', grows s s' (countIf from to d)) s.
Proof.
  intros Hwf. apply wp_bind, wp_gets, wp_bind, wp_gets, wp_bind.
  assert (0 ≤ ns_currentIndex s < Z.of_nat (length (ns_packetEntries s))) as Hi
    by (rewrite (sw_entries _ Hwf); apply (sw_index _ Hwf)).
  apply wp_awrite; [done|]. apply wp_modify.
  destruct (aget_Some _ _ Hi) as [x Hx].
  split; [destruct Hwf; split; simpl; try done; [by apply Z.mod_pos_bound|by rewrite length_ainsert]|].
  unfold inflight. cbn [ns_packetEntries ns_pendingReceivePackets set setter].
  erewrite sum_with_insert by exact Hx.
  pose proof (live_copyData from to (f64_add (ns_time s) (f64_of_f32 delay)) d). pose proof (live_range x). lia.
Qed.
Lemma simulator_send_wp from to d s :
  simulator_wf s → wp (SendPacket from to d) (λ _ s', grows s s' (2 * countIf from to d)) s.
Proof.
  intros Hwf. pose proof (countIf_range from to d) as Hc. unfold SendPacket.
  apply wp_bind, randomFloat_wp; [done|]. intros draw s1 Hs1.
  apply wp_bind, wp_gets. destruct (SFleb draw _).
  { apply wp_ret. destruct Hs1. split; [done|lia]. }
  apply wp_bind, wp_gets, wp_bind, wp_gets, wp_bind.
  eapply (wp_mono _ (λ _ s', grows s s' 0)).
  { destruct (SFltb _ _); [|by apply wp_ret]. apply wp_bind, randomFloat_wp; [apply Hs1|].
    intros r s2 Hs2. apply wp_ret. by apply (grows_trans _ _ _ 0 0 Hs1). }
  intros delay s2 Hs2. apply wp_bind. eapply wp_mono; [by apply queuePacket_wp, Hs2|].
  intros [] s3 Hs3. pose proof (grows_trans _ _ _ _ _ Hs2 Hs3) as H3.
  apply wp_bind, randomFloat_wp; [apply Hs3|]. intros draw2 s4 Hs4.
  pose proof (grows_trans _ _ _ _ _ H3 Hs4) as H4. apply wp_bind, wp_gets. destruct (SFleb draw2 _).
  - apply wp_bind, randomFloat_wp; [apply Hs4|]. intros r s5 Hs5.
    eapply wp_mono; [by apply queuePacket_wp, Hs5|]. intros [] s6 Hs6.
    pose proof (grows_trans _ _ _ _ _ (grows_trans _ _ _ _ _ H4 Hs5) Hs6) as [? ?]. split; [done|lia].
  - apply wp_ret. destruct H4. split; [done|lia].
Qed.

(** Writing an entry changes the count by the difference of the two. *)
Lemma grows_pending s i e e' :
  simulator_wf s → aget (ns_pendingReceivePackets s) i = Some e →
  grows s (s <| ns_pendingReceivePackets := ainsert i e' (ns_pendingReceivePackets s) |>) (live e' - live e).
Proof.
  intros Hwf He. split; [destruct Hwf; split; simpl; try done; by rewrite length_ainsert|].
  unfold inflight. cbn [ns_packetEntries ns_pendingReceivePackets set setter].
  erewrite sum_with_insert by exact He. lia.
Qed.
Lemma grows_entries s i e e' :
  simulator_wf s → aget (ns_packetEntries s) i = Some e →
  grows s (s <| ns_packetEntries := ainsert i e' (ns_packetEntries s) |>) (live e' - live e).
Proof.
  intros Hwf He. split; [destruct Hwf; split; simpl; try done; by rewrite length_ainsert|].
  unfold inflight. cbn [ns_packetEntries ns_pendingReceivePackets set setter].
  erewrite sum_with_insert by exact He. lia.
Qed.
Lemma grows_less s s' n m : grows s s' n → n ≤ m → grows s s' m.
Proof. intros [? ?] ?. split; [done|lia]. Qed.

Definition delivered (to : Address) (rs : list (list byte * Address)) : Z :=
  sum_with (λ r, countIf r.2 to r.1) rs.
Lemma receiveLoop_wp ixs to n maxPackets s :
  simulator_wf s → Forall (λ i, 0 ≤ i < simulatorNumPendingReceivePackets) ixs →
  wp (receiveLoop ixs to n maxPackets)
    (λ rs s', grows s s' (- delivered to rs) ∧ (n ≤ maxPackets → n + Z.of_nat (length rs) ≤ maxPackets)) s.
Proof.
  intros Hwf Hixs. revert n s Hwf. induction Hixs as [|i ixs Hi _ IH]; intros n s Hwf; cbn [receiveLoop].
  { apply wp_ret. split; [by apply grows_refl|simpl; lia]. }
  destruct (Z.eqb_spec n maxPackets).
  { apply wp_ret. split; [by apply grows_refl|simpl; lia]. }
  rewrite <-(sw_pending _ Hwf) in Hi. destruct (aget_Some _ _ Hi) as [e He].
  apply wp_bind. eapply wp_aread; [done|]. destruct (se_packetData e) as [d|] eqn:Hd; [|by apply IH].
  destruct (Equal (se_to e) to) eqn:Heq; cbn [negb]; [|by apply IH].
  apply wp_bind, wp_awrite; [done|]. apply Equal_spec in Heq.
  pose proof (grows_pending s i e (e <| se_packetData := None |>) Hwf He) as Hg.
  rewrite live_none in Hg. apply wp_bind. eapply wp_mono; [apply IH, Hg|].
  intros rs s' [Hs' Hlen]. apply wp_ret. cbn [length]. split; [|lia].
  eapply grows_less; [by eapply grows_trans|]. unfold delivered. cbn [sum_with foldr fst snd].
  unfold live. rewrite Hd. unfold countIf at 1 3. rewrite (HP _ _ _ _ Heq). unfold sum_with. lia.
Qed.
Lemma ReceivePackets_wp to maxPackets s :
  simulator_wf s →
  wp (ReceivePackets to maxPackets)
    (λ rs s', grows s s' (- delivered to rs) ∧ (0 ≤ maxPackets → Z.of_nat (length rs) ≤ maxPackets)) s.
Proof.
  intros Hwf. apply wp_bind, wp_gets. eapply wp_mono; [apply receiveLoop_wp; [done|]|].
  - apply list.Forall_forall. intros i Hi%elem_of_seqZ. pose proof (sw_num _ Hwf). lia.
  - intros rs s' [Hg Hl]. split; [done|lia].
Qed.

Lemma updateLoop_wp ixs time s :
  simulator_wf s → Forall (λ i, 0 ≤ i < simulatorNumPacketEntries) ixs →
  wp (updateLoop ixs time) (λ _ s', grows s s' 0) s.
Proof.
  intros Hwf Hixs. revert s Hwf. induction Hixs as [|i ixs Hi _ IH]; intros s Hwf; cbn [updateLoop].
  { by apply wp_ret, grows_refl. }
  rewrite <-(sw_entries _ Hwf) in Hi. destruct (aget_Some _ _ Hi) as [e He].
  apply wp_bind. eapply wp_aread; [done|]. destruct (se_packetData e) as [d|] eqn:Hd; [|by apply IH].
  apply wp_bind, wp_gets. destruct (Z.eqb_spec (ns_numPendingReceivePackets s) simulatorNumPendingReceivePackets).
  { by apply wp_ret, grows_refl. }
  destruct (f64_leb _ _); [|by apply IH].
  assert (0 ≤ ns_numPendingReceivePackets s < Z.of_nat (length (ns_pendingReceivePackets s))) as Hn.
  { rewrite (sw_pending _ Hwf). pose proof (sw_num _ Hwf). lia. }
  destruct (aget_Some _ _ Hn) as [old Hold].
  apply wp_bind, wp_awrite; [done|]. pose proof (grows_pending s _ old e Hwf Hold) as H1.
  set (s1 := s <| ns_pendingReceivePackets := _ |>) in *.
  apply wp_bind, wp_modify.
  assert (grows s1 (s1 <| ns_numPendingReceivePackets ::= λ n, n + 1 |>) 0) as H2.
  { split; [|unfold inflight; simpl; lia]. destruct H1 as [[] _]. rewrite (sw_pending _ Hwf) in Hn.
    split; simpl in *; try done. lia. }
  set (s2 := s1 <| ns_numPendingReceivePackets ::= _ |>) in *.
  apply wp_bind, wp_awrite; [done|].
  pose proof (grows_entries s2 i e (e <| se_packetData := None |>) (proj1 H2) He) as H3.
  pose proof (grows_trans _ _ _ _ _ (grows_trans _ _ _ _ _ H1 H2) H3) as H. rewrite live_none in H.
  eapply wp_mono; [apply IH, H|]. intros [] s' Hs'. eapply grows_less; [by eapply grows_trans|].
  pose proof (live_range old). lia.
Qed.
Lemma clear_pending_wp (f : simulatorPacketEntry → simulatorPacketEntry) (ixs : list Z) s :
  (∀ e, live (f e) = 0) →
  simulator_wf s → Forall (λ i, 0 ≤ i < simulatorNumPendingReceivePackets) ixs →
  wp (for_ ixs (λ i, entry ← aread ns_pendingReceivePackets i; awrite ns_pendingReceivePackets i (f entry)))
    (λ _ s', grows s s' 0) s.
Proof.
  intros Hf Hwf Hixs. apply (wp_mono _ (λ _ s', grows s s' 0 ∧ Forall (λ i, 0 ≤ i < simulatorNumPendingReceivePackets) [])); [|naive_solver].
  apply (wp_for (λ l s', grows s s' 0 ∧ Forall (λ i, 0 ≤ i < simulatorNumPendingReceivePackets) l)).
  { split; [by apply grows_refl|done]. }
  intros i l s1 [Hs1 [Hi Hl]%Forall_cons]. pose proof (proj1 Hs1) as Hwf1.
  rewrite <-(sw_pending _ Hwf1) in Hi. destruct (aget_Some _ _ Hi) as [e He].
  apply wp_bind. eapply wp_aread; [done|]. apply wp_awrite; [done|]. split; [|done].
  pose proof (grows_pending s1 i e (f e) Hwf1 He) as Hg. rewrite Hf in Hg.
  eapply grows_less; [by eapply grows_trans|]. pose proof (live_range e). lia.
Qed.
Lemma seqZ_below n m : n ≤ m → Forall (λ i, 0 ≤ i < m) (seqZ 0 n).
Proof. intros ?. apply list.Forall_forall. intros i Hi%elem_of_seqZ. lia. Qed.
Lemma simulator_update_wp time s : simulator_wf s → wp (Update time) (λ _ s', grows s s' 0) s.
Proof.
  intros Hwf. apply wp_bind, wp_modify. set (s0 := s <| ns_time := time |>).
  assert (grows s s0 0) as H0 by (split; [by destruct Hwf; split|unfold inflight; simpl; lia]).
  apply wp_bind, wp_gets, wp_bind.
  eapply wp_mono; [apply clear_pending_wp; [apply live_none|apply H0|apply seqZ_below, (sw_num _ Hwf)]|].
  intros [] s1 Hs1. pose proof (grows_trans _ _ _ _ _ H0 Hs1) as H1. apply wp_bind, wp_modify.
  assert (grows s1 (s1 <| ns_numPendingReceivePackets := 0 |>) 0) as H2.
  { split; [|unfold inflight; simpl; lia]. destruct Hs1 as [[] _]. split; simpl; try done. }
  pose proof (grows_trans _ _ _ _ _ H1 H2) as H3. apply wp_bind, wp_gets.
  eapply wp_mono; [apply updateLoop_wp; [apply H3|apply seqZ_below]|].
  - by rewrite (sw_entries _ (proj1 H3)).
  - intros [] s' Hs'. apply (grows_trans _ _ _ _ _ H3 Hs').
Qed.
Lemma Reset_wp s : simulator_wf s → wp Reset (λ _ s', grows s s' 0) s.
Proof.
  intros Hwf. apply wp_bind, wp_gets, wp_bind.
  apply (wp_mono _ (λ _ s', grows s s' 0 ∧ ns_numPendingReceivePackets s' = ns_numPendingReceivePackets s ∧
    Forall (λ i, 0 ≤ i < simulatorNumPacketEntries) [])).
  { apply (wp_for (λ l s', grows s s' 0 ∧ ns_numPendingReceivePackets s' = ns_numPendingReceivePackets s ∧
      Forall (λ i, 0 ≤ i < simulatorNumPacketEntries) l)).
    - split_and!; [by apply grows_refl|done|]. apply seqZ_below. by rewrite (sw_entries _ Hwf).
    - intros i l s1 (Hs1 & Hn & [Hi Hl]%Forall_cons). pose proof (proj1 Hs1) as Hwf1.
      rewrite <-(sw_entries _ Hwf1) in Hi. destruct (aget_Some _ _ Hi) as [e He].
      apply wp_awrite; [done|]. split_and!; [|done|done].
      eapply grows_less; [eapply grows_trans; [exact Hs1|by apply grows_entries]|].
      pose proof (live_range e). unfold live at 1. simpl. lia. }
  intros [] s1 (Hs1 & Hn & _). apply wp_bind, wp_gets, wp_bind.
  apply (wp_mono _ (λ _ s', grows s s' 0 ∧ Forall (λ i, 0 ≤ i < simulatorNumPendingReceivePackets) [])).
  { apply (wp_for (λ l s', grows s s' 0 ∧ Forall (λ i, 0 ≤ i < simulatorNumPendingReceivePackets) l)).
    - split; [done|]. apply seqZ_below. rewrite Hn. apply (sw_num _ Hwf).
    - intros i l s2 [Hs2 [Hi Hl]%Forall_cons]. pose proof (proj1 Hs2) as Hwf2.
      rewrite <-(sw_pending _ Hwf2) in Hi. destruct (aget_Some _ _ Hi) as [e He].
      apply wp_awrite; [done|]. split; [|done].
      eapply grows_less; [eapply grows_trans; [exact Hs2|by apply grows_pending]|].
      pose proof (live_range e). unfold live at 1. simpl. lia. }
  intros [] s2 [Hs2 _]. apply wp_modify. destruct Hs2 as [[] Hle].
  split; [split; simpl; try done; lia|unfold inflight in *; simpl; lia].
Qed.
End conservation.

(** ** Runs *)
Inductive simOp :=
| SimSend (from to : Address) (packetData : list byte)
| SimReceive (to : Address) (maxPackets : Z)
| SimUpdate (time : float64)
| SimReset.
(** A packet as sent or as delivered: source, destination, payload. *)
Definition simPacket : Type := Address * Address * list byte.
Definition simStep (op : simOp) : M NetworkSimulator (list simPacket) :=
  match op with
  | SimSend from to d => SendPacket from to d;; mret []
  | SimReceive to maxPackets =>
      rs ← ReceivePackets to maxPackets; mret ((λ r, (r.2, to, r.1)) <$> rs)
  | SimUpdate time => Update time;; mret []
  | SimReset => Reset;; mret []
  end.
(** Everything that the calls of ReceivePackets delivered. *)
Fixpoint simRun (ops : list simOp) : M NetworkSimulator (list simPacket) :=
  match ops with
  | [] => mret []
  | op :: ops => ps ← simStep op; ps' ← simRun ops; mret (ps ++ ps')
  end.
Definition sentBy (op : simOp) : list simPacket :=
  match op with SimSend from to d => [(from, to, d)] | _ => [] end.
(** How often a packet from [from] to [to] with payload [d] is in a list. *)
Definition occurrences (from to : Address) (d : list byte) (ps : list simPacket) : Z :=
  sum_with (λ p, if bool_decide (p.1.1 = from) && Equal p.1.2 to && bool_decide (p.2 = d) then 1 else 0) ps.

Section runs.
Context (from0 to0 : Address) (d0 : list byte).
Definition is_packet (from to : Address) (d : list byte) : bool :=
  bool_decide (from = from0) && Equal to to0 && bool_decide (d = d0).
Lemma is_packet_proper from to to' d : same_address to to' → is_packet from to d = is_packet from to' d.
Proof.
  intros H. unfold is_packet. f_equal. f_equal. apply eq_true_iff_eq. rewrite !Equal_spec.
  split; intros H'; [by rewrite <-H|by rewrite H].
Qed.
Lemma delivered_occurrences to rs :
  delivered is_packet to rs = occurrences from0 to0 d0 ((λ r, (r.2, to, r.1)) <$> rs).
Proof.
  induction rs as [|r rs IH]; [done|]. unfold delivered, occurrences, sum_with in *.
  rewrite fmap_cons. cbn [foldr]. by rewrite IH.
Qed.
Lemma simStep_wp op s :
  simulator_wf s →
  wp (simStep op) (λ ps s', grows is_packet s s'
    (2 * occurrences from0 to0 d0 (sentBy op) - occurrences from0 to0 d0 ps)) s.
Proof.
  intros Hwf. destruct op as [from to d|to maxPackets|time|]; cbn [simStep sentBy]; apply wp_bind.
  - eapply wp_mono; [by apply simulator_send_wp|]. intros [] s' Hs'. apply wp_ret.
    eapply grows_less; [exact Hs'|]. unfold occurrences, countIf, is_packet. cbn. lia.
  - eapply wp_mono; [apply ReceivePackets_wp; [apply is_packet_proper|done]|].
    intros rs s' [Hs' _]. apply wp_ret. rewrite delivered_occurrences in Hs'.
    eapply grows_less; [exact Hs'|]. cbn. lia.
  - eapply wp_mono; [by apply simulator_update_wp|]. intros [] s' Hs'. by apply wp_ret.
  - eapply wp_mono; [by apply Reset_wp|]. intros [] s' Hs'. by apply wp_ret.
Qed.
Lemma simRun_wp ops s :
  simulator_wf s →
  wp (simRun ops) (λ ps s', grows is_packet s s'
    (2 * occurrences from0 to0 d0 (ops ≫= sentBy) - occurrences from0 to0 d0 ps)) s.
Proof.
  revert s. induction ops as [|op ops IH]; intros s Hwf; cbn [simRun].
  { apply wp_ret. by apply grows_refl. }
  apply wp_bind. eapply wp_mono; [by apply simStep_wp|]. intros ps s1 Hs1.
  apply wp_bind. eapply wp_mono; [apply IH, Hs1|]. intros ps' s2 Hs2. apply wp_ret.
  rewrite bind_cons. unfold occurrences in *. rewrite !sum_with_app.
  eapply grows_less; [eapply grows_trans; [exact Hs1|exact Hs2]|]. lia.
Qed.
End runs.

(** A new simulator whose public fields the application has set. *)
Definition configured (latency jitter loss duplicate : float32) : NetworkSimulator :=
  NewNetworkSimulator <| ns_LatencyMilliseconds := latency |> <| ns_JitterMilliseconds := jitter |>
    <| ns_PacketLossPercent := loss |> <| ns_DuplicatePacketPercent := duplicate |>.
Lemma length_replicate_Z {A : Type} (n : Z) (x : A) : 0 ≤ n → Z.of_nat (length (replicate (Z.to_nat n) x)) = n.
Proof. intros Hn. rewrite length_replicate. lia. Qed.
Lemma configured_wf latency jitter loss duplicate : simulator_wf (configured latency jitter loss duplicate).
Proof.
  unfold configured, NewNetworkSimulator. split; cbn [set setter ns_rngState ns_currentIndex
    ns_numPendingReceivePackets ns_packetEntries ns_pendingReceivePackets].
  - done.
  - done.
  - done.
  - by apply length_replicate_Z.
  - by apply length_replicate_Z.
Qed.
Lemma configured_empty P latency jitter loss duplicate : inflight P (configured latency jitter loss duplicate) = 0.
Proof.
  unfold inflight, configured, NewNetworkSimulator.
  cbn [set setter ns_packetEntries ns_pendingReceivePackets]. by rewrite !sum_with_replicate.
Qed.

(** C37. The simulator is a network: for every setting of latency, jitter, loss and
    duplication (not even finite numbers are assumed) and every sequence of calls
    of SendPacket, ReceivePackets, Update and Reset, no call indexes out of range,
    the ring index, the buffers and the never-zero generator state stay in range,
    and every packet delivered to an address was sent to that address: a payload
    is delivered from a source to a destination at most twice as often as it was
    sent there, and never if it was not sent. *)
Theorem simulator_conserves (latency jitter loss duplicate : float32) (ops : list simOp)
  (from to : Address) (d : list byte) :
  ∃ delivered s', simRun ops (configured latency jitter loss duplicate) = Some (delivered, s') ∧
    simulator_wf s' ∧
    occurrences from to d delivered ≤ 2 * occurrences from to d (ops ≫= sentBy).
Proof.
  pose proof (simRun_wp from to d ops _ (configured_wf latency jitter loss duplicate)) as H.
  apply wp_inv in H as (ps & s' & Hrun & Hwf & Hle). exists ps, s'. split_and!; [done|done|].
  rewrite configured_empty in Hle.
  assert (0 ≤ inflight (is_packet from to d) s'); [|lia].
  unfold inflight. assert (∀ l, 0 ≤ sum_with (live (is_packet from to d)) l) as Hn; [|pose proof (Hn (ns_packetEntries s')); pose proof (Hn (ns_pendingReceivePackets s')); lia].
  induction l as [|e l IH]; [done|]. unfold sum_with in *. cbn. pose proof (live_range (is_packet from to d) e). lia.
Qed.

(** ** Zero values *)

(** The next value of the generator, and whether its upper 24 bits, those that
    randomFloat uses, are all zero. *)
Definition nextDraw (s : NetworkSimulator) : Z := u64 (xorshift (ns_rngState s) * 0x2545F4914F6CDD1D).
Definition draws_zero (s : NetworkSimulator) : Prop := Z.shiftr (nextDraw s) 40 = 0.
(** C38. A loss percentage of zero still loses packets: comparing with <= drops the
    packet whenever the random number is exactly zero. SendPacket then queues
    nothing, whatever the other settings; only the generator advances. The
    comment on NetworkSimulator says that zero values simulate a perfect
    network. *)
Theorem zero_loss_drops (from to : Address) (packetData : list byte) (s : NetworkSimulator)
  (Hloss : ns_PacketLossPercent s = f32_of_Z 0) (Hdraw : draws_zero s) :
  SendPacket from to packetData s = Some (tt, s <| ns_rngState := xorshift (ns_rngState s) |>).
Proof.
  assert (randomFloat (f32_of_Z 0) (f32_of_Z 100) s =
    Some (f32_of_Z 0, s <| ns_rngState := xorshift (ns_rngState s) |>)) as Hr.
  { transitivity (Some (f32_add (f32_of_Z 0) (f32_mul (f32_div (f32_of_Z (Z.shiftr (nextDraw s) 40))
      (f32_of_Z (Z.shiftl 1 24))) (f32_sub (f32_of_Z 100) (f32_of_Z 0))),
      s <| ns_rngState := xorshift (ns_rngState s) |>)); [reflexivity|]. by rewrite Hdraw. }
  assert (wp (SendPacket from to packetData)
    (λ _ s', s' = s <| ns_rngState := xorshift (ns_rngState s) |>) s) as Hwp.
  { apply wp_bind. eapply wp_run; [exact Hr|]. apply wp_bind, wp_gets.
    change (ns_PacketLossPercent (s <| ns_rngState := xorshift (ns_rngState s) |>)) with (ns_PacketLossPercent s).
    by rewrite Hloss. }
  apply wp_inv in Hwp as ([] & s' & Hrun & ->). exact Hrun.
Qed.
Definition sample_unlucky : NetworkSimulator :=
  NewNetworkSimulator <| ns_rngState := 11013388057781577488 |>.
Lemma zero_loss_drops_witness :
  SendPacket zeroAddress zeroAddress [byte.of_Z 1] sample_unlucky =
  Some (tt, sample_unlucky <| ns_rngState := xorshift 11013388057781577488 |>).
Proof. apply (zero_loss_drops zeroAddress zeroAddress [byte.of_Z 1] sample_unlucky); reflexivity. Defined.

(** A packet sent over a simulator with zero values (and, to compute with, small
    buffers), moved by Update and picked up once. *)
Definition sample_source : Address := mkAddress AddressIPv4 (zeros 4) (replicate 8 0) 1.
Definition sample_sink : Address := mkAddress AddressIPv4 (zeros 4) (replicate 8 0) 2.
Definition sample_ops : list simOp :=
  [SimSend sample_source sample_sink [byte.of_Z 1]; SimUpdate f64_1; SimReceive sample_source 10;
   SimReceive sample_sink 10; SimReceive sample_sink 10].
Example simulator_sample :
  fst <$> simRun sample_ops (NewNetworkSimulator <| ns_packetEntries := replicate 8 zeroEntry |>
    <| ns_pendingReceivePackets := replicate 8 zeroEntry |>) = Some [(sample_source, sample_sink, [byte.of_Z 1])].
Proof. vm_compute. reflexivity. Qed.
End Simulator.
