(* ===== verification/AddressString.v ===== *)
(** address.go: ports, conversions from and to netip addresses, [ParseAddress]
    and [String]. A Go string is a list of bytes. The result of ParseAddress is
    [None] for a panic, and otherwise an error or an address; the address that
    accompanies an error is the zero value. *)

From S2P Require Import Prelude Constants Text Netip Address.

(** The port must be all digits and fit in 16 bits; [None] is ok = false. *)
Fixpoint parsePort_loop (s : list byte) (value : Z) : option Z :=
  match s with
  | [] => Some (u16 value)
  | c :: s =>
      if (byte.unsigned c <? 48) || (57 <? byte.unsigned c) then None
      else
        let value := value * 10 + (byte.unsigned c - 48) in
        if 65535 <? value then None else parsePort_loop s value
  end.
Definition parsePort (s : list byte) : option Z :=
  if bool_decide (length s = 0%nat) then None else parsePort_loop s 0.

(** The eight groups of a 16 byte array. *)
Definition groupAt (raw : list byte) (i : nat) : Z :=
  Z.lor (u16 (Z.shiftl (byte.unsigned (nth (i * 2) raw (byte.of_Z 0))) 8))
    (byte.unsigned (nth (i * 2 + 1) raw (byte.of_Z 0))).
Definition addressGroups (raw : list byte) : list Z := groupAt raw <$> seq 0 8.

Definition addressFromNetip (addr : netipAddr) (port : Z) : Address :=
  match Netip.Unmap addr with
  | Addr4 a4 => mkAddress AddressIPv4 a4 (replicate 8 0) port
  | Addr16 raw _ => mkAddress AddressIPv6 (zeros 4) (addressGroups raw) port
  end.
(** The address and port of a netip.AddrPort. *)
Definition toNetip (address : Address) : netipAddr * Z :=
  if Type_ address =? AddressIPv4 then (Addr4 (IPv4 address), Port address)
  else
    (Addr16 (IPv6 address ≫= λ g, [byte.of_Z (Z.shiftr g 8); byte.of_Z g]) [], Port address).

(** ** ParseAddress *)
Inductive addressError :=
| InvalidPort (addressString : list byte)
| FailedToParse (addressString : list byte).
(** What a search for a port at the end of the text finds. *)
Inductive portScan :=
| NoPort
| BadPort
| FoundPort (port : Z) (s : list byte).

(** for i < 6: a port after "]:", not before index 3. *)
Fixpoint bracketPort (n : nat) (index : Z) (s : list byte) : option portScan :=
  match n with
  | O => Some NoPort
  | S n =>
      if index <? 3 then Some NoPort
      else
        c ← aget s index;
        if bool_decide (c = chr ":") then
          (c' ← aget s (index - 1);
           if bool_decide (c' = chr "]") then
             match parsePort (drop (Z.to_nat (index + 1)) s) with
             | None => Some BadPort
             | Some port => Some (FoundPort port (take (Z.to_nat (index - 1)) s))
             end
           else bracketPort n (index - 1) s)
        else bracketPort n (index - 1) s
  end.
(** for i < 6: a port after the last colon. *)
Fixpoint colonPort (n : nat) (index : Z) (s : list byte) : option portScan :=
  match n with
  | O => Some NoPort
  | S n =>
      if index <? 0 then Some NoPort
      else
        c ← aget s index;
        if bool_decide (c = chr ":") then
          match parsePort (drop (Z.to_nat (index + 1)) s) with
          | None => Some BadPort
          | Some port => Some (FoundPort port (take (Z.to_nat index) s))
          end
        else colonPort n (index - 1) s
  end.

Definition hasPrefix (s prefix : list byte) : bool := bool_decide (take (length prefix) s = prefix).
Definition trimSuffix (s suffix : list byte) : list byte :=
  if bool_decide (length suffix ≤ length s)%nat
     && bool_decide (drop (length s - length suffix) s = suffix)
  then take (length s - length suffix) s else s.
(** The slice s[i:]. *)
Definition sliceFrom (s : list byte) (i : nat) : option (list byte) :=
  if bool_decide (i ≤ length s)%nat then Some (drop i s) else None.

(** The text without brackets and port, and the port found so far. *)
Definition parseBrackets (s : list byte) : option portScan :=
  if hasPrefix s [chr "["] then
    scan ← bracketPort 6 (Z.of_nat (length s) - 1) s;
    let strip (port : Z) (s : list byte) :=
      s ← sliceFrom (trimSuffix s [chr "]"]) 1; Some (FoundPort port s) in
    match scan with
    | BadPort => Some BadPort
    | NoPort => strip 0 s
    | FoundPort port s => strip port s
    end
  else Some (FoundPort 0 s).
(** The rest of ParseAddress: as IPv6, otherwise as IPv4 with a port. *)
Definition parseHost (addressString s : list byte) (port : Z) : option (addressError + Address) :=
  let asIPv4 (s : list byte) (port : Z) :=
    match Netip.ParseAddr s with
    | Some (Addr4 a4) => Some (inr (mkAddress AddressIPv4 a4 (replicate 8 0) port))
    | _ => Some (inl (FailedToParse addressString))
    end in
  match Netip.ParseAddr s with
  | Some (Addr16 raw _) => Some (inr (mkAddress AddressIPv6 (zeros 4) (addressGroups raw) port))
  | _ =>
      scan ← colonPort 6 (Z.of_nat (length s) - 1) s;
      match scan with
      | BadPort => Some (inl (InvalidPort addressString))
      | NoPort => asIPv4 s port
      | FoundPort port s => asIPv4 s port
      end
  end.
Definition truncateAddress (addressString : list byte) : list byte :=
  if bool_decide (maxAddressStringLength - 1 < length addressString)%nat
  then take (maxAddressStringLength - 1) addressString else addressString.
Definition ParseAddress (addressString : list byte) : option (addressError + Address) :=
  let addressString := truncateAddress addressString in
  scan ← parseBrackets addressString;
  match scan with
  | BadPort => Some (inl (InvalidPort addressString))
  | NoPort => parseHost addressString addressString 0
  | FoundPort port s => parseHost addressString s port
  end.

(** ** String *)
Definition addressString4 (address : Address) : list byte :=
  match IPv4 address with
  | [a; b; c; d] =>
      decimal (byte.unsigned a) ++ [chr "."] ++ decimal (byte.unsigned b) ++ [chr "."] ++
      decimal (byte.unsigned c) ++ [chr "."] ++ decimal (byte.unsigned d)
  | _ => []
  end.
Definition AddressString (address : Address) : list byte :=
  if Type_ address =? AddressIPv6 then
    (let '(addr, _) := toNetip address in
     if Port address =? 0 then Netip.String_ addr
     else [chr "["] ++ Netip.String_ addr ++ [chr "]"; chr ":"] ++ decimal (Port address))
  else if Type_ address =? AddressIPv4 then
    (if negb (Port address =? 0)
     then addressString4 address ++ [chr ":"] ++ decimal (Port address)
     else addressString4 address)
  else [chr "N"; chr "O"; chr "N"; chr "E"].

(** ** Ports *)
Definition digit_value (c : byte) : Z := byte.unsigned c - 48.
(** The number that a string of decimal digits denotes. *)
Definition port_value (s : list byte) : Z := value 10 0 (digit_value <$> s).

Lemma is_digit_alt c : (byte.unsigned c <? 48) || (57 <? byte.unsigned c) = negb (is_digit c).
Proof. unfold is_digit. by rewrite negb_andb, !Z.leb_antisym, !negb_involutive. Qed.
Lemma digit_value_range c : is_digit c = true → 0 ≤ digit_value c < 10.
Proof. unfold is_digit, digit_value. intros [?%Z.leb_le ?%Z.leb_le]%andb_prop. lia. Qed.

Lemma parsePort_loop_spec s v p :
  0 ≤ v ≤ 65535 →
  parsePort_loop s v = Some p ↔
  Forall (λ c, is_digit c = true) s ∧ value 10 v (digit_value <$> s) = p ∧ p ≤ 65535.
Proof.
  revert v. induction s as [|c s IH]; intros v Hv; cbn [parsePort_loop]; rewrite ?fmap_nil, ?fmap_cons.
  { unfold u16. rewrite Z.mod_small by lia. cbn [value foldl]. split; [intros [= <-]|intros (_ & <- & _)]; [|done].
    split_and!; [done|done|lia]. }
  rewrite is_digit_alt, Forall_cons. destruct (is_digit c) eqn:Hc; cbn [negb]; [|naive_solver].
  pose proof (digit_value_range c Hc) as Hd. fold (digit_value c).
  change (value 10 v (digit_value c :: (digit_value <$> s)))
    with (value 10 (v * 10 + digit_value c) (digit_value <$> s)).
  destruct (Z.ltb_spec 65535 (v * 10 + digit_value c)).
  - split; [done|]. intros ((_ & Hs) & Hval & Hp). exfalso.
    enough (v * 10 + digit_value c ≤ value 10 (v * 10 + digit_value c) (digit_value <$> s)) as Hge
      by (rewrite Hval in Hge; lia).
    apply value_ge; [lia|lia|]. apply Forall_fmap. eapply Forall_impl; [exact Hs|].
    intros x Hx%digit_value_range. simpl. lia.
  - rewrite IH by lia. naive_solver.
Qed.
Lemma parsePort_spec s p :
  parsePort s = Some p ↔
  s ≠ [] ∧ Forall (λ c, is_digit c = true) s ∧ port_value s = p ∧ p ≤ 65535.
Proof.
  unfold parsePort. case_bool_decide as Hs.
  - apply length_zero_iff_nil in Hs as ->. naive_solver.
  - rewrite parsePort_loop_spec by lia. unfold port_value.
    assert (s ≠ []) by (intros ->; done). naive_solver.
Qed.
Lemma parsePort_range s p : parsePort s = Some p → is_u16 p.
Proof.
  intros (_ & Hs & <- & Hp)%parsePort_spec. unfold is_u16. split; [|lia].
  apply value_ge; [lia|lia|]. apply Forall_fmap. eapply Forall_impl; [exact Hs|].
  intros x Hx%digit_value_range. simpl. lia.
Qed.
Lemma port_value_decimal z : 0 ≤ z < 10 ^ 20 → port_value (decimal z) = z.
Proof.
  intros Hz. unfold port_value, decimal. rewrite <-list_fmap_compose.
  rewrite <-(digits_value 10 ltac:(lia) 20 z) at 2 by lia. f_equal.
  rewrite <-(list_fmap_id (digits 10 20 z)) at 2. apply list_fmap_ext. intros i d Hd. simpl.
  eapply Forall_lookup_1 in Hd; [|apply (digits_range 10); lia]. simpl in Hd.
  unfold digit_value. by apply digit_char_decimal.
Qed.
Lemma parsePort_decimal p : is_u16 p → parsePort (decimal p) = Some p.
Proof.
  unfold is_u16. intros Hp. apply parsePort_spec. split_and!.
  - apply Netip.decimal_nonempty.
  - apply decimal_chars. lia.
  - apply port_value_decimal. lia.
  - lia.
Qed.
Lemma decimal_port_length p : is_u16 p → (length (decimal p) ≤ 5)%nat.
Proof.
  unfold is_u16. intros Hp. unfold decimal. rewrite length_fmap. apply digits_length_bound; lia.
Qed.

(** ** The two searches for a port *)
Lemma is_digit_not_colon c : is_digit c = true → c ≠ chr ":".
Proof. by intros H ->. Qed.
Lemma aget_app_middle {A} (l : list A) x l' : aget (l ++ x :: l') (Z.of_nat (length l)) = Some x.
Proof. unfold aget. rewrite (proj2 (Z.leb_le _ _)), Nat2Z.id by lia. by apply list_lookup_middle. Qed.
Section scan.
Context (pre ds : list byte) (Hds : Forall (λ c, is_digit c = true) ds).

Lemma aget_digit l k c : (k < length ds)%nat →
  ∃ d, aget (l ++ c :: ds) (Z.of_nat (length l + S k)) = Some d ∧ d ≠ chr ":".
Proof.
  intros Hk. destruct (lookup_lt_is_Some_2 ds k Hk) as [d Hd]. exists d. split.
  - unfold aget. rewrite (proj2 (Z.leb_le _ _)), Nat2Z.id by lia.
    rewrite lookup_app_r by lia. by replace (length l + S k - length l)%nat with (S k) by lia.
  - apply is_digit_not_colon. exact (Forall_lookup_1 _ _ _ _ Hds Hd).
Qed.
Lemma colonPort_found n k :
  (k ≤ length ds)%nat → (k < n)%nat →
  colonPort n (Z.of_nat (length pre + k)) (pre ++ chr ":" :: ds) =
  Some match parsePort ds with Some port => FoundPort port pre | None => BadPort end.
Proof.
  revert n. induction k as [|k IH]; intros [|n] Hk Hn; [lia| |lia|]; cbn [colonPort].
  - rewrite Nat.add_0_r, (proj2 (Z.ltb_ge _ _)) by lia. rewrite aget_app_middle. cbn [mbind option_bind].
    rewrite bool_decide_eq_true_2 by done. rewrite Nat2Z.id, take_app_length.
    replace (Z.to_nat (Z.of_nat (length pre) + 1)) with (length pre + 1)%nat by lia.
    rewrite drop_app_add. change (drop 1 (chr ":" :: ds)) with ds. by destruct (parsePort ds).
  - rewrite (proj2 (Z.ltb_ge _ _)) by lia. destruct (aget_digit pre k (chr ":")) as (d & -> & Hd); [lia|].
    cbn [mbind option_bind]. rewrite bool_decide_eq_false_2 by done.
    replace (Z.of_nat (length pre + S k) - 1) with (Z.of_nat (length pre + k)) by lia. apply IH; lia.
Qed.
Lemma bracketPort_found n k :
  (2 ≤ length pre)%nat → (k ≤ length ds)%nat → (k < n)%nat →
  bracketPort n (Z.of_nat (length pre + S k)) (pre ++ chr "]" :: chr ":" :: ds) =
  Some match parsePort ds with Some port => FoundPort port pre | None => BadPort end.
Proof.
  intros Hpre. revert n. induction k as [|k IH]; intros [|n] Hk Hn; [lia| |lia|]; cbn [bracketPort].
  - rewrite (proj2 (Z.ltb_ge _ _)) by lia.
    replace (pre ++ chr "]" :: chr ":" :: ds) with ((pre ++ [chr "]"]) ++ chr ":" :: ds) by by rewrite <-app_assoc.
    replace (length pre + 1)%nat with (length (pre ++ [chr "]"])) by by rewrite length_app.
    rewrite aget_app_middle. cbn [mbind option_bind].
    rewrite bool_decide_eq_true_2, <-app_assoc by done. cbn [app].
    replace (Z.of_nat (length (pre ++ [chr "]"])) - 1) with (Z.of_nat (length pre))
      by (rewrite length_app; simpl; lia).
    rewrite aget_app_middle. cbn [mbind option_bind]. rewrite bool_decide_eq_true_2 by done.
    rewrite Nat2Z.id, take_app_length.
    replace (Z.to_nat (Z.of_nat (length (pre ++ [chr "]"])) + 1)) with (length pre + 2)%nat
      by (rewrite length_app; simpl; lia).
    rewrite drop_app_add. change (drop 2 (chr "]" :: chr ":" :: ds)) with ds. by destruct (parsePort ds).
  - rewrite (proj2 (Z.ltb_ge _ _)) by lia.
    replace (length pre + S (S k))%nat with (length (pre ++ [chr "]"]) + S k)%nat by (rewrite length_app; simpl; lia).
    replace (pre ++ chr "]" :: chr ":" :: ds) with ((pre ++ [chr "]"]) ++ chr ":" :: ds) by by rewrite <-app_assoc.
    destruct (aget_digit (pre ++ [chr "]"]) k (chr ":")) as (d & -> & Hd); [lia|].
    cbn [mbind option_bind]. rewrite bool_decide_eq_false_2 by done. rewrite <-app_assoc. cbn [app].
    replace (Z.of_nat (length (pre ++ [chr "]"]) + S k) - 1) with (Z.of_nat (length pre + S k))
      by (rewrite length_app; simpl; lia).
    apply IH; lia.
Qed.
End scan.

Lemma colonPort_none s n index :
  Forall (λ c, c ≠ chr ":") s → index < Z.of_nat (length s) → colonPort n index s = Some NoPort.
Proof.
  intros Hs. revert index. induction n as [|n IH]; intros index Hi; [done|]. cbn [colonPort].
  destruct (Z.ltb_spec index 0); [done|]. destruct (aget_Some s index) as [c Hc]; [lia|].
  rewrite Hc. cbn [mbind option_bind]. rewrite bool_decide_eq_false_2; [apply IH; lia|].
  unfold aget in Hc. case_match; [|done]. exact (Forall_lookup_1 _ _ _ _ Hs Hc).
Qed.
(** The searches never index out of range. *)
Lemma colonPort_safe s n index : index < Z.of_nat (length s) →
  ∃ scan, colonPort n index s = Some scan ∧
    match scan with FoundPort port _ => is_u16 port | _ => True end.
Proof.
  revert index. induction n as [|n IH]; intros index Hi; cbn [colonPort]; [by eexists|].
  destruct (Z.ltb_spec index 0); [by eexists|].
  destruct (aget_Some s index) as [c ->]; [lia|]. cbn [mbind option_bind].
  case_bool_decide; [|apply IH; lia].
  destruct (parsePort _) eqn:Hp; eexists; (split; [done|]); [by eapply parsePort_range|done].
Qed.
Lemma bracketPort_safe s n index :
  index < Z.of_nat (length s) → head s = Some (chr "[") →
  ∃ scan, bracketPort n index s = Some scan ∧
    match scan with FoundPort port s' => is_u16 port ∧ head s' = Some (chr "[") | _ => True end.
Proof.
  intros Hi Hh. revert index Hi. induction n as [|n IH]; intros index Hi; cbn [bracketPort]; [by eexists|].
  destruct (Z.ltb_spec index 3); [by eexists|].
  destruct (aget_Some s index) as [c ->]; [lia|]. cbn [mbind option_bind].
  case_bool_decide; [|apply IH; lia].
  destruct (aget_Some s (index - 1)) as [c' ->]; [lia|]. cbn [mbind option_bind].
  case_bool_decide; [|apply IH; lia].
  destruct (parsePort _) eqn:Hp; eexists; (split; [done|]); [|done]. split; [by eapply parsePort_range|].
  destruct s as [|b s]; [done|]. by destruct (Z.to_nat (index - 1)) eqn:?; [lia|].
Qed.

(** ** Conversions *)
Lemma u16_shiftl_byte b : u16 (Z.shiftl (byte.unsigned b) 8) = Z.shiftl (byte.unsigned b) 8.
Proof.
  pose proof (byte.unsigned_range b). unfold u16. apply Z.mod_small. rewrite Z.shiftl_mul_pow2 by lia. lia.
Qed.
Lemma addressGroups_groups raw : length raw = 16%nat → addressGroups raw = Netip.groups raw.
Proof.
  intros Hl. unfold addressGroups, groupAt. do 16 (destruct raw as [|? raw]; [done|]). destruct raw; [|done].
  cbn -[u16 Z.shiftl Z.lor]. by rewrite !u16_shiftl_byte.
Qed.
Lemma addressGroups_valid raw : length raw = 16%nat →
  length (addressGroups raw) = 8%nat ∧ Forall is_u16 (addressGroups raw).
Proof. intros Hl. rewrite addressGroups_groups by done. by destruct (Netip.groups_spec raw 8 Hl) as (?&?&_). Qed.
(** The bytes that [toNetip] makes of an IPv6 address, and the way back. *)
Lemma toNetip_IPv6 a : valid_address a → Type_ a = AddressIPv6 →
  ∃ raw, toNetip a = (Addr16 raw [], Port a) ∧ length raw = 16%nat ∧ addressGroups raw = IPv6 a.
Proof.
  intros [_ Hf] Ht. destruct Hf as [(H4 & _)|(_ & _ & Hl & Hu)]; [by rewrite Ht in H4|].
  unfold toNetip. rewrite Ht. eexists. split; [done|].
  change (IPv6 a ≫= _) with (Netip.bytes_of_groups (IPv6 a)).
  assert (length (Netip.bytes_of_groups (IPv6 a)) = 16%nat) as H16.
  { rewrite Netip.bytes_of_groups_length. lia. }
  split; [done|]. by rewrite addressGroups_groups, Netip.groups_of_bytes.
Qed.
Lemma valid_IPv6_eta a : valid_address a → Type_ a = AddressIPv6 →
  a = mkAddress AddressIPv6 (zeros 4) (IPv6 a) (Port a).
Proof.
  intros [_ Hf] Ht. destruct Hf as [(H4 & _)|(_ & H4 & _)]; [by rewrite Ht in H4|].
  destruct a; simpl in *. by subst.
Qed.
Lemma valid_IPv4_eta a : valid_address a → Type_ a = AddressIPv4 →
  length (IPv4 a) = 4%nat ∧ a = mkAddress AddressIPv4 (IPv4 a) (replicate 8 0) (Port a).
Proof.
  intros [_ Hf] Ht. destruct Hf as [(_ & H4 & H6)|(H6 & _)]; [|by rewrite Ht in H6].
  destruct a; simpl in *. by subst.
Qed.

(** ** Printing and parsing *)
Lemma truncateAddress_id s : (length s ≤ 255)%nat → truncateAddress s = s.
Proof. intros Hs. unfold truncateAddress. rewrite bool_decide_eq_false_2; [done|]. unfold maxAddressStringLength. lia. Qed.
Lemma hasPrefix_cons c s p : hasPrefix (c :: s) [p] = bool_decide (c = p).
Proof. unfold hasPrefix. apply bool_decide_ext. change ([c] = [p] ↔ c = p). naive_solver. Qed.
Lemma trimSuffix_none s c d : c ≠ d → trimSuffix (s ++ [c]) [d] = s ++ [c].
Proof.
  intros Hcd. unfold trimSuffix. rewrite length_app. cbn [length].
  replace (length s + 1 - 1)%nat with (length s) by lia. rewrite drop_app_length.
  rewrite (bool_decide_eq_false_2 (_ = _)) by congruence. by rewrite andb_false_r.
Qed.

Lemma trimSuffix_bracket s :
  head s = Some (chr "[") → (1 ≤ length (trimSuffix s [chr "]"]))%nat.
Proof.
  destruct s as [|b [|b' s]]; [done|by intros [= ->]|]. intros _. unfold trimSuffix.
  destruct (_ && _); simpl; lia.
Qed.

Lemma ParseAddress_IPv6 raw port :
  length raw = 16%nat → is_u16 port →
  let s := Netip.String_ (Addr16 raw []) in
  ParseAddress (if port =? 0 then s else [chr "["] ++ s ++ [chr "]"; chr ":"] ++ decimal port) =
  Some (inr (mkAddress AddressIPv6 (zeros 4) (addressGroups raw) port)).
Proof.
  intros Hraw Hport s. pose proof (Netip.ParseAddr_String6 raw Hraw) as Hparse.
  destruct (Netip.String_plain raw Hraw) as [Hplain Hlen]. fold s in Hparse, Hplain, Hlen.
  assert (s ≠ []) as Hne by by intros Hs; rewrite Hs in Hparse.
  clearbody s. unfold ParseAddress. destruct (Z.eqb_spec port 0) as [->|Hp0].
  - rewrite truncateAddress_id by lia. destruct s as [|c s]; [done|].
    unfold parseBrackets. rewrite hasPrefix_cons, bool_decide_eq_false_2
      by by apply Forall_cons in Hplain as [(_&?&_) _].
    cbn [mbind option_bind]. unfold parseHost. by rewrite Hparse.
  - pose proof (decimal_port_length port Hport) as Hd. rewrite truncateAddress_id.
    2: { rewrite !length_app. cbn [length]. lia. }
    unfold parseBrackets. cbn [app]. rewrite hasPrefix_cons, bool_decide_eq_true_2 by done.
    pose proof (bracketPort_found (chr "[" :: s) (decimal port)) as Hfound.
    unfold is_u16 in Hport. specialize (Hfound (decimal_chars port ltac:(lia)) 6%nat (length (decimal port))).
    rewrite parsePort_decimal in Hfound by done. cbn [app] in Hfound.
    match goal with |- context [bracketPort 6 ?i] =>
      replace i with (Z.of_nat (length (chr "[" :: s) + S (length (decimal port))))
        by (cbn [length]; rewrite length_app; cbn [length]; lia) end.
    rewrite Hfound by (destruct s; [done|]; cbn [length]; lia). cbn [mbind option_bind].
    destruct (exists_last Hne) as (s' & c & ->).
    apply Forall_app in Hplain as [_ [(_&_&Hc) _]%Forall_cons].
    change (chr "[" :: s' ++ [c]) with ((chr "[" :: s') ++ [c]). rewrite trimSuffix_none by done.
    unfold sliceFrom. cbn [app length]. rewrite bool_decide_eq_true_2 by lia. cbn [mbind option_bind].
    change (drop 1 (chr "[" :: s' ++ [c])) with (s' ++ [c]). unfold parseHost. by rewrite Hparse.
Qed.
Lemma string4_chars a4 : Forall (λ c, c ≠ chr ":" ∧ c ≠ chr "[") (Netip.string4 a4).
Proof.
  assert (∀ b, Forall (λ c, c ≠ chr ":" ∧ c ≠ chr "[") (decimal (byte.unsigned b))) as Hd.
  { intros b. eapply Forall_impl; [apply Netip.decimal_hex_chars|].
    intros c [d Hd]. by apply hex_value_sep in Hd as (?&?&?&?&?). }
  destruct a4 as [|a [|b [|c [|d [|]]]]]; try done. cbn [Netip.string4].
  repeat (apply Forall_app; split; [done|]; apply Forall_cons; split; [done|]). done.
Qed.
(** A dotted address followed by more text is never an IPv6 address. *)
Lemma ParseAddr_dotted a4 rest raw zone : length a4 = 4%nat →
  Netip.ParseAddr (Netip.string4 a4 ++ rest) ≠ Some (Addr16 raw zone).
Proof.
  intros H4. destruct a4 as [|a [|b [|c [|d [|]]]]]; try done. unfold Netip.ParseAddr. cbn [Netip.string4].
  rewrite <-app_assoc, Netip.ParseAddr_skip by apply Netip.decimal_hex_chars.
  cbn [app Netip.dispatch]. rewrite bool_decide_eq_true_2 by done. unfold Netip.parseIPv4.
  by intros (? & _ & ?)%fmap_Some.
Qed.
Lemma ParseAddress_IPv4 a4 port :
  length a4 = 4%nat → is_u16 port →
  ParseAddress (if port =? 0 then Netip.string4 a4 else Netip.string4 a4 ++ [chr ":"] ++ decimal port) =
  Some (inr (mkAddress AddressIPv4 a4 (replicate 8 0) port)).
Proof.
  intros H4 Hport. pose proof (Netip.ParseAddr_string4 a4 H4) as Hparse.
  pose proof (string4_chars a4) as Hch. pose proof (Netip.string4_length a4) as Hlen.
  pose proof (λ rest raw zone, ParseAddr_dotted a4 rest raw zone H4) as Hdot.
  assert (Netip.string4 a4 ≠ []) as Hne by by intros Hs; rewrite Hs in Hparse.
  set (s := Netip.string4 a4) in *. clearbody s.
  assert (∀ rest, (length (s ++ rest) ≤ 255)%nat →
    ParseAddress (s ++ rest) = parseHost (s ++ rest) (s ++ rest) 0) as Hplain.
  { intros rest Hl. unfold ParseAddress. rewrite truncateAddress_id by done. destruct s as [|c s]; [done|].
    unfold parseBrackets. cbn [app]. rewrite hasPrefix_cons, bool_decide_eq_false_2; [done|].
    by apply Forall_cons in Hch as [[_ ?] _]. }
  unfold is_u16 in Hport. pose proof (decimal_port_length port Hport) as Hd.
  destruct (Z.eqb_spec port 0) as [->|Hp0].
  - rewrite <-(app_nil_r s), Hplain, app_nil_r by (rewrite app_nil_r; lia). unfold parseHost. rewrite Hparse.
    rewrite colonPort_none; [done| |lia]. eapply Forall_impl; [exact Hch|]. by intros c [? _].
  - rewrite Hplain by (rewrite !length_app; cbn [length]; lia). unfold parseHost.
    pose proof (colonPort_found s (decimal port) (decimal_chars port ltac:(lia)) 6 (length (decimal port))
      ltac:(lia) ltac:(lia)) as Hfound.
    rewrite parsePort_decimal in Hfound by done.
    replace (Z.of_nat (length (s ++ [chr ":"] ++ decimal port)) - 1)
      with (Z.of_nat (length s + length (decimal port))) by (rewrite !length_app; cbn [length]; lia).
    change ([chr ":"] ++ decimal port) with (chr ":" :: decimal port). rewrite Hfound. cbn [mbind option_bind].
    specialize (Hdot (chr ":" :: decimal port)). rewrite Hparse.
    by destruct (Netip.ParseAddr (s ++ _)) as [[]|]; [|by destruct (Hdot a16 zone)|].
Qed.

Lemma ParseAddress_String a :
  valid_address a → ParseAddress (AddressString a) = Some (inr a).
Proof.
  intros Hv. destruct (va_port _ Hv) as [??]. unfold AddressString.
  destruct (va_family _ Hv) as [(Ht & _)|(Ht & _)]; rewrite Ht.
  - destruct (valid_IPv4_eta a Hv Ht) as [H4 ->]. change (AddressIPv4 =? AddressIPv6) with false.
    cbn [Port]. rewrite <-(ParseAddress_IPv4 (IPv4 a) (Port a)) by done.
    change (AddressIPv4 =? AddressIPv4) with true. unfold addressString4. cbn [IPv4].
    by destruct (Port a =? 0).
  - destruct (toNetip_IPv6 a Hv Ht) as (raw & Hraw & Hl & Hg).
    rewrite Hraw. change (AddressIPv6 =? AddressIPv6) with true. cbn iota beta.
    pose proof (ParseAddress_IPv6 raw (Port a) Hl (va_port _ Hv)) as Hp.
    by rewrite Hg, <-(valid_IPv6_eta a Hv Ht) in Hp.
Qed.

(** C29. The string of an address parses back to that address: for every valid
    IPv4 or IPv6 address with any port, and whatever run of zero groups the
    IPv6 form abbreviates, ParseAddress(address.String()) returns the address
    without an error. *)
Theorem address_roundtrip a :
  valid_address a → ParseAddress (AddressString a) = Some (inr a).
Proof. apply ParseAddress_String. Qed.
Lemma address_roundtrip_witness :
  valid_address (mkAddress AddressIPv6 (zeros 4) [8193; 3512; 0; 0; 0; 0; 0; 1] 40000) ∧
  ParseAddress (AddressString (mkAddress AddressIPv6 (zeros 4) [8193; 3512; 0; 0; 0; 0; 0; 1] 40000)) =
  Some (inr (mkAddress AddressIPv6 (zeros 4) [8193; 3512; 0; 0; 0; 0; 0; 1] 40000)).
Proof.
  assert (valid_address (mkAddress AddressIPv6 (zeros 4) [8193; 3512; 0; 0; 0; 0; 0; 1] 40000)) as Hv.
  { constructor; [unfold is_u16; simpl; lia|]. right. split_and!; try done.
    cbn [IPv6]. unfold is_u16. repeat constructor; lia. }
  split; [exact Hv|exact (address_roundtrip _ Hv)].
Defined.

(** ParseAddress is total, and what it returns. *)
Lemma ParseAddress_safe s :
  match ParseAddress s with
  | Some (inr a) => valid_address a
  | Some (inl (InvalidPort t)) | Some (inl (FailedToParse t)) => t = take 255 s
  | None => False
  end.
Proof.
  assert (truncateAddress s = take 255 s) as Htr.
  { unfold truncateAddress. case_bool_decide as Hl; [done|]. unfold maxAddressStringLength in Hl.
    by rewrite take_ge by lia. }
  assert (∀ t port, is_u16 port → match parseHost (truncateAddress s) t port with
    | Some (inr a) => valid_address a
    | Some (inl (InvalidPort t)) | Some (inl (FailedToParse t)) => t = take 255 s | None => False end) as Hhost.
  { intros t port Hport. unfold parseHost. rewrite <-Htr.
    assert (∀ t port, is_u16 port → match (match Netip.ParseAddr t with
      | Some (Addr4 a4) => Some (inr (mkAddress AddressIPv4 a4 (replicate 8 0) port))
      | _ => Some (inl (FailedToParse (truncateAddress s))) end) with
      | Some (inr a) => valid_address a
      | Some (inl (InvalidPort t)) | Some (inl (FailedToParse t)) => t = truncateAddress s | None => False end) as H4.
    { intros t' port' Hport'. destruct (Netip.ParseAddr t') as [[a4|]|] eqn:Ha; [|done..].
      apply Netip.ParseAddr_valid in Ha. constructor; [done|]. by left. }
    destruct (Netip.ParseAddr t) as [[a4|raw zone]|] eqn:Ha.
    2: { apply Netip.ParseAddr_valid in Ha. destruct (addressGroups_valid raw Ha). constructor; [done|]. by right. }
    all: destruct (colonPort_safe t 6 (Z.of_nat (length t) - 1) ltac:(lia)) as (scan & -> & Hscan);
      cbn [mbind option_bind]; specialize (H4 t port Hport) as H4t; rewrite ?Ha in H4t;
      destruct scan; [exact H4t|done|by apply H4]. }
  unfold ParseAddress, parseBrackets.
  assert (is_u16 0) as H0 by done.
  destruct (truncateAddress s) as [|c t] eqn:Hs; [by apply Hhost|].
  rewrite hasPrefix_cons. case_bool_decide as Hc; [subst c|by apply Hhost].
  destruct (bracketPort_safe (chr "[" :: t) 6 (Z.of_nat (length (chr "[" :: t)) - 1)) as (scan & -> & Hscan); [lia|done|].
  cbn [mbind option_bind].
  assert (∀ t', head t' = Some (chr "[") → ∃ t'', sliceFrom (trimSuffix t' [chr "]"]) 1 = Some t'') as Hsl.
  { intros t' Ht'. unfold sliceFrom. rewrite bool_decide_eq_true_2; [eauto|by apply trimSuffix_bracket]. }
  destruct scan as [| |port t'].
  - destruct (Hsl (chr "[" :: t) ltac:(done)) as [t'' ->]. by apply Hhost.
  - done.
  - destruct Hscan as [Hport Ht']. destruct (Hsl t' Ht') as [t'' ->]. by apply Hhost.
Qed.

(** C30. ParseAddress never indexes or slices out of range, on any string. What
    it returns is either an error that quotes the first 255 bytes of the string,
    or a valid address: a known family with all its bytes or groups, the other
    family zero, and a 16 bit port. *)
Theorem ParseAddress_total s :
  match ParseAddress s with
  | Some (inr a) => valid_address a
  | Some (inl (InvalidPort t)) | Some (inl (FailedToParse t)) => t = take 255 s
  | None => False
  end.
Proof. exact (ParseAddress_safe s). Qed.

(** The port a string denotes, as a specification: a nonempty string of decimal
    digits whose value, read as a number of any size, fits in 16 bits. *)
Definition portSpec (s : list byte) : option Z :=
  if negb (bool_decide (s = [])) && forallb is_digit s && (port_value s <=? 65535)
  then Some (port_value s) else None.
(** C31. parsePort agrees with its specification on every string: it never
    truncates or wraps a port, however long the string and however many leading
    zeros it has, although it rejects as soon as the running value is too big. *)
Theorem parsePort_equiv s : parsePort s = portSpec s.
Proof.
  unfold portSpec. destruct (_ && _) eqn:Hc.
  - apply andb_prop in Hc as [[Hne Hd]%andb_prop Hle%Z.leb_le]. apply parsePort_spec.
    split_and!; [|by apply list.Forall_forall; intros c Hc; eapply forallb_forall in Hd; [|apply list_elem_of_In]|done|done].
    intros ->. done.
  - destruct (parsePort s) as [p|] eqn:Hp; [|done]. exfalso.
    apply parsePort_spec in Hp as (Hne & Hd & <- & Hle).
    rewrite bool_decide_eq_false_2, (proj2 (forallb_forall _ _)), (proj2 (Z.leb_le _ _)) in Hc; try done.
    intros c Hin%list_elem_of_In. rewrite list.Forall_forall in Hd. auto.
Qed.

(** An IPv6 address of the form ::ffff:a.b.c.d. *)
Definition mapped_address (a : Address) : bool :=
  bool_decide (Type_ a = AddressIPv6) && bool_decide (take 6 (IPv6 a) = [0; 0; 0; 0; 0; 65535]).
(** What a datagram's sender looks like to the receiver's socket. *)
Definition received_from (a : Address) : Address := addressFromNetip (toNetip a).1 (toNetip a).2.
Lemma Is4In6_mapped raw : length raw = 16%nat →
  Netip.Is4In6 raw = bool_decide (take 6 (addressGroups raw) = [0; 0; 0; 0; 0; 65535]).
Proof.
  intros Hl. rewrite addressGroups_groups by done. unfold Netip.Is4In6. apply bool_decide_ext.
  rewrite <-(take_drop 12 raw) at 2.
  assert (length (take 12 raw) = 12%nat) as Ht by (rewrite length_take; lia).
  assert (take 6 (Netip.groups (take 12 raw ++ drop 12 raw)) = Netip.groups (take 12 raw)) as ->.
  { generalize (drop 12 raw). intros r. destruct (take 12 raw) as [|? l]; [done|].
    do 11 (destruct l as [|? l]; [done|]). by destruct l. }
  change Netip.mapped_prefix with (Netip.bytes_of_groups [0; 0; 0; 0; 0; 65535]).
  destruct (Netip.groups_spec (take 12 raw) 6 Ht) as (_ & _ & Hb).
  split; [intros ->; apply Netip.groups_of_bytes|intros Hg; by rewrite <-Hb, Hg].
  unfold is_u16. repeat constructor; lia.
Qed.
(** The address a socket reports for a datagram is the sender's address,
    for every valid address except an IPv6 address that maps an IPv4 one: that
    is reported as the IPv4 address with the same port, which is never equal to
    the IPv6 address that ParseAddress made of the same text. *)
Theorem received_from_spec a :
  valid_address a →
  (mapped_address a = false → received_from a = a) ∧
  (mapped_address a = true →
     Type_ (received_from a) = AddressIPv4 ∧ Port (received_from a) = Port a ∧
     valid_address (received_from a) ∧ Equal (received_from a) a = false).
Proof.
  intros Hv. unfold received_from, mapped_address, addressFromNetip.
  destruct (va_family _ Hv) as [(Ht & _)|(Ht & _)]; rewrite Ht.
  - split; [intros _|done]. destruct (valid_IPv4_eta a Hv Ht) as [_ He].
    unfold toNetip. by rewrite Ht.
  - destruct (toNetip_IPv6 a Hv Ht) as (raw & -> & Hl & Hg). cbn [fst snd Netip.Unmap].
    rewrite Is4In6_mapped, Hg by done. rewrite bool_decide_eq_true_2 by done. cbn [andb].
    case_bool_decide; (split; [try done|try done]); intros _.
    + cbn [Type_ Port]. split_and!; [done|done|constructor; [apply Hv|left]|].
      * cbn [Type_ IPv4 IPv6]. rewrite length_drop. split_and!; [done|lia|done].
      * unfold Equal. cbn [Type_]. by rewrite Ht.
    + rewrite Hg. symmetry. by apply valid_IPv6_eta.
Qed.
Lemma received_from_witness :
  Equal (received_from (mkAddress AddressIPv6 (zeros 4) [0; 0; 0; 0; 0; 65535; 32512; 1] 40000))
    (mkAddress AddressIPv6 (zeros 4) [0; 0; 0; 0; 0; 65535; 32512; 1] 40000) = false.
Proof.
  apply received_from_spec; [|vm_compute; reflexivity].
  constructor; [unfold is_u16; simpl; lia|]. right. split_and!; try done.
  cbn [IPv6]. unfold is_u16. repeat constructor; lia.
Defined.
