(* ===== verification/Crypto.v ===== *)
(** crypto.go. The AEAD constructions come from golang.org/x/crypto and are a
    parameter: a [CryptoLib] gives the two of them, [CryptoLaws] states what
    their documentation promises. *)

From S2P Require Import Prelude Constants Buffer.

(** cipher.AEAD: Seal returns the ciphertext with the MAC appended, Open the
    plaintext or an error. *)
Record aead := mkAead {
  Seal : ∀ (key nonce additional plaintext : list byte), list byte;
  Open : ∀ (key nonce additional ciphertext : list byte), option (list byte);
}.
Class CryptoLib := {
  chacha20poly1305 : aead;    (* chacha20poly1305.New: 12 byte nonce *)
  xchacha20poly1305 : aead;   (* chacha20poly1305.NewX: 24 byte nonce *)
}.
Definition chachaNonceSize : nat := 12.
Definition xchachaNonceSize : nat := 24.

(** Seal appends 16 bytes; Open inverts Seal; and, both constructions being
    deterministic, Open accepts nothing but what Seal produces under the same
    key, nonce and additional data. *)
Class AeadLaws (a : aead) : Prop := {
  Seal_length k n ad p : length k = KeyBytes → length (Seal a k n ad p) = (length p + MacBytes)%nat;
  Open_Seal k n ad p : length k = KeyBytes → Open a k n ad (Seal a k n ad p) = Some p;
  Open_inv k n ad c p : length k = KeyBytes → Open a k n ad c = Some p → c = Seal a k n ad p;
}.
Class CryptoLaws (C : CryptoLib) : Prop := {
  #[global] chacha_laws :: AeadLaws chacha20poly1305;
  #[global] xchacha_laws :: AeadLaws xchacha20poly1305;
}.

(** ** In place encryption

    The buffer argument stands for a slice whose capacity is its length, which
    holds at every call. [Some (false, _)] is an error return, [None] a panic:
    a slice out of range or a nonce of the wrong size. *)
Section aead_buffers.
Context (a : aead) (nonceSize : nat).

(** aead.Seal(message[:0], nonce, message[:messageLength], additional): in
    place when the ciphertext fits the capacity, into a fresh buffer that is
    dropped otherwise. *)
Definition encrypt_in_place (message : list byte) (messageLength : nat)
  (additional nonce key : list byte) : option (bool * list byte) :=
  if negb (bool_decide (length key = KeyBytes)) then Some (false, message)
  else if negb (bool_decide (messageLength ≤ length message)%nat) then None
  else if negb (bool_decide (length nonce = nonceSize)) then None
  else if bool_decide (messageLength + MacBytes ≤ length message)%nat
  then Some (true, splice message 0 (Seal a key nonce additional (take messageLength message)))
  else Some (true, message).

(** aead.Open(message[:0], nonce, message[:messageLength], additional): the
    plaintext overwrites the front of the buffer; the MAC and what follows
    stay where they are. *)
Definition decrypt_in_place (message : list byte) (messageLength : nat)
  (additional nonce key : list byte) : option (option (list byte)) :=
  if negb (bool_decide (length key = KeyBytes)) then Some None
  else if negb (bool_decide (messageLength ≤ length message)%nat) then None
  else if negb (bool_decide (length nonce = nonceSize)) then None
  else if bool_decide (messageLength < MacBytes)%nat then Some None
  else match Open a key nonce additional (take messageLength message) with
       | Some plaintext => Some (Some (splice message 0 plaintext))
       | None => Some None
       end.

Context `{!AeadLaws a}.
Implicit Types (message additional nonce key : list byte).

Lemma encrypt_in_place_spec message n additional nonce key :
  length key = KeyBytes → length nonce = nonceSize → (n + MacBytes ≤ length message)%nat →
  encrypt_in_place message n additional nonce key =
    Some (true, Seal a key nonce additional (take n message) ++ drop (n + MacBytes) message).
Proof.
  intros Hk Hn Hle. unfold encrypt_in_place.
  rewrite !bool_decide_eq_true_2 by (done || lia). simpl.
  unfold splice. rewrite Seal_length by done. simpl.
  by rewrite length_take, Nat.min_l by lia.
Qed.

Lemma decrypt_in_place_seal key nonce additional plaintext rest :
  length key = KeyBytes → length nonce = nonceSize →
  decrypt_in_place (Seal a key nonce additional plaintext ++ rest) (length plaintext + MacBytes)
    additional nonce key =
  Some (Some (plaintext ++ drop (length plaintext) (Seal a key nonce additional plaintext ++ rest))).
Proof.
  intros Hk Hn. unfold decrypt_in_place.
  rewrite length_app, Seal_length by done.
  rewrite !bool_decide_eq_true_2 by (done || lia).
  rewrite bool_decide_eq_false_2 by (unfold MacBytes; lia). simpl.
  rewrite take_app_length' by (by rewrite Seal_length).
  by rewrite Open_Seal.
Qed.

(** What a successful decryption says about the buffer: its first
    [messageLength] bytes are a sealed plaintext, which now overwrites them up
    to the MAC. *)
Lemma decrypt_in_place_inv message n additional nonce key message' :
  decrypt_in_place message n additional nonce key = Some (Some message') →
  ∃ plaintext, take n message = Seal a key nonce additional plaintext ∧
    (n = length plaintext + MacBytes)%nat ∧ (n ≤ length message)%nat ∧
    message' = plaintext ++ drop (length plaintext) message.
Proof.
  unfold decrypt_in_place. case_bool_decide as Hk; [|done]. simpl.
  case_bool_decide as Hle; [|done]. simpl. case_bool_decide; [|done]. simpl.
  case_bool_decide; [done|].
  destruct (Open a key nonce additional (take n message)) as [p|] eqn:Ho; [|done].
  intros [= <-]. apply Open_inv in Ho; [|done]. exists p. split; [done|].
  apply (f_equal length) in Ho. rewrite length_take, Seal_length, Nat.min_l in Ho by (done || lia).
  split_and!; [done..|]. unfold splice. by simpl.
Qed.

Lemma decrypt_in_place_total message n additional nonce key :
  length nonce = nonceSize → (n ≤ length message)%nat →
  ∃ o, decrypt_in_place message n additional nonce key = Some o ∧
    (∀ message', o = Some message' → length message' = length message).
Proof.
  intros Hn Hle. unfold decrypt_in_place.
  rewrite (bool_decide_eq_true_2 (length nonce = nonceSize)) by done.
  rewrite (bool_decide_eq_true_2 (n ≤ length message)%nat) by done. simpl.
  case_bool_decide as Hk; simpl; [|by eexists].
  case_bool_decide; [by eexists|].
  destruct (Open _ _ _ _ _) as [p|] eqn:Ho; [|by eexists].
  eexists. split; [done|]. intros m [= <-].
  apply Open_inv, (f_equal length) in Ho; [|done].
  rewrite length_take, Seal_length, Nat.min_l in Ho by (done || lia).
  apply length_splice. lia.
Qed.
End aead_buffers.

Section crypto.
Context `{C : CryptoLib}.

Definition encryptAEADBigNonce := encrypt_in_place xchacha20poly1305 xchachaNonceSize.
Definition decryptAEADBigNonce := decrypt_in_place xchacha20poly1305 xchachaNonceSize.
Definition encryptAEAD := encrypt_in_place chacha20poly1305 chachaNonceSize.
Definition decryptAEAD := decrypt_in_place chacha20poly1305 chachaNonceSize.
End crypto.

(** The 96 bit nonce: four zero bytes, then the sequence number. *)
Definition packetNonce (sequence : Z) : option (list byte) :=
  '(_, w) ← (Writer.uint32 0;; Writer.uint64 sequence)
              (mkWriter (replicate 12 (byte.of_Z 0)) 0);
  Some (w_buffer w).

Definition packet_nonce (sequence : Z) : list byte := le_split 4 0 ++ le_split 8 sequence.
Lemma packetNonce_spec sequence : packetNonce sequence = Some (packet_nonce sequence).
Proof.
  unfold packetNonce. rewrite (writes_bind _ _ _ _ (writes_uint32 0) (writes_uint64 sequence)).
  - cbn [mbind option_bind w_buffer]. by rewrite splice_full.
  - done.
Qed.
Lemma length_packet_nonce sequence : length (packet_nonce sequence) = chachaNonceSize.
Proof. unfold packet_nonce. by rewrite length_app, !length_le_split. Qed.
#[export] Hint Rewrite length_packet_nonce : golen.
#[export] Hint Resolve length_packet_nonce : go.

(** Distinct sequence numbers give distinct nonces. *)
Lemma packet_nonce_inj s t : is_u64 s → is_u64 t → packet_nonce s = packet_nonce t → s = t.
Proof.
  intros Hs Ht [_ H]%app_inj_1; [|by rewrite !length_le_split].
  by rewrite <-(le_split_u64 s), <-(le_split_u64 t), H.
Qed.
