(* ===== verification/SampleCrypto.v ===== *)
(** A concrete [CryptoLib] that satisfies [CryptoLaws]: no secrecy, but a
    checked 16 byte tag over key, nonce, additional data and plaintext. It
    instantiates the cryptographic parameter in witnesses and examples. *)

From S2P Require Import Prelude Constants Crypto.

(** The sum of the prefix sums. *)
Definition sample_hash (l : list byte) : Z :=
  (foldl (λ '(s, h) b, let s := s + byte.unsigned b + 1 in (s, h + s)) (0, 0) l).2.
Definition sample_tag (key nonce additional plaintext : list byte) : list byte :=
  le_split MacBytes
    (7 * sample_hash key + 11 * sample_hash nonce + 13 * sample_hash additional + 17 * sample_hash plaintext).
Definition sample_seal (key nonce additional plaintext : list byte) : list byte :=
  plaintext ++ sample_tag key nonce additional plaintext.
Definition sample_open (key nonce additional ciphertext : list byte) : option (list byte) :=
  let n := (length ciphertext - MacBytes)%nat in
  let plaintext := take n ciphertext in
  if decide (drop n ciphertext = sample_tag key nonce additional plaintext)
  then Some plaintext else None.
Definition sample_aead : aead := mkAead sample_seal sample_open.
Definition sample_crypto : CryptoLib :=
  {| chacha20poly1305 := sample_aead; xchacha20poly1305 := sample_aead |}.

Lemma length_sample_tag k n ad p : length (sample_tag k n ad p) = MacBytes.
Proof. apply length_le_split. Qed.
#[export] Instance sample_aead_laws : AeadLaws sample_aead.
Proof.
  split; simpl; unfold sample_seal, sample_open.
  - intros. by rewrite length_app, length_sample_tag.
  - intros k n ad p _. rewrite length_app, length_sample_tag, Nat.add_sub.
    rewrite take_app_length, drop_app_length. by rewrite decide_True.
  - intros k n ad c p _. case_decide as H; [|done]. intros [= <-].
    by rewrite <-H, take_drop.
Qed.
#[export] Instance sample_crypto_laws : CryptoLaws sample_crypto.
Proof. split; apply sample_aead_laws. Qed.
