(* ===== verification/Token.v ===== *)
(** token.go: private connect tokens, challenge tokens and public connect
    tokens, their encoders and decoders, and their encryption. A decoder
    returns the Go error (or [None]) together with the struct it was reading
    into, which an error leaves partly overwritten. *)

From S2P Require Import Prelude Constants Buffer Address Crypto SampleCrypto.

Inductive token_error :=
| ErrBufferTooSmall
| ErrBadNumServerAddresses (n : Z)
| ErrBadAddressType (t : Z)
| ErrBadBufferLength (n : nat)
| ErrBadVersionInfo
| ErrExpiresBeforeCreated.

Record connectTokenPrivate := mkPrivate {
  ctp_clientID : Z;
  ctp_timeoutSeconds : Z;
  ctp_numServerAddresses : Z;
  ctp_serverAddresses : list Address;
  ctp_clientToServerKey : list byte;
  ctp_serverToClientKey : list byte;
  ctp_userData : list byte;
}.
#[export] Instance eta_private : Eta connectTokenPrivate := λ t,
  mkPrivate (ctp_clientID t) (ctp_timeoutSeconds t) (ctp_numServerAddresses t)
    (ctp_serverAddresses t) (ctp_clientToServerKey t) (ctp_serverToClientKey t) (ctp_userData t).

Record challengeToken := mkChallengeToken {
  cht_clientID : Z;
  cht_userData : list byte;
}.
#[export] Instance eta_challengeToken : Eta challengeToken := λ t,
  mkChallengeToken (cht_clientID t) (cht_userData t).

Record connectToken := mkConnectToken {
  ct_protocolID : Z;
  ct_createTimestamp : Z;
  ct_expireTimestamp : Z;
  ct_nonce : list byte;
  ct_privateData : list byte;
  ct_timeoutSeconds : Z;
  ct_numServerAddresses : Z;
  ct_serverAddresses : list Address;
  ct_clientToServerKey : list byte;
  ct_serverToClientKey : list byte;
}.
#[export] Instance eta_connectToken : Eta connectToken := λ t,
  mkConnectToken (ct_protocolID t) (ct_createTimestamp t) (ct_expireTimestamp t) (ct_nonce t)
    (ct_privateData t) (ct_timeoutSeconds t) (ct_numServerAddresses t) (ct_serverAddresses t)
    (ct_clientToServerKey t) (ct_serverToClientKey t).

(** The zero values of the structs. *)
Definition zeroAddresses : list Address := replicate MaxServersPerConnect zeroAddress.
Definition zeroPrivate : connectTokenPrivate :=
  mkPrivate 0 0 0 zeroAddresses (zeros KeyBytes) (zeros KeyBytes) (zeros UserDataBytes).
Definition zeroConnectToken : connectToken :=
  mkConnectToken 0 0 0 (zeros connectTokenNonceBytes) (zeros connectTokenPrivateBytes) 0 0
    zeroAddresses (zeros KeyBytes) (zeros KeyBytes).

(** copy(dst[:], src) into an array: what fits, from the start. *)
Definition go_copy {A : Type} (dst src : list A) : list A :=
  splice dst 0 (take (length dst) src).
(** clear(buffer[lo:hi]) *)
Definition clear_range (buffer : list byte) (lo hi : nat) : option (list byte) :=
  if bool_decide (lo ≤ hi ∧ hi ≤ length buffer)%nat
  then Some (splice buffer lo (zeros (hi - lo))) else None.

(** ** Addresses on the wire *)
Definition writeAddress (address : Address) : M writer unit :=
  if Type_ address =? AddressIPv4 then
    Writer.uint8 AddressIPv4;; Writer.bytes (IPv4 address);; Writer.uint16 (Port address)
  else if Type_ address =? AddressIPv6 then
    Writer.uint8 AddressIPv6;;
    for_ (seqZ 0 8) (λ i, g ← lift (aget (IPv6 address) i); Writer.uint16 g);;
    Writer.uint16 (Port address)
  else panic.

Fixpoint readGroups (ixs : list Z) (groups : list Z) : M reader (list Z) :=
  match ixs with
  | [] => mret groups
  | i :: ixs =>
      g ← Reader.uint16;
      groups' ← lift (aset groups i g);
      readGroups ixs groups'
  end.

Definition readAddress (address : Address) : M reader (option token_error * Address) :=
  t ← Reader.uint8;
  let address := address <| Type_ := t |> in
  if t =? AddressIPv4 then
    (ip ← Reader.bytes (length (IPv4 address));
     port ← Reader.uint16;
     mret (None, address <| IPv4 := ip |> <| Port := port |>))
  else if t =? AddressIPv6 then
    (groups ← readGroups (seqZ 0 8) (IPv6 address);
     port ← Reader.uint16;
     mret (None, address <| IPv6 := groups |> <| Port := port |>))
  else mret (Some (ErrBadAddressType t), address).

(** The loop over token.serverAddresses, which stops at the first error. *)
Definition writeAddresses (num : Z) (addresses : list Address) : M writer unit :=
  for_ (seqZ 0 num) (λ i, address ← lift (aget addresses i); writeAddress address).
Fixpoint readAddresses (ixs : list Z) (addresses : list Address)
  : M reader (option token_error * list Address) :=
  match ixs with
  | [] => mret (None, addresses)
  | i :: ixs =>
      old ← lift (aget addresses i);
      '(err, address) ← readAddress old;
      addresses' ← lift (aset addresses i address);
      match err with
      | Some e => mret (Some e, addresses')
      | None => readAddresses ixs addresses'
      end
  end.

(** ** Private connect tokens *)
Module Private.
(** generateConnectTokenPrivate: the two keys are the random bytes drawn. *)
Definition generate (clientID timeoutSeconds : Z) (serverAddresses : list Address)
  (userData randomKey1 randomKey2 : list byte) : connectTokenPrivate :=
  mkPrivate clientID timeoutSeconds (Z.of_nat (length serverAddresses))
    (go_copy zeroAddresses serverAddresses) randomKey1 randomKey2
    (go_copy (zeros UserDataBytes) userData).

Definition write_fields (token : connectTokenPrivate) : M writer unit :=
  Writer.uint64 (ctp_clientID token);;
  Writer.uint32 (u32 (ctp_timeoutSeconds token));;
  Writer.uint32 (u32 (ctp_numServerAddresses token));;
  writeAddresses (ctp_numServerAddresses token) (ctp_serverAddresses token);;
  Writer.bytes (ctp_clientToServerKey token);;
  Writer.bytes (ctp_serverToClientKey token);;
  Writer.bytes (ctp_userData token).

Definition write (token : connectTokenPrivate) (buffer : list byte) : option (list byte) :=
  '(_, w) ← write_fields token (mkWriter buffer 0);
  clear_range (w_buffer w) (w_pos w) connectTokenPrivateBytes.

Definition read_fields (token : connectTokenPrivate)
  : M reader (option token_error * connectTokenPrivate) :=
  clientID ← Reader.uint64;
  timeoutSeconds ← Reader.uint32;
  num ← Reader.uint32;
  let token := token <| ctp_clientID := clientID |>
                     <| ctp_timeoutSeconds := i32 timeoutSeconds |>
                     <| ctp_numServerAddresses := i32 num |> in
  if (i32 num <=? 0) || (i32 num >? Z.of_nat MaxServersPerConnect)
  then mret (Some (ErrBadNumServerAddresses (i32 num)), token)
  else
    ('(err, addresses) ← readAddresses (seqZ 0 (i32 num)) (ctp_serverAddresses token);
     let token := token <| ctp_serverAddresses := addresses |> in
     match err with
     | Some e => mret (Some e, token)
     | None =>
         k1 ← Reader.bytes (length (ctp_clientToServerKey token));
         k2 ← Reader.bytes (length (ctp_serverToClientKey token));
         userData ← Reader.bytes (length (ctp_userData token));
         mret (None, token <| ctp_clientToServerKey := k1 |>
                           <| ctp_serverToClientKey := k2 |>
                           <| ctp_userData := userData |>)
     end).

Definition read (token : connectTokenPrivate) (buffer : list byte)
  : option (option token_error * connectTokenPrivate) :=
  if bool_decide (length buffer < connectTokenPrivateBytes)%nat
  then Some (Some ErrBufferTooSmall, token)
  else fst <$> read_fields token (mkReader buffer 0).
End Private.

(** connectTokenAdditionalData: version info, protocol id, expire timestamp. *)
Definition connectTokenAdditionalData (protocolID expireTimestamp : Z) : option (list byte) :=
  '(_, w) ← (Writer.bytes versionInfo;; Writer.uint64 protocolID;; Writer.uint64 expireTimestamp)
              (mkWriter (zeros (versionInfoBytes + 8 + 8)) 0);
  Some (w_buffer w).

Section token_crypto.
Context `{C : CryptoLib}.

Definition encryptConnectTokenPrivate (buffer : list byte) (protocolID expireTimestamp : Z)
  (nonce key : list byte) : option (bool * list byte) :=
  additional ← connectTokenAdditionalData protocolID expireTimestamp;
  encryptAEADBigNonce buffer (connectTokenPrivateBytes - MacBytes) additional nonce key.

Definition decryptConnectTokenPrivate (buffer : list byte) (protocolID expireTimestamp : Z)
  (nonce key : list byte) : option (option (list byte)) :=
  additional ← connectTokenAdditionalData protocolID expireTimestamp;
  decryptAEADBigNonce buffer connectTokenPrivateBytes additional nonce key.

Definition encryptChallengeToken (buffer : list byte) (sequence : Z) (key : list byte)
  : option (bool * list byte) :=
  nonce ← packetNonce sequence;
  encryptAEAD buffer (challengeTokenBytes - MacBytes) [] nonce key.

Definition decryptChallengeToken (buffer : list byte) (sequence : Z) (key : list byte)
  : option (option (list byte)) :=
  nonce ← packetNonce sequence;
  decryptAEAD buffer challengeTokenBytes [] nonce key.
End token_crypto.

(** ** Challenge tokens *)
Module Challenge.
Definition write (token : challengeToken) (buffer : list byte) : option (list byte) :=
  buffer ← clear_range buffer 0 challengeTokenBytes;
  '(_, w) ← (Writer.uint64 (cht_clientID token);; Writer.bytes (cht_userData token))
              (mkWriter buffer 0);
  Some (w_buffer w).

Definition read_fields (token : challengeToken) : M reader challengeToken :=
  clientID ← Reader.uint64;
  userData ← Reader.bytes (length (cht_userData token));
  mret (mkChallengeToken clientID userData).

Definition read (token : challengeToken) (buffer : list byte)
  : option (option token_error * challengeToken) :=
  if bool_decide (length buffer < challengeTokenBytes)%nat
  then Some (Some ErrBufferTooSmall, token)
  else ('(t, _) ← read_fields token (mkReader buffer 0); Some (None, t)).
End Challenge.

(** ** Public connect tokens *)
Module Public.
Definition write_fields (token : connectToken) : M writer unit :=
  Writer.bytes versionInfo;;
  Writer.uint64 (ct_protocolID token);;
  Writer.uint64 (ct_createTimestamp token);;
  Writer.uint64 (ct_expireTimestamp token);;
  Writer.bytes (ct_nonce token);;
  Writer.bytes (ct_privateData token);;
  Writer.uint32 (u32 (ct_timeoutSeconds token));;
  Writer.uint32 (u32 (ct_numServerAddresses token));;
  writeAddresses (ct_numServerAddresses token) (ct_serverAddresses token);;
  Writer.bytes (ct_clientToServerKey token);;
  Writer.bytes (ct_serverToClientKey token).

Definition write (token : connectToken) (buffer : list byte) : option (list byte) :=
  '(_, w) ← write_fields token (mkWriter buffer 0);
  clear_range (w_buffer w) (w_pos w) ConnectTokenBytes.

Definition read_fields (token : connectToken) : M reader (option token_error * connectToken) :=
  packetVersionInfo ← Reader.bytes versionInfoBytes;
  if negb (bool_decide (packetVersionInfo = versionInfo))
  then mret (Some ErrBadVersionInfo, token)
  else
    (protocolID ← Reader.uint64;
     createTimestamp ← Reader.uint64;
     expireTimestamp ← Reader.uint64;
     let token := token <| ct_protocolID := protocolID |>
                        <| ct_createTimestamp := createTimestamp |>
                        <| ct_expireTimestamp := expireTimestamp |> in
     if createTimestamp >? expireTimestamp
     then mret (Some ErrExpiresBeforeCreated, token)
     else
       (nonce ← Reader.bytes (length (ct_nonce token));
        privateData ← Reader.bytes (length (ct_privateData token));
        timeoutSeconds ← Reader.uint32;
        num ← Reader.uint32;
        let token := token <| ct_nonce := nonce |>
                           <| ct_privateData := privateData |>
                           <| ct_timeoutSeconds := i32 timeoutSeconds |>
                           <| ct_numServerAddresses := i32 num |> in
        if (i32 num <=? 0) || (i32 num >? Z.of_nat MaxServersPerConnect)
        then mret (Some (ErrBadNumServerAddresses (i32 num)), token)
        else
          ('(err, addresses) ← readAddresses (seqZ 0 (i32 num)) (ct_serverAddresses token);
           let token := token <| ct_serverAddresses := addresses |> in
           match err with
           | Some e => mret (Some e, token)
           | None =>
               k1 ← Reader.bytes (length (ct_clientToServerKey token));
               k2 ← Reader.bytes (length (ct_serverToClientKey token));
               mret (None, token <| ct_clientToServerKey := k1 |>
                                 <| ct_serverToClientKey := k2 |>)
           end))).

Definition read (token : connectToken) (buffer : list byte)
  : option (option token_error * connectToken) :=
  if negb (bool_decide (length buffer = ConnectTokenBytes))
  then Some (Some (ErrBadBufferLength (length buffer)), token)
  else fst <$> read_fields token (mkReader buffer 0).
End Public.

(** * Properties *)

Definition address_family (a : Address) : Prop := Type_ a = AddressIPv4 ∨ Type_ a = AddressIPv6.

(** The wire format of an address (STANDARD.md, Connect Token). *)
Definition enc_address (a : Address) : list byte :=
  if Type_ a =? AddressIPv4 then
    [byte.of_Z AddressIPv4] ++ IPv4 a ++ le_split 2 (Port a)
  else
    [byte.of_Z AddressIPv6] ++ (IPv6 a ≫= le_split 2) ++ le_split 2 (Port a).

Lemma length_enc_groups (l : list Z) : length (l ≫= le_split 2) = (2 * length l)%nat.
Proof. induction l as [|x l IH]; [done|]. rewrite bind_cons, length_app, length_le_split, IH. cbn [length]. lia. Qed.

Lemma length_enc_address a : valid_address a → (length (enc_address a) ≤ 19)%nat.
Proof.
  intros [_ Hf]. unfold enc_address. destruct Hf as [(-> & H4 & _)|(-> & _ & H6 & _)]; simpl.
  - rewrite length_app, length_le_split, H4. simpl. lia.
  - rewrite length_app, length_le_split, length_enc_groups, H6. simpl. lia.
Qed.

Lemma writes_address a : valid_address a → writes (writeAddress a) (enc_address a).
Proof.
  intros [_ Hf]. unfold writeAddress, enc_address.
  destruct Hf as [(-> & H4 & _)|(-> & _ & H6 & _)]; simpl; change (?x :: ?l) with ([x] ++ l);
    repeat apply writes_bind; auto with codec.
  rewrite <-(take_ge (IPv6 a) 8) at 2 by lia.
  apply (writes_for_array Writer.uint16 (le_split 2) (IPv6 a) 8); [lia|auto with codec].
Qed.

Lemma reads_lift {A : Type} (o : option A) (a : A) : o = Some a → reads (lift o) [] a.
Proof. intros -> buf pos rest _ _. unfold lift. simpl. by rewrite Nat.add_0_r. Qed.

Lemma reads_groups pre old post (xs : list Z) :
  length old = length xs → Forall is_u16 xs →
  reads (readGroups (seqZ (Z.of_nat (length pre)) (Z.of_nat (length xs))) (pre ++ old ++ post))
    (xs ≫= le_split 2) (pre ++ xs ++ post).
Proof.
  intros Hlen Hx. revert pre old Hlen. induction Hx as [|x xs Hx _ IH]; intros pre old Hlen.
  - destruct old; [|done]. apply reads_ret.
  - destruct old as [|o old]; [done|]. simpl in Hlen. injection Hlen as Hlen.
    cbn [length]. rewrite seqZ_S, bind_cons. cbn [readGroups].
    eapply reads_bind; [by apply reads_uint16|].
    rewrite <-(app_nil_l (xs ≫= _)). eapply reads_bind.
    { apply reads_lift. apply aset_middle. }
    specialize (IH (pre ++ [x]) old Hlen). rewrite length_app, <-!app_assoc in IH. simpl in IH.
    replace (Z.of_nat (length pre) + 1) with (Z.of_nat (length pre + 1)) by lia. apply IH.
Qed.

(** What [readAddress] leaves in a struct that held [old]. *)
Definition merge_address (old a : Address) : Address :=
  if Type_ a =? AddressIPv4 then old <| Type_ := Type_ a |> <| IPv4 := IPv4 a |> <| Port := Port a |>
  else old <| Type_ := Type_ a |> <| IPv6 := IPv6 a |> <| Port := Port a |>.
Lemma merge_zero a : valid_address a → merge_address zeroAddress a = a.
Proof.
  intros [_ Hf]. unfold merge_address. destruct a as [t i4 i6 p].
  destruct Hf as [(Ht & _ & H6)|(Ht & H4 & _)]; simpl in *; subst; done.
Qed.

(** The shape every address struct has, whatever it was filled with. *)
Record address_shape (a : Address) : Prop := {
  as_IPv4 : length (IPv4 a) = 4%nat;
  as_IPv6 : length (IPv6 a) = 8%nat;
}.
Lemma zeroAddress_shape : address_shape zeroAddress.
Proof. done. Qed.

Lemma reads_address old a :
  address_shape old → valid_address a →
  reads (readAddress old) (enc_address a) (None, merge_address old a).
Proof.
  intros [H4o H6o] [Hp Hf]. unfold readAddress, enc_address, merge_address.
  destruct Hf as [(-> & H4 & _)|(-> & _ & H6 & Hu)]; simpl; change (?x :: ?l) with ([x] ++ l).
  - eapply reads_bind; [by apply reads_uint8|]. simpl.
    eapply reads_bind; [apply reads_bytes; lia|].
    eapply reads_bind_ret; [by apply reads_uint16|]. apply reads_ret.
  - eapply reads_bind; [by apply reads_uint8|]. simpl.
    eapply reads_bind; [|eapply reads_bind_ret; [by apply reads_uint16|apply reads_ret]].
    pose proof (reads_groups [] (IPv6 old) [] (IPv6 a) ltac:(lia) Hu) as Hg.
    rewrite H6 in Hg. simpl in Hg. by rewrite !app_nil_r in Hg.
Qed.

Lemma reads_addresses pre olds post (xs : list Address) :
  length olds = length xs → Forall address_shape olds → Forall valid_address xs →
  reads (readAddresses (seqZ (Z.of_nat (length pre)) (Z.of_nat (length xs))) (pre ++ olds ++ post))
    (xs ≫= enc_address) (None, pre ++ zip_with merge_address olds xs ++ post).
Proof.
  intros Hlen Ho Hx. revert pre olds Hlen Ho.
  induction Hx as [|x xs Hx _ IH]; intros pre olds Hlen Ho.
  - destruct olds; [|done]. apply reads_ret.
  - destruct olds as [|o olds]; [done|]. injection Hlen as Hlen. inversion_clear Ho as [|?? Ho1 Ho2].
    cbn [length zip_with]. rewrite seqZ_S, bind_cons. cbn [readAddresses].
    rewrite <-(app_nil_l (enc_address x ++ _)).
    eapply reads_bind; [apply reads_lift, aget_middle|].
    eapply reads_bind; [by apply reads_address|]. cbv beta iota.
    rewrite <-(app_nil_l (xs ≫= _)). eapply reads_bind; [apply reads_lift, aset_middle|]. cbv beta iota.
    specialize (IH (pre ++ [merge_address o x]) olds Hlen Ho2).
    rewrite length_app, <-!app_assoc in IH. simpl in IH.
    replace (Z.of_nat (length pre) + 1) with (Z.of_nat (length pre + 1)) by lia. apply IH.
Qed.

(** The server address array of a well formed token: [num] valid addresses,
    then zero values. *)
Definition valid_addresses (num : Z) (addresses : list Address) : Prop :=
  ∃ xs, Forall valid_address xs ∧ num = Z.of_nat (length xs) ∧
    1 ≤ num ≤ Z.of_nat MaxServersPerConnect ∧
    addresses = xs ++ replicate (MaxServersPerConnect - length xs) zeroAddress.
Definition enc_addresses (num : Z) (addresses : list Address) : list byte :=
  take (Z.to_nat num) addresses ≫= enc_address.

Lemma length_enc_addresses num addresses :
  valid_addresses num addresses →
  (length (enc_addresses num addresses) ≤ 19 * MaxServersPerConnect)%nat.
Proof.
  intros (xs & Hx & -> & Hn & ->). unfold enc_addresses.
  rewrite Nat2Z.id, take_app_length.
  assert (length (xs ≫= enc_address) ≤ 19 * length xs)%nat; [|clia].
  clear Hn. induction Hx as [|x xs Hx _ IH]; [done|].
  rewrite bind_cons, length_app. pose proof (length_enc_address x Hx). cbn [length]. lia.
Qed.
Lemma writes_addresses num addresses :
  valid_addresses num addresses →
  writes (writeAddresses num addresses) (enc_addresses num addresses).
Proof.
  intros (xs & Hx & -> & Hn & ->). unfold writeAddresses, enc_addresses. rewrite Nat2Z.id.
  apply writes_for_array; [rewrite length_app; lia|].
  rewrite take_app_length. intros a Ha. apply writes_address. revert a Ha. by apply list.Forall_forall.
Qed.
Lemma reads_addresses_zero num addresses :
  valid_addresses num addresses →
  reads (readAddresses (seqZ 0 num) zeroAddresses) (enc_addresses num addresses) (None, addresses).
Proof.
  intros (xs & Hx & -> & Hn & ->). unfold enc_addresses, zeroAddresses.
  rewrite Nat2Z.id, take_app_length.
  set (n := length xs) in *.
  replace MaxServersPerConnect with (n + (MaxServersPerConnect - n))%nat at 1 by lia.
  rewrite replicate_add.
  pose proof (reads_addresses [] (replicate n zeroAddress) (replicate (MaxServersPerConnect - n) zeroAddress) xs) as H.
  cbn [app length] in H. rewrite length_replicate in H.
  assert (zip_with merge_address (replicate n zeroAddress) xs = xs) as Hz.
  { unfold n. clear -Hx. induction Hx as [|x xs Hx _ IH]; [done|].
    cbn [length]. rewrite replicate_S. cbn [zip_with]. by rewrite merge_zero, IH. }
  rewrite Hz in H. apply H; [done| |done]. apply Forall_replicate, zeroAddress_shape.
Qed.

(** ** Private connect tokens *)
Record valid_private (t : connectTokenPrivate) : Prop := {
  vp_clientID : is_u64 (ctp_clientID t);
  vp_timeoutSeconds : is_i32 (ctp_timeoutSeconds t);
  vp_serverAddresses : valid_addresses (ctp_numServerAddresses t) (ctp_serverAddresses t);
  vp_clientToServerKey : length (ctp_clientToServerKey t) = KeyBytes;
  vp_serverToClientKey : length (ctp_serverToClientKey t) = KeyBytes;
  vp_userData : length (ctp_userData t) = UserDataBytes;
}.

Definition enc_private (t : connectTokenPrivate) : list byte :=
  le_split 8 (ctp_clientID t) ++ le_split 4 (u32 (ctp_timeoutSeconds t)) ++
  le_split 4 (u32 (ctp_numServerAddresses t)) ++
  enc_addresses (ctp_numServerAddresses t) (ctp_serverAddresses t) ++
  ctp_clientToServerKey t ++ ctp_serverToClientKey t ++ ctp_userData t.

(** A private token leaves room for the MAC in its 1024 bytes. *)
Lemma length_enc_private t :
  valid_private t → (length (enc_private t) ≤ connectTokenPrivateBytes - MacBytes)%nat.
Proof.
  intros [_ _ Ha H1 H2 H3]. unfold enc_private.
  rewrite !length_app, !length_le_split, H1, H2, H3.
  pose proof (length_enc_addresses _ _ Ha). clia.
Qed.

Lemma writes_private t : valid_private t → writes (Private.write_fields t) (enc_private t).
Proof.
  intros [_ _ Ha _ _ _]. unfold Private.write_fields, enc_private.
  repeat apply writes_bind; auto using writes_addresses with codec.
Qed.

Lemma i32_num n : 1 ≤ n ≤ Z.of_nat MaxServersPerConnect → i32 (u32 n) = n.
Proof. intros. apply i32_u32. unfold is_i32. clia. Qed.

Lemma num_ok n :
  1 ≤ n ≤ Z.of_nat MaxServersPerConnect →
  (n <=? 0) || (n >? Z.of_nat MaxServersPerConnect) = false.
Proof. intros. apply orb_false_iff. split; [apply Z.leb_gt; lia | rewrite Z.gtb_ltb; apply Z.ltb_ge; lia]. Qed.

Lemma reads_private t :
  valid_private t → reads (Private.read_fields zeroPrivate) (enc_private t) (None, t).
Proof.
  intros [Hc Ht Ha H1 H2 H3]. unfold Private.read_fields, enc_private.
  destruct Ha as (xs & Hx & Hn & Hr & Has) eqn:E. clear E.
  eapply reads_bind; [by apply reads_uint64|].
  eapply reads_bind; [apply reads_uint32, u32_range|].
  eapply reads_bind; [apply reads_uint32, u32_range|].
  rewrite (i32_u32 _ Ht), (i32_num _ Hr), (num_ok _ Hr).
  eapply reads_bind; [apply reads_addresses_zero; by exists xs|]. cbv beta iota.
  eapply reads_bind; [by apply reads_bytes|].
  eapply reads_bind; [by apply reads_bytes|].
  eapply reads_bind_ret; [by apply reads_bytes|].
  destruct t; simpl in *. apply reads_ret.
Qed.

(** What [write] leaves in a buffer of the fixed size: the encoding, then
    zeros. *)
Lemma write_padded n (f : M writer unit) bs buffer :
  writes f bs → (length bs ≤ n)%nat → length buffer = n →
  ('(_, w) ← f (mkWriter buffer 0); clear_range (w_buffer w) (w_pos w) n) =
  Some (bs ++ zeros (n - length bs)).
Proof.
  intros Hf Hle Hlen. rewrite Hf by lia. cbn [mbind option_bind w_buffer w_pos].
  unfold clear_range. rewrite bool_decide_eq_true_2 by (rewrite length_splice; lia). f_equal.
  rewrite splice_splice by lia. rewrite splice_full; [done|].
  rewrite length_app. unfold zeros. rewrite length_replicate. lia.
Qed.
Lemma private_write_spec t buffer :
  valid_private t → length buffer = connectTokenPrivateBytes →
  Private.write t buffer =
    Some (enc_private t ++ zeros (connectTokenPrivateBytes - length (enc_private t))).
Proof.
  intros Hv Hl. pose proof (length_enc_private t Hv).
  apply write_padded; [by apply writes_private|clia|done].
Qed.
Lemma private_read_spec t rest :
  valid_private t → (connectTokenPrivateBytes ≤ length (enc_private t ++ rest))%nat →
  Private.read zeroPrivate (enc_private t ++ rest) = Some (None, t).
Proof.
  intros Hv Hl. unfold Private.read. rewrite bool_decide_eq_false_2 by lia.
  rewrite (reads_private t Hv _ _ rest); [done|lia|done].
Qed.

(** ** Decoding arbitrary input *)
Definition read_address_post (p : option token_error * Address) : Prop :=
  address_shape p.2 ∧ (p.1 = None → address_family p.2 ∧ is_u16 (Port p.2)).

Lemma reads_within_lift {A B : Type} (o : option A) (a : A) (k : A → M reader B) n Q :
  o = Some a → reads_within (k a) n Q → reads_within (lift o ≫= k) n Q.
Proof.
  intros -> H buf pos Hle. unfold mbind, M_bind, lift. simpl. by apply H.
Qed.

Lemma reads_within_groups (ixs groups : list Z) n :
  Forall (λ i, 0 ≤ i < Z.of_nat (length groups)) ixs → (2 * length ixs ≤ n)%nat →
  reads_within (readGroups ixs groups) n (λ g, length g = length groups).
Proof.
  intros Hi. revert groups n Hi. induction ixs as [|i ixs IH]; intros groups n Hi Hn; simpl.
  { by apply reads_within_ret. }
  inversion_clear Hi as [|?? Hi1 Hi2]. cbn [length] in Hn.
  eapply reads_within_bind; [apply reads_within_uint16| |lia]. intros g _.
  eapply reads_within_lift; [by apply aset_Some|].
  eapply reads_within_mono; [apply IH|..].
  - rewrite length_ainsert. done.
  - reflexivity.
  - lia.
  - intros l. by rewrite length_ainsert.
Qed.

Lemma reads_within_address old :
  address_shape old → reads_within (readAddress old) 19 read_address_post.
Proof.
  intros [H4 H6]. unfold readAddress.
  eapply reads_within_bind; [apply reads_within_uint8| |lia]. intros t _. cbv zeta.
  destruct (Z.eqb_spec t AddressIPv4) as [Ht|_].
  { eapply reads_within_bind; [apply reads_within_bytes| |simpl; rewrite H4; lia]. simpl. intros ip Hip.
    eapply reads_within_bind; [apply reads_within_uint16| |rewrite H4; lia]. intros port Hp.
    apply reads_within_ret. split; simpl; [split; simpl; congruence|]. intros _. split; [by left|done]. }
  destruct (Z.eqb_spec t AddressIPv6) as [Ht|_].
  { eapply reads_within_bind; [apply (reads_within_groups _ _ 16)| |lia].
    - apply list.Forall_forall. intros i Hi%elem_of_seqZ. simpl. rewrite H6. lia.
    - done.
    - simpl. intros g Hg. eapply reads_within_bind; [apply reads_within_uint16| |lia]. intros port Hp.
      apply reads_within_ret. split; simpl; [split; simpl; congruence|]. intros _. split; [by right|done]. }
  apply reads_within_ret. split; [by split|done].
Qed.

Definition read_addresses_post (ixs : list Z) (n : nat)
  (p : option token_error * list Address) : Prop :=
  length p.2 = n ∧ Forall address_shape p.2 ∧
  (p.1 = None → ∀ i, i ∈ ixs → ∃ a, aget p.2 i = Some a ∧ address_family a ∧ is_u16 (Port a)).

Lemma Forall_ainsert {A : Type} (P : A → Prop) (l : list A) i x :
  Forall P l → P x → Forall P (ainsert i x l).
Proof. intros. by apply Forall_insert. Qed.
Lemma Forall_aget {A : Type} (P : A → Prop) (l : list A) i x :
  Forall P l → aget l i = Some x → P x.
Proof.
  unfold aget. intros Hall. destruct (0 <=? i); [|done].
  by apply Forall_lookup_1.
Qed.

Lemma reads_within_addresses ixs addresses n :
  NoDup ixs → Forall (λ i, 0 ≤ i < Z.of_nat (length addresses)) ixs →
  Forall address_shape addresses → (19 * length ixs ≤ n)%nat →
  reads_within (readAddresses ixs addresses) n
    (λ p, read_addresses_post ixs (length addresses) p ∧
      ∀ i, i ∉ ixs → aget p.2 i = aget addresses i).
Proof.
  intros Hnd Hi. revert addresses n Hi.
  induction Hnd as [|i ixs Hnin Hnd IH]; intros addresses n Hi Hs Hn; simpl.
  { apply reads_within_ret. split; [|done]. split_and!; [done..|]. intros _ i Hin. set_solver. }
  inversion_clear Hi as [|?? Hi1 Hi2]. cbn [length] in Hn.
  destruct (aget_Some addresses i Hi1) as [old Hold].
  eapply reads_within_lift; [done|].
  eapply reads_within_bind; [eapply reads_within_address, Forall_aget; done| |lia].
  intros [err a] [Hsh Hok]. cbv beta iota. simpl in Hsh, Hok.
  eapply reads_within_lift; [by apply aset_Some|].
  destruct err as [e|].
  - apply reads_within_ret. split; [|].
    + split_and!; simpl; [by rewrite length_ainsert|by apply Forall_ainsert|done].
    + simpl. intros j Hj. apply aget_ainsert_ne; set_solver by lia.
  - eapply reads_within_mono; [apply (IH _ (n - 19)%nat)|lia|].
    + by rewrite length_ainsert.
    + by apply Forall_ainsert.
    + lia.
    + intros p [(Hlen & Hsh' & Hfam) Hrest]. rewrite length_ainsert in Hlen. split.
      * split_and!; [done..|]. intros Hp j Hj. apply elem_of_cons in Hj as [->|Hj]; [|by auto].
        exists a. rewrite Hrest by done. rewrite aget_ainsert_eq by done. by destruct (Hok eq_refl).
      * intros j Hj. rewrite Hrest by set_solver. apply aget_ainsert_ne; set_solver by lia.
Qed.

Definition num_addresses_ok (num : Z) (addresses : list Address) : Prop :=
  1 ≤ num ≤ Z.of_nat MaxServersPerConnect ∧
  ∀ i, 0 ≤ i < num → ∃ a, aget addresses i = Some a ∧ address_family a ∧ is_u16 (Port a).

Lemma reads_within_server_addresses num addresses :
  1 ≤ num ≤ Z.of_nat MaxServersPerConnect → length addresses = MaxServersPerConnect →
  Forall address_shape addresses →
  reads_within (readAddresses (seqZ 0 num) addresses) (19 * MaxServersPerConnect)
    (λ p, length p.2 = MaxServersPerConnect ∧ Forall address_shape p.2 ∧
          (p.1 = None → num_addresses_ok num p.2)).
Proof.
  intros Hn Hl Hs. eapply reads_within_mono; [apply (reads_within_addresses _ _ (19 * MaxServersPerConnect))|done|].
  - apply NoDup_seqZ.
  - rewrite Hl. apply list.Forall_forall. intros i Hi%elem_of_seqZ. lia.
  - done.
  - rewrite length_seqZ. clia.
  - intros p [(H1 & H2 & H3) _]. split_and!; [congruence|done|].
    intros Hp. split; [done|]. intros i Hi. apply H3; [done|]. apply elem_of_seqZ. lia.
Qed.

Record wf_private (t : connectTokenPrivate) : Prop := {
  wp_clientID : is_u64 (ctp_clientID t);
  wp_timeoutSeconds : is_i32 (ctp_timeoutSeconds t);
  wp_serverAddresses : num_addresses_ok (ctp_numServerAddresses t) (ctp_serverAddresses t);
  wp_clientToServerKey : length (ctp_clientToServerKey t) = KeyBytes;
  wp_serverToClientKey : length (ctp_serverToClientKey t) = KeyBytes;
  wp_userData : length (ctp_userData t) = UserDataBytes;
}.

Lemma num_not_ok n :
  (n <=? 0) || (n >? Z.of_nat MaxServersPerConnect) = false →
  1 ≤ n ≤ Z.of_nat MaxServersPerConnect.
Proof. intros [H1 H2]%orb_false_iff. rewrite Z.gtb_ltb in H2. apply Z.leb_gt in H1. apply Z.ltb_ge in H2. lia. Qed.

Lemma zeroAddresses_shape : Forall address_shape zeroAddresses.
Proof. apply Forall_replicate, zeroAddress_shape. Qed.
Lemma length_zeroAddresses : length zeroAddresses = MaxServersPerConnect.
Proof. apply length_replicate. Qed.
#[export] Hint Rewrite length_zeros length_zeroAddresses : golen.

Lemma reads_within_private :
  reads_within (Private.read_fields zeroPrivate) connectTokenPrivateBytes
    (λ p, p.1 = None → wf_private p.2).
Proof.
  unfold Private.read_fields. read_step cid Hc. read_step tmo Ht. read_step num Hn.
  cbv zeta. case_match eqn:Hnum; [by apply reads_within_ret|].
  apply num_not_ok in Hnum.
  eapply reads_within_bind;
    [apply (reads_within_server_addresses _ _ Hnum); [apply length_replicate|apply zeroAddresses_shape]| |clia].
  intros [err addrs] (Hl & Hs & Hok). cbv beta iota zeta. simpl in Hl, Hs, Hok.
  destruct err as [e|]; [by apply reads_within_ret|].
  change (length (ctp_clientToServerKey _)) with KeyBytes.
  change (length (ctp_serverToClientKey _)) with KeyBytes.
  change (length (ctp_userData _)) with UserDataBytes.
  read_step k1 H1. read_step k2 H2. read_step ud H3.
  apply reads_within_ret. intros _. split; simpl; auto using i32_range.
Qed.

Lemma private_read_total buffer :
  ∃ err t, Private.read zeroPrivate buffer = Some (err, t) ∧ (err = None → wf_private t).
Proof.
  unfold Private.read. case_bool_decide as Hl; [by eexists _, _|].
  destruct (reads_within_private buffer 0%nat) as ([err t] & pos & -> & _ & HQ); [simpl; lia|].
  by exists err, t.
Qed.

(** ** Public connect tokens *)
Record valid_public (t : connectToken) : Prop := {
  vt_protocolID : is_u64 (ct_protocolID t);
  vt_createTimestamp : is_u64 (ct_createTimestamp t);
  vt_expireTimestamp : is_u64 (ct_expireTimestamp t);
  vt_order : ct_createTimestamp t ≤ ct_expireTimestamp t;
  vt_nonce : length (ct_nonce t) = connectTokenNonceBytes;
  vt_privateData : length (ct_privateData t) = connectTokenPrivateBytes;
  vt_timeoutSeconds : is_i32 (ct_timeoutSeconds t);
  vt_serverAddresses : valid_addresses (ct_numServerAddresses t) (ct_serverAddresses t);
  vt_clientToServerKey : length (ct_clientToServerKey t) = KeyBytes;
  vt_serverToClientKey : length (ct_serverToClientKey t) = KeyBytes;
}.
Definition enc_public (t : connectToken) : list byte :=
  versionInfo ++ le_split 8 (ct_protocolID t) ++ le_split 8 (ct_createTimestamp t) ++
  le_split 8 (ct_expireTimestamp t) ++ ct_nonce t ++ ct_privateData t ++
  le_split 4 (u32 (ct_timeoutSeconds t)) ++ le_split 4 (u32 (ct_numServerAddresses t)) ++
  enc_addresses (ct_numServerAddresses t) (ct_serverAddresses t) ++
  ct_clientToServerKey t ++ ct_serverToClientKey t.

Lemma length_enc_public t : valid_public t → (length (enc_public t) ≤ ConnectTokenBytes)%nat.
Proof.
  intros [_ _ _ _ H1 H2 _ Ha H3 H4]. unfold enc_public.
  rewrite !length_app, !length_le_split, length_versionInfo, H1, H2, H3, H4.
  pose proof (length_enc_addresses _ _ Ha). clia.
Qed.
Lemma writes_public t : valid_public t → writes (Public.write_fields t) (enc_public t).
Proof.
  intros [_ _ _ _ _ _ _ Ha _ _]. unfold Public.write_fields, enc_public.
  repeat apply writes_bind; auto using writes_addresses with codec.
Qed.
Lemma reads_public t :
  valid_public t → reads (Public.read_fields zeroConnectToken) (enc_public t) (None, t).
Proof.
  intros [Hp Hc He Ho Hn Hd Ht Ha H1 H2]. unfold Public.read_fields, enc_public.
  destruct Ha as (xs & Hx & Hnum & Hr & Has) eqn:E. clear E.
  eapply reads_bind; [apply reads_bytes, length_versionInfo|].
  rewrite bool_decide_eq_true_2 by done. cbn [negb].
  do 3 (eapply reads_bind; [by apply reads_uint64|]). cbv zeta.
  destruct (Z.gtb_spec (ct_createTimestamp t) (ct_expireTimestamp t)); [lia|].
  eapply reads_bind; [by apply reads_bytes|].
  eapply reads_bind; [by apply reads_bytes|].
  do 2 (eapply reads_bind; [apply reads_uint32, u32_range|]).
  rewrite (i32_u32 _ Ht), (i32_num _ Hr), (num_ok _ Hr).
  eapply reads_bind; [apply reads_addresses_zero; by exists xs|]. cbv beta iota.
  eapply reads_bind; [by apply reads_bytes|].
  eapply reads_bind_ret; [by apply reads_bytes|].
  destruct t; simpl in *. apply reads_ret.
Qed.

Record wf_public (t : connectToken) : Prop := {
  wt_protocolID : is_u64 (ct_protocolID t);
  wt_createTimestamp : is_u64 (ct_createTimestamp t);
  wt_expireTimestamp : is_u64 (ct_expireTimestamp t);
  wt_order : ct_createTimestamp t ≤ ct_expireTimestamp t;
  wt_timeoutSeconds : is_i32 (ct_timeoutSeconds t);
  wt_serverAddresses : num_addresses_ok (ct_numServerAddresses t) (ct_serverAddresses t);
}.
(** The array sizes of a connect token struct, whatever it holds. *)
Record public_shape (t : connectToken) : Prop := {
  ps_nonce : length (ct_nonce t) = connectTokenNonceBytes;
  ps_privateData : length (ct_privateData t) = connectTokenPrivateBytes;
  ps_serverAddresses : length (ct_serverAddresses t) = MaxServersPerConnect;
  ps_addresses : Forall address_shape (ct_serverAddresses t);
  ps_clientToServerKey : length (ct_clientToServerKey t) = KeyBytes;
  ps_serverToClientKey : length (ct_serverToClientKey t) = KeyBytes;
}.
Lemma zeroConnectToken_shape : public_shape zeroConnectToken.
Proof. split; try apply length_replicate. apply zeroAddresses_shape. Qed.

Lemma reads_within_public token :
  public_shape token →
  reads_within (Public.read_fields token) ConnectTokenBytes
    (λ p, public_shape p.2 ∧ (p.1 = None → wf_public p.2)).
Proof.
  intros Hsh. destruct Hsh as [Hn Hd Hl Has H1 H2] eqn:E. clear E.
  unfold Public.read_fields. read_step vi Hvi.
  case_match; [by apply reads_within_ret|].
  read_step pid Hp. read_step cre Hc. read_step exp He. cbv zeta.
  destruct (Z.gtb_spec cre exp); [apply reads_within_ret; simpl; split; [by split|done]|].
  change (ct_nonce (set _ _ _)) with (ct_nonce token).
  change (ct_privateData (set _ _ _)) with (ct_privateData token). rewrite Hn, Hd.
  read_step nonce Hn'. read_step data Hd'. read_step tmo Ht. read_step num Hnum'.
  case_match eqn:Hnum; [apply reads_within_ret; simpl; split; [by split|done]|].
  apply num_not_ok in Hnum.
  eapply reads_within_bind; [by apply (reads_within_server_addresses _ _ Hnum)| |clia].
  intros [err addrs] (Hl' & Hs & Hok). cbv beta iota zeta. simpl in Hl', Hs, Hok.
  destruct err as [e|]; [apply reads_within_ret; simpl; split; [by split|done]|].
  change (ct_clientToServerKey (set _ _ _)) with (ct_clientToServerKey token).
  change (ct_serverToClientKey (set _ _ _)) with (ct_serverToClientKey token). rewrite H1, H2.
  read_step k1 Hk1. read_step k2 Hk2.
  apply reads_within_ret. simpl. split; [by split|]. intros _. split; simpl; auto using i32_range.
Qed.

(** Reading any buffer into any connect token struct: no panic, the array
    sizes stay, and success means a well formed token. *)
Lemma public_read_total token buffer :
  public_shape token →
  ∃ err t, Public.read token buffer = Some (err, t) ∧ public_shape t ∧ (err = None → wf_public t).
Proof.
  intros Hs. unfold Public.read. case_bool_decide as Hl; simpl; [|by eexists _, _].
  destruct (reads_within_public token Hs buffer 0%nat) as ([err t] & pos & -> & _ & HQ); [simpl; lia|].
  by exists err, t.
Qed.

Lemma public_write_spec t buffer :
  valid_public t → length buffer = ConnectTokenBytes →
  Public.write t buffer = Some (enc_public t ++ zeros (ConnectTokenBytes - length (enc_public t))).
Proof.
  intros Hv Hl. pose proof (length_enc_public t Hv).
  apply write_padded; [by apply writes_public|clia|done].
Qed.
Lemma public_read_spec t rest :
  valid_public t → length (enc_public t ++ rest) = ConnectTokenBytes →
  Public.read zeroConnectToken (enc_public t ++ rest) = Some (None, t).
Proof.
  intros Hv Hl. unfold Public.read. rewrite bool_decide_eq_true_2 by done. simpl.
  rewrite (reads_public t Hv _ _ rest); [done|lia|done].
Qed.

(** ** Challenge tokens *)
Definition valid_challenge (t : challengeToken) : Prop :=
  is_u64 (cht_clientID t) ∧ length (cht_userData t) = UserDataBytes.
Definition enc_challenge (t : challengeToken) : list byte :=
  le_split 8 (cht_clientID t) ++ cht_userData t.
Definition zeroChallengeToken : challengeToken := mkChallengeToken 0 (zeros UserDataBytes).

Lemma length_enc_challenge t : valid_challenge t → length (enc_challenge t) = 264%nat.
Proof. intros [_ H]. unfold enc_challenge. by rewrite length_app, length_le_split, H. Qed.
Lemma challenge_write_spec t buffer :
  valid_challenge t → length buffer = challengeTokenBytes →
  Challenge.write t buffer = Some (enc_challenge t ++ zeros 36).
Proof.
  intros Hv Hl. pose proof (length_enc_challenge t Hv) as He. unfold Challenge.write, clear_range.
  rewrite bool_decide_eq_true_2 by clia. rewrite splice_full by (rewrite length_zeros; lia).
  cbn [mbind option_bind].
  rewrite (writes_bind _ _ _ _ (writes_uint64 _) (writes_bytes _)).
  - cbn [mbind option_bind w_buffer]. f_equal. unfold splice, enc_challenge in *.
    rewrite He. unfold zeros. rewrite take_0. cbn [app Nat.add]. by rewrite drop_replicate.
  - fold (enc_challenge t). rewrite He, length_zeros. clia.
Qed.
Lemma challenge_read_spec t rest :
  valid_challenge t → (challengeTokenBytes ≤ length (enc_challenge t ++ rest))%nat →
  Challenge.read zeroChallengeToken (enc_challenge t ++ rest) = Some (None, t).
Proof.
  intros [Hc Hu] Hl. unfold Challenge.read. rewrite bool_decide_eq_false_2 by lia.
  assert (reads (Challenge.read_fields zeroChallengeToken) (enc_challenge t) t) as Hr.
  { unfold Challenge.read_fields, enc_challenge.
    eapply reads_bind; [by apply reads_uint64|].
    eapply reads_bind_ret; [by apply reads_bytes|]. destruct t. apply reads_ret. }
  rewrite (Hr _ _ rest); [done|lia|done].
Qed.
Lemma challenge_read_total buffer :
  ∃ err t, Challenge.read zeroChallengeToken buffer = Some (err, t) ∧
    (err = None → valid_challenge t).
Proof.
  unfold Challenge.read. case_bool_decide as Hl; [by eexists _, _|].
  assert (reads_within (Challenge.read_fields zeroChallengeToken) challengeTokenBytes valid_challenge) as Hr.
  { unfold Challenge.read_fields. read_step cid Hc.
    change (length (cht_userData _)) with UserDataBytes. read_step ud Hu.
    by apply reads_within_ret. }
  destruct (Hr buffer 0%nat) as (t & pos & -> & _ & HQ); [simpl; lia|]. by eexists _, _.
Qed.

(** ** Encryption *)
Definition connect_token_additional (protocolID expireTimestamp : Z) : list byte :=
  versionInfo ++ le_split 8 protocolID ++ le_split 8 expireTimestamp.
Lemma connectTokenAdditionalData_spec protocolID expireTimestamp :
  connectTokenAdditionalData protocolID expireTimestamp =
    Some (connect_token_additional protocolID expireTimestamp).
Proof.
  unfold connectTokenAdditionalData.
  rewrite (writes_bind _ _ _ _ (writes_bytes _)
             (writes_bind _ _ _ _ (writes_uint64 protocolID) (writes_uint64 expireTimestamp)));
    [|done].
  cbn [mbind option_bind w_buffer]. by rewrite splice_full.
Qed.

Section token_crypto_facts.
Context {C : CryptoLib} {L : CryptoLaws C}.

Lemma encryptConnectTokenPrivate_spec buffer pid exp nonce key :
  length buffer = connectTokenPrivateBytes → length nonce = connectTokenNonceBytes →
  length key = KeyBytes →
  encryptConnectTokenPrivate buffer pid exp nonce key =
    Some (true, Seal xchacha20poly1305 key nonce (connect_token_additional pid exp)
                  (take (connectTokenPrivateBytes - MacBytes) buffer)).
Proof.
  intros Hb Hn Hk. unfold encryptConnectTokenPrivate. rewrite connectTokenAdditionalData_spec.
  cbn [mbind option_bind]. unfold encryptAEADBigNonce.
  rewrite encrypt_in_place_spec by (done || apply L || clia).
  rewrite drop_ge by clia. by rewrite app_nil_r.
Qed.

Lemma decryptConnectTokenPrivate_seal pid exp nonce key plaintext :
  length plaintext = (connectTokenPrivateBytes - MacBytes)%nat →
  length nonce = connectTokenNonceBytes → length key = KeyBytes →
  let sealed := Seal xchacha20poly1305 key nonce (connect_token_additional pid exp) plaintext in
  decryptConnectTokenPrivate sealed pid exp nonce key =
    Some (Some (plaintext ++ drop (connectTokenPrivateBytes - MacBytes) sealed)).
Proof.
  intros Hp Hn Hk sealed. unfold decryptConnectTokenPrivate. rewrite connectTokenAdditionalData_spec.
  cbn [mbind option_bind]. unfold decryptAEADBigNonce.
  pose proof (decrypt_in_place_seal xchacha20poly1305 xchachaNonceSize key nonce
                (connect_token_additional pid exp) plaintext [] Hk Hn) as H.
  rewrite app_nil_r, Hp in H. exact H.
Qed.

Lemma private_token_cycle (t : connectTokenPrivate) (pid exp : Z)
  (nonce key buffer : list byte)
  (Ht : valid_private t) (Hb : length buffer = connectTokenPrivateBytes)
  (Hn : length nonce = connectTokenNonceBytes) (Hk : length key = KeyBytes) :
  ∃ written encrypted decrypted,
    Private.write t buffer = Some written ∧
    encryptConnectTokenPrivate written pid exp nonce key = Some (true, encrypted) ∧
    length encrypted = connectTokenPrivateBytes ∧
    decryptConnectTokenPrivate encrypted pid exp nonce key = Some (Some decrypted) ∧
    drop (connectTokenPrivateBytes - MacBytes) decrypted =
      drop (connectTokenPrivateBytes - MacBytes) encrypted ∧
    Private.read zeroPrivate decrypted = Some (None, t).
Proof.
  pose proof (length_enc_private t Ht) as Hle.
  set (pad := zeros (connectTokenPrivateBytes - length (enc_private t))).
  assert (length (enc_private t ++ pad) = connectTokenPrivateBytes) as Hw
    by (rewrite length_app; unfold pad; rewrite length_zeros; clia).
  set (plain := take (connectTokenPrivateBytes - MacBytes) (enc_private t ++ pad)).
  assert (length plain = connectTokenPrivateBytes - MacBytes)%nat as Hp
    by (unfold plain; rewrite length_take; clia).
  set (sealed := Seal xchacha20poly1305 key nonce (connect_token_additional pid exp) plain).
  assert (length sealed = connectTokenPrivateBytes) as Hs
    by (unfold sealed; rewrite Seal_length, Hp by done; clia).
  eexists _, sealed, (plain ++ drop (connectTokenPrivateBytes - MacBytes) sealed). split_and!.
  - by apply private_write_spec.
  - by apply encryptConnectTokenPrivate_spec.
  - done.
  - by apply decryptConnectTokenPrivate_seal.
  - by rewrite drop_app_length'.
  - clearbody sealed.
    assert (plain = enc_private t ++ take (connectTokenPrivateBytes - MacBytes - length (enc_private t)) pad) as ->
      by (unfold plain; rewrite take_app_ge by lia; done).
    rewrite <-app_assoc. apply private_read_spec; [done|].
    unfold pad, zeros. rewrite !length_app, take_replicate, length_replicate, length_drop, Hs. clia.
Qed.

(** Round trip: a private connect token with valid fields (1 to 32 IPv4 or
    IPv6 addresses, 32 byte keys, 256 bytes of user data) is written without a
    panic, encrypted in place over its 1024 bytes, and what the server decrypts
    with the same protocol id, expire timestamp, nonce and key reads back as
    the same token; the 16 byte MAC stays at the end of the decrypted buffer. *)
Theorem private_token_roundtrip (t : connectTokenPrivate) (pid exp : Z)
  (nonce key buffer : list byte)
  (Ht : valid_private t) (Hb : length buffer = connectTokenPrivateBytes)
  (Hn : length nonce = connectTokenNonceBytes) (Hk : length key = KeyBytes) :
  ∃ written encrypted decrypted,
    Private.write t buffer = Some written ∧
    encryptConnectTokenPrivate written pid exp nonce key = Some (true, encrypted) ∧
    length encrypted = connectTokenPrivateBytes ∧
    decryptConnectTokenPrivate encrypted pid exp nonce key = Some (Some decrypted) ∧
    drop (connectTokenPrivateBytes - MacBytes) decrypted =
      drop (connectTokenPrivateBytes - MacBytes) encrypted ∧
    Private.read zeroPrivate decrypted = Some (None, t).
Proof. by apply private_token_cycle. Qed.

Lemma encryptChallengeToken_spec buffer sequence key :
  length buffer = challengeTokenBytes → length key = KeyBytes →
  encryptChallengeToken buffer sequence key =
    Some (true, Seal chacha20poly1305 key (packet_nonce sequence) []
                  (take (challengeTokenBytes - MacBytes) buffer)).
Proof.
  intros Hb Hk. unfold encryptChallengeToken. rewrite packetNonce_spec. cbn [mbind option_bind].
  unfold encryptAEAD.
  rewrite encrypt_in_place_spec by (done || apply L || apply length_packet_nonce || clia).
  rewrite drop_ge by clia. by rewrite app_nil_r.
Qed.

(** Round trip: the challenge token the server writes and encrypts in its
    300 bytes decrypts under the same sequence number and challenge key to the
    same client id and user data. *)
Theorem challenge_token_roundtrip (t : challengeToken) (sequence : Z) (key buffer : list byte)
  (Ht : valid_challenge t) (Hb : length buffer = challengeTokenBytes) (Hk : length key = KeyBytes) :
  ∃ written encrypted decrypted,
    Challenge.write t buffer = Some written ∧
    encryptChallengeToken written sequence key = Some (true, encrypted) ∧
    length encrypted = challengeTokenBytes ∧
    decryptChallengeToken encrypted sequence key = Some (Some decrypted) ∧
    Challenge.read zeroChallengeToken decrypted = Some (None, t).
Proof.
  pose proof (length_enc_challenge t Ht) as He.
  set (plain := enc_challenge t ++ zeros 20).
  assert (length plain = challengeTokenBytes - MacBytes)%nat as Hp
    by (unfold plain; rewrite length_app, He, length_zeros; clia).
  assert (take (challengeTokenBytes - MacBytes) (enc_challenge t ++ zeros 36) = plain) as Htk.
  { rewrite take_app_ge by (rewrite He; clia). unfold plain, zeros. by rewrite take_replicate, He. }
  set (sealed := Seal chacha20poly1305 key (packet_nonce sequence) [] plain).
  assert (length sealed = challengeTokenBytes) as Hs
    by (unfold sealed; rewrite Seal_length, Hp by done; clia).
  eexists _, sealed, (plain ++ drop (challengeTokenBytes - MacBytes) sealed). split_and!.
  - by apply challenge_write_spec.
  - rewrite encryptChallengeToken_spec; [by rewrite Htk| |done].
    rewrite length_app, He, length_zeros. clia.
  - done.
  - unfold decryptChallengeToken. rewrite packetNonce_spec. cbn [mbind option_bind].
    pose proof (decrypt_in_place_seal chacha20poly1305 chachaNonceSize key (packet_nonce sequence)
                  [] plain [] Hk (length_packet_nonce _)) as H.
    rewrite app_nil_r, Hp in H. exact H.
  - clearbody sealed. unfold plain. rewrite <-app_assoc. apply challenge_read_spec; [done|].
    rewrite !length_app, He, length_zeros, length_drop, Hs. clia.
Qed.
End token_crypto_facts.

Lemma public_token_cycle (t : connectToken) (buffer : list byte)
  (Ht : valid_public t) (Hb : length buffer = ConnectTokenBytes) :
  ∃ written, Public.write t buffer = Some written ∧ length written = ConnectTokenBytes ∧
    Public.read zeroConnectToken written = Some (None, t).
Proof.
  pose proof (length_enc_public t Ht) as Hle.
  assert (length (enc_public t ++ zeros (ConnectTokenBytes - length (enc_public t))) = ConnectTokenBytes)
    by (rewrite length_app, length_zeros; lia).
  eexists. split_and!; [by apply public_write_spec|done|by apply public_read_spec].
Qed.

(** Round trip: a public connect token with valid fields fits the 2048 byte
    buffer, and reading the buffer into a fresh struct gives it back. *)
Theorem public_token_roundtrip (t : connectToken) (buffer : list byte)
  (Ht : valid_public t) (Hb : length buffer = ConnectTokenBytes) :
  ∃ written, Public.write t buffer = Some written ∧ length written = ConnectTokenBytes ∧
    Public.read zeroConnectToken written = Some (None, t).
Proof. by apply public_token_cycle. Qed.

(** Safety: on every byte string, reading a private connect token does not
    panic; it returns an error or a token with 1 to 32 server addresses, each
    IPv4 or IPv6, 32 byte keys and 256 bytes of user data. *)
Theorem private_read_safe (buffer : list byte) :
  ∃ err t, Private.read zeroPrivate buffer = Some (err, t) ∧ (err = None → wf_private t).
Proof. apply private_read_total. Qed.

(** Safety: on every byte string, and into whatever connect token struct a
    client holds from an earlier attempt, reading a public connect token does
    not panic; it returns an error or a token with 1 to 32 server addresses,
    each IPv4 or IPv6, whose create timestamp is not after its expire
    timestamp. *)
Theorem public_read_safe (token : connectToken) (buffer : list byte) (Hs : public_shape token) :
  ∃ err t, Public.read token buffer = Some (err, t) ∧ public_shape t ∧ (err = None → wf_public t).
Proof. by apply public_read_total. Qed.

(** ** Concrete instances *)
Definition sample_ipv4 : Address :=
  mkAddress AddressIPv4 (byte.of_Z <$> [127; 0; 0; 1]) (replicate 8 0) 40000.
Definition sample_ipv6 : Address :=
  mkAddress AddressIPv6 (replicate 4 (byte.of_Z 0)) [65152; 0; 0; 0; 514; 45823; 65054; 33577] 50000.
Definition sample_addresses : list Address := go_copy zeroAddresses [sample_ipv4; sample_ipv6].
Definition sample_private : connectTokenPrivate :=
  mkPrivate 123456789 (-1) 2 sample_addresses (replicate KeyBytes (byte.of_Z 17))
    (replicate KeyBytes (byte.of_Z 34)) (replicate UserDataBytes (byte.of_Z 51)).
Definition sample_public : connectToken :=
  mkConnectToken 7 1000 1030 (replicate connectTokenNonceBytes (byte.of_Z 9))
    (replicate connectTokenPrivateBytes (byte.of_Z 68)) 5 2 sample_addresses
    (replicate KeyBytes (byte.of_Z 17)) (replicate KeyBytes (byte.of_Z 34)).
Definition sample_challenge : challengeToken :=
  mkChallengeToken 123456789 (replicate UserDataBytes (byte.of_Z 51)).

Lemma sample_ipv4_valid : valid_address sample_ipv4.
Proof. split; [by vm_compute|]. by left. Qed.
Lemma sample_ipv6_valid : valid_address sample_ipv6.
Proof. split; [by vm_compute|]. right. split_and!; [done..|]. repeat constructor; done. Qed.
Lemma sample_addresses_valid : valid_addresses 2 sample_addresses.
Proof.
  exists [sample_ipv4; sample_ipv6]. split_and!; [|done|clia|clia|by vm_compute].
  apply Forall_cons; split; [apply sample_ipv4_valid|].
  apply Forall_cons; split; [apply sample_ipv6_valid|done].
Qed.
Lemma sample_private_valid : valid_private sample_private.
Proof. split; try (by vm_compute). apply sample_addresses_valid. Qed.
Lemma sample_public_valid : valid_public sample_public.
Proof. split; try (by vm_compute). apply sample_addresses_valid. Qed.

Lemma private_token_roundtrip_witness :
  ∃ written encrypted decrypted,
    Private.write sample_private (zeros connectTokenPrivateBytes) = Some written ∧
    encryptConnectTokenPrivate (C := sample_crypto) written 7 1030 (zeros 24) (zeros 32) =
      Some (true, encrypted) ∧
    length encrypted = connectTokenPrivateBytes ∧
    decryptConnectTokenPrivate (C := sample_crypto) encrypted 7 1030 (zeros 24) (zeros 32) =
      Some (Some decrypted) ∧
    drop (connectTokenPrivateBytes - MacBytes) decrypted =
      drop (connectTokenPrivateBytes - MacBytes) encrypted ∧
    Private.read zeroPrivate decrypted = Some (None, sample_private).
Proof.
  apply (private_token_roundtrip (C := sample_crypto)); [apply sample_private_valid|reflexivity..].
Defined.
Lemma challenge_token_roundtrip_witness :
  ∃ written encrypted decrypted,
    Challenge.write sample_challenge (zeros challengeTokenBytes) = Some written ∧
    encryptChallengeToken (C := sample_crypto) written 3 (zeros 32) = Some (true, encrypted) ∧
    length encrypted = challengeTokenBytes ∧
    decryptChallengeToken (C := sample_crypto) encrypted 3 (zeros 32) = Some (Some decrypted) ∧
    Challenge.read zeroChallengeToken decrypted = Some (None, sample_challenge).
Proof.
  apply (challenge_token_roundtrip (C := sample_crypto)); [by vm_compute|reflexivity..].
Defined.
Lemma public_token_roundtrip_witness :
  ∃ written, Public.write sample_public (zeros ConnectTokenBytes) = Some written ∧
    length written = ConnectTokenBytes ∧
    Public.read zeroConnectToken written = Some (None, sample_public).
Proof. apply public_token_roundtrip; [apply sample_public_valid|reflexivity]. Defined.
Lemma public_read_safe_witness :
  ∃ err t, Public.read zeroConnectToken
      (enc_public sample_public ++ zeros (ConnectTokenBytes - length (enc_public sample_public))) =
        Some (err, t) ∧ public_shape t ∧
    (err = None → wf_public t).
Proof. apply public_read_safe, zeroConnectToken_shape. Defined.
