(* ===== verification/TokenGenerate.v ===== *)
(** GenerateConnectToken of token.go, with GenerateKey, generateNonce and
    RandomBytes of crypto.go. Random bytes come from the operating system and
    are a parameter; the wall clock is an argument. *)

From S2P Require Import Prelude Constants Buffer Address AddressString Crypto SampleCrypto Token.
From Stdlib Require Import(notations) Strings.String.

(** crypto/rand: what the k-th call of Read puts into a slice of n bytes, [None]
    for an error. The state is the number of calls so far. *)
Class Rand := randRead : nat → nat → option (list byte).
(** The documentation of crypto/rand: Read fills the whole slice and never
    returns an error. *)
Class RandLaws (R : Rand) : Prop :=
  randRead_fills k n : ∃ bs, randRead k n = Some bs ∧ length bs = n.

Inductive generateError :=
| ErrNumServerAddresses
| ErrServerAddressesMismatch
| ErrPrivateKeyLength
| ErrUserDataLength
| ErrParse (err : addressError)
| ErrEncrypt.

Section random.
Context {R : Rand}.
(** RandomBytes panics when rand.Read fails. *)
Definition RandomBytes (n : nat) : M nat (list byte) := λ k,
  bs ← randRead k n; Some (bs, S k).
Definition GenerateKey : M nat (list byte) := RandomBytes KeyBytes.
Definition generateNonce : M nat (list byte) := RandomBytes connectTokenNonceBytes.
End random.

(** The loop that parses one list of addresses. *)
Fixpoint parseAddresses (strings : list (list byte)) : option (addressError + list Address) :=
  match strings with
  | [] => Some (inr [])
  | s :: strings =>
      r ← ParseAddress s;
      match r with
      | inl err => Some (inl err)
      | inr address =>
          r ← parseAddresses strings;
          Some match r with inl err => inl err | inr addresses => inr (address :: addresses) end
      end
  end.

Section generate.
Context {C : CryptoLib} {R : Rand}.

Definition expireTimestampFor (createTimestamp expireSeconds : Z) : Z :=
  if 0 <=? expireSeconds then u64 (createTimestamp + u64 expireSeconds) else 2 ^ 64 - 1.

(** From the parsed addresses on. *)
Definition generateToken (now : Z) (publicAddresses internalAddresses : list Address)
  (expireSeconds timeoutSeconds clientID protocolID : Z) (privateKey userData : list byte)
  : M nat (generateError + list byte) :=
  nonce ← generateNonce;
  key1 ← RandomBytes KeyBytes;
  key2 ← RandomBytes KeyBytes;
  let tokenPrivate := Private.generate clientID (i32 timeoutSeconds) internalAddresses userData key1 key2 in
  privateData ← lift (Private.write tokenPrivate (zeros connectTokenPrivateBytes));
  let createTimestamp := u64 now in
  let expireTimestamp := expireTimestampFor createTimestamp expireSeconds in
  '(ok, privateData) ← lift (encryptConnectTokenPrivate privateData protocolID expireTimestamp nonce privateKey);
  if negb ok then mret (inl ErrEncrypt)
  else
    let token := mkConnectToken protocolID createTimestamp expireTimestamp nonce privateData
      (i32 timeoutSeconds) (Z.of_nat (length publicAddresses)) (go_copy zeroAddresses publicAddresses)
      (ctp_clientToServerKey tokenPrivate) (ctp_serverToClientKey tokenPrivate) in
    outputBuffer ← lift (Public.write token (zeros ConnectTokenBytes));
    mret (inr outputBuffer).

Definition GenerateConnectToken (now : Z) (publicServerAddresses internalServerAddresses : list (list byte))
  (expireSeconds timeoutSeconds clientID protocolID : Z) (privateKey userData : list byte)
  : M nat (generateError + list byte) :=
  let numServerAddresses := length publicServerAddresses in
  if bool_decide (numServerAddresses ≤ 0)%nat || bool_decide (MaxServersPerConnect < numServerAddresses)%nat
  then mret (inl ErrNumServerAddresses)
  else if negb (bool_decide (length internalServerAddresses = numServerAddresses))
  then mret (inl ErrServerAddressesMismatch)
  else if negb (bool_decide (length privateKey = KeyBytes)) then mret (inl ErrPrivateKeyLength)
  else if bool_decide (UserDataBytes < length userData)%nat then mret (inl ErrUserDataLength)
  else
    r ← lift (parseAddresses publicServerAddresses);
    match r with
    | inl err => mret (inl (ErrParse err))
    | inr publicAddresses =>
        r ← lift (parseAddresses internalServerAddresses);
        match r with
        | inl err => mret (inl (ErrParse err))
        | inr internalAddresses =>
            generateToken now publicAddresses internalAddresses expireSeconds timeoutSeconds clientID
              protocolID privateKey userData
        end
    end.
End generate.

(** ** Parsing lists of addresses *)
Lemma parseAddresses_total strings :
  match parseAddresses strings with
  | Some (inr addresses) => length addresses = length strings ∧ Forall valid_address addresses
  | Some (inl _) => True
  | None => False
  end.
Proof.
  induction strings as [|s strings IH]; [done|]. cbn [parseAddresses].
  pose proof (ParseAddress_safe s) as Hs. destruct (ParseAddress s) as [[e|a]|]; [done| |done].
  cbn [mbind option_bind]. destruct (parseAddresses strings) as [[e|l]|]; [done| |done].
  destruct IH as [Hl Hv]. cbn [mbind option_bind length]. split; [by rewrite Hl|by constructor].
Qed.
Lemma parseAddresses_strings addresses :
  Forall valid_address addresses → parseAddresses (AddressString <$> addresses) = Some (inr addresses).
Proof.
  induction 1 as [|a l Ha _ IH]; [done|]. rewrite fmap_cons. cbn [parseAddresses].
  rewrite ParseAddress_String by done. cbn [mbind option_bind]. by rewrite IH.
Qed.

(** ** What is generated *)
Lemma go_copy_pad {A : Type} (d : A) n l :
  (length l ≤ n)%nat → go_copy (replicate n d) l = l ++ replicate (n - length l) d.
Proof.
  intros Hl. unfold go_copy. rewrite length_replicate, take_ge by lia. unfold splice.
  cbn [take app]. by rewrite drop_replicate.
Qed.
Lemma go_copy_addresses xs :
  Forall valid_address xs → (1 ≤ length xs ≤ MaxServersPerConnect)%nat →
  valid_addresses (Z.of_nat (length xs)) (go_copy zeroAddresses xs).
Proof.
  intros Hv Hl. exists xs. split_and!; [done|done|lia|lia|]. apply go_copy_pad. lia.
Qed.

Section generate_facts.
Context {C : CryptoLib} {L : CryptoLaws C} {R : Rand} {RL : RandLaws R}.

Lemma RandomBytes_wp n k (Q : list byte → nat → Prop) :
  (∀ bs, length bs = n → Q bs (S k)) → wp (RandomBytes n) Q k.
Proof.
  intros HQ. unfold wp, RandomBytes. destruct (randRead_fills k n) as (bs & -> & Hl). by apply HQ.
Qed.
Lemma expireTimestampFor_range now e :
  0 ≤ now < 2 ^ 63 → e < 2 ^ 63 →
  is_u64 (expireTimestampFor now e) ∧ now ≤ expireTimestampFor now e ∧
  expireTimestampFor now e = if 0 <=? e then now + e else 2 ^ 64 - 1.
Proof.
  intros Hn He. unfold expireTimestampFor, is_u64, u64. destruct (Z.leb_spec 0 e); [|lia].
  rewrite (Z.mod_small e), Z.mod_small by lia. lia.
Qed.

(** The two halves of a token agree, with each other and with the request. *)
Record token_for (now expireSeconds timeoutSeconds clientID protocolID : Z)
  (public internal : list Address) (userData : list byte)
  (token : connectToken) (private : connectTokenPrivate) : Prop := {
  tf_protocolID : ct_protocolID token = protocolID;
  tf_create : ct_createTimestamp token = now;
  tf_expire : ct_expireTimestamp token = if 0 <=? expireSeconds then now + expireSeconds else 2 ^ 64 - 1;
  tf_timeout : ct_timeoutSeconds token = i32 timeoutSeconds ∧ ctp_timeoutSeconds private = i32 timeoutSeconds;
  tf_public : ct_numServerAddresses token = Z.of_nat (length public) ∧
              take (length public) (ct_serverAddresses token) = public;
  tf_internal : ctp_numServerAddresses private = Z.of_nat (length internal) ∧
                take (length internal) (ctp_serverAddresses private) = internal;
  tf_clientID : ctp_clientID private = clientID;
  tf_userData : ctp_userData private = userData ++ zeros (UserDataBytes - length userData);
  tf_keys : ctp_clientToServerKey private = ct_clientToServerKey token ∧
            ctp_serverToClientKey private = ct_serverToClientKey token;
}.
Lemma generateToken_wp now public internal expireSeconds timeoutSeconds clientID protocolID privateKey userData k :
  0 ≤ now < 2 ^ 63 → expireSeconds < 2 ^ 63 → is_u64 clientID → is_u64 protocolID →
  (1 ≤ length public ≤ MaxServersPerConnect)%nat → length internal = length public →
  Forall valid_address public → Forall valid_address internal →
  length privateKey = KeyBytes → (length userData ≤ UserDataBytes)%nat →
  wp (generateToken now public internal expireSeconds timeoutSeconds clientID protocolID privateKey userData)
    (λ r _, ∃ data token private decrypted, r = inr data ∧ length data = ConnectTokenBytes ∧
       Public.read zeroConnectToken data = Some (None, token) ∧ valid_public token ∧
       decryptConnectTokenPrivate (ct_privateData token) protocolID (ct_expireTimestamp token)
         (ct_nonce token) privateKey = Some (Some decrypted) ∧
       Private.read zeroPrivate decrypted = Some (None, private) ∧
       token_for now expireSeconds timeoutSeconds clientID protocolID public internal userData token private) k.
Proof.
  intros Hnow Hexp Hid Hpid Hn Hint Hpub Hpriv Hkey Hud. unfold generateToken.
  apply wp_bind, RandomBytes_wp. intros nonce Hnonce.
  apply wp_bind, RandomBytes_wp. intros key1 Hkey1. apply wp_bind, RandomBytes_wp. intros key2 Hkey2.
  set (private := Private.generate clientID (i32 timeoutSeconds) internal userData key1 key2).
  assert (u64 now = now) as -> by (apply u64_id; unfold is_u64; lia).
  destruct (expireTimestampFor_range now expireSeconds Hnow Hexp) as (He1 & He2 & He3).
  set (expire := expireTimestampFor now expireSeconds) in *.
  assert (length (go_copy (zeros UserDataBytes) userData) = UserDataBytes) as Hudl.
  { unfold zeros. rewrite go_copy_pad, length_app, length_replicate by done. lia. }
  assert (valid_private private) as Hvp.
  { split; try done; [apply i32_range|]. apply go_copy_addresses; [done|lia]. }
  destruct (private_token_cycle private protocolID expire nonce privateKey (zeros connectTokenPrivateBytes))
    as (written & encrypted & decrypted & Hw & Henc & Hel & Hdec & _ & Hread); [done|apply length_zeros|done|done|].
  apply wp_bind. eapply wp_lift; [exact Hw|]. apply wp_bind. eapply wp_lift; [exact Henc|]. cbn [negb].
  set (token := mkConnectToken _ _ _ _ _ _ _ _ _ _).
  assert (valid_public token) as Hvt.
  { split; try done; [unfold is_u64; simpl; lia|apply i32_range|]. by apply go_copy_addresses. }
  destruct (public_token_cycle token (zeros ConnectTokenBytes)) as (data & Hpw & Hdl & Hpr);
    [done|apply length_zeros|].
  apply wp_bind. eapply wp_lift; [exact Hpw|]. apply wp_ret.
  exists data, token, private, decrypted. split_and!; try done.
  assert (∀ xs, (length xs ≤ MaxServersPerConnect)%nat →
    take (length xs) (go_copy zeroAddresses xs) = xs) as Htake.
  { intros xs Hxs. unfold zeroAddresses. rewrite go_copy_pad by done. apply take_app_length. }
  split; try done.
  - split; [done|]. apply Htake. lia.
  - split; [done|]. apply Htake. lia.
  - unfold private, Private.generate, zeros. cbn [ctp_userData]. by rewrite go_copy_pad.
Qed.

(** What GenerateConnectToken asks of its arguments. *)
Record request_ok (public internal : list (list byte)) (privateKey userData : list byte) : Prop := {
  ro_public : (1 ≤ length public ≤ MaxServersPerConnect)%nat;
  ro_internal : length internal = length public;
  ro_privateKey : length privateKey = KeyBytes;
  ro_userData : (length userData ≤ UserDataBytes)%nat;
  ro_parse_public : ∃ addresses, parseAddresses public = Some (inr addresses);
  ro_parse_internal : ∃ addresses, parseAddresses internal = Some (inr addresses);
}.
Lemma GenerateConnectToken_ok now public internal publicAddresses internalAddresses
  expireSeconds timeoutSeconds clientID protocolID privateKey userData :
  request_ok public internal privateKey userData →
  parseAddresses public = Some (inr publicAddresses) →
  parseAddresses internal = Some (inr internalAddresses) → ∀ k,
  GenerateConnectToken now public internal expireSeconds timeoutSeconds clientID protocolID privateKey userData k =
  generateToken now publicAddresses internalAddresses expireSeconds timeoutSeconds clientID protocolID
    privateKey userData k.
Proof.
  intros [H1 H2 H3 H4 _ _] Hp Hi k. unfold GenerateConnectToken.
  rewrite (bool_decide_eq_false_2 (length public ≤ 0)%nat),
    (bool_decide_eq_false_2 (MaxServersPerConnect < _)%nat) by lia. cbn [orb].
  rewrite (bool_decide_eq_true_2 (length internal = _)), (bool_decide_eq_true_2 (length privateKey = _)),
    (bool_decide_eq_false_2 (UserDataBytes < _)%nat) by (done || lia). cbn [negb].
  unfold lift, mbind, M_bind, option_bind. by rewrite Hp, Hi.
Qed.

(** C27. A generated token is a token for what was asked, to both of its readers:
    with valid arguments and addresses that parse, GenerateConnectToken draws
    its random bytes and returns 2048 bytes; the client reads from them the
    protocol id, the expiry (capped at never for a negative lifetime, without
    overflow), the timeout and the public addresses in order; the server that
    holds the private key decrypts the private part and reads from it the client
    id, the same timeout, the internal addresses in order and the zero padded
    user data; and both halves carry the same two session keys. *)
Theorem generated_token_accepted now expireSeconds timeoutSeconds clientID protocolID
  (public internal : list (list byte)) (publicAddresses internalAddresses : list Address)
  (privateKey userData : list byte) (k : nat)
  (Hreq : request_ok public internal privateKey userData)
  (Hpublic : parseAddresses public = Some (inr publicAddresses))
  (Hinternal : parseAddresses internal = Some (inr internalAddresses))
  (Hnow : 0 ≤ now < 2 ^ 63) (Hexpire : expireSeconds < 2 ^ 63)
  (Hid : is_u64 clientID) (Hpid : is_u64 protocolID) :
  ∃ data k' token private decrypted,
    GenerateConnectToken now public internal expireSeconds timeoutSeconds clientID protocolID
      privateKey userData k = Some (inr data, k') ∧
    length data = ConnectTokenBytes ∧
    Public.read zeroConnectToken data = Some (None, token) ∧
    decryptConnectTokenPrivate (ct_privateData token) protocolID (ct_expireTimestamp token)
      (ct_nonce token) privateKey = Some (Some decrypted) ∧
    Private.read zeroPrivate decrypted = Some (None, private) ∧
    token_for now expireSeconds timeoutSeconds clientID protocolID publicAddresses internalAddresses
      userData token private.
Proof.
  pose proof (parseAddresses_total public) as Hp. rewrite Hpublic in Hp. destruct Hp as [Hpl Hpv].
  pose proof (parseAddresses_total internal) as Hi. rewrite Hinternal in Hi. destruct Hi as [Hil Hiv].
  pose proof Hreq as [H1 H2 H3 H4 _ _].
  pose proof (generateToken_wp now publicAddresses internalAddresses expireSeconds timeoutSeconds clientID
    protocolID privateKey userData k Hnow Hexpire Hid Hpid ltac:(lia) ltac:(lia) Hpv Hiv H3 H4) as Hwp.
  apply wp_inv in Hwp as (r & k' & Hrun & data & token & private & decrypted & -> & ? & ? & _ & ? & ? & ?).
  rewrite (GenerateConnectToken_ok _ _ _ _ _ _ _ _ _ _ _ Hreq Hpublic Hinternal), Hrun.
  by exists data, k', token, private, decrypted.
Qed.

(** Every outcome of GenerateConnectToken. *)
Lemma GenerateConnectToken_wp now expireSeconds timeoutSeconds clientID protocolID
  (public internal : list (list byte)) (privateKey userData : list byte) (k : nat) :
  0 ≤ now < 2 ^ 63 → expireSeconds < 2 ^ 63 → is_u64 clientID → is_u64 protocolID →
  wp (GenerateConnectToken now public internal expireSeconds timeoutSeconds clientID protocolID
        privateKey userData)
    (λ r k', match r with
             | inl e => k' = k ∧ e ≠ ErrEncrypt ∧ ¬ request_ok public internal privateKey userData
             | inr data => length data = ConnectTokenBytes ∧ request_ok public internal privateKey userData
             end) k.
Proof.
  intros Hnow Hexpire Hid Hpid. unfold GenerateConnectToken.
  destruct (decide (1 ≤ length public ≤ MaxServersPerConnect)%nat) as [Hn|Hn].
  2: { destruct (bool_decide_reflect (length public ≤ 0)%nat), (bool_decide_reflect (MaxServersPerConnect < length public)%nat);
         cbn [orb]; [| | |lia]; (apply wp_ret; split_and!; [done|done|by intros [? _ _ _ _ _]]). }
  rewrite (bool_decide_eq_false_2 (length public ≤ 0)%nat),
    (bool_decide_eq_false_2 (MaxServersPerConnect < _)%nat) by lia. cbn [orb].
  case_bool_decide as H2; cbn [negb]; [|apply wp_ret; split_and!; [done|done|by intros [_ ? _ _ _ _]]].
  case_bool_decide as H3; cbn [negb]; [|apply wp_ret; split_and!; [done|done|by intros [_ _ ? _ _ _]]].
  case_bool_decide as H4; [apply wp_ret; split_and!; [done|done|intros [_ _ _ ? _ _]; lia]|].
  pose proof (parseAddresses_total public) as Hp. pose proof (parseAddresses_total internal) as Hi.
  destruct (parseAddresses public) as [[e|pa]|] eqn:Hpa; [| |done]; (apply wp_bind; eapply wp_lift; [done|]).
  { apply wp_ret. split_and!; [done|done|]. intros [_ _ _ _ [? Hx] _]. by rewrite Hpa in Hx. }
  destruct (parseAddresses internal) as [[e|ia]|] eqn:Hia; [| |done]; (apply wp_bind; eapply wp_lift; [done|]).
  { apply wp_ret. split_and!; [done|done|]. intros [_ _ _ _ _ [? Hx]]. by rewrite Hia in Hx. }
  destruct Hp as [Hpl Hpv], Hi as [Hil Hiv]. eapply wp_mono.
  { apply (generateToken_wp now pa ia expireSeconds timeoutSeconds clientID protocolID privateKey userData k
      Hnow Hexpire Hid Hpid ltac:(lia) ltac:(lia) Hpv Hiv H3 ltac:(lia)). }
  intros r k' (data & token & private & decrypted & -> & ? & _). split; [done|]. split; eauto. lia.
Qed.

(** C28. Errors of GenerateConnectToken: whatever the arguments, it does not
    panic; it succeeds exactly when there are 1 to 32 public addresses, as many
    internal ones, a 32 byte key, at most 256 bytes of user data, and every
    address parses; an error never comes from encryption and consumes no random
    bytes. *)
Theorem generate_outcome now expireSeconds timeoutSeconds clientID protocolID
  (public internal : list (list byte)) (privateKey userData : list byte) (k : nat)
  (Hnow : 0 ≤ now < 2 ^ 63) (Hexpire : expireSeconds < 2 ^ 63)
  (Hid : is_u64 clientID) (Hpid : is_u64 protocolID) :
  ∃ r k', GenerateConnectToken now public internal expireSeconds timeoutSeconds clientID protocolID
      privateKey userData k = Some (r, k') ∧
    match r with
    | inl e => k' = k ∧ e ≠ ErrEncrypt ∧ ¬ request_ok public internal privateKey userData
    | inr data => length data = ConnectTokenBytes ∧ request_ok public internal privateKey userData
    end.
Proof. by apply wp_inv, GenerateConnectToken_wp. Qed.
End generate_facts.

(** ** Concrete instances *)
Definition sample_rand : Rand := λ k n, Some (replicate n (byte.of_Z (Z.of_nat k))).
#[export] Instance sample_rand_laws : RandLaws sample_rand.
Proof. intros k n. eexists. split; [done|]. apply length_replicate. Qed.
Definition sample_public_strings : list (list byte) :=
  [String.list_byte_of_string "127.0.0.1:40000"%string; String.list_byte_of_string "[fe80::202:b2ff:fe1e:8329]:50000"%string].
Lemma sample_request_ok :
  request_ok sample_public_strings sample_public_strings (zeros KeyBytes) [byte.of_Z 1] ∧
  parseAddresses sample_public_strings = Some (inr [sample_ipv4; sample_ipv6]).
Proof.
  assert (parseAddresses sample_public_strings = Some (inr [sample_ipv4; sample_ipv6])) as Hp
    by (vm_compute; reflexivity).
  split; [|exact Hp]. split; try (simpl; clia); try done; eauto.
Defined.
Lemma generated_token_accepted_witness :
  ∃ data k' token private decrypted,
    GenerateConnectToken (C := sample_crypto) (R := sample_rand) 1000 sample_public_strings sample_public_strings
      30 5 123456789 7 (zeros KeyBytes) [byte.of_Z 1] 0%nat = Some (inr data, k') ∧
    length data = ConnectTokenBytes ∧
    Public.read zeroConnectToken data = Some (None, token) ∧
    decryptConnectTokenPrivate (C := sample_crypto) (ct_privateData token) 7 (ct_expireTimestamp token)
      (ct_nonce token) (zeros KeyBytes) = Some (Some decrypted) ∧
    Private.read zeroPrivate decrypted = Some (None, private) ∧
    token_for 1000 30 5 123456789 7 [sample_ipv4; sample_ipv6] [sample_ipv4; sample_ipv6] [byte.of_Z 1] token private.
Proof.
  destruct sample_request_ok as [Hr Hp].
  apply (generated_token_accepted (C := sample_crypto) (R := sample_rand) 1000 30 5 123456789 7
    sample_public_strings sample_public_strings [sample_ipv4; sample_ipv6] [sample_ipv4; sample_ipv6]
    (zeros KeyBytes) [byte.of_Z 1] 0%nat); first [exact Hr|exact Hp|split; vm_compute; (reflexivity || discriminate)|lia].
Defined.
Lemma generate_outcome_witness :
  GenerateConnectToken (C := sample_crypto) (R := sample_rand) 1000 sample_public_strings []
    30 5 123456789 7 (zeros KeyBytes) [] 0%nat = Some (inl ErrServerAddressesMismatch, 0%nat) ∧
  ∃ r k', GenerateConnectToken (C := sample_crypto) (R := sample_rand) 1000 sample_public_strings []
      30 5 123456789 7 (zeros KeyBytes) [] 0%nat = Some (r, k') ∧
    match r with
    | inl e => k' = 0%nat ∧ e ≠ ErrEncrypt ∧ ¬ request_ok sample_public_strings [] (zeros KeyBytes) []
    | inr data => length data = ConnectTokenBytes ∧ request_ok sample_public_strings [] (zeros KeyBytes) []
    end.
Proof.
  split; [vm_compute; reflexivity|].
  apply (generate_outcome (C := sample_crypto) (R := sample_rand)); first [lia|split; vm_compute; (reflexivity || discriminate)].
Defined.
