(* ===== verification/Packet.v ===== *)
(** packet.go: the seven packet types, the encoder [writePacket] and the
    decoder [readPacket]. The decoder runs on a [reader] whose buffer is
    decrypted in place, and returns what the Go function writes through its
    pointers together with the packet: the sequence number and the replay
    protection state. A [nil] key or replay protection is [None]. *)

From S2P Require Import Prelude Constants Buffer Address Crypto SampleCrypto Replay Token.

Record connectionRequest := mkRequest {
  req_versionInfo : list byte;
  req_protocolID : Z;
  req_connectTokenExpireTimestamp : Z;
  req_connectTokenNonce : list byte;
  req_connectTokenData : list byte;
}.
Inductive packet :=
| Request (request : connectionRequest)
| Denied
| Challenge_ (challengeTokenSequence : Z) (challengeTokenData : list byte)
| Response (challengeTokenSequence : Z) (challengeTokenData : list byte)
| KeepAlive (clientIndex maxClients : Z)
| Payload (payloadData : list byte)
| Disconnect.

Definition packetType (p : packet) : Z :=
  match p with
  | Request _ => connectionRequestPacket
  | Denied => connectionDeniedPacket
  | Challenge_ _ _ => connectionChallengePacket
  | Response _ _ => connectionResponsePacket
  | KeepAlive _ _ => connectionKeepAlivePacket
  | Payload _ => connectionPayloadPacket
  | Disconnect => connectionDisconnectPacket
  end.

(** The loop of sequenceNumberBytesRequired: [n] iterations are left. *)
Fixpoint sequence_scan (n : nat) (i mask sequence : Z) : Z :=
  match n with
  | O => i
  | S n => if negb (Z.land sequence mask =? 0) then i
           else sequence_scan n (i + 1) (Z.shiftr mask 8) sequence
  end.
Definition sequenceNumberBytesRequired (sequence : Z) : Z :=
  8 - sequence_scan 7 0 0xFF00000000000000 sequence.

Definition packetAdditionalData (protocolID prefixByte : Z) : option (list byte) :=
  '(_, w) ← (Writer.bytes versionInfo;; Writer.uint64 protocolID;; Writer.uint8 prefixByte)
              (mkWriter (zeros (versionInfoBytes + 8 + 1)) 0);
  Some (w_buffer w).

(** ** Writing *)
Definition writeRequest (request : connectionRequest) : M writer unit :=
  Writer.uint8 connectionRequestPacket;;
  Writer.bytes (req_versionInfo request);;
  Writer.uint64 (req_protocolID request);;
  Writer.uint64 (req_connectTokenExpireTimestamp request);;
  Writer.bytes (req_connectTokenNonce request);;
  Writer.bytes (req_connectTokenData request).

(** The low [n] bytes of the sequence number, least significant first. *)
Fixpoint writeSequence (n : nat) (sequenceTemp : Z) : M writer unit :=
  match n with
  | O => mret tt
  | S n => Writer.uint8 (Z.land sequenceTemp 0xFF);; writeSequence n (Z.shiftr sequenceTemp 8)
  end.

(** The switch on the packet's type. *)
Definition writeBody (p : packet) : M writer unit :=
  match p with
  | Denied => mret tt
  | Challenge_ s d | Response s d => Writer.uint64 s;; Writer.bytes d
  | KeepAlive i m => Writer.uint32 (u32 i);; Writer.uint32 (u32 m)
  | Payload d => Writer.bytes d
  | Disconnect => mret tt
  | Request _ => panic
  end.

Section packets.
Context `{C : CryptoLib}.

(** Returns the number of bytes written (zero on failure) and the buffer. *)
Definition writePacket (p : packet) (buffer : list byte) (sequence : Z)
  (writePacketKey : list byte) (protocolID : Z) : option (nat * list byte) :=
  match p with
  | Request request =>
      '(_, w) ← writeRequest request (mkWriter buffer 0);
      Some (w_pos w, w_buffer w)
  | _ =>
      let sequenceBytes := sequenceNumberBytesRequired sequence in
      let prefixByte := Z.lor (packetType p) (u8 (Z.shiftl (u8 sequenceBytes) 4)) in
      '(_, w) ← (Writer.uint8 prefixByte;; writeSequence (Z.to_nat sequenceBytes) sequence)
                  (mkWriter buffer 0);
      let encryptedStart := w_pos w in
      '(_, w) ← writeBody p w;
      let encryptedFinish := w_pos w in
      additional ← packetAdditionalData protocolID prefixByte;
      nonce ← packetNonce sequence;
      '(ok, message) ← encryptAEAD (drop encryptedStart (w_buffer w))
                         (encryptedFinish - encryptedStart) additional nonce writePacketKey;
      let buffer := take encryptedStart (w_buffer w) ++ message in
      if (ok : bool) then Some ((encryptedFinish + MacBytes)%nat, buffer)
      else Some (0%nat, buffer)
  end.

(** ** Reading *)

(** Decryption of buffer[r.pos:] in place; false when it fails. *)
Definition decrypt_rest (decrypt : list byte → option (option (list byte))) : M reader bool :=
  r ← gets id;
  o ← lift (decrypt (drop (r_pos r) (r_buffer r)));
  match o with
  | Some rest => modify (set r_buffer (λ b, take (r_pos r) b ++ rest));; mret true
  | None => mret false
  end.

Definition requestPacketBytes : nat :=
  1 + versionInfoBytes + 8 + 8 + connectTokenNonceBytes + connectTokenPrivateBytes.

(** The branch for prefix byte zero. *)
Definition readRequest (bufferLength : nat) (protocolID currentTimestamp
  minConnectTokenExpireTimestamp : Z) (privateKey : option (list byte)) (allowed : list bool)
  : M reader (option packet) :=
  ok ← lift (aget allowed connectionRequestPacket);
  if negb ok then mret None
  else if negb (bool_decide (bufferLength = requestPacketBytes)) then mret None
  else match privateKey with
  | None => mret None
  | Some privateKey =>
    packetVersionInfo ← Reader.bytes versionInfoBytes;
    if negb (bool_decide (packetVersionInfo = versionInfo)) then mret None
    else
      (packetProtocolID ← Reader.uint64;
       if negb (packetProtocolID =? protocolID) then mret None
       else
         (expireTimestamp ← Reader.uint64;
          if expireTimestamp <=? currentTimestamp then mret None
          else if expireTimestamp <? minConnectTokenExpireTimestamp then mret None
          else
            (nonce ← Reader.bytes connectTokenNonceBytes;
             ok ← decrypt_rest (λ b,
                    decryptConnectTokenPrivate b protocolID expireTimestamp nonce privateKey);
             if negb ok then mret None
             else
               (data ← Reader.bytes connectTokenPrivateBytes;
                mret (Some (Request (mkRequest packetVersionInfo packetProtocolID
                                       expireTimestamp nonce data)))))))
  end.

(** The variable length sequence number: bytes [i] to [i + n - 1]. *)
Fixpoint readSequence (n : nat) (i sequence : Z) : M reader Z :=
  match n with
  | O => mret sequence
  | S n => value ← Reader.uint8;
           readSequence n (i + 1) (Z.lor sequence (u64 (Z.shiftl value (8 * i))))
  end.

(** The switch on the packet type, after decryption. *)
Definition readBody (packetType : Z) (decryptedBytes : nat) : M reader (option packet) :=
  if packetType =? connectionDeniedPacket then
    (if negb (bool_decide (decryptedBytes = 0%nat)) then mret None else mret (Some Denied))
  else if packetType =? connectionChallengePacket then
    (if negb (bool_decide (decryptedBytes = 8 + challengeTokenBytes)%nat) then mret None
     else (s ← Reader.uint64; d ← Reader.bytes challengeTokenBytes; mret (Some (Challenge_ s d))))
  else if packetType =? connectionResponsePacket then
    (if negb (bool_decide (decryptedBytes = 8 + challengeTokenBytes)%nat) then mret None
     else (s ← Reader.uint64; d ← Reader.bytes challengeTokenBytes; mret (Some (Response s d))))
  else if packetType =? connectionKeepAlivePacket then
    (if negb (bool_decide (decryptedBytes = 8%nat)) then mret None
     else (i ← Reader.uint32; m ← Reader.uint32; mret (Some (KeepAlive (i32 i) (i32 m)))))
  else if packetType =? connectionPayloadPacket then
    (if bool_decide (decryptedBytes < 1)%nat then mret None
     else if bool_decide (maxPayloadBytes < decryptedBytes)%nat then mret None
     else (d ← Reader.bytes decryptedBytes; mret (Some (Payload d))))
  else if packetType =? connectionDisconnectPacket then
    (if negb (bool_decide (decryptedBytes = 0%nat)) then mret None else mret (Some Disconnect))
  else mret None.

(** What readPacket leaves behind: the packet (or nil), *sequence and
    *replayProtection. *)
Record readResult := mkRead {
  rd_packet : option packet;
  rd_sequence : Z;
  rd_replay : option replayProtection;
}.

(** The replay window is consulted only for keep alive, payload and disconnect
    packets, and only when the caller passes one. *)
Definition replay_check (replay : option replayProtection) (packetType sequence : Z) : option bool :=
  match replay with
  | Some rp => if packetType >=? connectionKeepAlivePacket
               then Replay.alreadyReceived rp sequence else Some false
  | None => Some false
  end.
Definition replay_advance (replay : option replayProtection) (packetType sequence : Z)
  : option (option replayProtection) :=
  match replay with
  | Some rp => if packetType >=? connectionKeepAlivePacket
               then Some <$> Replay.advanceSequence sequence rp else Some replay
  | None => Some None
  end.

(** The rest of readPacket: encrypted packets. *)
Definition readEncrypted (bufferLength : nat) (prefixByte : Z) (readPacketKey : option (list byte))
  (protocolID : Z) (allowed : list bool) (replay : option replayProtection)
  : M reader readResult :=
  match readPacketKey with
  | None => mret (mkRead None 0 replay)
  | Some readPacketKey =>
    if bool_decide (bufferLength < 1 + 1 + MacBytes)%nat then mret (mkRead None 0 replay) else
    let type := Z.land prefixByte 0xF in
    if type >=? connectionNumPackets then mret (mkRead None 0 replay) else
    (ok ← lift (aget allowed type);
     if negb ok then mret (mkRead None 0 replay) else
     let sequenceBytes := Z.shiftr prefixByte 4 in
     if (sequenceBytes <? 1) || (sequenceBytes >? 8) then mret (mkRead None 0 replay) else
     if bool_decide (bufferLength < 1 + Z.to_nat sequenceBytes + MacBytes)%nat
     then mret (mkRead None 0 replay) else
     (sequence ← readSequence (Z.to_nat sequenceBytes) 0 0;
      already ← lift (replay_check replay type sequence);
      if (already : bool) then mret (mkRead None sequence replay) else
      (additional ← lift (packetAdditionalData protocolID prefixByte);
       nonce ← lift (packetNonce sequence);
       pos ← gets r_pos;
       let encryptedBytes := (bufferLength - pos)%nat in
       if bool_decide (encryptedBytes < MacBytes)%nat then mret (mkRead None sequence replay) else
       (ok ← decrypt_rest (λ b, decryptAEAD b encryptedBytes additional nonce readPacketKey);
        if negb ok then mret (mkRead None sequence replay) else
        let decryptedBytes := (encryptedBytes - MacBytes)%nat in
        (replay ← lift (replay_advance replay type sequence);
         p ← readBody type decryptedBytes;
         mret (mkRead p sequence replay))))))
  end.

Definition readPacket (buffer : list byte) (readPacketKey : option (list byte))
  (protocolID currentTimestamp minConnectTokenExpireTimestamp : Z)
  (privateKey : option (list byte)) (allowed : list bool) (replay : option replayProtection)
  : option readResult :=
  let bufferLength := length buffer in
  if bool_decide (bufferLength < 1)%nat then Some (mkRead None 0 replay)
  else
    fst <$> (prefixByte ← Reader.uint8;
             if prefixByte =? connectionRequestPacket then
               (p ← readRequest bufferLength protocolID currentTimestamp
                      minConnectTokenExpireTimestamp privateKey allowed;
                mret (mkRead p 0 replay))
             else readEncrypted bufferLength prefixByte readPacketKey protocolID allowed replay)
            (mkReader buffer 0).
End packets.

(** * Properties *)

(** ** The sequence number encoding *)
Lemma sequence_mask s k :
  0 ≤ k → 0 ≤ s < 2 ^ (k + 8) → (Z.land s (Z.shiftl 255 k) =? 0) = (s <? 2 ^ k).
Proof.
  intros Hk Hs.
  assert (Z.land s (Z.shiftl 255 k) = Z.shiftl (Z.shiftr s k) k) as ->.
  { apply Z.bits_inj'. intros n Hn. rewrite Z.land_spec, !Z.shiftl_spec by lia.
    destruct (decide (n < k)).
    - rewrite !(Z.testbit_neg_r _ (n - k)) by lia. apply andb_false_r.
    - rewrite Z.shiftr_spec by lia. replace (n - k + k) with n by lia.
      change 255 with (Z.ones 8). destruct (decide (n - k < 8)).
      + rewrite Z.ones_spec_low by lia. apply andb_true_r.
      + rewrite Z.ones_spec_high by lia. rewrite andb_false_r. symmetry.
        rewrite <-(Z.mod_small s (2 ^ (k + 8))) by lia. apply Z.mod_pow2_bits_high. lia. }
  rewrite Z.shiftl_mul_pow2, Z.shiftr_div_pow2 by lia.
  assert (0 < 2 ^ k) by (apply Z.pow_pos_nonneg; lia).
  destruct (Z.ltb_spec s (2 ^ k)).
  - rewrite Z.div_small by lia. done.
  - assert (1 ≤ s / 2 ^ k) by (apply Z.div_le_lower_bound; lia). apply Z.eqb_neq. nia.
Qed.

Lemma sequence_scan_spec n i s :
  0 ≤ s < 2 ^ (8 * Z.of_nat n + 8) →
  ∃ m : nat, (m ≤ n)%nat ∧
    sequence_scan n i (Z.shiftl 255 (8 * Z.of_nat n)) s = i + Z.of_nat (n - m) ∧
    s < 2 ^ (8 * Z.of_nat m + 8) ∧ (m = 0%nat ∨ 2 ^ (8 * Z.of_nat m) ≤ s).
Proof.
  revert i. induction n as [|n IH]; intros i Hs.
  - exists 0%nat. split_and!; [lia|simpl; lia|lia|by left].
  - cbn [sequence_scan]. rewrite sequence_mask by lia.
    destruct (Z.ltb_spec s (2 ^ (8 * Z.of_nat (S n)))) as [Hlt|Hge]; simpl negb; cbv iota.
    + rewrite Z.shiftr_shiftl_l by lia.
      replace (8 * Z.of_nat (S n) - 8) with (8 * Z.of_nat n) by lia.
      destruct (IH (i + 1)) as (m & ? & -> & ? & ?).
      { replace (8 * Z.of_nat n + 8) with (8 * Z.of_nat (S n)) by lia. lia. }
      exists m. split_and!; [lia|lia|done|done].
    + exists (S n). split_and!; [lia|lia|lia|by right].
Qed.

Lemma sequence_bytes_spec s :
  is_u64 s → let n := sequenceNumberBytesRequired s in
  1 ≤ n ≤ 8 ∧ s < 2 ^ (8 * n) ∧ (n = 1 ∨ 2 ^ (8 * (n - 1)) ≤ s).
Proof.
  intros Hs. destruct (sequence_scan_spec 7 0 s) as (m & Hm & Hscan & Hlt & Hge); [done|].
  unfold sequenceNumberBytesRequired. change 0xFF00000000000000 with (Z.shiftl 255 (8 * Z.of_nat 7)).
  rewrite Hscan. cbv zeta. replace (8 - (0 + Z.of_nat (7 - m))) with (Z.of_nat m + 1) by lia.
  replace (8 * (Z.of_nat m + 1)) with (8 * Z.of_nat m + 8) by lia.
  replace (8 * (Z.of_nat m + 1 - 1)) with (8 * Z.of_nat m) by lia.
  split_and!; [lia|lia|done|]. destruct Hge as [->|]; [by left|by right].
Qed.

(** Bounds: the number of sequence bytes is between 1 and 8, it is enough
    to hold the sequence number, and one byte less would not be. *)
Theorem sequenceNumberBytesRequired_minimal (sequence : Z) (Hs : is_u64 sequence) :
  let n := sequenceNumberBytesRequired sequence in
  1 ≤ n ≤ 8 ∧ sequence < 2 ^ (8 * n) ∧ (n = 1 ∨ 2 ^ (8 * (n - 1)) ≤ sequence).
Proof. by apply sequence_bytes_spec. Qed.
Lemma sequenceNumberBytesRequired_minimal_witness :
  is_u64 65536 ∧ sequenceNumberBytesRequired 65536 = 3 ∧ 2 ^ 16 ≤ 65536.
Proof.
  destruct (sequenceNumberBytesRequired_minimal 65536) as (_ & _ & [H|H]); [by vm_compute|..].
  - by vm_compute in H.
  - by split; vm_compute.
Defined.

Lemma writes_sequence n s : writes (writeSequence n s) (le_split n s).
Proof.
  revert s. induction n as [|n IH]; intros s; [apply writes_nil|].
  rewrite le_split_S, <-byte_of_Z_low. cbn [writeSequence].
  apply (writes_bind _ _ [_] _ (writes_uint8 _) (IH _)).
Qed.

Lemma reads_sequence bs i acc :
  0 ≤ i → i + Z.of_nat (length bs) ≤ 8 →
  reads (readSequence (length bs) i acc) bs (Z.lor acc (Z.shiftl (le_combine bs) (8 * i))).
Proof.
  revert i acc. induction bs as [|b bs IH]; intros i acc Hi Hle.
  - cbn [length readSequence]. change (le_combine []) with 0.
    rewrite Z.shiftl_0_l, Z.lor_0_r. apply reads_ret.
  - cbn [length readSequence] in *. change (b :: bs) with ([b] ++ bs).
    pose proof (byte_unsigned_range b) as Hb. unfold is_u8 in Hb.
    eapply (reads_bind _ _ [b]).
    { rewrite <-(byte.of_Z_unsigned b) at 1. by apply reads_uint8. }
    simpl app. rewrite le_combine_cons, Z.shiftl_lor, Z.shiftl_shiftl, Z.lor_assoc by lia.
    rewrite u64_id.
    + replace (8 + 8 * i) with (8 * (i + 1)) by lia. apply IH; lia.
    + rewrite Z.shiftl_mul_pow2 by lia. unfold is_u64.
      pose proof (Z.pow_le_mono_r 2 (8 * i) 56 ltac:(lia) ltac:(lia)).
      pose proof (Z.pow_pos_nonneg 2 (8 * i) ltac:(lia) ltac:(lia)).
      change (2 ^ 64) with (2 ^ 8 * 2 ^ 56). nia.
Qed.
Lemma reads_sequence_0 bs :
  (length bs ≤ 8)%nat → reads (readSequence (length bs) 0 0) bs (le_combine bs).
Proof.
  intros. rewrite <-(Z.shiftl_0_r (le_combine bs)), <-(Z.lor_0_l (Z.shiftl _ _)).
  apply (reads_sequence bs 0 0); lia.
Qed.

(** ** The prefix byte and the additional data *)
Definition prefix_byte (type sequenceBytes : Z) : Z := type + 16 * sequenceBytes.
Definition packet_additional (protocolID prefixByte : Z) : list byte :=
  versionInfo ++ le_split 8 protocolID ++ [byte.of_Z prefixByte].

Lemma packetAdditionalData_spec pid prefix :
  packetAdditionalData pid prefix = Some (packet_additional pid prefix).
Proof.
  unfold packetAdditionalData.
  rewrite (writes_bind _ _ _ _ (writes_bytes _)
             (writes_bind _ _ _ _ (writes_uint64 pid) (writes_uint8 prefix))); [|done].
  cbn [mbind option_bind w_buffer]. by rewrite splice_full.
Qed.

Lemma prefix_byte_split prefix :
  is_u8 prefix → prefix = prefix_byte (Z.land prefix 0xF) (Z.shiftr prefix 4).
Proof.
  intros _. unfold prefix_byte. change 0xF with (Z.ones 4).
  rewrite Z.land_ones, Z.shiftr_div_pow2 by lia.
  pose proof (Z.div_mod prefix (2 ^ 4)). lia.
Qed.
Lemma prefix_byte_fields type n :
  0 ≤ type < 16 → 0 ≤ n →
  Z.land (prefix_byte type n) 0xF = type ∧ Z.shiftr (prefix_byte type n) 4 = n.
Proof.
  intros Ht Hn. unfold prefix_byte. change 0xF with (Z.ones 4).
  rewrite Z.land_ones, Z.shiftr_div_pow2 by lia. change (2 ^ 4) with 16. split.
  - symmetry. apply Z.mod_unique with n; lia.
  - symmetry. apply Z.div_unique with type; lia.
Qed.
Lemma prefix_byte_lor type n :
  0 ≤ type < 16 → 0 ≤ n ≤ 8 → Z.lor type (u8 (Z.shiftl (u8 n) 4)) = prefix_byte type n.
Proof.
  intros Ht Hn. unfold u8, prefix_byte. rewrite (Z.mod_small n) by lia.
  rewrite Z.mod_small by (rewrite Z.shiftl_mul_pow2 by lia; lia).
  pose proof (Z.add_lor_land type (Z.shiftl n 4)) as Hadd.
  enough (Z.land type (Z.shiftl n 4) = 0) by (rewrite (Z.shiftl_mul_pow2 n) in * by lia; lia).
  rewrite <-(Z.mod_small type (2 ^ 4)), <-Z.land_ones by lia.
  apply Z.bits_inj'. intros i Hi. rewrite !Z.land_spec, Z.bits_0, Z.shiftl_spec by lia.
  destruct (decide (i < 4)).
  - rewrite (Z.testbit_neg_r n) by lia. apply andb_false_r.
  - rewrite Z.ones_spec_high by lia. by rewrite andb_false_r.
Qed.

(** ** Packet bodies *)
Definition enc_body (p : packet) : list byte :=
  match p with
  | Challenge_ s d | Response s d => le_split 8 s ++ d
  | KeepAlive i m => le_split 4 (u32 i) ++ le_split 4 (u32 m)
  | Payload d => d
  | _ => []
  end.
(** What the Go types say about a packet, and the payload limit the API
    enforces. *)
Definition valid_encrypted (p : packet) : Prop :=
  match p with
  | Request _ => False
  | Challenge_ s d | Response s d => is_u64 s ∧ length d = challengeTokenBytes
  | KeepAlive i m => is_i32 i ∧ is_i32 m
  | Payload d => (1 ≤ length d ≤ maxPayloadBytes)%nat
  | Denied | Disconnect => True
  end.

Lemma writes_body p : valid_encrypted p → writes (writeBody p) (enc_body p).
Proof. destruct p; cbn [valid_encrypted writeBody enc_body]; intros; try done; auto with codec. Qed.
Lemma length_enc_body p : valid_encrypted p → (length (enc_body p) ≤ maxPayloadBytes)%nat.
Proof.
  destruct p; simpl; intros H; rewrite ?length_app, ?length_le_split; clia || idtac.
  all: destruct H; clia.
Qed.

(** Evaluate the switch on a known packet type. *)
Ltac switch_type :=
  cbn [packetType enc_body valid_encrypted Z.eqb Pos.eqb connectionRequestPacket
       connectionDeniedPacket connectionChallengePacket connectionResponsePacket
       connectionKeepAlivePacket connectionPayloadPacket connectionDisconnectPacket] in *.

Lemma reads_body p :
  valid_encrypted p → reads (readBody (packetType p) (length (enc_body p))) (enc_body p) (Some p).
Proof.
  destruct p as [?| |s d|s d|i m|d|]; intros Hp; unfold readBody; switch_type; try done.
  - apply reads_ret.
  - destruct Hp as [Hs Hd]. rewrite bool_decide_eq_true_2 by (rewrite length_app, length_le_split; lia).
    cbn [negb].
    eapply reads_bind; [by apply reads_uint64|].
    eapply reads_bind_ret; [by apply reads_bytes|]. apply reads_ret.
  - destruct Hp as [Hs Hd]. rewrite bool_decide_eq_true_2 by (rewrite length_app, length_le_split; lia).
    cbn [negb].
    eapply reads_bind; [by apply reads_uint64|].
    eapply reads_bind_ret; [by apply reads_bytes|]. apply reads_ret.
  - destruct Hp as [Hi Hm]. rewrite bool_decide_eq_true_2 by (by rewrite length_app, !length_le_split).
    cbn [negb].
    eapply reads_bind; [apply reads_uint32, u32_range|].
    eapply reads_bind_ret; [apply reads_uint32, u32_range|]. rewrite !i32_u32 by done. apply reads_ret.
  - rewrite !bool_decide_eq_false_2 by lia.
    eapply reads_bind_ret; [by apply reads_bytes|]. apply reads_ret.
  - apply reads_ret.
Qed.

(** Conversely, whatever a body decodes to encodes as that body. *)
Definition body_of (type : Z) (plaintext : list byte) (o : option packet) : Prop :=
  ∀ p, o = Some p → packetType p = type ∧ plaintext = enc_body p ∧ valid_encrypted p.

Lemma body_of_none type plaintext : body_of type plaintext None.
Proof. by intros ?. Qed.
#[local] Hint Resolve body_of_none : go.

(** Two fixed size fields, one after the other. *)
Lemma wp_two_fields {A : Type} (n m : nat) (k : Z → list byte → A) plaintext rest buf pos Q :
  length plaintext = (n + m)%nat → (pos ≤ length buf)%nat → drop pos buf = plaintext ++ rest →
  (∀ bs cs, plaintext = bs ++ cs → length bs = n → length cs = m →
     ∀ s, Q (k (le_combine bs) cs) s) →
  wp (x ← Reader.get_le n; d ← Reader.bytes m; mret (k x d)) Q (mkReader buf pos).
Proof.
  intros Hl Hp Hd HQ.
  assert (length (take n plaintext) = n) as H1 by (rewrite length_take; lia).
  assert (length (drop n plaintext) = m) as H2 by (rewrite length_drop; lia).
  assert (plaintext = take n plaintext ++ drop n plaintext) as Hpl by (by rewrite take_drop).
  rewrite Hpl, <-app_assoc in Hd.
  apply wp_bind. eapply wp_reads; [by apply reads_le_combine|done|done|].
  pose proof (fits_at _ _ _ _ Hp Hd). apply drop_at in Hd.
  apply wp_bind. eapply wp_reads; [by apply reads_bytes|done|done|]. apply wp_ret. by apply HQ.
Qed.

Lemma readBody_inv type plaintext rest buf pos :
  0 ≤ type < connectionNumPackets → (pos ≤ length buf)%nat → drop pos buf = plaintext ++ rest →
  wp (readBody type (length plaintext)) (λ o _, body_of type plaintext o) (mkReader buf pos).
Proof.
  intros Ht Hp Hd. unfold readBody.
  assert (type = 0 ∨ type = 1 ∨ type = 2 ∨ type = 3 ∨ type = 4 ∨ type = 5 ∨ type = 6)
    as Hcases by clia. clear Ht.
  destruct Hcases as [->|[->|[->|[->|[->|[->| ->]]]]]]; switch_type.
  - apply wp_ret; auto with go.
  - case_bool_decide as Hl; apply wp_ret; auto with go.
    intros p [= <-]. split_and!; [done| |done]. by apply length_zero_iff_nil.
  - case_bool_decide as Hl; [|apply wp_ret; auto with go].
    apply (wp_two_fields 8 challengeTokenBytes (λ s d, Some (Challenge_ s d)) plaintext rest); [done..|].
    intros bs cs -> Hb Hc s p [= <-]. switch_type. split_and!; [done| |by apply le_combine_u64|done].
    by rewrite le_split_combine.
  - case_bool_decide as Hl; [|apply wp_ret; auto with go].
    apply (wp_two_fields 8 challengeTokenBytes (λ s d, Some (Response s d)) plaintext rest); [done..|].
    intros bs cs -> Hb Hc s p [= <-]. switch_type. split_and!; [done| |by apply le_combine_u64|done].
    by rewrite le_split_combine.
  - case_bool_decide as Hl; [|apply wp_ret; auto with go].
    assert (length (take 4 plaintext) = 4%nat) as H1 by (rewrite length_take; lia).
    assert (length (drop 4 plaintext) = 4%nat) as H2 by (rewrite length_drop; lia).
    rewrite <-(take_drop 4 plaintext), <-app_assoc in Hd.
    apply wp_bind. eapply wp_reads; [apply (reads_le_combine 4 _ H1)|done|done|].
    pose proof (fits_at _ _ _ _ Hp Hd). apply drop_at in Hd.
    apply wp_bind. eapply wp_reads; [apply (reads_le_combine 4 _ H2)|done|done|].
    apply wp_ret. intros p [= <-]. switch_type. split_and!; [done| |apply i32_range..].
    rewrite !u32_i32 by (by apply le_combine_u32).
    by rewrite !le_split_combine, take_drop.
  - case_bool_decide; [apply wp_ret; auto with go|].
    case_bool_decide; [apply wp_ret; auto with go|].
    apply wp_bind. eapply wp_reads; [by apply reads_bytes|done|done|].
    apply wp_ret. intros p [= <-]. switch_type. split_and!; [done|done|lia|lia].
  - case_bool_decide as Hl; apply wp_ret; auto with go.
    intros p [= <-]. split_and!; [done| |done]. by apply length_zero_iff_nil.
Qed.

(** ** What readPacket does with a buffer *)
Section read_facts.
Context {C : CryptoLib} {L : CryptoLaws C}.

(** The bytes of an encrypted packet: prefix byte, sequence number, sealed body. *)
Definition sealed_packet (key : list byte) (protocolID type : Z) (sequenceBytes plaintext : list byte)
  : list byte :=
  let prefix := prefix_byte type (Z.of_nat (length sequenceBytes)) in
  byte.of_Z prefix :: sequenceBytes ++
    Seal chacha20poly1305 key (packet_nonce (le_combine sequenceBytes))
      (packet_additional protocolID prefix) plaintext.
(** The bytes of a connection request around a sealed private connect token. *)
Definition sealed_request (privateKey : list byte) (protocolID expire : Z) (nonce plaintext : list byte)
  : list byte :=
  byte.of_Z connectionRequestPacket :: versionInfo ++ le_split 8 protocolID ++ le_split 8 expire ++
  nonce ++ Seal xchacha20poly1305 privateKey nonce (connect_token_additional protocolID expire) plaintext.

Inductive read_outcome (buffer : list byte) (readPacketKey : option (list byte))
  (pid now minExpire : Z) (privateKey : option (list byte)) (allowed : list bool)
  (replay : option replayProtection) : readResult → Prop :=
| ReadIgnored sequence :
    read_outcome buffer readPacketKey pid now minExpire privateKey allowed replay
      (mkRead None sequence replay)
| ReadEncrypted key type sequenceBytes plaintext p replay' :
    readPacketKey = Some key → buffer = sealed_packet key pid type sequenceBytes plaintext →
    (1 ≤ length sequenceBytes ≤ 8)%nat → 0 ≤ type < connectionNumPackets →
    aget allowed type = Some true →
    replay_check replay type (le_combine sequenceBytes) = Some false →
    replay_advance replay type (le_combine sequenceBytes) = Some replay' →
    body_of type plaintext p →
    read_outcome buffer readPacketKey pid now minExpire privateKey allowed replay
      (mkRead p (le_combine sequenceBytes) replay')
| ReadRequest key expire nonce plaintext mac :
    privateKey = Some key → buffer = sealed_request key pid expire nonce plaintext →
    aget allowed connectionRequestPacket = Some true →
    is_u64 pid → is_u64 expire → now < expire → minExpire ≤ expire →
    length nonce = connectTokenNonceBytes →
    length plaintext = (connectTokenPrivateBytes - MacBytes)%nat →
    mac = drop (requestPacketBytes - MacBytes) buffer →
    read_outcome buffer readPacketKey pid now minExpire privateKey allowed replay
      (mkRead (Some (Request (mkRequest versionInfo pid expire nonce (plaintext ++ mac)))) 0 replay).

Lemma wp_decrypt_rest (decrypt : list byte → option (option (list byte))) o Q buf pos :
  decrypt (drop pos buf) = Some o →
  match o with
  | Some rest => Q true (mkReader (take pos buf ++ rest) pos)
  | None => Q false (mkReader buf pos)
  end → wp (decrypt_rest decrypt) Q (mkReader buf pos).
Proof. intros Hd HQ. unfold wp, decrypt_rest, mbind, M_bind, gets, lift. simpl. rewrite Hd. simpl. by destruct o. Qed.

(** The fields of a buffer of the size of a connection request. *)
Lemma split_request buf :
  length buf = requestPacketBytes → buf !! 0%nat = Some (byte.of_Z connectionRequestPacket) →
  buf = byte.of_Z connectionRequestPacket :: slice buf 1 13 ++ slice buf 14 8 ++ slice buf 22 8 ++
          slice buf 30 24 ++ drop 54 buf.
Proof.
  intros Hl H0.
  pose proof (drop_slice buf 30 24) as E4. pose proof (drop_slice buf 22 8) as E3.
  pose proof (drop_slice buf 14 8) as E2. pose proof (drop_slice buf 1 13) as E1.
  cbn [Nat.add] in *. rewrite <-E4, <-E3, <-E2, <-E1.
  destruct buf as [|b buf]; [done|]. by injection H0 as ->.
Qed.

Lemma readRequest_wp buf key pid now minExpire privateKey allowed replay :
  length allowed = Z.to_nat connectionNumPackets →
  buf !! 0%nat = Some (byte.of_Z connectionRequestPacket) →
  wp (readRequest (length buf) pid now minExpire privateKey allowed)
    (λ p _, read_outcome buf key pid now minExpire privateKey allowed replay (mkRead p 0 replay))
    (mkReader buf 1).
Proof.
  intros Hal H0. unfold readRequest.
  destruct (aget_Some allowed connectionRequestPacket) as [[] Hok]; [rewrite Hal; clia| |];
    (apply wp_bind; eapply wp_lift; [done|]); cbn [negb]; [|apply wp_ret; constructor].
  case_bool_decide as Hl; cbn [negb]; [|apply wp_ret; constructor].
  assert (length buf = 1078%nat) as Hlen by (by vm_compute in Hl). clear Hl.
  destruct privateKey as [pk|]; [|apply wp_ret; constructor].
  apply wp_bind, wp_bytes; [clia|].
  case_bool_decide as Hv; cbn [negb]; [|apply wp_ret; constructor].
  apply wp_bind, wp_get_le; [clia|].
  destruct (Z.eqb_spec (le_combine (slice buf (1 + versionInfoBytes) 8)) pid) as [Hpid|];
    cbn [negb]; [|apply wp_ret; constructor].
  apply wp_bind, wp_get_le; [clia|].
  set (expire := le_combine _).
  destruct (Z.leb_spec expire now); [apply wp_ret; constructor|].
  destruct (Z.ltb_spec expire minExpire); [apply wp_ret; constructor|].
  apply wp_bind, wp_bytes; [clia|]. set (nonce := slice buf (1 + versionInfoBytes + 8 + 8) _).
  assert (length nonce = connectTokenNonceBytes) as Hn by (apply length_slice; clia).
  change (1 + versionInfoBytes + 8 + 8 + connectTokenNonceBytes)%nat with 54%nat.
  assert (length (drop 54 buf) = connectTokenPrivateBytes) as Hrest by (rewrite length_drop; clia).
  apply wp_bind.
  destruct (decrypt_in_place_total xchacha20poly1305 xchachaNonceSize (drop 54 buf)
              connectTokenPrivateBytes (connect_token_additional pid expire) nonce pk)
    as (o & Ho & _); [done|lia|].
  eapply (wp_decrypt_rest _ o).
  { unfold decryptConnectTokenPrivate. by rewrite connectTokenAdditionalData_spec. }
  destruct o as [rest|]; [|apply wp_ret; constructor].
  destruct (decrypt_in_place_inv _ _ _ _ _ _ _ _ Ho) as (plain & Hseal & Hlp & _ & ->).
  rewrite take_ge in Hseal by lia.
  assert (length (plain ++ drop (length plain) (drop 54 buf)) = connectTokenPrivateBytes) as Hdec
    by (rewrite length_app, length_drop; lia).
  assert (length (take 54 buf) = 54%nat) as H54 by (rewrite length_take; lia).
  cbn [negb]. apply wp_bind, wp_bytes; [rewrite length_app; clia|].
  rewrite <-Hdec at 1. rewrite (slice_at _ _ _ []) by (rewrite drop_app_length', app_nil_r; done).
  apply wp_ret. rewrite Hv, Hpid.
  apply ReadRequest with pk; try done.
  - unfold sealed_request. rewrite <-Hseal, <-Hpid, <-Hv. unfold expire, nonce.
    rewrite !le_split_combine by (apply length_slice; clia).
    by apply split_request.
  - rewrite <-Hpid. apply le_combine_u64, length_slice. clia.
  - apply le_combine_u64, length_slice. clia.
  - clia.
  - rewrite drop_drop. f_equal. unfold requestPacketBytes. clia.
Qed.

Definition replay_ok (replay : option replayProtection) : Prop :=
  match replay with Some rp => replay_wf rp | None => True end.
Lemma replay_check_total replay type s :
  replay_ok replay → ∃ b, replay_check replay type s = Some b.
Proof.
  destruct replay as [rp|]; simpl; [|by eexists]. intros. case_match; [|by eexists].
  by apply alreadyReceived_total.
Qed.
Lemma replay_advance_total replay type s :
  replay_ok replay → ∃ replay', replay_advance replay type s = Some replay' ∧ replay_ok replay'.
Proof.
  destruct replay as [rp|]; simpl; [|by eexists]. intros Hwf. case_match; [|by eexists].
  destruct (advanceSequence_total rp s Hwf) as (rp' & -> & ?). by eexists.
Qed.

Lemma readEncrypted_wp buf prefix key pid now minExpire privateKey allowed replay :
  length allowed = Z.to_nat connectionNumPackets → replay_ok replay →
  is_u8 prefix → buf !! 0%nat = Some (byte.of_Z prefix) →
  wp (readEncrypted (length buf) prefix key pid allowed replay)
    (λ res _, read_outcome buf key pid now minExpire privateKey allowed replay res)
    (mkReader buf 1).
Proof.
  intros Hal Hrep Hpre H0. unfold readEncrypted.
  destruct key as [key|]; [|apply wp_ret; constructor].
  case_bool_decide as Hmin; [apply wp_ret; constructor|].
  set (type := Z.land prefix 0xF). set (n := Z.shiftr prefix 4).
  assert (prefix = prefix_byte type n) as Hsplit by (by apply prefix_byte_split).
  assert (0 ≤ type) by (apply Z.land_nonneg; lia).
  destruct (Z.geb_spec type connectionNumPackets); [apply wp_ret; constructor|].
  destruct (aget_Some allowed type) as [[] Hok]; [rewrite Hal; clia| |];
    (apply wp_bind; eapply wp_lift; [done|]); cbn [negb]; [|apply wp_ret; constructor].
  destruct (Z.ltb_spec n 1); [apply wp_ret; constructor|].
  rewrite Z.gtb_ltb. destruct (Z.ltb_spec 8 n); [apply wp_ret; constructor|]. cbn [orb].
  case_bool_decide as Hbig; [apply wp_ret; constructor|].
  set (sb := slice buf 1 (Z.to_nat n)).
  assert (length sb = Z.to_nat n) as Hsb by (apply length_slice; lia).
  apply wp_bind. rewrite <-Hsb.
  eapply wp_reads; [apply reads_sequence_0; lia|lia|apply drop_slice|].
  rewrite Hsb. apply wp_bind.
  destruct (replay_check_total replay type (le_combine sb) Hrep) as [already Hchk].
  eapply wp_lift; [done|]. destruct already; [apply wp_ret; constructor|].
  apply wp_bind. eapply wp_lift; [apply packetAdditionalData_spec|].
  apply wp_bind. eapply wp_lift; [apply packetNonce_spec|].
  apply wp_bind, wp_gets. cbn [r_pos].
  case_bool_decide; [apply wp_ret; constructor|]. apply wp_bind.
  set (enc := drop (1 + Z.to_nat n) buf).
  assert (length enc = length buf - (1 + Z.to_nat n))%nat as Henc by (apply length_drop).
  destruct (decrypt_in_place_total chacha20poly1305 chachaNonceSize enc (length enc)
              (packet_additional pid prefix) (packet_nonce (le_combine sb)) key)
    as (o & Ho & _); [apply length_packet_nonce|lia|].
  eapply (wp_decrypt_rest _ o); [by rewrite <-Henc|].
  destruct o as [rest|]; [|apply wp_ret; constructor].
  destruct (decrypt_in_place_inv _ _ _ _ _ _ _ _ Ho) as (plain & Hseal & Hlp & _ & ->).
  rewrite take_ge in Hseal by lia. cbn [negb].
  destruct (replay_advance_total replay type (le_combine sb) Hrep) as (replay' & Hadv & _).
  apply wp_bind. eapply wp_lift; [done|]. apply wp_bind.
  replace (length buf - (1 + Z.to_nat n) - MacBytes)%nat with (length plain) by lia.
  assert (length (take (1 + Z.to_nat n) buf) = (1 + Z.to_nat n)%nat) by (rewrite length_take; lia).
  eapply wp_mono.
  { eapply (readBody_inv type plain); [lia|rewrite length_app; lia|by rewrite drop_app_length']. }
  intros p s Hp. apply wp_ret. eapply (ReadEncrypted _ _ _ _ _ _ _ _ key type sb plain); try done; [|lia].
  unfold sealed_packet. rewrite Hsb, Z2Nat.id, <-Hsplit, <-Hseal by lia.
  unfold sb, enc. rewrite <-drop_slice. destruct buf; [done|]. by injection H0 as ->.
Qed.

(** Every run of readPacket ends in one of the three outcomes. *)
Lemma readPacket_total buffer key pid now minExpire privateKey allowed replay :
  length allowed = Z.to_nat connectionNumPackets → replay_ok replay →
  ∃ res, readPacket buffer key pid now minExpire privateKey allowed replay = Some res ∧
    read_outcome buffer key pid now minExpire privateKey allowed replay res.
Proof.
  intros Hal Hrep. unfold readPacket.
  case_bool_decide as Hl; [eexists; split; [done|constructor]|].
  destruct buffer as [|b buffer]; [simpl in Hl; lia|].
  enough (wp (prefixByte ← Reader.uint8;
              if prefixByte =? connectionRequestPacket then
                (p ← readRequest (length (b :: buffer)) pid now minExpire privateKey allowed;
                 mret (mkRead p 0 replay))
              else readEncrypted (length (b :: buffer)) prefixByte key pid allowed replay)
            (λ res _, read_outcome (b :: buffer) key pid now minExpire privateKey allowed replay res)
            (mkReader (b :: buffer) 0)) as Hwp.
  { apply wp_inv in Hwp as (res & s & -> & ?). by exists res. }
  apply wp_bind. eapply (wp_reads _ [b] (byte.unsigned b) _ _ _ buffer); [|simpl; lia|done|].
  { rewrite <-(byte.of_Z_unsigned b) at 1. apply reads_uint8, byte_unsigned_range. }
  pose proof (byte.of_Z_unsigned b) as Hb. simpl Nat.add.
  destruct (Z.eqb_spec (byte.unsigned b) connectionRequestPacket) as [He|He].
  - apply wp_bind. eapply wp_mono; [apply (readRequest_wp _ key _ _ _ _ _ replay Hal); by rewrite <-He, Hb|].
    intros p s Hp. by apply wp_ret.
  - apply readEncrypted_wp; [done|done|apply byte_unsigned_range|by rewrite Hb].
Qed.

(** *** Running the decoder on a sealed packet *)
Lemma length_sealed_packet key pid type sb plain :
  length key = KeyBytes →
  length (sealed_packet key pid type sb plain) = (1 + length sb + (length plain + MacBytes))%nat.
Proof. intros. unfold sealed_packet. simpl. by rewrite length_app, Seal_length. Qed.

Lemma packetType_range p : valid_encrypted p → 1 ≤ packetType p < connectionNumPackets.
Proof. destruct p; simpl; intros; clia || done. Qed.

Lemma readEncrypted_sealed key pid p sb allowed replay replay' :
  length key = KeyBytes → valid_encrypted p → (1 ≤ length sb ≤ 8)%nat →
  aget allowed (packetType p) = Some true →
  replay_check replay (packetType p) (le_combine sb) = Some false →
  replay_advance replay (packetType p) (le_combine sb) = Some replay' →
  let buf := sealed_packet key pid (packetType p) sb (enc_body p) in
  wp (readEncrypted (length buf) (prefix_byte (packetType p) (Z.of_nat (length sb)))
        (Some key) pid allowed replay)
    (λ res _, res = mkRead (Some p) (le_combine sb) replay') (mkReader buf 1).
Proof.
  intros Hk Hp Hsb Hal Hchk Hadv buf.
  pose proof (packetType_range p Hp) as Ht.
  assert (length buf = 1 + length sb + (length (enc_body p) + MacBytes))%nat as Hlen
    by (by apply length_sealed_packet).
  unfold readEncrypted. rewrite bool_decide_eq_false_2 by lia.
  destruct (prefix_byte_fields (packetType p) (Z.of_nat (length sb))) as [-> ->]; [clia|lia|].
  destruct (Z.geb_spec (packetType p) connectionNumPackets); [lia|].
  apply wp_bind. eapply wp_lift; [done|]. cbn [negb].
  destruct (Z.ltb_spec (Z.of_nat (length sb)) 1); [lia|].
  rewrite Z.gtb_ltb. destruct (Z.ltb_spec 8 (Z.of_nat (length sb))); [lia|]. cbn [orb].
  rewrite bool_decide_eq_false_2 by lia. rewrite Nat2Z.id.
  apply wp_bind. eapply wp_reads; [apply reads_sequence_0; lia|lia|by unfold buf, sealed_packet|].
  apply wp_bind. eapply wp_lift; [done|]. cbv iota.
  apply wp_bind. eapply wp_lift; [apply packetAdditionalData_spec|].
  apply wp_bind. eapply wp_lift; [apply packetNonce_spec|].
  apply wp_bind, wp_gets. cbn [r_pos]. rewrite bool_decide_eq_false_2 by lia.
  replace (length buf - (1 + length sb))%nat with (length (enc_body p) + MacBytes)%nat by lia.
  set (sealed := Seal chacha20poly1305 key (packet_nonce (le_combine sb))
      (packet_additional pid (prefix_byte (packetType p) (Z.of_nat (length sb)))) (enc_body p)).
  assert (drop (1 + length sb) buf = sealed) as Hdrop
    by (unfold buf, sealed_packet; simpl; by rewrite drop_app_length).
  pose proof (decrypt_in_place_seal chacha20poly1305 chachaNonceSize key
    (packet_nonce (le_combine sb)) (packet_additional pid (prefix_byte (packetType p) (Z.of_nat (length sb))))
    (enc_body p) [] Hk (length_packet_nonce _)) as Hdec.
  rewrite !app_nil_r in Hdec. fold sealed in Hdec.
  apply wp_bind. eapply wp_decrypt_rest; [by rewrite Hdrop|]. cbn [negb]. cbv iota.
  rewrite Nat.add_sub.
  assert (length (take (1 + length sb) buf) = (1 + length sb)%nat) by (rewrite length_take; lia).
  apply wp_bind. eapply wp_lift; [done|]. apply wp_bind.
  eapply wp_reads; [by apply reads_body|rewrite length_app; lia|by rewrite drop_app_length'|].
  by apply wp_ret.
Qed.

Lemma readPacket_sealed key pid now minExpire privateKey p sb allowed replay replay' :
  length key = KeyBytes → valid_encrypted p → (1 ≤ length sb ≤ 8)%nat →
  aget allowed (packetType p) = Some true →
  replay_check replay (packetType p) (le_combine sb) = Some false →
  replay_advance replay (packetType p) (le_combine sb) = Some replay' →
  readPacket (sealed_packet key pid (packetType p) sb (enc_body p)) (Some key) pid now minExpire
    privateKey allowed replay = Some (mkRead (Some p) (le_combine sb) replay').
Proof.
  intros Hk Hp Hsb Hal Hchk Hadv. unfold readPacket. set (buf := sealed_packet _ _ _ _ _).
  pose proof (packetType_range p Hp) as Ht.
  set (prefix := prefix_byte (packetType p) (Z.of_nat (length sb))).
  assert (is_u8 prefix ∧ prefix ≠ 0) as [Hpre Hne]
    by (unfold prefix, prefix_byte, is_u8; clia).
  rewrite bool_decide_eq_false_2 by (unfold buf, sealed_packet; simpl; lia).
  enough (wp (prefixByte ← Reader.uint8;
              if prefixByte =? connectionRequestPacket then
                (p ← readRequest (length buf) pid now minExpire privateKey allowed;
                 mret (mkRead p 0 replay))
              else readEncrypted (length buf) prefixByte (Some key) pid allowed replay)
            (λ res _, res = mkRead (Some p) (le_combine sb) replay') (mkReader buf 0)) as Hwp.
  { apply wp_inv in Hwp as (res & s & -> & ->). done. }
  apply wp_bind. eapply (wp_reads _ [byte.of_Z prefix] prefix); [by apply reads_uint8|lia|done|].
  destruct (Z.eqb_spec prefix connectionRequestPacket); [done|].
  by apply readEncrypted_sealed.
Qed.

(** *** Running the encoder *)
Definition sequence_bytes (s : Z) : list byte := le_split (Z.to_nat (sequenceNumberBytesRequired s)) s.
Lemma sequence_bytes_range s : is_u64 s → (1 ≤ length (sequence_bytes s) ≤ 8)%nat.
Proof.
  intros Hs. unfold sequence_bytes. rewrite length_le_split.
  destruct (sequence_bytes_spec s Hs). lia.
Qed.
Lemma le_combine_sequence_bytes s : is_u64 s → le_combine (sequence_bytes s) = s.
Proof.
  intros Hs. destruct (sequence_bytes_spec s Hs) as (Hr & Hlt & _). unfold sequence_bytes.
  rewrite le_combine_split, Z2Nat.id by lia. unfold is_u64 in Hs. apply Z.mod_small.
  rewrite (Z.mul_comm _ 8). lia.
Qed.

(** The encoder before encryption, for every packet but a request. *)
Lemma writePacket_unfold p buffer s key pid :
  valid_encrypted p → is_u64 s → (maxPacketBytes ≤ length buffer)%nat →
  let sb := sequence_bytes s in
  let prefix := prefix_byte (packetType p) (Z.of_nat (length sb)) in
  let header := byte.of_Z prefix :: sb in
  writePacket p buffer s key pid =
    '(ok, message) ← encryptAEAD (enc_body p ++ drop (length header + length (enc_body p)) buffer)
       (length (enc_body p)) (packet_additional pid prefix) (packet_nonce s) key;
    if (ok : bool) then Some ((length header + length (enc_body p) + MacBytes)%nat, header ++ message)
    else Some (0%nat, header ++ message).
Proof.
  intros Hp Hs Hb sb prefix header.
  pose proof (packetType_range p Hp) as Ht. pose proof (sequence_bytes_range s Hs) as Hr. fold sb in Hr.
  pose proof (length_enc_body p Hp) as He.
  destruct (sequence_bytes_spec s Hs) as [Hn _].
  assert (Z.of_nat (length sb) = sequenceNumberBytesRequired s) as Hsb
    by (unfold sb, sequence_bytes; rewrite length_le_split; lia).
  assert (writePacket p buffer s key pid =
    let prefixByte := Z.lor (packetType p) (u8 (Z.shiftl (u8 (sequenceNumberBytesRequired s)) 4)) in
    '(_, w) ← (Writer.uint8 prefixByte;; writeSequence (Z.to_nat (sequenceNumberBytesRequired s)) s)
                (mkWriter buffer 0);
    let encryptedStart := w_pos w in
    '(_, w) ← writeBody p w;
    let encryptedFinish := w_pos w in
    additional ← packetAdditionalData pid prefixByte;
    nonce ← packetNonce s;
    '(ok, message) ← encryptAEAD (drop encryptedStart (w_buffer w))
                       (encryptedFinish - encryptedStart) additional nonce key;
    let buffer := take encryptedStart (w_buffer w) ++ message in
    if (ok : bool) then Some ((encryptedFinish + MacBytes)%nat, buffer)
    else Some (0%nat, buffer)) as -> by (by destruct p).
  cbv zeta. rewrite prefix_byte_lor, <-Hsb by clia. fold prefix. rewrite Hsb.
  rewrite (writes_bind _ _ [_] _ (writes_uint8 prefix) (writes_sequence _ s));
    [|rewrite length_app; fold (sequence_bytes s); fold sb; simpl; clia].
  fold (sequence_bytes s). fold sb. change ([byte.of_Z prefix] ++ sb) with header.
  cbn [mbind option_bind w_pos]. rewrite Nat.add_0_l.
  assert (length header = 1 + length sb)%nat as Hh by done.
  rewrite (writes_body p Hp); [|rewrite length_splice by clia; clia].
  cbn [mbind option_bind w_pos w_buffer].
  rewrite packetAdditionalData_spec, packetNonce_spec. cbn [mbind option_bind].
  rewrite (splice_splice buffer 0 header) by clia.
  assert (splice buffer 0 (header ++ enc_body p) =
          header ++ enc_body p ++ drop (length header + length (enc_body p)) buffer) as ->
    by (unfold splice; rewrite take_0, length_app, <-app_assoc; done).
  rewrite drop_app_length, take_app_length. by rewrite Nat.add_sub_swap, Nat.sub_diag by lia.
Qed.

Lemma writePacket_spec p buffer s key pid :
  valid_encrypted p → is_u64 s → (maxPacketBytes ≤ length buffer)%nat → length key = KeyBytes →
  let bytes := sealed_packet key pid (packetType p) (sequence_bytes s) (enc_body p) in
  writePacket p buffer s key pid = Some (length bytes, bytes ++ drop (length bytes) buffer) ∧
  (length bytes ≤ maxPacketBytes)%nat.
Proof.
  intros Hp Hs Hb Hk bytes. pose proof (length_enc_body p Hp) as He.
  pose proof (sequence_bytes_range s Hs) as Hr.
  assert (length bytes = 1 + length (sequence_bytes s) + (length (enc_body p) + MacBytes))%nat as Hl
    by (by apply length_sealed_packet).
  split; [|clia]. rewrite writePacket_unfold by done. unfold encryptAEAD.
  rewrite encrypt_in_place_spec by (apply L || apply length_packet_nonce ||
    (rewrite ?length_app, ?length_drop; cbn [length]; clia)).
  cbn [mbind option_bind]. rewrite take_app_length. f_equal. f_equal; [cbn [length]; lia|].
  unfold bytes at 1, sealed_packet. rewrite le_combine_sequence_bytes by done.
  cbn [app]. rewrite <-app_assoc. do 2 f_equal. f_equal.
  rewrite <-drop_drop, drop_app_length, drop_drop. f_equal. cbn [length]. lia.
Qed.

(** Whatever the key, and with any buffer a caller uses, writing does not
    panic. *)
Lemma writePacket_total p buffer s key pid :
  valid_encrypted p → is_u64 s → (maxPacketBytes ≤ length buffer)%nat →
  ∃ n buffer', writePacket p buffer s key pid = Some (n, buffer') ∧ (n ≤ maxPacketBytes)%nat.
Proof.
  intros Hp Hs Hb. destruct (decide (length key = KeyBytes)) as [Hk|Hk].
  - destruct (writePacket_spec p buffer s key pid Hp Hs Hb Hk). eauto.
  - rewrite writePacket_unfold by done. unfold encryptAEAD, encrypt_in_place.
    rewrite (bool_decide_eq_false_2 (length key = KeyBytes)) by done.
    cbn. eexists _, _. split; [done|lia].
Qed.

(** A connection request on the wire. *)
Definition enc_request (r : connectionRequest) : list byte :=
  [byte.of_Z connectionRequestPacket] ++ req_versionInfo r ++ le_split 8 (req_protocolID r) ++
  le_split 8 (req_connectTokenExpireTimestamp r) ++ req_connectTokenNonce r ++ req_connectTokenData r.
(** The sizes of the Go arrays. *)
Definition request_shape (r : connectionRequest) : Prop :=
  length (req_versionInfo r) = versionInfoBytes ∧
  length (req_connectTokenNonce r) = connectTokenNonceBytes ∧
  length (req_connectTokenData r) = connectTokenPrivateBytes.
Lemma length_enc_request r : request_shape r → length (enc_request r) = requestPacketBytes.
Proof.
  intros (H1 & H2 & H3). unfold enc_request.
  rewrite !length_app, !length_le_split, H1, H2, H3. done.
Qed.
Lemma writeRequest_spec r buffer s key pid :
  request_shape r → (maxPacketBytes ≤ length buffer)%nat →
  writePacket (Request r) buffer s key pid =
    Some (requestPacketBytes, enc_request r ++ drop requestPacketBytes buffer).
Proof.
  intros Hr Hb. pose proof (length_enc_request r Hr) as Hl.
  assert (writes (writeRequest r) (enc_request r)) as Hw.
  { unfold writeRequest, enc_request. repeat apply writes_bind; auto with codec. }
  unfold writePacket. rewrite Hw by (rewrite Hl; unfold requestPacketBytes; clia).
  cbn [mbind option_bind w_pos w_buffer]. unfold splice. by rewrite Hl.
Qed.

(** C10. Round trip: a valid denied, challenge, response, keep alive, payload or
    disconnect packet, written under any 64 bit sequence number into a packet
    buffer, fits it, and the bytes written, read with the same key and
    protocol id by a receiver that allows the type and whose replay window has
    not seen the sequence number, give back the same packet and sequence number
    and advance the window. *)
Theorem packet_roundtrip (p : packet) (buffer : list byte) (s : Z) (key : list byte)
  (pid now minExpire : Z) (privateKey : option (list byte)) (allowed : list bool)
  (replay replay' : option replayProtection)
  (Hp : valid_encrypted p) (Hs : is_u64 s) (Hb : length buffer = maxPacketBytes)
  (Hk : length key = KeyBytes) (Hal : aget allowed (packetType p) = Some true)
  (Hchk : replay_check replay (packetType p) s = Some false)
  (Hadv : replay_advance replay (packetType p) s = Some replay') :
  ∃ n written, writePacket p buffer s key pid = Some (n, written) ∧
    (0 < n ≤ maxPacketBytes)%nat ∧
    readPacket (take n written) (Some key) pid now minExpire privateKey allowed replay =
      Some (mkRead (Some p) s replay').
Proof.
  destruct (writePacket_spec p buffer s key pid Hp Hs) as [Hw Hn]; [lia|done|].
  eexists _, _. split_and!; [done| |done|].
  - rewrite length_sealed_packet by done. lia.
  - rewrite take_app_length. pose proof (le_combine_sequence_bytes s Hs) as Hsb.
    rewrite <-Hsb at 2. apply readPacket_sealed; rewrite ?Hsb; try done.
    by apply sequence_bytes_range.
Qed.

(** C9. Authenticity: when readPacket returns an encrypted packet, the whole
    datagram is the encoding of that packet sealed under the read key, with
    the nonce of the returned sequence number and additional data that binds
    the version, the protocol id, the packet type and the sequence length; its
    type was allowed, and its sequence number passed the replay test. *)
Theorem readPacket_authentic (buffer : list byte) (key : option (list byte))
  (pid now minExpire : Z) (privateKey : option (list byte)) (allowed : list bool)
  (replay : option replayProtection) (res : readResult) (p : packet)
  (Hal : length allowed = Z.to_nat connectionNumPackets) (Hrep : replay_ok replay)
  (Hread : readPacket buffer key pid now minExpire privateKey allowed replay = Some res)
  (Hres : rd_packet res = Some p) (Hp : packetType p ≠ connectionRequestPacket) :
  ∃ k sb, key = Some k ∧ (1 ≤ length sb ≤ 8)%nat ∧ le_combine sb = rd_sequence res ∧
    buffer = sealed_packet k pid (packetType p) sb (enc_body p) ∧ valid_encrypted p ∧
    aget allowed (packetType p) = Some true ∧
    replay_check replay (packetType p) (rd_sequence res) = Some false ∧
    replay_advance replay (packetType p) (rd_sequence res) = Some (rd_replay res).
Proof.
  destruct (readPacket_total buffer key pid now minExpire privateKey allowed replay Hal Hrep)
    as (res' & Hread' & Hout). rewrite Hread in Hread'. injection Hread' as <-.
  destruct Hout as [s|k type sb plain o replay' Hk -> Hsb Ht Ha Hc Hadv Hbody|];
    simpl in *; [done| |by injection Hres as <-].
  subst o. destruct (Hbody p eq_refl) as (<- & -> & Hv). by exists k, sb.
Qed.

(** C18. Forged packets are inert: a datagram that is neither sealed under the
    read key for this protocol id nor a request around a connect token sealed
    under the private key yields no packet and leaves the replay window as it
    was, without a panic, whatever its bytes and whatever the keys. *)
Theorem readPacket_forgery_inert (buffer : list byte) (key : option (list byte))
  (pid now minExpire : Z) (privateKey : option (list byte)) (allowed : list bool)
  (replay : option replayProtection)
  (Hal : length allowed = Z.to_nat connectionNumPackets) (Hrep : replay_ok replay)
  (Henc : ∀ k type sb plain, key = Some k → buffer ≠ sealed_packet k pid type sb plain)
  (Hreq : ∀ k expire nonce plain, privateKey = Some k →
     buffer ≠ sealed_request k pid expire nonce plain) :
  ∃ s, readPacket buffer key pid now minExpire privateKey allowed replay =
    Some (mkRead None s replay).
Proof.
  destruct (readPacket_total buffer key pid now minExpire privateKey allowed replay Hal Hrep)
    as (res & -> & Hout).
  destruct Hout as [s|k type sb plain o replay' Hk Hb|k expire nonce plain mac Hk Hb].
  - by exists s.
  - by destruct (Henc k type sb plain).
  - by destruct (Hreq k expire nonce plain).
Qed.

(** C19. A connection request is accepted only around a private connect token
    sealed under the server's key for this protocol id and the expire timestamp
    and nonce in clear; the token is neither expired nor older than the server
    start, and the packet returned holds the decrypted token followed by the
    MAC the datagram ended with. *)
Theorem readPacket_request (buffer : list byte) (key : option (list byte))
  (pid now minExpire : Z) (privateKey : option (list byte)) (allowed : list bool)
  (replay : option replayProtection) (res : readResult) (r : connectionRequest)
  (Hal : length allowed = Z.to_nat connectionNumPackets) (Hrep : replay_ok replay)
  (Hread : readPacket buffer key pid now minExpire privateKey allowed replay = Some res)
  (Hres : rd_packet res = Some (Request r)) :
  ∃ k plain, privateKey = Some k ∧
    buffer = sealed_request k pid (req_connectTokenExpireTimestamp r) (req_connectTokenNonce r) plain ∧
    length plain = (connectTokenPrivateBytes - MacBytes)%nat ∧
    req_connectTokenData r = plain ++ drop (requestPacketBytes - MacBytes) buffer ∧
    now < req_connectTokenExpireTimestamp r ∧ minExpire ≤ req_connectTokenExpireTimestamp r ∧
    req_protocolID r = pid ∧ req_versionInfo r = versionInfo ∧
    rd_sequence res = 0 ∧ rd_replay res = replay.
Proof.
  destruct (readPacket_total buffer key pid now minExpire privateKey allowed replay Hal Hrep)
    as (res' & Hread' & Hout). rewrite Hread in Hread'. injection Hread' as <-.
  destruct Hout as [s|k type sb plain o replay' Hk -> Hsb Ht Ha Hc Hadv Hbody|
                    k expire nonce plain mac Hk -> ??????? ->]; simpl in *; [done| |].
  - subst o. destruct (Hbody (Request r) eq_refl) as (_ & _ & []).
  - injection Hres as <-. simpl. exists k, plain. split_and!; done.
Qed.
End read_facts.

(** ** Concrete instances *)
Definition all_allowed : list bool := replicate (Z.to_nat connectionNumPackets) true.
Definition sample_key : list byte := replicate KeyBytes (byte.of_Z 17).
Definition sample_keep_alive : packet := KeepAlive 3 16.
Definition sample_datagram : list byte :=
  sealed_packet (C := sample_crypto) sample_key 7 connectionKeepAlivePacket
    (sequence_bytes 1000) (enc_body sample_keep_alive).
Definition sample_request : list byte :=
  sealed_request (C := sample_crypto) sample_key 7 1030 (zeros connectTokenNonceBytes)
    (zeros (connectTokenPrivateBytes - MacBytes)).

Lemma packet_roundtrip_witness :
  ∃ n written,
    writePacket (C := sample_crypto) sample_keep_alive (zeros maxPacketBytes) 1000 sample_key 7 =
      Some (n, written) ∧ (0 < n ≤ maxPacketBytes)%nat ∧
    readPacket (C := sample_crypto) (take n written) (Some sample_key) 7 0 0 None all_allowed
      (Some Replay.reset) =
      Some (mkRead (Some sample_keep_alive) 1000
              (Some (mkReplay 1000 (ainsert (1000 mod 256) 1000 (receivedPacket Replay.reset))))).
Proof.
  apply (packet_roundtrip (C := sample_crypto)); try (by vm_compute).
Defined.
Lemma readPacket_authentic_witness :
  ∃ k sb, Some sample_key = Some k ∧ (1 ≤ length sb ≤ 8)%nat ∧ le_combine sb = 1000 ∧
    sample_datagram = sealed_packet (C := sample_crypto) k 7 connectionKeepAlivePacket sb
                        (enc_body sample_keep_alive) ∧
    valid_encrypted sample_keep_alive ∧ aget all_allowed connectionKeepAlivePacket = Some true ∧
    replay_check None connectionKeepAlivePacket 1000 = Some false ∧
    replay_advance None connectionKeepAlivePacket 1000 = Some None.
Proof.
  apply (readPacket_authentic (C := sample_crypto) sample_datagram (Some sample_key) 7 0 0 None
           all_allowed None (mkRead (Some sample_keep_alive) 1000 None) sample_keep_alive);
    by vm_compute.
Defined.
Lemma readPacket_forgery_inert_witness :
  ∃ s, readPacket (C := sample_crypto) [byte.of_Z 20; byte.of_Z 1] (Some sample_key) 7 0 0
         (Some sample_key) all_allowed (Some Replay.reset) =
       Some (mkRead None s (Some Replay.reset)).
Proof.
  apply (readPacket_forgery_inert (C := sample_crypto)); [done|apply replay_wf_reset|..].
  - intros k type sb plain [= <-] H%(f_equal length).
    rewrite length_sealed_packet in H by done. simpl in H. clia.
  - intros k expire nonce plain _ H%(f_equal length). simpl in H. lia.
Defined.
Lemma readPacket_request_witness :
  ∃ k plain, Some sample_key = Some k ∧
    sample_request = sealed_request (C := sample_crypto) k 7 1030 (zeros connectTokenNonceBytes) plain ∧
    length plain = (connectTokenPrivateBytes - MacBytes)%nat ∧
    zeros (connectTokenPrivateBytes - MacBytes) ++ drop (requestPacketBytes - MacBytes) sample_request =
      plain ++ drop (requestPacketBytes - MacBytes) sample_request ∧
    1000 < 1030 ∧ 1010 ≤ 1030 ∧ 7 = 7 ∧ versionInfo = versionInfo ∧ 0 = 0 ∧
    @None replayProtection = None.
Proof.
  apply (readPacket_request (C := sample_crypto) sample_request None 7 1000 1010 (Some sample_key)
           all_allowed None
           (mkRead (Some (Request (mkRequest versionInfo 7 1030 (zeros connectTokenNonceBytes)
              (zeros (connectTokenPrivateBytes - MacBytes) ++
               drop (requestPacketBytes - MacBytes) sample_request)))) 0 None)
           (mkRequest versionInfo 7 1030 (zeros connectTokenNonceBytes)
              (zeros (connectTokenPrivateBytes - MacBytes) ++
               drop (requestPacketBytes - MacBytes) sample_request)));
    by vm_compute.
Defined.
