(* ===== verification/TokenEntries.v ===== *)
(** token_entries.go: the history of connect tokens the server has seen, and
    its refinement of a finite map from token MACs to entries. *)

From stdpp Require Import gmap.
From S2P Require Import Prelude Constants Float64 Address Token.

Definition connectTokenEntryFree : Z := 0.
Definition connectTokenEntryPending : Z := 1.
Definition connectTokenEntryConsumed : Z := 2.
Definition connectTokenEntryRefused : Z := -1.
Definition connectTokenHistoryFull : Z := -2.

Record connectTokenEntry := mkEntry {
  te_state : Z;
  te_time : float64;
  te_expireTimestamp : Z;
  te_mac : list byte;
  te_address : Address;
}.
#[export] Instance eta_entry : Eta connectTokenEntry := λ e,
  mkEntry (te_state e) (te_time e) (te_expireTimestamp e) (te_mac e) (te_address e).

Definition freeEntry : connectTokenEntry :=
  mkEntry connectTokenEntryFree f64_m1000 0 (zeros MacBytes) zeroAddress.
(** connectTokenEntriesReset: the array after the loop. *)
Definition connectTokenEntriesReset : list connectTokenEntry :=
  replicate (Z.to_nat maxConnectTokenEntries) freeEntry.

(** [MacBytes]byte(mac) == entries[i].mac: the conversion panics on a slice
    shorter than the array, and is reached only for entries in use. *)
Definition entry_matches (e : connectTokenEntry) (mac : list byte) : option bool :=
  if te_state e =? connectTokenEntryFree then Some false
  else if bool_decide (length mac < MacBytes)%nat then None
  else Some (bool_decide (take MacBytes mac = te_mac e)).
(** The entry can take a new connect token. *)
Definition entry_available (e : connectTokenEntry) (currentTimestamp : Z) : bool :=
  (te_state e =? connectTokenEntryFree) || (te_expireTimestamp e <=? currentTimestamp).

(** The loop: last matching index and first available one. *)
Fixpoint scan_entries (ixs : list Z) (entries : list connectTokenEntry) (mac : list byte)
  (currentTimestamp matchingTokenIndex freeTokenIndex : Z) : option (Z * Z) :=
  match ixs with
  | [] => Some (matchingTokenIndex, freeTokenIndex)
  | i :: ixs =>
      e ← aget entries i;
      m ← entry_matches e mac;
      let matchingTokenIndex := if (m : bool) then i else matchingTokenIndex in
      let freeTokenIndex := if (freeTokenIndex =? -1) && entry_available e currentTimestamp
                            then i else freeTokenIndex in
      scan_entries ixs entries mac currentTimestamp matchingTokenIndex freeTokenIndex
  end.

Definition connectTokenEntriesFindOrAdd (entries : list connectTokenEntry) (address : Address)
  (mac : list byte) (expireTimestamp currentTimestamp : Z) (time : float64)
  : option (Z * list connectTokenEntry) :=
  '(matching, free) ← scan_entries (seqZ 0 maxConnectTokenEntries) entries mac currentTimestamp (-1) (-1);
  if matching =? -1 then
    (if free =? -1 then Some (connectTokenHistoryFull, entries)
     else
       (e ← aget entries free;
        entries ← aset entries free
          (mkEntry connectTokenEntryPending time expireTimestamp (go_copy (te_mac e) mac) address);
        Some (free, entries)))
  else
    (e ← aget entries matching;
     if (te_state e =? connectTokenEntryPending) && Equal (te_address e) address
     then Some (matching, entries)
     else Some (connectTokenEntryRefused, entries)).

Definition connectTokenEntriesConsume (entries : list connectTokenEntry) (index : Z)
  : option (list connectTokenEntry) :=
  if (index >=? 0) && (index <? maxConnectTokenEntries) then
    (e ← aget entries index; aset entries index (e <| te_state := connectTokenEntryConsumed |>))
  else Some entries.

(** * Properties *)

Definition in_use (e : connectTokenEntry) : Prop := te_state e ≠ connectTokenEntryFree.
#[global] Instance in_use_dec e : Decision (in_use e).
Proof. unfold in_use. apply _. Defined.

Record entries_wf (entries : list connectTokenEntry) : Prop := {
  ew_length : length entries = Z.to_nat maxConnectTokenEntries;
  ew_mac i e : aget entries i = Some e → length (te_mac e) = MacBytes;
}.
Lemma entries_wf_reset : entries_wf connectTokenEntriesReset.
Proof.
  split; [apply length_replicate|]. intros i e ->%aget_replicate_inv. done.
Qed.

(** What the loop finds. *)
Definition last_match (entries : list connectTokenEntry) (mac : list byte) (n m : Z) : Prop :=
  (m = -1 ∧ ∀ j e, 0 ≤ j < n → aget entries j = Some e → in_use e → te_mac e ≠ mac) ∨
  (0 ≤ m < n ∧ ∃ e, aget entries m = Some e ∧ in_use e ∧ te_mac e = mac).
Definition first_available (entries : list connectTokenEntry) (now n f : Z) : Prop :=
  (f = -1 ∧ ∀ j e, 0 ≤ j < n → aget entries j = Some e → in_use e ∧ now < te_expireTimestamp e) ∨
  (0 ≤ f < n ∧ ∃ e, aget entries f = Some e ∧ (in_use e → te_expireTimestamp e ≤ now)).

Lemma entry_matches_spec e mac :
  length mac = MacBytes → entry_matches e mac = Some (bool_decide (in_use e ∧ te_mac e = mac)).
Proof.
  intros Hm. unfold entry_matches, in_use.
  destruct (Z.eqb_spec (te_state e) connectTokenEntryFree) as [He|He].
  - by rewrite bool_decide_eq_false_2 by (by intros []).
  - rewrite (bool_decide_eq_false_2 (_ < _)%nat) by lia. rewrite take_ge by lia.
    f_equal. apply bool_decide_ext. naive_solver.
Qed.
Lemma entry_available_spec e now :
  entry_available e now = true ↔ (in_use e → te_expireTimestamp e ≤ now).
Proof.
  unfold entry_available, in_use. rewrite orb_true_iff, Z.eqb_eq, Z.leb_le.
  split; [intros [?|?]; naive_solver|].
  intros H. destruct (decide (te_state e = connectTokenEntryFree)); [by left|right; auto].
Qed.

Lemma scan_entries_spec entries mac now (k : nat) n m f :
  length mac = MacBytes → 0 ≤ n → n + Z.of_nat k ≤ Z.of_nat (length entries) →
  last_match entries mac n m → first_available entries now n f →
  ∃ m' f', scan_entries (seqZ n (Z.of_nat k)) entries mac now m f = Some (m', f') ∧
    last_match entries mac (n + Z.of_nat k) m' ∧ first_available entries now (n + Z.of_nat k) f'.
Proof.
  intros Hmac. revert n m f. induction k as [|k IH]; intros n m f Hn Hle Hm Hf.
  { rewrite Z.add_0_r. by exists m, f. }
  rewrite seqZ_S. cbn [scan_entries].
  destruct (aget_Some entries n) as [e He]; [lia|]. rewrite He. cbn [mbind option_bind].
  rewrite entry_matches_spec by done. cbn [mbind option_bind].
  replace (n + Z.of_nat (S k)) with (n + 1 + Z.of_nat k) by lia.
  apply IH; [lia|lia|..].
  - case_bool_decide as Hme; [right; split; [lia|by exists e]|].
    destruct Hm as [[-> Hall]|[? ?]]; [left|right; split; [lia|done]].
    split; [done|]. intros j e' Hj Hje Hu Hmac'. destruct (decide (j = n)) as [->|].
    + rewrite He in Hje. injection Hje as <-. by apply Hme.
    + by apply (Hall j e'); [lia|..].
  - destruct Hf as [[-> Hall]|[? ?]].
    + rewrite Z.eqb_refl. cbn [andb]. destruct (entry_available e now) eqn:Ha.
      * right. split; [lia|]. exists e. split; [done|]. by apply entry_available_spec.
      * left. split; [done|]. intros j e' Hj Hje. destruct (decide (j = n)) as [->|].
        -- rewrite He in Hje. injection Hje as <-.
           destruct (decide (in_use e)) as [Hu|Hu].
           ++ split; [done|]. apply Z.lt_nge. intros Hx.
              assert (entry_available e now = true) by (by apply entry_available_spec). congruence.
           ++ assert (entry_available e now = true) by (apply entry_available_spec; naive_solver).
              congruence.
        -- apply (Hall j e'); [lia|done].
    + right. destruct (Z.eqb_spec f (-1)); [lia|]. split; [simpl; lia|done].
Qed.

Lemma scan_all entries mac now :
  entries_wf entries → length mac = MacBytes →
  ∃ m f, scan_entries (seqZ 0 maxConnectTokenEntries) entries mac now (-1) (-1) = Some (m, f) ∧
    last_match entries mac maxConnectTokenEntries m ∧
    first_available entries now maxConnectTokenEntries f.
Proof.
  intros Hwf Hmac.
  destruct (scan_entries_spec entries mac now (Z.to_nat maxConnectTokenEntries) 0 (-1) (-1))
    as (m & f & Hscan & Hm & Hf); [done|lia|rewrite (ew_length _ Hwf); clia|..].
  - left. split; [done|]. intros; lia.
  - left. split; [done|]. intros; lia.
  - rewrite Z2Nat.id, Z.add_0_l in * by clia. by exists m, f.
Qed.

(** ** Refinement of a finite map *)

(** The abstract history: the entry of every token MAC the server remembers. *)
Abbreviation history := (gmap (list byte) connectTokenEntry).

Record history_repr (entries : list connectTokenEntry) (h : history) : Prop := {
  hr_wf : entries_wf entries;
  hr_lookup mac e : h !! mac = Some e ↔ ∃ i, aget entries i = Some e ∧ in_use e ∧ te_mac e = mac;
  hr_unique i j e e' : aget entries i = Some e → aget entries j = Some e' →
    in_use e → in_use e' → te_mac e = te_mac e' → i = j;
}.

(** The entry a new token gets. *)
Definition pendingEntry (address : Address) (mac : list byte) (expireTimestamp : Z) (time : float64)
  : connectTokenEntry :=
  mkEntry connectTokenEntryPending time expireTimestamp mac address.

Lemma history_repr_reset : history_repr connectTokenEntriesReset ∅.
Proof.
  split; [apply entries_wf_reset|..].
  - intros mac e. rewrite lookup_empty. split; [done|].
    intros (i & ->%aget_replicate_inv & Hu & _). by destruct Hu.
  - by intros i j e e' ->%aget_replicate_inv _ [].
Qed.

Lemma entries_wf_ainsert entries i e :
  entries_wf entries → 0 ≤ i < maxConnectTokenEntries → length (te_mac e) = MacBytes →
  entries_wf (ainsert i e entries).
Proof.
  intros [Hl Hm] Hi He. split; [by rewrite length_ainsert|].
  intros j e'. rewrite aget_ainsert by (rewrite Hl; clia).
  case_decide; [intros [= <-]; done|apply Hm].
Qed.

(** Writing entry [i] with an entry in use whose MAC no other entry holds. *)
Lemma history_repr_insert entries h i old e :
  history_repr entries h → aget entries i = Some old → in_use e →
  length (te_mac e) = MacBytes →
  (∀ j e', aget entries j = Some e' → in_use e' → te_mac e' = te_mac e → i = j) →
  history_repr (ainsert i e entries)
    (<[te_mac e := e]> (if decide (in_use old) then delete (te_mac old) h else h)).
Proof.
  intros [Hwf Hl Hu] Hold He Hmac Hfresh.
  pose proof (aget_range _ _ _ Hold) as Hi.
  split.
  - apply entries_wf_ainsert; [done| |done]. rewrite (ew_length _ Hwf) in Hi. clia.
  - intros mac e'. destruct (decide (mac = te_mac e)) as [->|Hne].
    + rewrite lookup_insert_eq. split.
      * intros [= <-]. exists i. by rewrite aget_ainsert_eq.
      * intros (j & Hj & Hju & Hjm). rewrite aget_ainsert in Hj by done.
        case_decide; [done|]. by destruct (Hfresh _ _ Hj Hju Hjm).
    + rewrite lookup_insert_ne by done. trans (∃ j, i ≠ j ∧ aget entries j = Some e' ∧ in_use e' ∧ te_mac e' = mac).
      * case_decide as Ho.
        -- rewrite lookup_delete_Some, Hl. split.
           ++ intros (Hm & j & Hj & Hju & Hjm). exists j. split_and!; try done.
              intros <-. rewrite Hold in Hj. by injection Hj as <-.
           ++ intros (j & Hij & Hj & Hju & Hjm). split; [|by exists j].
              intros Heq. by destruct Hij; apply (Hu i j old e'); try done; congruence.
        -- rewrite Hl. split; [|naive_solver]. intros (j & Hj & Hju & Hjm).
           exists j. split_and!; try done. intros <-. rewrite Hold in Hj. by injection Hj as <-.
      * split.
        -- intros (j & Hij & Hj & ?). exists j. by rewrite aget_ainsert, decide_False.
        -- intros (j & Hj & Hju & Hjm). rewrite aget_ainsert in Hj by done.
           case_decide; [injection Hj as <-; by destruct Hne|]. by exists j.
  - intros j k a b. rewrite !aget_ainsert by done. repeat case_decide; subst; try done.
    + intros [= <-] Hb _ Hub Hm. by apply (Hfresh k b).
    + intros Ha [= <-] Hua _ Hm. symmetry. by apply (Hfresh j a).
    + apply Hu.
Qed.

(** What connectTokenEntriesFindOrAdd returns and leaves, by case on what the
    map holds for the MAC. *)
Definition find_or_add_post (entries : list connectTokenEntry) (h : history) (address : Address)
  (mac : list byte) (expire now : Z) (time : float64) (r : Z) (entries' : list connectTokenEntry)
  : Prop :=
  match h !! mac with
  | Some e =>
      entries' = entries ∧
      if bool_decide (te_state e = connectTokenEntryPending ∧ Equal (te_address e) address = true)
      then aget entries r = Some e else r = connectTokenEntryRefused
  | None =>
      (r = connectTokenHistoryFull ∧ entries' = entries ∧
       ∀ i, 0 ≤ i < maxConnectTokenEntries →
         ∃ e, aget entries i = Some e ∧ in_use e ∧ now < te_expireTimestamp e) ∨
      (aget entries' r = Some (pendingEntry address mac expire time) ∧
       ∃ h0, (h0 = h ∨ ∃ m e, h !! m = Some e ∧ te_expireTimestamp e ≤ now ∧ h0 = delete m h) ∧
         history_repr entries' (<[mac := pendingEntry address mac expire time]> h0))
  end.

Lemma find_or_add_spec entries h address mac expire now time :
  history_repr entries h → length mac = MacBytes →
  ∃ r entries',
    connectTokenEntriesFindOrAdd entries address mac expire now time = Some (r, entries') ∧
    find_or_add_post entries h address mac expire now time r entries'.
Proof.
  intros Hrepr Hmac. unfold find_or_add_post.
  pose proof (hr_wf _ _ Hrepr) as Hwf.
  destruct (scan_all entries mac now Hwf Hmac) as (m & f & Hscan & Hm & Hf).
  unfold connectTokenEntriesFindOrAdd. rewrite Hscan. cbn [mbind option_bind].
  destruct Hm as [[-> Hnone]|(Hmr & e & He & Hu & Hem)].
  - rewrite Z.eqb_refl.
    assert (h !! mac = None) as ->.
    { apply eq_None_not_Some. intros [e (i & Hi & Hu & Hem)%Hrepr].
      pose proof (aget_range _ _ _ Hi) as Hr. rewrite (ew_length _ Hwf) in Hr.
      apply (Hnone i e); done || clia. }
    destruct Hf as [[-> Hfull]|(Hfr & e & He & Hex)].
    + rewrite Z.eqb_refl. eexists _, _. split; [done|]. left. split_and!; [done..|].
      intros i Hi. destruct (aget_Some entries i) as [e He]; [rewrite (ew_length _ Hwf); clia|].
      exists e. destruct (Hfull i e Hi He). done.
    + destruct (Z.eqb_spec f (-1)); [lia|]. rewrite He. cbn [mbind option_bind].
      pose proof (aget_range _ _ _ He) as Hr. rewrite aset_Some by done. cbn [mbind option_bind].
      assert (go_copy (te_mac e) mac = mac) as ->.
      { unfold go_copy. rewrite (ew_mac _ Hwf f e He), take_ge by lia. apply splice_full.
        by rewrite (ew_mac _ Hwf f e He). }
      eexists _, _. split; [done|]. right. split; [by apply aget_ainsert_eq|].
      exists (if decide (in_use e) then delete (te_mac e) h else h). split.
      * case_decide as Hu; [right|by left]. exists (te_mac e), e.
        split_and!; [apply Hrepr; by exists f|auto|done].
      * eapply (history_repr_insert entries h f e (pendingEntry address mac expire time)); try done.
        intros j e' Hj Hju Hjm. pose proof (aget_range _ _ _ Hj) as Hjr.
        rewrite (ew_length _ Hwf) in Hjr. destruct (Hnone j e'); done || clia.
  - destruct (Z.eqb_spec m (-1)); [lia|]. rewrite He. cbn [mbind option_bind].
    assert (h !! mac = Some e) as -> by (apply Hrepr; by exists m).
    case_bool_decide as Hadm.
    + destruct Hadm as [-> ->]. rewrite Z.eqb_refl. by eexists _, _.
    + eexists _, entries. split; [|done].
      destruct (Z.eqb_spec (te_state e) connectTokenEntryPending); [|done].
      destruct (Equal (te_address e) address); [|done]. by destruct Hadm.
Qed.

(** C20. Refinement: over a history that represents a finite map from MACs to
    entries, connectTokenEntriesFindOrAdd does not panic and
    - for a known MAC changes nothing, and admits exactly a pending token from
      the address that first presented it;
    - for a new MAC returns connectTokenHistoryFull, changing nothing, when
      every entry holds an unexpired token, and otherwise records the token as
      pending in place of nothing or of one expired token. *)
Theorem find_or_add_refines (entries : list connectTokenEntry) (h : history) (address : Address)
  (mac : list byte) (expire now : Z) (time : float64)
  (Hrepr : history_repr entries h) (Hmac : length mac = MacBytes) :
  ∃ r entries',
    connectTokenEntriesFindOrAdd entries address mac expire now time = Some (r, entries') ∧
    match h !! mac with
    | Some e =>
        entries' = entries ∧
        if bool_decide (te_state e = connectTokenEntryPending ∧ Equal (te_address e) address = true)
        then aget entries r = Some e else r = connectTokenEntryRefused
    | None =>
        (r = connectTokenHistoryFull ∧ entries' = entries ∧
         ∀ i, 0 ≤ i < maxConnectTokenEntries →
           ∃ e, aget entries i = Some e ∧ in_use e ∧ now < te_expireTimestamp e) ∨
        (aget entries' r = Some (pendingEntry address mac expire time) ∧
         ∃ h0, (h0 = h ∨ ∃ m e, h !! m = Some e ∧ te_expireTimestamp e ≤ now ∧ h0 = delete m h) ∧
           history_repr entries' (<[mac := pendingEntry address mac expire time]> h0))
    end.
Proof. by apply find_or_add_spec. Qed.

(** Over any well formed array, whatever it represents. *)
Lemma find_or_add_total entries address mac expire now time :
  entries_wf entries → length mac = MacBytes →
  ∃ r entries', connectTokenEntriesFindOrAdd entries address mac expire now time = Some (r, entries') ∧
    entries_wf entries' ∧
    (r = connectTokenHistoryFull ∨ r = connectTokenEntryRefused ∨ 0 ≤ r < maxConnectTokenEntries).
Proof.
  intros Hwf Hmac. destruct (scan_all entries mac now Hwf Hmac) as (m & f & Hscan & Hm & Hf).
  unfold connectTokenEntriesFindOrAdd. rewrite Hscan. cbn [mbind option_bind].
  destruct Hm as [[-> _]|(Hmr & e & He & _)].
  - rewrite Z.eqb_refl. destruct Hf as [[-> _]|(Hfr & e & He & _)]; [eexists _, _; eauto|].
    destruct (Z.eqb_spec f (-1)); [lia|]. rewrite He. cbn [mbind option_bind].
    rewrite aset_Some by (by eapply aget_range). cbn [mbind option_bind].
    eexists _, _. split; [done|]. split; [|by right; right].
    apply entries_wf_ainsert; [done..|]. simpl. pose proof (ew_mac _ Hwf f e He).
    unfold go_copy. rewrite length_splice; [done|]. rewrite length_take. simpl. lia.
  - destruct (Z.eqb_spec m (-1)); [lia|]. rewrite He. cbn [mbind option_bind].
    case_match; eexists _, _; eauto.
Qed.

(** ** A consumed token is never admitted again *)
Inductive token_op :=
| OpFindOrAdd (address : Address) (mac : list byte) (expire now : Z) (time : float64)
| OpConsume (index : Z).

(** Run a sequence of operations; the results are those of the requests. *)
Fixpoint run_ops (ops : list token_op) (entries : list connectTokenEntry)
  : option (list Z * list connectTokenEntry) :=
  match ops with
  | [] => Some ([], entries)
  | OpFindOrAdd address mac expire now time :: ops =>
      '(r, entries) ← connectTokenEntriesFindOrAdd entries address mac expire now time;
      '(rs, entries) ← run_ops ops entries;
      Some (r :: rs, entries)
  | OpConsume index :: ops =>
      entries ← connectTokenEntriesConsume entries index;
      run_ops ops entries
  end.

(** Some unexpired entry holds the MAC, and all entries that hold it are
    consumed. *)
Record consumed_until (entries : list connectTokenEntry) (mac : list byte) (expire : Z) : Prop := {
  cu_wf : entries_wf entries;
  cu_all i e : aget entries i = Some e → in_use e → te_mac e = mac →
    te_state e = connectTokenEntryConsumed;
  cu_some : ∃ i e, aget entries i = Some e ∧ te_state e = connectTokenEntryConsumed ∧
    te_mac e = mac ∧ expire ≤ te_expireTimestamp e;
}.

(** Writing an entry: an available one, or one that becomes consumed. *)
Lemma consumed_until_ainsert entries mac expire now i old e :
  consumed_until entries mac expire → aget entries i = Some old →
  now < expire → length (te_mac e) = MacBytes →
  ((te_mac e ≠ mac ∧ (in_use old → te_expireTimestamp old ≤ now)) ∨
   e = old <| te_state := connectTokenEntryConsumed |>) →
  consumed_until (ainsert i e entries) mac expire.
Proof.
  intros [Hwf Hall (k & ek & Hk & Hks & Hkm & Hke)] Hold Hnow Hmac Hcase.
  pose proof (aget_range _ _ _ Hold) as Hi. split.
  - apply entries_wf_ainsert; [done| |done]. rewrite (ew_length _ Hwf) in Hi. clia.
  - intros j e'. rewrite aget_ainsert by done. case_decide; [|apply Hall].
    intros [= <-] Hu Hm. destruct Hcase as [[? _]| ->]; done.
  - destruct (decide (i = k)) as [->|Hne].
    + rewrite Hk in Hold. injection Hold as <-. destruct Hcase as [[_ Hex]| ->].
      * assert (in_use ek) as Hu by (unfold in_use; by rewrite Hks). specialize (Hex Hu). lia.
      * eexists k, _. rewrite aget_ainsert_eq by done. done.
    + exists k, ek. by rewrite aget_ainsert, decide_False.
Qed.

Lemma consume_total entries index :
  entries_wf entries → ∃ entries', connectTokenEntriesConsume entries index = Some entries' ∧
    (entries' = entries ∨ ∃ e, aget entries index = Some e ∧
       entries' = ainsert index (e <| te_state := connectTokenEntryConsumed |>) entries).
Proof.
  intros Hwf. unfold connectTokenEntriesConsume. rewrite Z.geb_leb.
  destruct (Z.leb_spec 0 index), (Z.ltb_spec index maxConnectTokenEntries); simpl; eauto.
  destruct (aget_Some entries index) as [e He]; [rewrite (ew_length _ Hwf); clia|].
  rewrite He. simpl. rewrite aset_Some by (by eapply aget_range). eauto 6.
Qed.

Lemma find_consumed entries mac expire address mac' expire' now time :
  consumed_until entries mac expire → now < expire → length mac' = MacBytes →
  ∃ r entries', connectTokenEntriesFindOrAdd entries address mac' expire' now time = Some (r, entries') ∧
    consumed_until entries' mac expire ∧ (mac' = mac → r = connectTokenEntryRefused).
Proof.
  intros Hc Hnow Hmac'. pose proof (cu_wf _ _ _ Hc) as Hwf.
  destruct (scan_all entries mac' now Hwf Hmac') as (m & f & Hscan & Hm & Hf).
  unfold connectTokenEntriesFindOrAdd. rewrite Hscan. cbn [mbind option_bind].
  destruct Hm as [[-> Hnone]|(Hmr & e & He & Hu & Hem)].
  - assert (mac' ≠ mac) as Hne.
    { intros ->. destruct (cu_some _ _ _ Hc) as (k & ek & Hk & Hks & Hkm & _).
      pose proof (aget_range _ _ _ Hk) as Hr. rewrite (ew_length _ Hwf) in Hr.
      apply (Hnone k ek); try (done || clia). unfold in_use. by rewrite Hks. }
    rewrite Z.eqb_refl. destruct Hf as [[-> Hfull]|(Hfr & e & He & Hex)]; [by eexists _, _|].
    destruct (Z.eqb_spec f (-1)); [lia|]. rewrite He. cbn [mbind option_bind].
    rewrite aset_Some by (by eapply aget_range). cbn [mbind option_bind].
    eexists _, _. split; [done|]. split; [|done].
    assert (go_copy (te_mac e) mac' = mac') as ->.
    { unfold go_copy. rewrite (ew_mac _ Hwf f e He), take_ge by lia. apply splice_full.
      by rewrite (ew_mac _ Hwf f e He). }
    eapply consumed_until_ainsert; try done. by left.
  - destruct (Z.eqb_spec m (-1)); [lia|]. rewrite He. cbn [mbind option_bind].
    case_match eqn:Hb.
    + eexists _, _. split; [done|]. split; [done|]. intros ->.
      rewrite (cu_all _ _ _ Hc m e He Hu Hem) in Hb. done.
    + by eexists _, _.
Qed.

(** The results of the requests for [mac], in order. *)
Fixpoint results_for (mac : list byte) (ops : list token_op) (rs : list Z) : list Z :=
  match ops, rs with
  | OpFindOrAdd _ mac' _ _ _ :: ops, r :: rs =>
      if decide (mac' = mac) then r :: results_for mac ops rs else results_for mac ops rs
  | OpConsume _ :: ops, rs => results_for mac ops rs
  | _, _ => []
  end.
(** The request carries a 16 byte MAC and comes before [expire]. *)
Definition op_before (expire : Z) (op : token_op) : Prop :=
  match op with
  | OpFindOrAdd _ mac _ now _ => length mac = MacBytes ∧ now < expire
  | OpConsume _ => True
  end.

Lemma run_ops_consumed mac expire ops entries :
  consumed_until entries mac expire → Forall (op_before expire) ops →
  ∃ rs entries', run_ops ops entries = Some (rs, entries') ∧ consumed_until entries' mac expire ∧
    Forall (eq connectTokenEntryRefused) (results_for mac ops rs).
Proof.
  intros Hc Hops. revert entries Hc. induction Hops as [|op ops Hop _ IH]; intros entries Hc.
  { by eexists _, _. }
  destruct op as [address mac' expire' now time|index]; cbn [run_ops].
  - destruct Hop as [Hm Hnow].
    destruct (find_consumed entries mac expire address mac' expire' now time Hc Hnow Hm)
      as (r & entries1 & -> & Hc1 & Hr). cbn [mbind option_bind].
    destruct (IH _ Hc1) as (rs & entries2 & -> & Hc2 & Hrs). cbn [mbind option_bind].
    eexists _, _. split; [done|]. split; [done|]. cbn [results_for].
    case_decide; [|done]. constructor; [by rewrite Hr|done].
  - destruct (consume_total entries index (cu_wf _ _ _ Hc)) as (entries1 & -> & Hcase).
    cbn [mbind option_bind results_for]. apply IH.
    destruct Hcase as [->|(e & He & ->)]; [done|].
    eapply (consumed_until_ainsert _ _ _ (expire - 1)); try done; [lia| |by right].
    simpl. by apply (ew_mac _ (cu_wf _ _ _ Hc) index).
Qed.

Lemma consume_admitted entries h index e :
  history_repr entries h → aget entries index = Some e → in_use e →
  ∃ entries', connectTokenEntriesConsume entries index = Some entries' ∧
    consumed_until entries' (te_mac e) (te_expireTimestamp e).
Proof.
  intros Hr He Hu. pose proof (hr_wf _ _ Hr) as Hwf. pose proof (aget_range _ _ _ He) as Hi.
  unfold connectTokenEntriesConsume. rewrite (ew_length _ Hwf) in Hi.
  destruct (Z.geb_spec index 0), (Z.ltb_spec index maxConnectTokenEntries); try clia.
  cbn [andb]. rewrite He. cbn [mbind option_bind].
  rewrite aset_Some by (by eapply aget_range). eexists. split; [done|].
  split.
  - apply entries_wf_ainsert; [done|clia|]. simpl. by apply (ew_mac _ Hwf index).
  - intros j e'. rewrite aget_ainsert by (by eapply aget_range).
    case_decide as Hj; [by intros [= <-]|]. intros He' Hu' Hm. destruct Hj.
    by apply (hr_unique _ _ Hr index j e e').
  - eexists index, _. by rewrite aget_ainsert_eq by (by eapply aget_range).
Qed.

(** C11. Safety: a request admitted by the history (new, or retransmitted) can
    be consumed without a panic, and from then on every request with that
    token's MAC is refused, from whatever address and whatever other requests
    and consumptions come in between (a flood of other tokens included), as
    long as the clock has not passed the token's expire timestamp. *)
Theorem consumed_token_refused_forever (entries entries1 : list connectTokenEntry)
  (h : history) (address : Address) (mac : list byte) (expire now : Z) (time : float64) (index : Z)
  (Hrepr : history_repr entries h) (Hmac : length mac = MacBytes)
  (Hfind : connectTokenEntriesFindOrAdd entries address mac expire now time = Some (index, entries1))
  (Hindex : 0 ≤ index) :
  ∃ e entries2, aget entries1 index = Some e ∧
    connectTokenEntriesConsume entries1 index = Some entries2 ∧
    ∀ ops, Forall (op_before (te_expireTimestamp e)) ops →
      ∃ rs entries3, run_ops ops entries2 = Some (rs, entries3) ∧
        Forall (eq connectTokenEntryRefused) (results_for mac ops rs).
Proof.
  destruct (find_or_add_spec entries h address mac expire now time Hrepr Hmac)
    as (r & es & Heq & Hpost). rewrite Hfind in Heq. injection Heq as <- <-.
  assert (∃ h1 e, history_repr entries1 h1 ∧ aget entries1 index = Some e ∧ in_use e ∧ te_mac e = mac)
    as (h1 & e & Hr1 & He & Hu & Hem).
  { unfold find_or_add_post in Hpost. destruct (h !! mac) as [e|] eqn:Hl.
    - destruct Hpost as [-> Hcase]. apply Hrepr in Hl as (i & _ & Hu & Hem).
      case_bool_decide; [by exists h, e|]. unfold connectTokenEntryRefused in Hcase. lia.
    - destruct Hpost as [(-> & _)|(He & h0 & _ & Hr1)]; [unfold connectTokenHistoryFull in Hindex; lia|].
      eexists _, (pendingEntry address mac expire time). by split_and!. }
  destruct (consume_admitted entries1 h1 index e Hr1 He Hu) as (entries2 & Hcons & Hc).
  exists e, entries2. split_and!; [done..|]. intros ops Hops. rewrite Hem in Hc.
  destruct (run_ops_consumed mac _ ops entries2 Hc Hops) as (rs & entries3 & ? & _ & ?). eauto.
Qed.

(** ** Concrete instances *)
Definition sample_mac : list byte := replicate MacBytes (byte.of_Z 5).

Lemma find_or_add_refines_witness :
  ∃ r entries',
    connectTokenEntriesFindOrAdd connectTokenEntriesReset sample_ipv4 sample_mac 1030 1000 f64_1 =
      Some (r, entries') ∧
    aget entries' r = Some (pendingEntry sample_ipv4 sample_mac 1030 f64_1).
Proof.
  destruct (find_or_add_refines connectTokenEntriesReset ∅ sample_ipv4 sample_mac 1030 1000 f64_1
              history_repr_reset eq_refl) as (r & entries' & Hfind & Hpost).
  rewrite lookup_empty in Hpost. destruct Hpost as [(_ & _ & Hfull)|[He _]]; [|exists r, entries'; split; assumption].
  destruct (Hfull 0) as (e & He & Hu & _); [clia|].
  apply aget_replicate_inv in He as ->. by destruct Hu.
Defined.

Lemma consumed_token_refused_forever_witness :
  let entries1 := ainsert 0 (pendingEntry sample_ipv4 sample_mac 1030 f64_1) connectTokenEntriesReset in
  ∃ e entries2, aget entries1 0 = Some e ∧
    connectTokenEntriesConsume entries1 0 = Some entries2 ∧
    ∀ ops, Forall (op_before (te_expireTimestamp e)) ops →
      ∃ rs entries3, run_ops ops entries2 = Some (rs, entries3) ∧
        Forall (eq connectTokenEntryRefused) (results_for sample_mac ops rs).
Proof.
  apply (consumed_token_refused_forever connectTokenEntriesReset _ ∅ sample_ipv4 sample_mac 1030 1000
           f64_1 0); [apply history_repr_reset|done|by vm_compute|done].
Defined.
