(* ===== verification/Encryption.v ===== *)
(** encryption.go: the manager that maps packet source addresses to the keys of
    a connect token. *)

From S2P Require Import Prelude Constants Float64 Address Token.

Record encryptionManager := mkEncryptionManager {
  em_numEncryptionMappings : Z;
  em_timeout : list Z;
  em_expireTime : list float64;
  em_lastAccessTime : list float64;
  em_address : list Address;
  em_clientIndex : list Z;
  em_connectTokenEntryIndex : list Z;
  em_sendKey : list (list byte);
  em_receiveKey : list (list byte);
}.
#[export] Instance eta_encryptionManager : Eta encryptionManager := λ m,
  mkEncryptionManager (em_numEncryptionMappings m) (em_timeout m) (em_expireTime m)
    (em_lastAccessTime m) (em_address m) (em_clientIndex m) (em_connectTokenEntryIndex m)
    (em_sendKey m) (em_receiveKey m).

Module EncryptionManager.
(** reset(): every array after the loop. *)
Definition reset : encryptionManager :=
  let n := Z.to_nat maxEncryptionMappings in
  mkEncryptionManager 0 (replicate n 0) (replicate n f64_m1) (replicate n f64_m1000)
    (replicate n zeroAddress) (replicate n (-1)) (replicate n (-1))
    (replicate n (zeros KeyBytes)) (replicate n (zeros KeyBytes)).

Definition entryExpired (index : Z) (time : float64) : M encryptionManager bool :=
  timeout ← aread em_timeout index;
  lastAccessTime ← aread em_lastAccessTime index;
  expireTime ← aread em_expireTime index;
  mret (((timeout >? 0) && f64_ltb (f64_add lastAccessTime (f64_of_Z timeout)) time)
        || (f64_leb f64_0 expireTime && f64_ltb expireTime time)).

(** m.address[i].Equal( *address) && !m.entryExpired(i, time) *)
Definition matches (address : Address) (time : float64) (i : Z) : M encryptionManager bool :=
  a ← aread em_address i;
  if Equal a address then (expired ← entryExpired i time; mret (negb expired)) else mret false.

(** m.address[i].Type == AddressNone || (m.entryExpired(i, time) && m.clientIndex[i] == -1) *)
Definition available (time : float64) (i : Z) : M encryptionManager bool :=
  a ← aread em_address i;
  if Type_ a =? AddressNone then mret true
  else
    (expired ← entryExpired i time;
     if (expired : bool) then (c ← aread em_clientIndex i; mret (c =? -1)) else mret false).

(** copy(m.sendKey[i][:], key), and the same for receiveKey. *)
Definition copyKeys (i : Z) (sendKey receiveKey : list byte) : M encryptionManager unit :=
  oldSend ← aread em_sendKey i;
  awrite em_sendKey i (go_copy oldSend sendKey);;
  oldReceive ← aread em_receiveKey i;
  awrite em_receiveKey i (go_copy oldReceive receiveKey).

Definition addEncryptionMapping (address : Address) (sendKey receiveKey : list byte)
  (time expireTime : float64) (timeout connectTokenEntryIndex : Z) : M encryptionManager bool :=
  num ← gets em_numEncryptionMappings;
  found ← first_ (seqZ 0 num) (matches address time);
  match found with
  | Some i =>
      awrite em_timeout i timeout;;
      awrite em_expireTime i expireTime;;
      awrite em_lastAccessTime i time;;
      awrite em_connectTokenEntryIndex i connectTokenEntryIndex;;
      copyKeys i sendKey receiveKey;;
      mret true
  | None =>
      free ← first_ (seqZ 0 maxEncryptionMappings) (available time);
      match free with
      | Some i =>
          awrite em_timeout i timeout;;
          awrite em_address i address;;
          awrite em_expireTime i expireTime;;
          awrite em_lastAccessTime i time;;
          awrite em_connectTokenEntryIndex i connectTokenEntryIndex;;
          copyKeys i sendKey receiveKey;;
          num ← gets em_numEncryptionMappings;
          (if i + 1 >? num then modify (set em_numEncryptionMappings (λ _, i + 1)) else mret tt);;
          mret true
      | None => mret false
      end
  end.

(** The inner loop of removeEncryptionMapping from index [n - 1] down: returns
    index + 1 where it stops. *)
Fixpoint trim (n : nat) (time : float64) : M encryptionManager Z :=
  match n with
  | O => mret 0
  | S k =>
      let index := Z.of_nat k in
      expired ← entryExpired index time;
      clientIndex ← aread em_clientIndex index;
      if negb expired || negb (clientIndex =? -1) then mret (index + 1)
      else
        (a ← aread em_address index;
         awrite em_address index (a <| Type_ := AddressNone |>);;
         trim k time)
  end.

(** The assignments that erase mapping [i]. *)
Definition clearMapping (i : Z) : M encryptionManager unit :=
  awrite em_expireTime i f64_m1;;
  awrite em_lastAccessTime i f64_m1000;;
  awrite em_connectTokenEntryIndex i (-1);;
  awrite em_address i zeroAddress;;
  awrite em_sendKey i (zeros KeyBytes);;
  awrite em_receiveKey i (zeros KeyBytes).

Definition removeEncryptionMapping (address : Address) (time : float64) : M encryptionManager bool :=
  num ← gets em_numEncryptionMappings;
  found ← first_ (seqZ 0 num) (λ i, a ← aread em_address i; mret (Equal a address));
  match found with
  | Some i =>
      clearMapping i;;
      (if i + 1 =? num then
         (num ← trim (Z.to_nat i) time; modify (set em_numEncryptionMappings (λ _, num)))
       else mret tt);;
      mret true
  | None => mret false
  end.

Definition findEncryptionMapping (address : Address) (time : float64) : M encryptionManager Z :=
  num ← gets em_numEncryptionMappings;
  found ← first_ (seqZ 0 num) (matches address time);
  match found with
  | Some i => awrite em_lastAccessTime i time;; mret i
  | None => mret (-1)
  end.

Definition touch (index : Z) (address : Address) (time : float64) : M encryptionManager bool :=
  a ← aread em_address index;
  if negb (Equal a address) then mret false
  else (awrite em_lastAccessTime index time;; mret true).

Definition setExpireTime (index : Z) (expireTime : float64) : M encryptionManager unit :=
  awrite em_expireTime index expireTime.

(** A [nil] key is [None]. *)
Definition getSendKey (index : Z) : M encryptionManager (option (list byte)) :=
  if index =? -1 then mret None else (k ← aread em_sendKey index; mret (Some k)).
Definition getReceiveKey (index : Z) : M encryptionManager (option (list byte)) :=
  if index =? -1 then mret None else (k ← aread em_receiveKey index; mret (Some k)).
Definition getTimeout (index : Z) : M encryptionManager Z :=
  if index =? -1 then mret 0 else aread em_timeout index.
Definition getConnectTokenEntryIndex (index : Z) : M encryptionManager Z :=
  if index =? -1 then mret (-1) else aread em_connectTokenEntryIndex index.
End EncryptionManager.

(** * Properties *)

(** ** One mapping, read across the parallel arrays *)
Record mapping := mkMapping {
  mp_timeout : Z;
  mp_expireTime : float64;
  mp_lastAccessTime : float64;
  mp_address : Address;
  mp_clientIndex : Z;
  mp_connectTokenEntryIndex : Z;
  mp_sendKey : list byte;
  mp_receiveKey : list byte;
}.
#[export] Instance eta_mapping : Eta mapping := λ x,
  mkMapping (mp_timeout x) (mp_expireTime x) (mp_lastAccessTime x) (mp_address x) (mp_clientIndex x)
    (mp_connectTokenEntryIndex x) (mp_sendKey x) (mp_receiveKey x).

Definition em_at (m : encryptionManager) (i : Z) : option mapping :=
  timeout ← aget (em_timeout m) i;
  expireTime ← aget (em_expireTime m) i;
  lastAccessTime ← aget (em_lastAccessTime m) i;
  address ← aget (em_address m) i;
  clientIndex ← aget (em_clientIndex m) i;
  entryIndex ← aget (em_connectTokenEntryIndex m) i;
  sendKey ← aget (em_sendKey m) i;
  receiveKey ← aget (em_receiveKey m) i;
  Some (mkMapping timeout expireTime lastAccessTime address clientIndex entryIndex sendKey receiveKey).

Definition expired (x : mapping) (time : float64) : bool :=
  ((mp_timeout x >? 0) && f64_ltb (f64_add (mp_lastAccessTime x) (f64_of_Z (mp_timeout x))) time)
  || (f64_leb f64_0 (mp_expireTime x) && f64_ltb (mp_expireTime x) time).
(** The mapping decrypts packets from the address. *)
Definition live_for (x : mapping) (address : Address) (time : float64) : bool :=
  Equal (mp_address x) address && negb (expired x time).
(** The slot can be given to another address. *)
Definition free_slot (x : mapping) (time : float64) : bool :=
  (Type_ (mp_address x) =? AddressNone) || (expired x time && (mp_clientIndex x =? -1)).

(** ** Well formed managers *)
Definition num_mappings : nat := Z.to_nat maxEncryptionMappings.
Record em_shape (m : encryptionManager) : Prop := {
  es_timeout : length (em_timeout m) = num_mappings;
  es_expireTime : length (em_expireTime m) = num_mappings;
  es_lastAccessTime : length (em_lastAccessTime m) = num_mappings;
  es_address : length (em_address m) = num_mappings;
  es_clientIndex : length (em_clientIndex m) = num_mappings;
  es_entryIndex : length (em_connectTokenEntryIndex m) = num_mappings;
  es_sendKey : length (em_sendKey m) = num_mappings;
  es_receiveKey : length (em_receiveKey m) = num_mappings;
}.
Record em_wf (m : encryptionManager) : Prop := {
  ew_shape : em_shape m;
  ew_num : 0 ≤ em_numEncryptionMappings m ≤ maxEncryptionMappings;
  ew_unused i x : em_at m i = Some x → em_numEncryptionMappings m ≤ i →
    Type_ (mp_address x) = AddressNone;
  ew_keys i x : em_at m i = Some x →
    length (mp_sendKey x) = KeyBytes ∧ length (mp_receiveKey x) = KeyBytes;
}.

Lemma em_at_range m i x : em_shape m → em_at m i = Some x → 0 ≤ i < maxEncryptionMappings.
Proof.
  intros Hs. unfold em_at. destruct (aget (em_timeout m) i) eqn:He; [|done]. intros _.
  apply aget_range in He. rewrite (es_timeout _ Hs) in He. unfold num_mappings in He. clia.
Qed.
Lemma em_at_Some m i : em_shape m → 0 ≤ i < maxEncryptionMappings → ∃ x, em_at m i = Some x.
Proof.
  intros [] Hi. unfold em_at.
  repeat match goal with
  | H : length ?l = num_mappings |- context [aget ?l i] =>
      destruct (aget_Some l i) as [? ->];
      [rewrite H; unfold num_mappings; clia|]; cbn [mbind option_bind]
  end. eauto.
Qed.
(** The fields of a mapping are what the arrays hold. *)
Lemma em_at_inv m i x :
  em_at m i = Some x →
  aget (em_timeout m) i = Some (mp_timeout x) ∧ aget (em_expireTime m) i = Some (mp_expireTime x) ∧
  aget (em_lastAccessTime m) i = Some (mp_lastAccessTime x) ∧
  aget (em_address m) i = Some (mp_address x) ∧ aget (em_clientIndex m) i = Some (mp_clientIndex x) ∧
  aget (em_connectTokenEntryIndex m) i = Some (mp_connectTokenEntryIndex x) ∧
  aget (em_sendKey m) i = Some (mp_sendKey x) ∧ aget (em_receiveKey m) i = Some (mp_receiveKey x).
Proof.
  unfold em_at. intros H.
  repeat match type of H with
  | context [aget ?l i] => destruct (aget l i); [cbn [mbind option_bind] in H|done]
  end. injection H as <-. by split_and!.
Qed.

Lemma em_shape_reset : em_shape EncryptionManager.reset.
Proof. split; apply length_replicate. Qed.
Lemma em_wf_reset : em_wf EncryptionManager.reset.
Proof.
  split; [apply em_shape_reset|simpl; clia|..]; intros i x Hx;
    destruct (em_at_inv _ _ _ Hx) as (_ & _ & _ & Ha & _ & _ & Hk1 & Hk2);
    apply aget_replicate_inv in Ha, Hk1, Hk2; by rewrite ?Ha, ?Hk1, ?Hk2.
Qed.

Section em_reads.
Context (m : encryptionManager) (i : Z) (x : mapping) (Hx : em_at m i = Some x).
Lemma entryExpired_spec time : EncryptionManager.entryExpired i time m = Some (expired x time, m).
Proof.
  destruct (em_at_inv _ _ _ Hx) as (H1 & H2 & H3 & _).
  unfold EncryptionManager.entryExpired, aread, mbind, M_bind.
  rewrite H1. cbn [mbind option_bind]. rewrite H3. cbn [mbind option_bind]. by rewrite H2.
Qed.
Lemma matches_spec address time :
  EncryptionManager.matches address time i m = Some (live_for x address time, m).
Proof.
  destruct (em_at_inv _ _ _ Hx) as (_ & _ & _ & Ha & _).
  unfold EncryptionManager.matches, live_for, aread, mbind, M_bind. rewrite Ha. cbn [mbind option_bind].
  destruct (Equal (mp_address x) address); [|done]. by rewrite entryExpired_spec.
Qed.
Lemma available_spec time : EncryptionManager.available time i m = Some (free_slot x time, m).
Proof.
  destruct (em_at_inv _ _ _ Hx) as (_ & _ & _ & Ha & Hc & _).
  unfold EncryptionManager.available, free_slot, aread, mbind, M_bind. rewrite Ha.
  cbn [mbind option_bind]. destruct (Type_ (mp_address x) =? AddressNone); [done|].
  rewrite entryExpired_spec. cbn [mbind option_bind]. destruct (expired x time); [|done]. by rewrite Hc.
Qed.
Lemma getSendKey_spec : EncryptionManager.getSendKey i m = Some (Some (mp_sendKey x), m).
Proof.
  destruct (em_at_inv _ _ _ Hx) as (Ht & _ & _ & _ & _ & _ & H & _). apply aget_range in Ht.
  unfold EncryptionManager.getSendKey, aread, mbind, M_bind.
  destruct (Z.eqb_spec i (-1)); [lia|]. by rewrite H.
Qed.
Lemma getReceiveKey_spec : EncryptionManager.getReceiveKey i m = Some (Some (mp_receiveKey x), m).
Proof.
  destruct (em_at_inv _ _ _ Hx) as (Ht & _ & _ & _ & _ & _ & _ & H). apply aget_range in Ht.
  unfold EncryptionManager.getReceiveKey, aread, mbind, M_bind.
  destruct (Z.eqb_spec i (-1)); [lia|]. by rewrite H.
Qed.
Lemma getTimeout_spec : EncryptionManager.getTimeout i m = Some (mp_timeout x, m).
Proof.
  destruct (em_at_inv _ _ _ Hx) as (H & _). pose proof (aget_range _ _ _ H).
  unfold EncryptionManager.getTimeout, aread. destruct (Z.eqb_spec i (-1)); [lia|]. by rewrite H.
Qed.
Lemma getConnectTokenEntryIndex_spec :
  EncryptionManager.getConnectTokenEntryIndex i m = Some (mp_connectTokenEntryIndex x, m).
Proof.
  destruct (em_at_inv _ _ _ Hx) as (_ & _ & _ & _ & _ & H & _). pose proof (aget_range _ _ _ H).
  unfold EncryptionManager.getConnectTokenEntryIndex, aread.
  destruct (Z.eqb_spec i (-1)); [lia|]. by rewrite H.
Qed.
End em_reads.

(** A test of mapping [i], as a function of the index. *)
Definition test_at (m : encryptionManager) (f : mapping → bool) (i : Z) : bool :=
  match em_at m i with Some x => f x | None => false end.
Lemma first_at m (test : Z → M encryptionManager bool) f lo n :
  em_shape m → 0 ≤ lo → lo + n ≤ maxEncryptionMappings →
  (∀ i x, em_at m i = Some x → test i m = Some (f x, m)) →
  first_ (seqZ lo n) test m = Some (List.find (test_at m f) (seqZ lo n), m).
Proof.
  intros Hs Hlo Hn Ht. apply first_spec. intros i [??]%elem_of_seqZ.
  destruct (em_at_Some m i Hs) as [x Hx]; [lia|]. unfold test_at. rewrite Hx. by apply Ht.
Qed.

(** ** Writes to one mapping *)
Record updated (m : encryptionManager) (i : Z) (x : mapping) (m' : encryptionManager) : Prop := {
  up_shape : em_shape m';
  up_at j : em_at m' j = if decide (i = j) then Some x else em_at m j;
}.
Lemma updated_wf m i x m' num :
  em_wf m → updated m i x m' → em_numEncryptionMappings m' = num →
  0 ≤ num ≤ maxEncryptionMappings →
  length (mp_sendKey x) = KeyBytes → length (mp_receiveKey x) = KeyBytes →
  (∀ j y, em_at m' j = Some y → num ≤ j → Type_ (mp_address y) = AddressNone) →
  em_wf m'.
Proof.
  intros Hwf [Hs Hat] <- Hnum H1 H2 Hunused. split; try done.
  intros j y. rewrite Hat. case_decide; [intros [= <-]; done|apply (ew_keys _ Hwf)].
Qed.

Ltac em_lengths :=
  simpl; rewrite ?length_ainsert;
  repeat match goal with H : length _ = num_mappings |- _ => rewrite H; clear H end;
  unfold num_mappings; clia.
(** Run one array write. *)
Ltac em_write := first [apply wp_bind; apply wp_awrite; [em_lengths|] | apply wp_awrite; [em_lengths|]].
(** Discharge [updated] for the state a block of writes leaves. *)
Ltac em_updated Hat :=
  split;
  [ split; simpl; rewrite ?length_ainsert; assumption
  | let j := fresh "j" in intros j; unfold em_at; simpl;
    rewrite ?aget_ainsert by em_lengths;
    destruct (decide _) as [<-|];
    [ rewrite ?(proj1 Hat), ?(proj1 (proj2 Hat)), ?(proj1 (proj2 (proj2 Hat))),
        ?(proj1 (proj2 (proj2 (proj2 Hat)))), ?(proj1 (proj2 (proj2 (proj2 (proj2 Hat))))),
        ?(proj1 (proj2 (proj2 (proj2 (proj2 (proj2 Hat)))))),
        ?(proj1 (proj2 (proj2 (proj2 (proj2 (proj2 (proj2 Hat))))))),
        ?(proj2 (proj2 (proj2 (proj2 (proj2 (proj2 (proj2 Hat)))))));
      reflexivity
    | reflexivity ] ].

Section em_writes.
Context (m : encryptionManager) (i : Z) (x : mapping).
Context (Hs : em_shape m) (Hx : em_at m i = Some x).

Lemma copyKeys_full (old key : list byte) :
  length old = length key → go_copy old key = key.
Proof. intros H. unfold go_copy. rewrite take_ge by lia. by apply splice_full. Qed.

Definition with_keys (timeout : Z) (expireTime time : float64) (address : Address) (entryIndex : Z)
  (sendKey receiveKey : list byte) : mapping :=
  mkMapping timeout expireTime time address (mp_clientIndex x) entryIndex sendKey receiveKey.

Lemma write_live timeout expireTime time entryIndex sendKey receiveKey :
  length sendKey = KeyBytes → length receiveKey = KeyBytes →
  length (mp_sendKey x) = KeyBytes → length (mp_receiveKey x) = KeyBytes →
  wp (awrite em_timeout i timeout;; awrite em_expireTime i expireTime;;
      awrite em_lastAccessTime i time;; awrite em_connectTokenEntryIndex i entryIndex;;
      EncryptionManager.copyKeys i sendKey receiveKey;; mret true)
    (λ b m', b = true ∧ em_numEncryptionMappings m' = em_numEncryptionMappings m ∧
       updated m i (with_keys timeout expireTime time (mp_address x) entryIndex sendKey receiveKey) m') m.
Proof.
  intros H1 H2 H3 H4. pose proof (em_at_range _ _ _ Hs Hx) as Hi.
  pose proof (em_at_inv _ _ _ Hx) as Hat. destruct Hs as [].
  do 4 em_write. apply wp_bind. unfold EncryptionManager.copyKeys.
  apply wp_bind. eapply wp_aread; [simpl; apply Hat|]. em_write.
  apply wp_bind. eapply wp_aread; [simpl; apply Hat|]. em_write.
  rewrite !copyKeys_full by congruence. apply wp_ret. split_and!; [done..|].
  unfold with_keys. em_updated Hat.
Qed.

Lemma write_slot timeout address expireTime time entryIndex sendKey receiveKey :
  length sendKey = KeyBytes → length receiveKey = KeyBytes →
  length (mp_sendKey x) = KeyBytes → length (mp_receiveKey x) = KeyBytes →
  wp (awrite em_timeout i timeout;; awrite em_address i address;; awrite em_expireTime i expireTime;;
      awrite em_lastAccessTime i time;; awrite em_connectTokenEntryIndex i entryIndex;;
      EncryptionManager.copyKeys i sendKey receiveKey;;
      num ← gets em_numEncryptionMappings;
      (if i + 1 >? num then modify (set em_numEncryptionMappings (λ _, i + 1)) else mret tt);;
      mret true)
    (λ b m', b = true ∧ em_numEncryptionMappings m' = Z.max (i + 1) (em_numEncryptionMappings m) ∧
       updated m i (with_keys timeout expireTime time address entryIndex sendKey receiveKey) m') m.
Proof.
  intros H1 H2 H3 H4. pose proof (em_at_range _ _ _ Hs Hx) as Hi.
  pose proof (em_at_inv _ _ _ Hx) as Hat. destruct Hs as [].
  do 5 em_write. apply wp_bind. unfold EncryptionManager.copyKeys.
  apply wp_bind. eapply wp_aread; [simpl; apply Hat|]. em_write.
  apply wp_bind. eapply wp_aread; [simpl; apply Hat|]. em_write.
  rewrite !copyKeys_full by congruence.
  apply wp_bind, wp_gets, wp_bind. simpl em_numEncryptionMappings. rewrite Z.gtb_ltb.
  destruct (Z.ltb_spec (em_numEncryptionMappings m) (i + 1)).
  - apply wp_modify, wp_ret. split_and!; [done|simpl; lia|]. unfold with_keys. em_updated Hat.
  - apply wp_ret, wp_ret. split_and!; [done|simpl; lia|]. unfold with_keys. em_updated Hat.
Qed.

Lemma write_removed :
  wp (EncryptionManager.clearMapping i)
    (λ _ m', em_numEncryptionMappings m' = em_numEncryptionMappings m ∧
       updated m i (mkMapping (mp_timeout x) f64_m1 f64_m1000 zeroAddress (mp_clientIndex x) (-1)
                      (zeros KeyBytes) (zeros KeyBytes)) m') m.
Proof.
  pose proof (em_at_range _ _ _ Hs Hx) as Hi.
  pose proof (em_at_inv _ _ _ Hx) as Hat. destruct Hs as [].
  unfold EncryptionManager.clearMapping. do 6 em_write. split; [done|]. em_updated Hat.
Qed.

(** A write to one array. *)
Lemma write_lastAccessTime time :
  wp (awrite em_lastAccessTime i time)
    (λ _ m', (em_numEncryptionMappings m' = em_numEncryptionMappings m ∧
       updated m i (x <| mp_lastAccessTime := time |>) m') ∧
       m' = m <| em_lastAccessTime := ainsert i time (em_lastAccessTime m) |>) m.
Proof.
  pose proof (em_at_range _ _ _ Hs Hx) as Hi.
  pose proof (em_at_inv _ _ _ Hx) as Hat. destruct Hs as [].
  em_write. split; [|done]. split; [done|]. em_updated Hat.
Qed.
Lemma write_expireTime expireTime :
  wp (awrite em_expireTime i expireTime)
    (λ _ m', em_numEncryptionMappings m' = em_numEncryptionMappings m ∧
       updated m i (x <| mp_expireTime := expireTime |>) m') m.
Proof.
  pose proof (em_at_range _ _ _ Hs Hx) as Hi.
  pose proof (em_at_inv _ _ _ Hx) as Hat. destruct Hs as [].
  em_write. split; [done|]. em_updated Hat.
Qed.
Lemma write_address address :
  wp (awrite em_address i address)
    (λ _ m', em_numEncryptionMappings m' = em_numEncryptionMappings m ∧
       updated m i (x <| mp_address := address |>) m') m.
Proof.
  pose proof (em_at_range _ _ _ Hs Hx) as Hi.
  pose proof (em_at_inv _ _ _ Hx) as Hat. destruct Hs as [].
  em_write. split; [done|]. em_updated Hat.
Qed.
Lemma write_clientIndex clientIndex :
  wp (awrite em_clientIndex i clientIndex)
    (λ _ m', em_numEncryptionMappings m' = em_numEncryptionMappings m ∧
       updated m i (x <| mp_clientIndex := clientIndex |>) m') m.
Proof.
  pose proof (em_at_range _ _ _ Hs Hx) as Hi.
  pose proof (em_at_inv _ _ _ Hx) as Hat. destruct Hs as [].
  em_write. split; [done|]. em_updated Hat.
Qed.
End em_writes.

Lemma test_at_true m f i : test_at m f i = true → ∃ x, em_at m i = Some x ∧ f x = true.
Proof. unfold test_at. destruct (em_at m i); eauto. done. Qed.
Lemma test_at_false m f i x : test_at m f i = false → em_at m i = Some x → f x = false.
Proof. unfold test_at. intros H Hx. by rewrite Hx in H. Qed.
Lemma live_for_none x address time : Type_ (mp_address x) = AddressNone → live_for x address time = false.
Proof.
  intros Hn. unfold live_for. destruct (Equal (mp_address x) address) eqn:He; [|done].
  apply Equal_not_none in He as [He _]. done.
Qed.
(** When no mapping in use is live for the address, none is. *)
Lemma none_live m address time :
  em_wf m →
  List.find (test_at m (λ x, live_for x address time)) (seqZ 0 (em_numEncryptionMappings m)) = None →
  ∀ i x, em_at m i = Some x → live_for x address time = false.
Proof.
  intros Hwf Hf i x Hx. pose proof (em_at_range _ _ _ (ew_shape _ Hwf) Hx).
  destruct (decide (i < em_numEncryptionMappings m)).
  - apply (test_at_false m (λ x, live_for x address time) i x); [|done]. eapply find_seqZ_None; [done|lia].
  - apply live_for_none. eapply ew_unused; [done..|lia].
Qed.

(** ** addEncryptionMapping *)

(** Slot [i] now holds the mapping; it held a live mapping of the same address
    or was free to take, and no other slot changed. *)
Record added (m : encryptionManager) (address : Address) (sendKey receiveKey : list byte)
  (time expireTime : float64) (timeout entryIndex : Z) (i : Z) (m' : encryptionManager) : Prop := {
  ad_wf : em_wf m';
  ad_range : 0 ≤ i < em_numEncryptionMappings m';
  ad_old : ∃ x a, em_at m i = Some x ∧
    em_at m' i = Some (mkMapping timeout expireTime time a (mp_clientIndex x) entryIndex sendKey receiveKey) ∧
    ((live_for x address time = true ∧ a = mp_address x) ∨ (free_slot x time = true ∧ a = address));
  ad_frame j : j ≠ i → em_at m' j = em_at m j;
  ad_num : em_numEncryptionMappings m ≤ em_numEncryptionMappings m';
  ad_first j x : 0 ≤ j < i → em_at m j = Some x → live_for x address time = false;
}.

Lemma add_spec m address sendKey receiveKey time expireTime timeout entryIndex :
  em_wf m → length sendKey = KeyBytes → length receiveKey = KeyBytes →
  ∃ b m', EncryptionManager.addEncryptionMapping address sendKey receiveKey time expireTime timeout
            entryIndex m = Some (b, m') ∧
    if (b : bool) then ∃ i, added m address sendKey receiveKey time expireTime timeout entryIndex i m'
    else m' = m ∧ ∀ i x, em_at m i = Some x → live_for x address time = false ∧ free_slot x time = false.
Proof.
  intros Hwf Hk1 Hk2. pose proof (ew_shape _ Hwf) as Hs. pose proof (ew_num _ Hwf) as Hnum.
  enough (wp (EncryptionManager.addEncryptionMapping address sendKey receiveKey time expireTime timeout
                entryIndex)
    (λ b m', if (b : bool)
       then ∃ i, added m address sendKey receiveKey time expireTime timeout entryIndex i m'
       else m' = m ∧ ∀ i x, em_at m i = Some x →
              live_for x address time = false ∧ free_slot x time = false) m) as H
    by (apply wp_inv in H as (b & m' & ? & ?); eauto).
  unfold EncryptionManager.addEncryptionMapping. apply wp_bind, wp_gets, wp_bind.
  eapply wp_run.
  { apply (first_at m _ (λ x, live_for x address time)); [done|lia|lia|].
    intros i x Hx. by apply matches_spec. }
  destruct (List.find _ _) as [i|] eqn:Hfind.
  - apply find_seqZ_Some in Hfind as (Hi & (x & Hx & Hlive)%test_at_true & Hfirst).
    destruct (ew_keys _ Hwf _ _ Hx) as [Hl1 Hl2].
    eapply wp_mono; [by apply (write_live m i x)|]. intros b m' (-> & Hn & Hup).
    exists i. split.
    + eapply (updated_wf m i _ m' _ Hwf Hup Hn); try done.
      intros j y. rewrite (up_at _ _ _ _ Hup). case_decide; [lia|]. apply (ew_unused _ Hwf).
    + lia.
    + exists x, (mp_address x). rewrite (up_at _ _ _ _ Hup), decide_True by done. eauto.
    + intros j Hj. by rewrite (up_at _ _ _ _ Hup), decide_False.
    + lia.
    + intros j y Hj Hy. apply (test_at_false m (λ x, live_for x address time) j y); [|done]. apply Hfirst. lia.
  - apply wp_bind. eapply wp_run.
    { apply (first_at m _ (λ x, free_slot x time)); [done|lia|lia|].
      intros i x Hx. by apply available_spec. }
    destruct (List.find (test_at m (λ x, free_slot x time)) _) as [i|] eqn:Hfree.
    + apply find_seqZ_Some in Hfree as (Hi & (x & Hx & Hslot)%test_at_true & _).
      destruct (ew_keys _ Hwf _ _ Hx) as [Hl1 Hl2].
      eapply wp_mono; [by apply (write_slot m i x)|]. intros b m' (-> & Hn & Hup).
      exists i. split.
      * eapply (updated_wf m i _ m' _ Hwf Hup Hn); try done; [lia|].
        intros j y. rewrite (up_at _ _ _ _ Hup). case_decide; [lia|].
        intros Hy Hj. apply (ew_unused _ Hwf j y Hy). lia.
      * lia.
      * exists x, address. rewrite (up_at _ _ _ _ Hup), decide_True by done. eauto.
      * intros j Hj. by rewrite (up_at _ _ _ _ Hup), decide_False.
      * lia.
      * intros j y _ Hy. by eapply none_live.
    + apply wp_ret. split; [done|]. intros i x Hx. split; [by eapply none_live|].
      apply (test_at_false m (λ x, free_slot x time) i x); [|done].
      eapply find_seqZ_None; [done|]. pose proof (em_at_range _ _ _ Hs Hx). lia.
Qed.

(** ** removeEncryptionMapping *)

(** A mapping the manager may forget: expired and not owned by a client. *)
Definition forgotten (y y' : mapping) (time : float64) : Prop :=
  expired y time = true ∧ mp_clientIndex y = -1 ∧
  y' = y <| mp_address := (mp_address y) <| Type_ := AddressNone |> |>.

Record trimmed (m : encryptionManager) (n : nat) (time : float64) (num : Z) (m' : encryptionManager)
  : Prop := {
  tr_shape : em_shape m';
  tr_num : 0 ≤ num ≤ Z.of_nat n;
  tr_same : em_numEncryptionMappings m' = em_numEncryptionMappings m;
  tr_kept j : j < num ∨ Z.of_nat n ≤ j → em_at m' j = em_at m j;
  tr_dropped j y : em_at m j = Some y → num ≤ j < Z.of_nat n →
    ∃ y', em_at m' j = Some y' ∧ forgotten y y' time;
}.

Lemma trim_spec n time m :
  em_shape m → Z.of_nat n ≤ maxEncryptionMappings →
  wp (EncryptionManager.trim n time) (trimmed m n time) m.
Proof.
  revert m. induction n as [|k IH]; intros m Hs Hn; cbn [EncryptionManager.trim].
  { apply wp_ret. split; try done; lia. }
  destruct (em_at_Some m (Z.of_nat k) Hs) as [x Hx]; [lia|].
  apply wp_bind. eapply wp_run; [by apply entryExpired_spec|].
  destruct (em_at_inv _ _ _ Hx) as (_ & _ & _ & Ha & Hc & _).
  apply wp_bind. eapply wp_aread; [done|].
  destruct (expired x time) eqn:Hex; cbn [negb orb]; [|apply wp_ret; split; try done; lia].
  destruct (Z.eqb_spec (mp_clientIndex x) (-1)) as [Hci|]; cbn [negb orb];
    [|apply wp_ret; split; try done; lia].
  apply wp_bind. eapply wp_aread; [done|]. apply wp_bind.
  eapply wp_mono; [by apply (write_address m (Z.of_nat k) x)|]. intros _ m1 [Hn1 Hup].
  eapply wp_mono; [apply IH; [apply Hup|lia]|].
  intros num m2 [Hs2 Hr2 Hn2 Hk2 Hd2]. split; [done|lia|congruence|..].
  - intros j Hj. rewrite Hk2 by lia. by rewrite (up_at _ _ _ _ Hup), decide_False by lia.
  - intros j y Hy Hj. destruct (decide (j = Z.of_nat k)) as [->|].
    + rewrite Hx in Hy. injection Hy as <-. eexists. split; [|done].
      rewrite Hk2 by lia. by rewrite (up_at _ _ _ _ Hup), decide_True.
    + apply Hd2; [|lia]. by rewrite (up_at _ _ _ _ Hup), decide_False by lia.
Qed.

(** Mapping [i] is erased; every other mapping keeps its slot unless the
    manager may forget it. *)
Record removed (m : encryptionManager) (address : Address) (time : float64) (i : Z)
  (m' : encryptionManager) : Prop := {
  rm_wf : em_wf m';
  rm_old : ∃ x, em_at m i = Some x ∧ Equal (mp_address x) address = true ∧
    em_at m' i = Some (mkMapping (mp_timeout x) f64_m1 f64_m1000 zeroAddress (mp_clientIndex x) (-1)
                         (zeros KeyBytes) (zeros KeyBytes));
  rm_frame j y : em_at m j = Some y → j ≠ i →
    em_at m' j = Some y ∧
      (j < em_numEncryptionMappings m → j < em_numEncryptionMappings m') ∨
    ∃ y', em_at m' j = Some y' ∧ forgotten y y' time;
}.

Definition erasedMapping (x : mapping) : mapping :=
  mkMapping (mp_timeout x) f64_m1 f64_m1000 zeroAddress (mp_clientIndex x) (-1)
    (zeros KeyBytes) (zeros KeyBytes).

Lemma removed_top m address time i x m1 num m2 :
  em_wf m → em_at m i = Some x → Equal (mp_address x) address = true → 0 ≤ i →
  i + 1 = em_numEncryptionMappings m →
  updated m i (erasedMapping x) m1 → trimmed m1 (Z.to_nat i) time num m2 →
  removed m address time i (m2 <| em_numEncryptionMappings := num |>).
Proof.
  intros Hwf Hx Heq Hi Htop Hup [Hs2 Hnum Hn2 Hkept Hdrop]. rewrite Z2Nat.id in * by done.
  pose proof (ew_num _ Hwf) as Hr.
  assert (∀ j, em_at (m2 <| em_numEncryptionMappings := num |>) j = em_at m2 j) as Hat by done.
  assert (em_at m2 i = Some (erasedMapping x)) as Hi2
    by (rewrite Hkept by lia; by rewrite (up_at _ _ _ _ Hup), decide_True).
  assert (∀ j y, em_at m j = Some y → j ≠ i →
    em_at m2 j = Some y ∧ (j < num ∨ i < j) ∨
    ∃ y', em_at m2 j = Some y' ∧ forgotten y y' time ∧ num ≤ j < i) as Hcases.
  { intros j y Hy Hj. assert (em_at m1 j = Some y) as Hy1
      by (by rewrite (up_at _ _ _ _ Hup), decide_False).
    destruct (decide (num ≤ j < i)) as [Hd|Hd].
    - right. destruct (Hdrop j y Hy1 Hd) as (y' & ? & ?). eauto.
    - left. rewrite Hkept by lia. split; [done|lia]. }
  split.
  - split; [by destruct Hs2; split|simpl; lia|..]; intros j y'; rewrite Hat; intros Hy';
      (destruct (decide (j = i)) as [->|Hj]; [rewrite Hi2 in Hy'; by injection Hy' as <-|]);
      (destruct (em_at_Some m j) as [y Hy]; [apply Hwf|by eapply em_at_range|]);
      destruct (Hcases j y Hy Hj) as [[Hk Hlt]|(y2 & Hk & (_ & _ & ->) & _)];
      rewrite Hk in Hy'; injection Hy' as <-.
    + simpl. intros Hle. eapply (ew_unused _ Hwf); [done|lia].
    + done.
    + by apply (ew_keys _ Hwf j).
    + simpl. by apply (ew_keys _ Hwf j).
  - by exists x.
  - intros j y Hy Hj. rewrite Hat. simpl.
    destruct (Hcases j y Hy Hj) as [[Hk Hlt]|(y2 & Hk & Hf & _)]; [left|right; by exists y2].
    split; [done|lia].
Qed.

Lemma remove_spec m address time :
  em_wf m →
  ∃ b m', EncryptionManager.removeEncryptionMapping address time m = Some (b, m') ∧
    if (b : bool) then ∃ i, removed m address time i m'
    else m' = m ∧ ∀ i x, em_at m i = Some x → Equal (mp_address x) address = false.
Proof.
  intros Hwf. pose proof (ew_shape _ Hwf) as Hs. pose proof (ew_num _ Hwf) as Hnum.
  enough (wp (EncryptionManager.removeEncryptionMapping address time)
    (λ b m', if (b : bool) then ∃ i, removed m address time i m'
       else m' = m ∧ ∀ i x, em_at m i = Some x → Equal (mp_address x) address = false) m) as H
    by (apply wp_inv in H as (b & m' & ? & ?); eauto).
  unfold EncryptionManager.removeEncryptionMapping. apply wp_bind, wp_gets, wp_bind.
  eapply wp_run.
  { apply (first_at m _ (λ x, Equal (mp_address x) address)); [done|lia|lia|].
    intros i x Hx. destruct (em_at_inv _ _ _ Hx) as (_ & _ & _ & Ha & _).
    unfold aread, mbind, M_bind. by rewrite Ha. }
  destruct (List.find _ _) as [i|] eqn:Hfind.
  - apply find_seqZ_Some in Hfind as (Hi & (x & Hx & Heq)%test_at_true & _).
    apply wp_bind. eapply wp_mono; [by apply (write_removed m i x)|]. intros _ m1 [Hn1 Hup].
    apply wp_bind.
    destruct (Z.eqb_spec (i + 1) (em_numEncryptionMappings m)) as [Htop|Htop].
    + apply wp_bind. eapply wp_mono; [apply trim_spec; [apply Hup|lia]|].
      intros num m2 Htr. apply wp_modify, wp_ret.
      exists i. apply (removed_top m address time i x m1); [done..|lia|done|done|done].
    + apply wp_ret, wp_ret. exists i. split.
      * eapply (updated_wf m i _ m1 _ Hwf Hup Hn1); try done.
        intros j y. rewrite (up_at _ _ _ _ Hup). case_decide; [by intros [= <-]|apply (ew_unused _ Hwf)].
      * exists x. by rewrite (up_at _ _ _ _ Hup), decide_True.
      * intros j y Hy Hj. left. rewrite (up_at _ _ _ _ Hup), decide_False, Hn1 by done. done.
  - apply wp_ret. split; [done|]. intros i x Hx.
    pose proof (em_at_range _ _ _ Hs Hx). destruct (decide (i < em_numEncryptionMappings m)).
    + apply (test_at_false m (λ x, Equal (mp_address x) address) i x); [|done].
      eapply find_seqZ_None; [done|lia].
    + destruct (Equal (mp_address x) address) eqn:He; [|done]. apply Equal_not_none in He as [He _].
      destruct He. eapply ew_unused; [done..|lia].
Qed.

(** ** findEncryptionMapping and touch *)
Lemma updated_same_wf m i x y m' :
  em_wf m → em_at m i = Some x → updated m i y m' →
  em_numEncryptionMappings m' = em_numEncryptionMappings m →
  mp_sendKey y = mp_sendKey x → mp_receiveKey y = mp_receiveKey x →
  (i < em_numEncryptionMappings m ∨ mp_address y = mp_address x) →
  em_wf m'.
Proof.
  intros Hwf Hx Hup Hn H1 H2 Ha. destruct (ew_keys _ Hwf _ _ Hx).
  eapply (updated_wf m i _ m' _ Hwf Hup Hn); [apply Hwf|congruence..|].
  intros j z. rewrite (up_at _ _ _ _ Hup). case_decide as Hj; [|apply (ew_unused _ Hwf)].
  intros [= <-] Hle. subst j. destruct Ha as [|Ha]; [lia|]. rewrite Ha.
  by eapply (ew_unused _ Hwf).
Qed.

Record found (m : encryptionManager) (address : Address) (time : float64) (i : Z)
  (m' : encryptionManager) : Prop := {
  fd_range : 0 ≤ i < em_numEncryptionMappings m;
  fd_at : ∃ x, em_at m i = Some x ∧ live_for x address time = true ∧
    updated m i (x <| mp_lastAccessTime := time |>) m';
  fd_first j x : 0 ≤ j < i → em_at m j = Some x → live_for x address time = false;
  fd_num : em_numEncryptionMappings m' = em_numEncryptionMappings m;
  fd_wf : em_wf m';
  fd_exact : m' = m <| em_lastAccessTime := ainsert i time (em_lastAccessTime m) |>;
}.

Lemma find_spec m address time :
  em_wf m →
  ∃ i m', EncryptionManager.findEncryptionMapping address time m = Some (i, m') ∧
    ((i = -1 ∧ m' = m ∧ ∀ j x, em_at m j = Some x → live_for x address time = false) ∨
     found m address time i m').
Proof.
  intros Hwf. pose proof (ew_shape _ Hwf) as Hs. pose proof (ew_num _ Hwf) as Hnum.
  enough (wp (EncryptionManager.findEncryptionMapping address time)
    (λ i m', (i = -1 ∧ m' = m ∧ ∀ j x, em_at m j = Some x → live_for x address time = false) ∨
     found m address time i m') m) as H
    by (apply wp_inv in H as (i & m' & ? & ?); eauto).
  unfold EncryptionManager.findEncryptionMapping. apply wp_bind, wp_gets, wp_bind.
  eapply wp_run.
  { apply (first_at m _ (λ x, live_for x address time)); [done|lia|lia|].
    intros i x Hx. by apply matches_spec. }
  destruct (List.find _ _) as [i|] eqn:Hfind.
  - apply find_seqZ_Some in Hfind as (Hi & (x & Hx & Hlive)%test_at_true & Hfirst).
    apply wp_bind. eapply wp_mono; [by apply (write_lastAccessTime m i x)|].
    intros _ m' [[Hn Hup] Heq]. apply wp_ret. right. split; [lia|by exists x| |done| |done].
    + intros j y Hj Hy. apply (test_at_false m (λ x, live_for x address time) j y); [|done].
      apply Hfirst. lia.
    + eapply (updated_same_wf m i x); try done. left. lia.
  - apply wp_ret. left. split_and!; [done..|]. intros j x. by eapply none_live.
Qed.
(** The search finds the first live mapping. *)
Lemma find_live m address time i x :
  em_wf m → em_at m i = Some x → live_for x address time = true →
  (∀ j y, 0 ≤ j < i → em_at m j = Some y → live_for y address time = false) →
  ∃ m', EncryptionManager.findEncryptionMapping address time m = Some (i, m') ∧
    found m address time i m'.
Proof.
  intros Hwf Hx Hlive Hfirst.
  destruct (find_spec m address time Hwf) as (k & m' & Hf & [(-> & _ & Hnone)|Hfd]).
  { by rewrite (Hnone i x) in Hlive. }
  destruct (fd_at _ _ _ _ _ Hfd) as (y & Hy & Hl & _). pose proof (fd_range _ _ _ _ _ Hfd).
  assert (k = i) as ->; [|eauto].
  pose proof (em_at_range _ _ _ (ew_shape _ Hwf) Hx).
  destruct (decide (k < i)); [by rewrite (Hfirst k y) in Hl by (done || lia)|].
  destruct (decide (i < k)); [|lia].
  by rewrite (fd_first _ _ _ _ _ Hfd i x) in Hlive by (done || lia).
Qed.

Lemma touch_spec m i x address time :
  em_wf m → em_at m i = Some x →
  ∃ m', EncryptionManager.touch i address time m = Some (Equal (mp_address x) address, m') ∧ em_wf m' ∧
    em_numEncryptionMappings m' = em_numEncryptionMappings m ∧
    if Equal (mp_address x) address then updated m i (x <| mp_lastAccessTime := time |>) m' else m' = m.
Proof.
  intros Hwf Hx. destruct (em_at_inv _ _ _ Hx) as (_ & _ & _ & Ha & _).
  unfold EncryptionManager.touch, mbind at 1, M_bind at 1, aread. rewrite Ha. cbn [mbind option_bind].
  destruct (Equal (mp_address x) address); cbn [negb]; [|by exists m].
  pose proof (write_lastAccessTime m i x (ew_shape _ Hwf) Hx time) as H.
  apply wp_inv in H as ([] & m' & Hw & [Hn Hup] & _).
  unfold mbind, M_bind. rewrite Hw. cbn [mbind option_bind]. exists m'. split_and!; try done.
  eapply (updated_same_wf m i x); try done. by right.
Qed.

(** ** The claims *)

(** The mapping that addEncryptionMapping stores is not already expired. *)
Definition not_yet_expired (time expireTime : float64) (timeout : Z) : Prop :=
  (timeout >? 0) && f64_ltb (f64_add time (f64_of_Z timeout)) time = false ∧
  f64_leb f64_0 expireTime && f64_ltb expireTime time = false.

(** Functional: after addEncryptionMapping succeeds for an IPv4 or IPv6
    address, a lookup of that address at the same time finds exactly the keys
    and the connect token entry that were stored, unless the mapping was
    stored already expired. *)
Theorem add_then_find (m m' : encryptionManager) (address : Address) (sendKey receiveKey : list byte)
  (time expireTime : float64) (timeout entryIndex : Z)
  (Hwf : em_wf m) (Hk1 : length sendKey = KeyBytes) (Hk2 : length receiveKey = KeyBytes)
  (Ha : Equal address address = true) (Hex : not_yet_expired time expireTime timeout)
  (Hadd : EncryptionManager.addEncryptionMapping address sendKey receiveKey time expireTime timeout
            entryIndex m = Some (true, m')) :
  ∃ i m'', (i ← EncryptionManager.findEncryptionMapping address time;
            k1 ← EncryptionManager.getSendKey i;
            k2 ← EncryptionManager.getReceiveKey i;
            e ← EncryptionManager.getConnectTokenEntryIndex i;
            t ← EncryptionManager.getTimeout i;
            mret (i, k1, k2, e, t)) m' =
    Some ((i, Some sendKey, Some receiveKey, entryIndex, timeout), m'').
Proof.
  destruct (add_spec m address sendKey receiveKey time expireTime timeout entryIndex Hwf Hk1 Hk2)
    as (b & m1 & Hadd' & Hb). rewrite Hadd in Hadd'. injection Hadd' as <- <-.
  destruct Hb as [i [Hwf' Hr (x & a & Hx & Hnew & Hcase) Hframe Hnum Hfirst]].
  assert (Equal a address = true) as Haa.
  { destruct Hcase as [[Hl ->]|[_ ->]]; [|done]. by apply andb_true_iff in Hl as [? _]. }
  edestruct (find_live m' address time i) as (m'' & Hf & Hfd); [done|done|..].
  { unfold live_for. simpl. rewrite Haa. destruct Hex as [He1 He2].
    unfold expired. simpl. by rewrite He1, He2. }
  { intros j y Hj Hy. rewrite Hframe in Hy by lia. by eapply Hfirst. }
  exists i, m''. destruct (fd_at _ _ _ _ _ Hfd) as (y & Hy & _ & Hup).
  rewrite Hnew in Hy. injection Hy as <-.
  pose proof (up_at _ _ _ _ Hup i) as Hat. rewrite decide_True in Hat by done.
  enough (wp (i ← EncryptionManager.findEncryptionMapping address time;
              k1 ← EncryptionManager.getSendKey i; k2 ← EncryptionManager.getReceiveKey i;
              e ← EncryptionManager.getConnectTokenEntryIndex i;
              t ← EncryptionManager.getTimeout i; mret (i, k1, k2, e, t))
            (λ r s, r = (i, Some sendKey, Some receiveKey, entryIndex, timeout) ∧ s = m'') m') as Hwp
    by (apply wp_inv in Hwp as (r & s & -> & -> & ->); done).
  apply wp_bind, (wp_run _ _ _ _ _ Hf).
  apply wp_bind, (wp_run _ _ _ _ _ (getSendKey_spec _ _ _ Hat)).
  apply wp_bind, (wp_run _ _ _ _ _ (getReceiveKey_spec _ _ _ Hat)).
  apply wp_bind, (wp_run _ _ _ _ _ (getConnectTokenEntryIndex_spec _ _ _ Hat)).
  apply wp_bind, (wp_run _ _ _ _ _ (getTimeout_spec _ _ _ Hat)). by apply wp_ret.
Qed.

(** C24. Safety: addEncryptionMapping does not panic, keeps the manager well
    formed, and never takes the slot of another address whose mapping is still
    live or belongs to a client: such mappings, and their keys, are exactly
    what they were. It fails, changing nothing, only when every slot is taken
    that way. *)
Theorem add_never_evicts (m : encryptionManager) (address : Address) (sendKey receiveKey : list byte)
  (time expireTime : float64) (timeout entryIndex : Z)
  (Hwf : em_wf m) (Hk1 : length sendKey = KeyBytes) (Hk2 : length receiveKey = KeyBytes) :
  ∃ b m', EncryptionManager.addEncryptionMapping address sendKey receiveKey time expireTime timeout
            entryIndex m = Some (b, m') ∧ em_wf m' ∧
    (∀ j y, em_at m j = Some y → live_for y address time = false → free_slot y time = false →
       em_at m' j = Some y) ∧
    (b = false → m' = m ∧ ∀ i, 0 ≤ i < maxEncryptionMappings →
       ∃ x, em_at m i = Some x ∧ Type_ (mp_address x) ≠ AddressNone ∧
         (expired x time = false ∨ mp_clientIndex x ≠ -1)).
Proof.
  destruct (add_spec m address sendKey receiveKey time expireTime timeout entryIndex Hwf Hk1 Hk2)
    as (b & m' & Hadd & Hb). exists b, m'. split; [done|]. destruct b.
  - destruct Hb as [i [Hwf' Hr (x & a & Hx & Hnew & Hcase) Hframe _ _]]. split_and!; [done| |done].
    intros j y Hy Hl Hf. rewrite Hframe; [done|]. intros ->. rewrite Hx in Hy. injection Hy as <-.
    destruct Hcase as [[? _]|[? _]]; congruence.
  - destruct Hb as [-> Hall]. split_and!; [done|done|]. intros _. split; [done|]. intros i Hi.
    destruct (em_at_Some m i (ew_shape _ Hwf) Hi) as [x Hx]. exists x. split; [done|].
    destruct (Hall i x Hx) as [_ Hf]. unfold free_slot in Hf.
    apply orb_false_iff in Hf as [Hn%Z.eqb_neq Hf]. split; [done|].
    apply andb_false_iff in Hf as [|Hc%Z.eqb_neq]; auto.
Qed.

(** C25. Safety: removeEncryptionMapping does not panic and keeps the manager
    well formed. When the address has a mapping, the first one is erased, keys
    included; every other mapping that is live or belongs to a client keeps
    its slot, its contents and its place below numEncryptionMappings, so that
    lookups still reach it. Otherwise nothing changes. *)
Theorem remove_keeps_others (m : encryptionManager) (address : Address) (time : float64)
  (Hwf : em_wf m) :
  ∃ b m', EncryptionManager.removeEncryptionMapping address time m = Some (b, m') ∧ em_wf m' ∧
    (b = false → m' = m ∧ ∀ i x, em_at m i = Some x → Equal (mp_address x) address = false) ∧
    (b = true → ∃ i x x', em_at m i = Some x ∧ Equal (mp_address x) address = true ∧
       em_at m' i = Some x' ∧ mp_address x' = zeroAddress ∧
       mp_sendKey x' = zeros KeyBytes ∧ mp_receiveKey x' = zeros KeyBytes ∧
       ∀ j y, em_at m j = Some y → j ≠ i → (expired y time = false ∨ mp_clientIndex y ≠ -1) →
         em_at m' j = Some y ∧ (j < em_numEncryptionMappings m → j < em_numEncryptionMappings m')).
Proof.
  destruct (remove_spec m address time Hwf) as (b & m' & Hrem & Hb).
  exists b, m'. split; [done|]. destruct b; [|destruct Hb as [-> ?]; by split_and!].
  destruct Hb as [i [Hwf' (x & Hx & Heq & Hx') Hframe]]. split_and!; [done..|]. intros _.
  eexists i, x, _. split_and!; [done..|]. intros j y Hy Hj Hkeep.
  destruct (Hframe j y Hy Hj) as [|(y' & _ & He & Hc & _)]; [done|].
  destruct Hkeep; congruence.
Qed.

(** ** Concrete instances *)
Definition sample_send_key : list byte := replicate KeyBytes (byte.of_Z 34).
Definition sample_receive_key : list byte := replicate KeyBytes (byte.of_Z 17).
Lemma sample_not_expired : not_yet_expired f64_1 (f64_of_Z 6) 5.
Proof. by vm_compute. Qed.

Lemma add_then_find_witness :
  match EncryptionManager.addEncryptionMapping sample_ipv4 sample_send_key sample_receive_key f64_1
          (f64_of_Z 6) 5 3 EncryptionManager.reset with
  | Some (true, m') =>
      ∃ i m'', (i ← EncryptionManager.findEncryptionMapping sample_ipv4 f64_1;
                k1 ← EncryptionManager.getSendKey i;
                k2 ← EncryptionManager.getReceiveKey i;
                e ← EncryptionManager.getConnectTokenEntryIndex i;
                t ← EncryptionManager.getTimeout i;
                mret (i, k1, k2, e, t)) m' =
        Some ((i, Some sample_send_key, Some sample_receive_key, 3, 5), m'')
  | _ => False
  end.
Proof.
  destruct (EncryptionManager.addEncryptionMapping _ _ _ _ _ _ _ _) as [[[] m']|] eqn:Hadd.
  - apply (add_then_find EncryptionManager.reset m' sample_ipv4 sample_send_key sample_receive_key
             f64_1 (f64_of_Z 6) 5 3); [apply em_wf_reset|done|done|done|apply sample_not_expired|done].
  - by vm_compute in Hadd.
  - by vm_compute in Hadd.
Defined.
(** A manager with a mapping for one address, and one with a second mapping. *)
Definition sample_add (address : Address) (entryIndex : Z) (m : encryptionManager) : encryptionManager :=
  match EncryptionManager.addEncryptionMapping address sample_send_key sample_receive_key f64_1
          (f64_of_Z 6) 5 entryIndex m with
  | Some (_, m') => m'
  | None => m
  end.
Definition sample_one : encryptionManager := sample_add sample_ipv6 2 EncryptionManager.reset.
Definition sample_two : encryptionManager := sample_add sample_ipv4 3 sample_one.
Lemma sample_add_wf address entryIndex m : em_wf m → em_wf (sample_add address entryIndex m).
Proof.
  intros Hwf. unfold sample_add.
  destruct (add_spec m address sample_send_key sample_receive_key f64_1 (f64_of_Z 6) 5 entryIndex)
    as (b & m' & -> & Hb); [done..|]. destruct b; [destruct Hb as [i H]; apply H|by destruct Hb as [-> _]].
Qed.
Lemma sample_one_wf : em_wf sample_one.
Proof. apply sample_add_wf, em_wf_reset. Qed.
Lemma sample_two_wf : em_wf sample_two.
Proof. apply sample_add_wf, sample_one_wf. Qed.
Lemma em_at_is_Some m i : em_wf m → 0 ≤ i < maxEncryptionMappings → ∃ x, em_at m i = Some x.
Proof. intros Hwf. apply em_at_Some, Hwf. Qed.

(** The first mapping survives the second. *)
Lemma add_never_evicts_witness :
  ∃ m' y, EncryptionManager.addEncryptionMapping sample_ipv4 sample_send_key sample_receive_key f64_1
            (f64_of_Z 6) 5 3 sample_one = Some (true, m') ∧ em_wf m' ∧
    mp_address y = sample_ipv6 ∧ em_at sample_one 0 = Some y ∧ em_at m' 0 = Some y.
Proof.
  destruct (add_never_evicts sample_one sample_ipv4 sample_send_key sample_receive_key
              f64_1 (f64_of_Z 6) 5 3 sample_one_wf eq_refl eq_refl) as (b & m' & Hrun & Hwf & Hkeep & _).
  assert (fst <$> EncryptionManager.addEncryptionMapping sample_ipv4 sample_send_key sample_receive_key f64_1
            (f64_of_Z 6) 5 3 sample_one = Some true) as Hfst by (vm_compute; reflexivity).
  rewrite Hrun in Hfst. injection Hfst as ->.
  destruct (em_at_is_Some sample_one 0 sample_one_wf) as [y Hy]; [done|]. exists m', y.
  assert (option_map (λ y, (mp_address y, live_for y sample_ipv4 f64_1, free_slot y f64_1)) (em_at sample_one 0) =
    Some (sample_ipv6, false, false)) as Hf by (vm_compute; reflexivity).
  rewrite Hy in Hf. injection Hf as Ha Hl Hfr.
  exact (conj Hrun (conj Hwf (conj Ha (conj Hy (Hkeep 0 y Hy Hl Hfr))))).
Defined.
(** The second mapping goes, the first stays. *)
Lemma remove_keeps_others_witness :
  ∃ m' y, EncryptionManager.removeEncryptionMapping sample_ipv4 f64_1 sample_two = Some (true, m') ∧ em_wf m' ∧
    mp_address y = sample_ipv6 ∧ em_at sample_two 0 = Some y ∧ em_at m' 0 = Some y.
Proof.
  destruct (remove_keeps_others sample_two sample_ipv4 f64_1 sample_two_wf) as (b & m' & Hrun & Hwf & _ & Hkeep).
  assert (fst <$> EncryptionManager.removeEncryptionMapping sample_ipv4 f64_1 sample_two = Some true)
    as Hfst by (vm_compute; reflexivity).
  rewrite Hrun in Hfst. injection Hfst as ->. destruct (Hkeep eq_refl) as (i & x & x' & Hx & He & _ & _ & _ & _ & Hall).
  destruct (em_at_is_Some sample_two 0 sample_two_wf) as [y Hy]; [done|]. exists m', y.
  assert (option_map (λ y, (mp_address y, Equal (mp_address y) sample_ipv4, expired y f64_1)) (em_at sample_two 0) =
    Some (sample_ipv6, false, false)) as Hf by (vm_compute; reflexivity).
  rewrite Hy in Hf. injection Hf as Ha Hne Hex.
  assert (0 ≠ i) as Hi by (intros <-; congruence).
  exact (conj Hrun (conj Hwf (conj Ha (conj Hy (proj1 (Hall 0 y Hy Hi (or_introl Hex))))))).
Defined.
