(* ===== verification/Socket.v ===== *)
(** socket.go: the sockets a client or server holds and the dispatch of outgoing
    packets. What the program does to the outside (datagrams handed to a
    transport, callbacks) is a list of [event]s. Creating sockets and reading
    from them is in SocketIO. *)

From S2P Require Import Prelude Constants Address.

(** Which transport took a datagram. *)
Inductive route := ViaSimulator | ViaOverride | ViaIPv4 | ViaIPv6.

Inductive event :=
| EvSend (via : route) (from to : Address) (packetData : list byte)
| EvStateChange (previousState currentState : Z)
| EvConnectDisconnect (clientIndex : Z) (connected : bool)
| EvLoopback (clientIndex : Z) (packetData : list byte) (packetSequence : Z)
| EvDestroySockets.

(** The address each open socket is bound to; [None] is a nil socket. *)
Record socketHolder := mkSocketHolder {
  sh_ipv4 : option Address;
  sh_ipv6 : option Address;
}.

Definition is_some {A : Type} (o : option A) : bool :=
  match o with Some _ => true | None => false end.

(** The simulator and the override are present or nil. *)
Definition sendPacketToAddress (networkSimulator sendPacketOverride : bool) (holder : socketHolder)
  (from to : Address) (packetData : list byte) : list event :=
  if networkSimulator then [EvSend ViaSimulator from to packetData]
  else if sendPacketOverride then [EvSend ViaOverride from to packetData]
  else if (Type_ to =? AddressIPv4) && is_some (sh_ipv4 holder)
  then [EvSend ViaIPv4 from to packetData]
  else if (Type_ to =? AddressIPv6) && is_some (sh_ipv6 holder)
  then [EvSend ViaIPv6 from to packetData]
  else [].

(** A received datagram. *)
Record receivedDatagram := mkReceived { rp_from : Address; rp_data : list byte }.

(** The datagrams among the events, with their destinations. *)
Definition datagrams (evs : list event) : list (Address * list byte) :=
  omap (λ ev, match ev with EvSend _ _ to d => Some (to, d) | _ => None end) evs.
Lemma datagrams_app evs evs' : datagrams (evs ++ evs') = datagrams evs ++ datagrams evs'.
Proof. apply omap_app. Qed.
(** Whether there is a transport for the address. *)
Definition reachable (networkSimulator sendPacketOverride : bool) (holder : socketHolder) (to : Address) : bool :=
  networkSimulator || sendPacketOverride || ((Type_ to =? AddressIPv4) && is_some (sh_ipv4 holder))
  || ((Type_ to =? AddressIPv6) && is_some (sh_ipv6 holder)).
(** A datagram goes out exactly once if there is, to the address given,
    unchanged. *)
Lemma datagrams_send sim ovr holder from to d :
  datagrams (sendPacketToAddress sim ovr holder from to d) =
  if reachable sim ovr holder to then [(to, d)] else [].
Proof. unfold sendPacketToAddress, reachable. by destruct sim, ovr, (_ && _), (_ && _). Qed.
