(* ===== verification/SocketIO.v ===== *)
(** socket.go and the platform files bind_error_unix.go, bind_error_windows.go,
    tagging_unix.go and tagging_other.go: creating, reading and closing sockets. What the operating system answers is a parameter, the class
    [OS]; what the program does to it is recorded in a trace. *)

From S2P Require Import Prelude Constants Netip Address AddressString Socket.

Definition clientSocketSndbufSize : Z := 4 * 1024 * 1024.
Definition clientSocketRcvbufSize : Z := 4 * 1024 * 1024.
Definition serverSocketSndbufSize : Z := 4 * 1024 * 1024.
Definition serverSocketRcvbufSize : Z := 4 * 1024 * 1024.
Definition socketPacketChannelSize : nat := 1024.

(** The error numbers isBindError asks for, and the socket options that tag
    packets. *)
Inductive errno := EADDRINUSE | EACCES | WSAEADDRINUSE | WSAEACCES.
Inductive sockopt := IPV6_TCLASS | IP_TOS.
(** What the build constraints distinguish: the systems of tagging_unix.go
    (darwin, linux and the BSDs), Windows, and the others. *)
Inductive goos := TaggingUnix | Windows | OtherSystem.

(** The operating system and Go's net package. A connection is named by its
    network, true for udp6: a client or server opens at most one of each.
    [None] is a nil error. *)
Class OS := {
  GOOS : goos;
  osError : Type;
  errorsIs : osError → errno → bool;
  ListenUDP : bool → netipAddr * Z → option osError;
  SetWriteBuffer : bool → Z → option osError;
  SetReadBuffer : bool → Z → option osError;
  SyscallConn : bool → option osError;
  RawControl : bool → option osError;
  SetsockoptInt : bool → sockopt → Z → option osError;
  (** The port of the local address, when that is a UDP address. *)
  LocalPort : bool → option Z;
}.

(** What is done to a connection: opened, closed, its reader started, a datagram
    written to it. *)
Inductive osEvent :=
| OsListen (ipv6 : bool)
| OsClose (ipv6 : bool)
| OsReader (ipv6 : bool)
| OsWrite (ipv6 : bool) (packetData : list byte) (to : netipAddr * Z).
(** The package's global flag and the trace. *)
Record osState := mkOsState { packetTaggingEnabled : bool; os_trace : list osEvent }.
#[export] Instance eta_osState : Eta osState := λ s, mkOsState (packetTaggingEnabled s) (os_trace s).

(** Why a socket could not be created. *)
Inductive socketErrorCause `{OS} :=
| ListenError (err : osError)
| SendBufferError
| ReceiveBufferError
| TaggingError (err : osError).
Arguments socketErrorCause {_}.
Arguments ListenError {_} err.
Arguments SendBufferError {_}.
Arguments ReceiveBufferError {_}.
Arguments TaggingError {_} err.
Record socketError `{OS} := mkSocketError { se_bind : bool; se_err : socketErrorCause }.
Arguments socketError {_}.
Arguments mkSocketError {_} se_bind se_err.

Module SocketIO.
Definition EnablePacketTagging : M osState unit := modify (set packetTaggingEnabled (λ _, true)).
Definition emit (evs : list osEvent) : M osState unit := modify (set os_trace (λ l, l ++ evs)).

(** The loop that halves a buffer size until it is accepted: [Some (Some size)]
    is the size accepted, [Some None] that the size fell below the minimum. *)
Fixpoint bufferBackoff (accepted : Z → bool) (fuel : nat) (size : Z) : option (option Z) :=
  match fuel with
  | O => None
  | S fuel =>
      if accepted size then Some (Some size)
      else
        let size := Z.quot size 2 in
        if size <? 256 * 1024 then Some None else bufferBackoff accepted fuel size
  end.
(** Enough for every 64 bit int. *)
Definition backoffFuel : nat := 64.

Section create.
Context `{OS}.
Definition isBindErrorUnix (err : osError) : bool :=
  errorsIs err EADDRINUSE || errorsIs err EACCES.
Definition isBindErrorWindows (err : osError) : bool :=
  errorsIs err WSAEADDRINUSE || errorsIs err WSAEACCES.
Definition isBindError (err : osError) : bool :=
  match GOOS with Windows => isBindErrorWindows err | _ => isBindErrorUnix err end.

Definition enablePacketTaggingUnix (ipv6 : bool) : option osError :=
  match SyscallConn ipv6 with
  | Some err => Some err
  | None =>
      let tos := 46 in
      let sockoptErr := if ipv6 then SetsockoptInt ipv6 IPV6_TCLASS tos
                        else SetsockoptInt ipv6 IP_TOS tos in
      match RawControl ipv6 with
      | Some err => Some err
      | None => sockoptErr
      end
  end.
Definition enablePacketTaggingOther (ipv6 : bool) : option osError := None.
Definition enablePacketTagging (ipv6 : bool) : option osError :=
  match GOOS with TaggingUnix => enablePacketTaggingUnix ipv6 | _ => enablePacketTaggingOther ipv6 end.

Definition is_nil (err : option osError) : bool := match err with None => true | Some _ => false end.
(** The address the socket is bound to, with the resolved port. *)
Definition createSocket (address : Address) (sendBufferSize receiveBufferSize : Z)
  : M osState (socketError + Address) :=
  let ipv6 := Type_ address =? AddressIPv6 in
  match ListenUDP ipv6 (toNetip address) with
  | Some err => mret (inl (mkSocketError (isBindError err) (ListenError err)))
  | None =>
      emit [OsListen ipv6];;
      size ← lift (bufferBackoff (λ size, is_nil (SetWriteBuffer ipv6 size)) backoffFuel sendBufferSize);
      match size with
      | None => emit [OsClose ipv6];; mret (inl (mkSocketError false SendBufferError))
      | Some _ =>
          size ← lift (bufferBackoff (λ size, is_nil (SetReadBuffer ipv6 size)) backoffFuel receiveBufferSize);
          match size with
          | None => emit [OsClose ipv6];; mret (inl (mkSocketError false ReceiveBufferError))
          | Some _ =>
              tagging ← gets packetTaggingEnabled;
              match (if (tagging : bool) then enablePacketTagging ipv6 else None) with
              | Some err => emit [OsClose ipv6];; mret (inl (mkSocketError false (TaggingError err)))
              | None =>
                  let address := match LocalPort ipv6 with
                                 | Some port => address <| Port := u16 port |>
                                 | None => address
                                 end in
                  emit [OsReader ipv6];; mret (inr address)
              end
          end
      end
  end.
End create.

(** destroy of a socket that may be nil. *)
Definition destroySocket (ipv6 : bool) (s : option Address) : M osState unit :=
  match s with Some _ => emit [OsClose ipv6] | None => mret tt end.
Definition destroyHolder (h : socketHolder) : M osState unit :=
  destroySocket false (sh_ipv4 h);; destroySocket true (sh_ipv6 h).

(** WriteToUDPAddrPort, its result ignored. *)
Definition sendPacket (ipv6 : bool) (to : Address) (packetData : list byte) : M osState unit :=
  emit [OsWrite ipv6 packetData (toNetip to)].
(** What an event of the client or server does to the sockets. *)
Definition perform (holder : socketHolder) (ev : event) : M osState unit :=
  match ev with
  | EvSend ViaIPv4 _ to packetData => sendPacket false to packetData
  | EvSend ViaIPv6 _ to packetData => sendPacket true to packetData
  | EvDestroySockets => destroyHolder holder
  | _ => mret tt
  end.

(** ** The reader goroutine and the channel *)

(** What one call of ReadFromUDPAddrPort returns: the connection is closed,
    another error, or a datagram and its source. *)
Inductive readResult :=
| ReadClosed
| ReadError
| ReadFrom (data : list byte) (from : netipAddr) (port : Z).
(** A socket as seen by both goroutines: the channel, and whether the reader
    still runs. *)
Record socketState := mkSocketState { so_packets : list receivedDatagram; so_reading : bool }.

(** One iteration of readLoop. A datagram is cut to the buffer; an empty one is
    skipped, and a full channel drops the packet. *)
Definition readLoop (r : readResult) (s : socketState) : socketState :=
  if negb (so_reading s) then s
  else
    match r with
    | ReadClosed => mkSocketState (so_packets s) false
    | ReadError => s
    | ReadFrom data from port =>
        let buffer := take maxPacketBytes data in
        if bool_decide (length buffer ≤ 0)%nat then s
        else
          let packet := mkReceived (addressFromNetip from port) buffer in
          if bool_decide (length (so_packets s) < socketPacketChannelSize)%nat
          then mkSocketState (so_packets s ++ [packet]) (so_reading s)
          else s
    end.
Definition receivePacket (s : socketState) : option receivedDatagram * socketState :=
  match so_packets s with
  | packet :: packets => (Some packet, mkSocketState packets (so_reading s))
  | [] => (None, s)
  end.

(** An interleaving of the reader's iterations with calls of receivePacket;
    the packets those calls return, in order. *)
Inductive socketStep := StepRead (r : readResult) | StepReceive.
Fixpoint runSocket (steps : list socketStep) (s : socketState) : list receivedDatagram * socketState :=
  match steps with
  | [] => ([], s)
  | StepRead r :: steps => runSocket steps (readLoop r s)
  | StepReceive :: steps =>
      let '(packet, s) := receivePacket s in
      let '(packets, s) := runSocket steps s in
      (option_list packet ++ packets, s)
  end.

(** ** Buffer sizes *)

(** The sizes the loop may settle on: the one asked for, or a halving of it that
    is not below the minimum. *)
Definition candidate (size : Z) (k : nat) : Prop :=
  k = 0%nat ∨ 2 ^ 18 ≤ Z.quot size (2 ^ Z.of_nat k).
(** The outcome of the loop: the first candidate accepted, or none. *)
Definition backoff_result (accepted : Z → bool) (size : Z) (r : option Z) : Prop :=
  match r with
  | Some s => ∃ k, s = Z.quot size (2 ^ Z.of_nat k) ∧ candidate size k ∧ accepted s = true ∧
                   ∀ j, (j < k)%nat → accepted (Z.quot size (2 ^ Z.of_nat j)) = false
  | None => ∀ k, candidate size k → accepted (Z.quot size (2 ^ Z.of_nat k)) = false
  end.
Lemma quot_pow_succ z k : Z.quot (Z.quot z 2) (2 ^ Z.of_nat k) = Z.quot z (2 ^ Z.of_nat (S k)).
Proof. rewrite Z.quot_quot by lia. f_equal. rewrite Nat2Z.inj_succ, Z.pow_succ_r by lia. lia. Qed.
Lemma candidate_succ size k :
  2 ^ 18 ≤ Z.quot size 2 → candidate size (S k) ↔ candidate (Z.quot size 2) k.
Proof.
  intros Hs. unfold candidate. rewrite quot_pow_succ. destruct k as [|k]; [|naive_solver].
  split; [by left|]. intros _. right. done.
Qed.
Lemma candidate_small size k : Z.quot size 2 < 2 ^ 18 → candidate size k → k = 0%nat.
Proof.
  intros Hs [->|Hk]; [done|]. destruct k as [|k]; [done|]. rewrite <-quot_pow_succ in Hk.
  pose proof (Z.pow_pos_nonneg 2 (Z.of_nat k)).
  pose proof (Z.quot_le_upper_bound (Z.quot size 2) (2 ^ Z.of_nat k) (2 ^ 18 - 1)). nia.
Qed.
Lemma bufferBackoff_spec accepted n size :
  size < 2 ^ (18 + Z.of_nat n) →
  ∃ r, bufferBackoff accepted (S n) size = Some r ∧ backoff_result accepted size r.
Proof.
  revert size. induction n as [|n IH]; intros size Hsize; cbn [bufferBackoff];
    (destruct (accepted size) eqn:Ha; [eexists; split; [done|]; exists 0%nat; split_and!;
       [by rewrite Z.quot_1_r|by left|done|lia]|]);
    (destruct (Z.ltb_spec (Z.quot size 2) (256 * 1024)) as [Hlt|Hge];
     [exists None; split; [done|]; intros k ->%candidate_small; [by rewrite Z.quot_1_r|lia]|]).
  - exfalso. change (2 ^ (18 + Z.of_nat 0)) with (256 * 1024) in Hsize.
    pose proof (Z.quot_le_upper_bound size 2 (256 * 1024 - 1)). lia.
  - destruct (IH (Z.quot size 2)) as (r & Hr & Hres).
    { replace (18 + Z.of_nat (S n)) with (1 + (18 + Z.of_nat n)) in Hsize by lia.
      rewrite Z.pow_add_r in Hsize by lia. change (2 ^ 1) with 2 in Hsize.
      pose proof (Z.pow_pos_nonneg 2 (18 + Z.of_nat n)).
      destruct (decide (0 ≤ size)); [apply Z.quot_lt_upper_bound; lia|].
      pose proof (Z.quot_le_upper_bound size 2 0). lia. }
    cbn [bufferBackoff] in Hr. exists r. split; [exact Hr|]. destruct r as [s|]; cbn [backoff_result] in *.
    + destruct Hres as (k & -> & Hc & Hs & Hj). exists (S k). rewrite <-quot_pow_succ. split_and!; [done| |done|].
      * by apply candidate_succ; [lia|].
      * intros [|j] Hjk; [by rewrite Z.quot_1_r|]. rewrite <-quot_pow_succ. apply Hj. lia.
    + intros [|k] Hc; [by rewrite Z.quot_1_r|]. rewrite <-quot_pow_succ. apply Hres.
      by apply candidate_succ; [lia|].
Qed.
Lemma backoff_total accepted size :
  size < 2 ^ 63 → ∃ r, bufferBackoff accepted backoffFuel size = Some r ∧ backoff_result accepted size r.
Proof.
  intros Hs. apply bufferBackoff_spec. apply Z.lt_le_trans with (2 ^ 63); [done|].
  apply Z.pow_le_mono_r; lia.
Qed.

(** C36. The loop that negotiates a socket buffer size terminates for every size
    an int can hold, whatever the operating system answers: within the fuel it
    settles on the first of size, size/2, size/4, ... that is accepted, never
    going below 256 KiB except for the size asked for itself, or reports failure
    when all of those are rejected. *)
Theorem bufferBackoff_terminates accepted size :
  - 2 ^ 63 ≤ size < 2 ^ 63 →
  ∃ r, bufferBackoff accepted backoffFuel size = Some r ∧ backoff_result accepted size r.
Proof. intros [_ Hs]. by apply backoff_total. Qed.
Lemma bufferBackoff_witness :
  bufferBackoff (λ size, size <=? 1000000) backoffFuel clientSocketSndbufSize = Some (Some (512 * 1024)) ∧
  ∃ r, bufferBackoff (λ size, size <=? 1000000) backoffFuel clientSocketSndbufSize = Some r ∧
       backoff_result (λ size, size <=? 1000000) clientSocketSndbufSize r.
Proof.
  split; [vm_compute; reflexivity|]. apply (bufferBackoff_terminates _ clientSocketSndbufSize).
  split; vm_compute; [discriminate|reflexivity].
Defined.

(** ** Connections are not leaked *)

(** Connections of a network that a trace opens but does not close. *)
Definition weight (ipv6 : bool) (ev : osEvent) : Z :=
  match ev with
  | OsListen b => if bool_decide (b = ipv6) then 1 else 0
  | OsClose b => if bool_decide (b = ipv6) then -1 else 0
  | OsReader _ | OsWrite _ _ _ => 0
  end.
Definition openConns (ipv6 : bool) (tr : list osEvent) : Z := sum_with (weight ipv6) tr.
Lemma openConns_app b tr tr' : openConns b (tr ++ tr') = openConns b tr + openConns b tr'.
Proof. apply sum_with_app. Qed.
Definition opened (s : option Address) : Z := match s with Some _ => 1 | None => 0 end.
(** What a step adds to the trace; it leaves the flag alone. *)
Definition adds (s s' : osState) (d4 d6 : Z) : Prop :=
  packetTaggingEnabled s' = packetTaggingEnabled s ∧
  openConns false (os_trace s') = openConns false (os_trace s) + d4 ∧
  openConns true (os_trace s') = openConns true (os_trace s) + d6.
Lemma adds_refl s : adds s s 0 0.
Proof. split_and!; [done|lia|lia]. Qed.
Lemma adds_trans s1 s2 s3 a b c d : adds s1 s2 a b → adds s2 s3 c d → adds s1 s3 (a + c) (b + d).
Proof. intros (?&?&?) (?&?&?). split_and!; [congruence|lia|lia]. Qed.
Lemma emit_wp evs s :
  wp (emit evs) (λ _ s', adds s s' (openConns false evs) (openConns true evs)) s.
Proof. split_and!; [done|cbn; apply openConns_app..]. Qed.
Definition only (ipv6 : bool) (b : bool) (n : Z) : Z := if bool_decide (b = ipv6) then n else 0.

Lemma destroySocket_wp ipv6 so s :
  wp (destroySocket ipv6 so) (λ _ s', adds s s' (- only ipv6 false (opened so)) (- only ipv6 true (opened so))) s.
Proof.
  destruct so; cbn [destroySocket opened]; [|destruct ipv6; apply adds_refl].
  eapply wp_mono; [apply emit_wp|]. intros [] s'. by destruct ipv6.
Qed.

Lemma destroyHolder_wp h s :
  wp (destroyHolder h) (λ _ s', adds s s' (- opened (sh_ipv4 h)) (- opened (sh_ipv6 h))) s.
Proof.
  unfold destroyHolder. apply wp_bind. eapply wp_mono; [apply destroySocket_wp|]. intros [] s1 H1.
  eapply wp_mono; [apply destroySocket_wp|]. intros [] s2 H2.
  pose proof (adds_trans _ _ _ _ _ _ _ H1 H2) as H. unfold only in H.
  rewrite !bool_decide_eq_true_2, !bool_decide_eq_false_2 in H by done.
  by rewrite Z.add_0_r, Z.add_0_l in H.
Qed.

(** The address a successful createSocket reports is the one asked for, but
    for its port. *)
Definition bound_to (address a : Address) : Prop :=
  ∃ port, is_u16 port ∧ a = address <| Port := port |>.
Lemma bound_to_valid address a : bound_to address a → valid_address address → valid_address a.
Proof. intros (port & Hp & ->) [_ Hf]. constructor; [done|exact Hf]. Qed.
Lemma bound_to_type address a : bound_to address a → Type_ a = Type_ address.
Proof. by intros (port & _ & ->). Qed.

Section create_wp.
Context `{OS}.
Lemma createSocket_wp address snd rcv s :
  snd < 2 ^ 63 → rcv < 2 ^ 63 → is_u16 (Port address) →
  let ipv6 := Type_ address =? AddressIPv6 in
  wp (createSocket address snd rcv) (λ r s',
    match r with
    | inl _ => adds s s' 0 0
    | inr a => adds s s' (only ipv6 false 1) (only ipv6 true 1) ∧ bound_to address a
    end) s.
Proof.
  intros Hsnd Hrcv Hport ipv6. unfold createSocket. fold ipv6.
  destruct (ListenUDP ipv6 _) as [err|]; [apply adds_refl|].
  set (d4 := only ipv6 false 1). set (d6 := only ipv6 true 1).
  assert (∀ s1, adds s s1 d4 d6 → wp (emit [OsClose ipv6]) (λ _ s', adds s s' 0 0) s1) as Hclose.
  { intros s1 Hs1. eapply wp_mono; [apply emit_wp|]. intros [] s2 Hs2.
    pose proof (adds_trans _ _ _ _ _ _ _ Hs1 Hs2) as Ha. by destruct ipv6. }
  apply wp_bind. eapply wp_mono; [apply emit_wp|]. intros [] s1 Hs1.
  assert (adds s s1 d4 d6) as Hs by by destruct ipv6. clear Hs1.
  destruct (backoff_total (λ size, is_nil (SetWriteBuffer ipv6 size)) snd Hsnd) as (r1 & Hr1 & _).
  apply wp_bind. eapply wp_run; [by unfold lift; rewrite Hr1|].
  destruct r1; [|by apply wp_bind; eapply wp_mono; [by apply Hclose|]].
  destruct (backoff_total (λ size, is_nil (SetReadBuffer ipv6 size)) rcv Hrcv) as (r2 & Hr2 & _).
  apply wp_bind. eapply wp_run; [by unfold lift; rewrite Hr2|].
  destruct r2; [|by apply wp_bind; eapply wp_mono; [by apply Hclose|]].
  apply wp_bind. eapply wp_run; [done|].
  destruct (if packetTaggingEnabled s1 then _ else _); [by apply wp_bind; eapply wp_mono; [by apply Hclose|]|].
  apply wp_bind. eapply wp_mono; [apply emit_wp|]. intros [] s2 Hs2. apply wp_ret. split.
  - replace d4 with (d4 + 0) by lia. replace d6 with (d6 + 0) by lia. by eapply adds_trans.
  - destruct (LocalPort ipv6) as [port|].
    + exists (u16 port). split; [by apply Z.mod_pos_bound|done].
    + exists (Port address). split; [done|by destruct address].
Qed.
End create_wp.

(** ** The channel *)

(** The packets the reader offers to the channel: the nonempty datagrams read
    before the connection is closed. *)
Fixpoint offered (steps : list socketStep) (reading : bool) : list receivedDatagram :=
  match steps with
  | [] => []
  | StepReceive :: steps => offered steps reading
  | StepRead r :: steps =>
      match r with
      | ReadClosed => offered steps false
      | ReadError => offered steps reading
      | ReadFrom data from port =>
          (if reading && bool_decide (0 < length data)%nat
           then [mkReceived (addressFromNetip from port) (take maxPacketBytes data)] else [])
          ++ offered steps reading
      end
  end.
Definition offer (r : readResult) (reading : bool) : list receivedDatagram := offered [StepRead r] reading.
Definition still (r : readResult) (reading : bool) : bool :=
  match r with ReadClosed => false | _ => reading end.
Lemma offered_cons r steps reading :
  offered (StepRead r :: steps) reading = offer r reading ++ offered steps (still r reading).
Proof. unfold offer. destruct r; cbn; [done..|]. by rewrite app_nil_r. Qed.
(** One iteration: the packet offered goes to the end of the channel, unless
    the channel is full. *)
Lemma readLoop_spec r s :
  so_reading (readLoop r s) = still r (so_reading s) ∧
  (so_packets (readLoop r s) = so_packets s ++ offer r (so_reading s)
     ∧ (length (so_packets (readLoop r s)) ≤ length (so_packets s) `max` socketPacketChannelSize)%nat ∨
   so_packets (readLoop r s) = so_packets s ∧ (socketPacketChannelSize ≤ length (so_packets s))%nat).
Proof.
  unfold readLoop, offer. destruct s as [packets [|]]; cbn [so_reading so_packets negb offered still andb].
  2: { split; [by destruct r|]. left. destruct r; rewrite app_nil_r; (split; [done|lia]). }
  destruct r as [| |data from port]; [by rewrite app_nil_r; split; [|left; split; [|simpl; lia]]..|].
  rewrite length_take. case_bool_decide as H1; [rewrite (bool_decide_eq_false_2 (0 < _)%nat)|rewrite (bool_decide_eq_true_2 (0 < _)%nat)].
  - rewrite !app_nil_r. split; [done|]. left. split; [done|]. simpl. lia.
  - unfold maxPacketBytes in H1. lia.
  - rewrite app_nil_r. case_bool_decide as H2; (split; [done|]); [left|right]; cbn [so_packets].
    + split; [done|]. rewrite length_app. cbn [length]. lia.
    + split; [done|lia].
  - lia.
Qed.
Lemma runSocket_receive steps s :
  runSocket (StepReceive :: steps) s =
  (option_list (receivePacket s).1 ++ (runSocket steps (receivePacket s).2).1,
   (runSocket steps (receivePacket s).2).2).
Proof. cbn [runSocket]. destruct (receivePacket s) as [p s1]. cbn [fst snd]. by destruct (runSocket steps s1). Qed.
Lemma receivePacket_split s :
  so_packets s = option_list (receivePacket s).1 ++ so_packets (receivePacket s).2 ∧
  so_reading (receivePacket s).2 = so_reading s.
Proof. unfold receivePacket. destruct s as [[|p ps] b]; done. Qed.

(** C35. For every interleaving of the reader goroutine with calls of
    receivePacket: what the calls returned, followed by what is still in the
    channel, is a subsequence of what was in the channel followed by the
    nonempty datagrams read before the connection was closed. So packets are
    neither invented, altered, duplicated nor reordered. The channel never holds
    more than 1024, and nothing at all is lost while at most 1024 packets are
    involved. *)
Theorem socket_channel steps s :
  (length (so_packets s) ≤ socketPacketChannelSize)%nat →
  let '(packets, s') := runSocket steps s in
  let all := so_packets s ++ offered steps (so_reading s) in
  packets ++ so_packets s' `sublist_of` all ∧
  (length (so_packets s') ≤ socketPacketChannelSize)%nat ∧
  ((length all ≤ socketPacketChannelSize)%nat → packets ++ so_packets s' = all).
Proof.
  revert s. induction steps as [|[r|] steps IH]; intros s Hs.
  - cbn [runSocket offered]. rewrite app_nil_r. done.
  - cbn [runSocket]. rewrite offered_cons. destruct (readLoop_spec r s) as [Hr Hp].
    assert (length (so_packets (readLoop r s)) ≤ socketPacketChannelSize)%nat as Hl.
    { destruct Hp as [[_ ?]|[-> _]]; [|done]. lia. }
    specialize (IH _ Hl). rewrite Hr in IH. destruct (runSocket steps (readLoop r s)) as [ps s'].
    destruct IH as (IH1 & IH2 & IH3). destruct Hp as [[Hp _]|[Hp Hfull]]; rewrite Hp in *.
    + rewrite <-app_assoc in IH1, IH3. by split_and!.
    + split_and!; [|done|].
      * etrans; [exact IH1|]. by apply sublist_app, sublist_inserts_l.
      * rewrite !length_app. intros Hle. destruct (offer r (so_reading s)); [|simpl in Hle; lia].
        apply IH3. rewrite length_app. simpl in Hle. lia.
  - rewrite runSocket_receive. cbn [offered]. destruct (receivePacket_split s) as [Hsplit Hr].
    rewrite <-Hr, Hsplit. rewrite Hsplit, length_app in Hs.
    specialize (IH (receivePacket s).2 ltac:(lia)).
    destruct (runSocket steps (receivePacket s).2) as [ps s']. cbn [fst snd].
    destruct IH as (IH1 & IH2 & IH3). rewrite <-!app_assoc. split_and!; [by apply sublist_app|done|].
    intros Hle. f_equal. apply IH3. rewrite length_app in Hle. lia.
Qed.
Definition sample_steps : list socketStep :=
  [StepRead (ReadFrom [byte.of_Z 7] (Addr4 (zeros 4)) 40000); StepReceive; StepRead ReadError;
   StepRead (ReadFrom [] (Addr4 (zeros 4)) 40000);
   StepRead (ReadFrom [byte.of_Z 8; byte.of_Z 9] (Addr4 (zeros 4)) 40001); StepRead ReadClosed;
   StepRead (ReadFrom [byte.of_Z 7] (Addr4 (zeros 4)) 40000); StepReceive; StepReceive].
Lemma socket_channel_witness :
  let '(packets, s') := runSocket sample_steps (mkSocketState [] true) in
  rp_data <$> packets = [[byte.of_Z 7]; [byte.of_Z 8; byte.of_Z 9]] ∧
  packets ++ so_packets s' = offered sample_steps true.
Proof.
  pose proof (socket_channel sample_steps (mkSocketState [] true) ltac:(simpl; lia)) as H.
  split; [vm_compute; reflexivity|]. apply H. vm_compute. lia.
Defined.
End SocketIO.
