(* ===== verification/Client.v ===== *)
(** client.go: the client state machine. The state is the Go struct and the
    list of events the client has caused so far. The wall clock, the current
    time and the datagrams a transport delivers are arguments. *)

From S2P Require Import Prelude Constants Float64 Buffer Replay Queue Address Crypto.
From S2P Require Import SampleCrypto Token Packet Socket.

(** The parts of ClientConfig that steer the code: which callbacks are set. *)
Record clientConfig := mkClientConfig {
  cc_networkSimulator : bool;
  cc_stateChangeCallback : bool;
  cc_sendLoopbackPacketCallback : bool;
  cc_overrideSendAndReceive : bool;
  cc_sendPacketOverride : bool;
  cc_receivePacketOverride : bool;
}.

Record Client := mkClient {
  cl_config : clientConfig;
  cl_state : Z;
  cl_time : float64;
  cl_connectStartTime : float64;
  cl_lastPacketSendTime : float64;
  cl_lastPacketReceiveTime : float64;
  cl_shouldDisconnect : bool;
  cl_shouldDisconnectState : Z;
  cl_sequence : Z;
  cl_clientIndex : Z;
  cl_maxClients : Z;
  cl_serverAddressIndex : Z;
  cl_address : Address;
  cl_serverAddress : Address;
  cl_connectToken : connectToken;
  cl_socketHolder : socketHolder;
  cl_readPacketKey : list byte;
  cl_writePacketKey : list byte;
  cl_hasPacketKeys : bool;
  cl_replayProtection : replayProtection;
  cl_packetReceiveQueue : packetQueue (list byte);
  cl_challengeTokenSequence : Z;
  cl_challengeTokenData : list byte;
  cl_loopback : bool;
  cl_events : list event;
}.
#[export] Instance eta_client : Eta Client := λ c,
  mkClient (cl_config c) (cl_state c) (cl_time c) (cl_connectStartTime c) (cl_lastPacketSendTime c)
    (cl_lastPacketReceiveTime c) (cl_shouldDisconnect c) (cl_shouldDisconnectState c) (cl_sequence c)
    (cl_clientIndex c) (cl_maxClients c) (cl_serverAddressIndex c) (cl_address c)
    (cl_serverAddress c) (cl_connectToken c) (cl_socketHolder c) (cl_readPacketKey c)
    (cl_writePacketKey c) (cl_hasPacketKeys c) (cl_replayProtection c) (cl_packetReceiveQueue c)
    (cl_challengeTokenSequence c) (cl_challengeTokenData c) (cl_loopback c) (cl_events c).

(** The datagrams each transport holds when Update runs. *)
Record arrivals := mkArrivals {
  ar_simulator : list receivedDatagram;
  ar_override : list receivedDatagram;
  ar_ipv4 : list receivedDatagram;
  ar_ipv6 : list receivedDatagram;
}.
Definition clientMaxReceivePackets : nat := 64.

Module ClientOps.
(** The struct NewClientDual returns once the addresses are parsed and the
    sockets created. *)
Definition new (config : clientConfig) (address1 : Address) (ipv4 ipv6 : option Address)
  (time : float64) : Client :=
  let socketAddress :=
    if Type_ address1 =? AddressIPv4
    then match ipv4 with Some a => a | None => zeroAddress end
    else match ipv6 with Some a => a | None => zeroAddress end in
  {| cl_config := config; cl_state := ClientStateDisconnected; cl_time := time;
     cl_connectStartTime := f64_0; cl_lastPacketSendTime := f64_m1000;
     cl_lastPacketReceiveTime := f64_m1000; cl_shouldDisconnect := false;
     cl_shouldDisconnectState := ClientStateDisconnected; cl_sequence := 0; cl_clientIndex := 0;
     cl_maxClients := 0; cl_serverAddressIndex := 0;
     cl_address := if cc_networkSimulator config then address1 else socketAddress;
     cl_serverAddress := zeroAddress; cl_connectToken := zeroConnectToken;
     cl_socketHolder := mkSocketHolder ipv4 ipv6; cl_readPacketKey := zeros KeyBytes;
     cl_writePacketKey := zeros KeyBytes; cl_hasPacketKeys := false;
     cl_replayProtection := Replay.reset; cl_packetReceiveQueue := Queue.clear;
     cl_challengeTokenSequence := 0; cl_challengeTokenData := zeros challengeTokenBytes;
     cl_loopback := false; cl_events := [] |}.

Definition emit (evs : list event) : M Client unit := modify (set cl_events (λ l, l ++ evs)).
Definition setState (clientState : Z) : M Client unit :=
  callback ← gets (λ c, cc_stateChangeCallback (cl_config c));
  state ← gets cl_state;
  (if (callback : bool) then emit [EvStateChange state clientState] else mret tt);;
  modify (set cl_state (λ _, clientState)).

Definition resetBeforeNextConnect : M Client unit :=
  modify (λ c, c <| cl_connectStartTime := cl_time c |>
                 <| cl_lastPacketSendTime := f64_sub (cl_time c) f64_1 |>
                 <| cl_lastPacketReceiveTime := cl_time c |>
                 <| cl_shouldDisconnect := false |>
                 <| cl_shouldDisconnectState := ClientStateDisconnected |>
                 <| cl_challengeTokenSequence := 0 |>
                 <| cl_challengeTokenData := zeros challengeTokenBytes |>
                 <| cl_replayProtection := Replay.reset |>).

Definition resetConnectionData (clientState : Z) : M Client unit :=
  modify (λ c, c <| cl_sequence := 0 |> <| cl_loopback := false |> <| cl_clientIndex := 0 |>
                 <| cl_maxClients := 0 |> <| cl_connectStartTime := f64_0 |>
                 <| cl_serverAddressIndex := 0 |> <| cl_serverAddress := zeroAddress |>
                 <| cl_connectToken := zeroConnectToken |>
                 <| cl_readPacketKey := zeros KeyBytes |> <| cl_writePacketKey := zeros KeyBytes |>
                 <| cl_hasPacketKeys := false |>);;
  setState clientState;;
  resetBeforeNextConnect;;
  modify (set cl_packetReceiveQueue (λ _, Queue.clear)).

Section sending.
Context `{C : CryptoLib}.

Definition sendPacketToServerInternal (p : packet) : M Client unit :=
  c ← gets id;
  '(packetBytes, packetData) ←
    lift (writePacket p (zeros maxPacketBytes) (cl_sequence c) (cl_writePacketKey c)
            (ct_protocolID (cl_connectToken c)));
  modify (set cl_sequence (λ s, u64 (s + 1)));;
  if bool_decide (packetBytes = 0%nat) then mret tt
  else
    (let sendPacketOverride :=
       if cc_overrideSendAndReceive (cl_config c) then cc_sendPacketOverride (cl_config c) else false in
     emit (sendPacketToAddress (cc_networkSimulator (cl_config c)) sendPacketOverride
             (cl_socketHolder c) (cl_address c) (cl_serverAddress c) (take packetBytes packetData));;
     modify (λ c, c <| cl_lastPacketSendTime := cl_time c |>)).

Definition disconnectInternal (destinationState : Z) (sendDisconnectPackets : bool) : M Client unit :=
  c ← gets id;
  if (cl_state c <=? ClientStateDisconnected) || (cl_state c =? destinationState) then mret tt
  else
    ((if negb (cl_loopback c) && sendDisconnectPackets && (cl_state c >? ClientStateDisconnected)
      then for_ (seqZ 0 numDisconnectPackets) (λ _, sendPacketToServerInternal Disconnect)
      else mret tt);;
     resetConnectionData destinationState).
Definition Disconnect_ : M Client unit := disconnectInternal ClientStateDisconnected true.

Definition Connect (connectTokenData : list byte) : M Client unit :=
  Disconnect_;;
  token ← gets cl_connectToken;
  '(err, token) ← lift (Public.read token connectTokenData);
  modify (set cl_connectToken (λ _, token));;
  match err with
  | Some _ => setState ClientStateInvalidConnectToken
  | None =>
      address ← lift (aget (ct_serverAddresses token) 0);
      modify (λ c, c <| cl_serverAddressIndex := 0 |> <| cl_serverAddress := address |>
                     <| cl_readPacketKey := ct_serverToClientKey token |>
                     <| cl_writePacketKey := ct_clientToServerKey token |>
                     <| cl_hasPacketKeys := true |>);;
      resetBeforeNextConnect;;
      setState ClientStateSendingConnectionRequest
  end.

Definition processPacketInternal (from : Address) (p : packet) (sequence : Z) : M Client unit :=
  c ← gets id;
  let fromServer := Equal from (cl_serverAddress c) in
  match p with
  | Denied =>
      if ((cl_state c =? ClientStateSendingConnectionRequest) ||
          (cl_state c =? ClientStateSendingConnectionResponse)) && fromServer
      then modify (λ c, c <| cl_shouldDisconnect := true |>
                          <| cl_shouldDisconnectState := ClientStateConnectionDenied |>
                          <| cl_lastPacketReceiveTime := cl_time c |>)
      else mret tt
  | Challenge_ challengeTokenSequence challengeTokenData =>
      if (cl_state c =? ClientStateSendingConnectionRequest) && fromServer
      then
        modify (λ c, c <| cl_challengeTokenSequence := challengeTokenSequence |>
                       <| cl_challengeTokenData := challengeTokenData |>
                       <| cl_lastPacketReceiveTime := cl_time c |>);;
        setState ClientStateSendingConnectionResponse
      else mret tt
  | KeepAlive clientIndex maxClients =>
      if fromServer then
        (if cl_state c =? ClientStateConnected
         then modify (λ c, c <| cl_lastPacketReceiveTime := cl_time c |>)
         else if cl_state c =? ClientStateSendingConnectionResponse
         then
           modify (λ c, c <| cl_lastPacketReceiveTime := cl_time c |>
                          <| cl_clientIndex := clientIndex |> <| cl_maxClients := maxClients |>);;
           setState ClientStateConnected
         else mret tt)
      else mret tt
  | Payload payloadData =>
      if (cl_state c =? ClientStateConnected) && fromServer
      then
        _ ← zoom cl_packetReceiveQueue (Queue.push payloadData sequence);
        modify (λ c, c <| cl_lastPacketReceiveTime := cl_time c |>)
      else mret tt
  | Disconnect =>
      if (cl_state c =? ClientStateConnected) && fromServer
      then modify (λ c, c <| cl_shouldDisconnect := true |>
                          <| cl_shouldDisconnectState := ClientStateDisconnected |>
                          <| cl_lastPacketReceiveTime := cl_time c |>)
      else mret tt
  | Request _ | Response _ _ => mret tt
  end.

(** Denied, challenge, keep alive, payload and disconnect. *)
Definition clientAllowedPackets : list bool := [false; true; true; false; true; true; true].

Definition ProcessPacket (now : Z) (from : Address) (packetData : list byte) : M Client unit :=
  c ← gets id;
  let readPacketKey := if cl_hasPacketKeys c then Some (cl_readPacketKey c) else None in
  res ← lift (readPacket packetData readPacketKey (ct_protocolID (cl_connectToken c)) now 0 None
                clientAllowedPackets (Some (cl_replayProtection c)));
  (match rd_replay res with
   | Some rp => modify (set cl_replayProtection (λ _, rp))
   | None => mret tt
   end);;
  match rd_packet res with
  | None => mret tt
  | Some p => processPacketInternal from p (rd_sequence res)
  end.

(** The loop of receivePackets over what one transport delivers. ProcessPacket
    does not assign serverAddress, so every iteration picks the same socket. *)
Definition processAll (now : Z) (l : list receivedDatagram) : M Client unit :=
  for_ l (λ pkt, ProcessPacket now (rp_from pkt) (rp_data pkt)).
Definition receivePackets (now : Z) (arr : arrivals) : M Client unit :=
  c ← gets id;
  if negb (cc_networkSimulator (cl_config c)) then
    (if cc_overrideSendAndReceive (cl_config c) then
       (if cc_receivePacketOverride (cl_config c) then processAll now (ar_override arr) else panic)
     else if Type_ (cl_serverAddress c) =? AddressIPv4 then
       (if is_some (sh_ipv4 (cl_socketHolder c)) then processAll now (ar_ipv4 arr) else mret tt)
     else if Type_ (cl_serverAddress c) =? AddressIPv6 then
       (if is_some (sh_ipv6 (cl_socketHolder c)) then processAll now (ar_ipv6 arr) else mret tt)
     else mret tt)
  else processAll now (take clientMaxReceivePackets (ar_simulator arr)).

(** client.lastPacketSendTime+(1.0/packetSendRate) >= client.time *)
Definition sentRecently (c : Client) : bool :=
  f64_leb (cl_time c) (f64_add (cl_lastPacketSendTime c) sendInterval).

Definition sendPackets : M Client unit :=
  c ← gets id;
  let token := cl_connectToken c in
  if cl_state c =? ClientStateSendingConnectionRequest then
    (if sentRecently c then mret tt
     else sendPacketToServerInternal
            (Request (mkRequest versionInfo (ct_protocolID token) (ct_expireTimestamp token)
                        (ct_nonce token) (ct_privateData token))))
  else if cl_state c =? ClientStateSendingConnectionResponse then
    (if sentRecently c then mret tt
     else sendPacketToServerInternal
            (Response (cl_challengeTokenSequence c) (cl_challengeTokenData c)))
  else if cl_state c =? ClientStateConnected then
    (if sentRecently c then mret tt else sendPacketToServerInternal (KeepAlive 0 0))
  else mret tt.

Definition connectToNextServer : M Client bool :=
  c ← gets id;
  if cl_serverAddressIndex c + 1 >=? ct_numServerAddresses (cl_connectToken c) then mret false
  else
    (modify (set cl_serverAddressIndex (λ i, i + 1));;
     address ← lift (aget (ct_serverAddresses (cl_connectToken c)) (cl_serverAddressIndex c + 1));
     modify (set cl_serverAddress (λ _, address));;
     resetBeforeNextConnect;;
     setState ClientStateSendingConnectionRequest;;
     mret true).

(** timeoutSeconds > 0 && lastPacketReceiveTime+float64(timeoutSeconds) < time *)
Definition timedOut (c : Client) (time : float64) : bool :=
  (ct_timeoutSeconds (cl_connectToken c) >? 0) &&
  f64_ltb (f64_add (cl_lastPacketReceiveTime c) (f64_of_Z (ct_timeoutSeconds (cl_connectToken c)))) time.

(** if client.connectToNextServer() { return }; client.disconnectInternal(state, false) *)
Definition nextServerOr (state : Z) : M Client unit :=
  next ← connectToNextServer;
  if (next : bool) then mret tt else disconnectInternal state false.

(** The rest of Update, after packets were received and sent. *)
Definition checkTimeouts (time : float64) : M Client unit :=
  c ← gets id;
  let connectTokenExpireSeconds :=
    u64 (ct_expireTimestamp (cl_connectToken c) - ct_createTimestamp (cl_connectToken c)) in
  if (cl_state c >? ClientStateDisconnected) && (cl_state c <? ClientStateConnected) &&
     f64_leb (f64_of_Z connectTokenExpireSeconds) (f64_sub (cl_time c) (cl_connectStartTime c))
  then disconnectInternal ClientStateConnectTokenExpired false
  else if cl_shouldDisconnect c then nextServerOr (cl_shouldDisconnectState c)
  else if cl_state c =? ClientStateSendingConnectionRequest then
    (if timedOut c time then nextServerOr ClientStateConnectionRequestTimedOut else mret tt)
  else if cl_state c =? ClientStateSendingConnectionResponse then
    (if timedOut c time then nextServerOr ClientStateConnectionResponseTimedOut else mret tt)
  else if cl_state c =? ClientStateConnected then
    (if timedOut c time then disconnectInternal ClientStateConnectionTimedOut false else mret tt)
  else mret tt.

Definition Update (now : Z) (arr : arrivals) (time : float64) : M Client unit :=
  modify (set cl_time (λ _, time));;
  loopback ← gets cl_loopback;
  if (loopback : bool) then mret tt
  else (receivePackets now arr;; sendPackets;; checkTimeouts time).

Definition SendPacket (packetData : list byte) : M Client unit :=
  c ← gets id;
  if bool_decide (length packetData ≤ 0)%nat || bool_decide (MaxPacketSize < length packetData)%nat
  then mret tt
  else if negb (cl_state c =? ClientStateConnected) then mret tt
  else if negb (cl_loopback c) then sendPacketToServerInternal (Payload packetData)
  else if cc_sendLoopbackPacketCallback (cl_config c) then
    emit [EvLoopback (cl_clientIndex c) packetData (cl_sequence c)];;
    modify (set cl_sequence (λ s, u64 (s + 1)))
  else panic.
End sending.

Definition ReceivePacket : M Client (option (list byte) * Z) :=
  '(packet, sequence) ← zoom cl_packetReceiveQueue Queue.pop;
  match packet with
  | None => mret (None, 0)
  | Some payloadData => mret (Some payloadData, sequence)
  end.

Definition NextPacketSequence (c : Client) : Z := cl_sequence c.
Definition State (c : Client) : Z := cl_state c.
Definition Index (c : Client) : Z := cl_clientIndex c.
Definition MaxClients_ (c : Client) : Z := cl_maxClients c.
Definition Loopback (c : Client) : bool := cl_loopback c.
Definition ServerAddress (c : Client) : Address := cl_serverAddress c.
Definition Port_ (c : Client) : Z :=
  if Type_ (cl_address c) =? AddressIPv4
  then match sh_ipv4 (cl_socketHolder c) with Some a => Port a | None => 0 end
  else match sh_ipv6 (cl_socketHolder c) with Some a => Port a | None => 0 end.

Definition ConnectLoopback (clientIndex maxClients : Z) : M Client unit :=
  modify (λ c, c <| cl_state := ClientStateConnected |> <| cl_clientIndex := clientIndex |>
                 <| cl_maxClients := maxClients |> <| cl_loopback := true |>).
Definition DisconnectLoopback : M Client unit := resetConnectionData ClientStateDisconnected.

Definition ProcessLoopbackPacket (packetData : list byte) (packetSequence : Z) : M Client unit :=
  c ← gets id;
  if negb (cl_loopback c) then mret tt
  else if bool_decide (length packetData ≤ 0)%nat || bool_decide (MaxPacketSize < length packetData)%nat
  then mret tt
  else (_ ← zoom cl_packetReceiveQueue (Queue.push packetData packetSequence); mret tt).

Definition Close `{C : CryptoLib} : M Client unit :=
  loopback ← gets cl_loopback;
  (if negb loopback then Disconnect_ else DisconnectLoopback);;
  emit [EvDestroySockets];;
  modify (set cl_packetReceiveQueue (λ _, Queue.clear)).
End ClientOps.

(** * Properties *)

Record client_wf (c : Client) : Prop := {
  cw_state : ClientStateConnectTokenExpired ≤ cl_state c ≤ ClientStateConnected;
  cw_sequence : is_u64 (cl_sequence c);
  cw_shape : public_shape (cl_connectToken c);
  cw_replay : replay_wf (cl_replayProtection c);
  cw_queue : queue_wf (cl_packetReceiveQueue c);
  cw_challenge : valid_encrypted (Response (cl_challengeTokenSequence c) (cl_challengeTokenData c));
  cw_readKey : length (cl_readPacketKey c) = KeyBytes;
  cw_writeKey : length (cl_writePacketKey c) = KeyBytes;
  (** Disconnected, or in an error state: no keys, nothing sent. *)
  cw_idle : cl_state c ≤ ClientStateDisconnected →
    cl_sequence c = 0 ∧ cl_hasPacketKeys c = false ∧ cl_shouldDisconnect c = false ∧
    cl_loopback c = false;
  (** Connecting or connected over the network: a valid token, one of its
      servers selected, and its keys installed. *)
  cw_active : ClientStateDisconnected < cl_state c → cl_loopback c = false →
    cl_hasPacketKeys c = true ∧ wf_public (cl_connectToken c) ∧
    0 ≤ cl_serverAddressIndex c < ct_numServerAddresses (cl_connectToken c);
  cw_reason : cl_shouldDisconnect c = true →
    cl_shouldDisconnectState c = ClientStateConnectionDenied ∨
    cl_shouldDisconnectState c = ClientStateDisconnected;
}.

(** Update calls ReceivePacketOverride without a test when the configuration
    replaces the sockets. *)
Definition receive_ok (cfg : clientConfig) : Prop :=
  cc_networkSimulator cfg = false → cc_overrideSendAndReceive cfg = true →
  cc_receivePacketOverride cfg = true.
(** So does SendPacket with SendLoopbackPacketCallback, on a loopback client. *)
Definition send_ok (c : Client) : Prop :=
  cl_loopback c = true → cc_sendLoopbackPacketCallback (cl_config c) = true.

Section client_facts.
Context {C : CryptoLib} {L : CryptoLaws C}.

(** ** What a client puts on the wire

    [emitted key pid s ds n]: the datagrams [ds] are encodings of packets under
    [n] consecutive sequence numbers from [s] on, each used at most once. *)
Inductive emitted (key : list byte) (pid s : Z) : list (Address * list byte) → Z → Prop :=
| emitted_nil : emitted key pid s [] 0
| emitted_skip ds n : emitted key pid s ds n → emitted key pid s ds (n + 1)
| emitted_send ds n p to len b :
    emitted key pid s ds n →
    writePacket p (zeros maxPacketBytes) (u64 (s + n)) key pid = Some (len, b) →
    emitted key pid s (ds ++ [(to, take len b)]) (n + 1).

Lemma emitted_nonneg key pid s ds n : emitted key pid s ds n → 0 ≤ n.
Proof. induction 1; lia. Qed.
Lemma emitted_app key pid s ds n ds' m :
  emitted key pid s ds n → emitted key pid (u64 (s + n)) ds' m →
  emitted key pid s (ds ++ ds') (n + m).
Proof.
  intros H1 H2. induction H2 as [|ds' m _ IH|ds' m p to len b _ IH Hw].
  - by rewrite app_nil_r, Z.add_0_r.
  - rewrite Z.add_assoc. by constructor.
  - rewrite Z.add_assoc, app_assoc. apply emitted_send with p; [done|]. rewrite <-Hw. f_equal.
    unfold u64. rewrite Zplus_mod_idemp_l. f_equal. lia.
Qed.

(** From [c] to [c'] the connection goes on: same token and key, and the
    datagrams sent in between used the [n] next sequence numbers. *)
Record continues (c c' : Client) (n : Z) : Prop := {
  cn_config : cl_config c' = cl_config c;
  cn_token : cl_connectToken c' = cl_connectToken c;
  cn_key : cl_writePacketKey c' = cl_writePacketKey c;
  cn_loopback : cl_loopback c' = cl_loopback c;
  cn_sequence : cl_sequence c' = u64 (cl_sequence c + n);
  cn_emits : ∃ ds, datagrams (cl_events c') = datagrams (cl_events c) ++ ds ∧
    emitted (cl_writePacketKey c) (ct_protocolID (cl_connectToken c)) (cl_sequence c) ds n;
}.
Lemma continues_trans c1 c2 c3 n m :
  continues c1 c2 n → continues c2 c3 m → continues c1 c3 (n + m).
Proof.
  intros [A1 B1 C1 G1 D1 (ds1 & E1 & F1)] [A2 B2 C2 G2 D2 (ds2 & E2 & F2)].
  split; try congruence.
  - rewrite D2, D1. unfold u64. rewrite Zplus_mod_idemp_l. f_equal. lia.
  - exists (ds1 ++ ds2). rewrite E2, E1, app_assoc. split; [done|].
    rewrite C1, B1, D1 in F2. by apply emitted_app.
Qed.
(** Changes that send nothing and leave the connection data alone. *)
Lemma continues_quiet c c' :
  is_u64 (cl_sequence c) → cl_config c' = cl_config c → cl_connectToken c' = cl_connectToken c →
  cl_writePacketKey c' = cl_writePacketKey c → cl_loopback c' = cl_loopback c →
  cl_sequence c' = cl_sequence c →
  datagrams (cl_events c') = datagrams (cl_events c) → continues c c' 0.
Proof.
  intros Hs ???? Hseq Hd. split; try done.
  - by rewrite Z.add_0_r, u64_id.
  - exists []. rewrite app_nil_r. split; [done|constructor].
Qed.

(** ** The helpers *)
Lemma wp_setState st Q c :
  (∀ evs, datagrams evs = [] →
     Q tt (c <| cl_events := cl_events c ++ evs |> <| cl_state := st |>)) →
  wp (ClientOps.setState st) Q c.
Proof.
  intros H. unfold ClientOps.setState. apply wp_bind, wp_gets, wp_bind, wp_gets, wp_bind.
  destruct (cc_stateChangeCallback (cl_config c)).
  - apply wp_modify, wp_modify. by apply H.
  - apply wp_ret, wp_modify. specialize (H [] eq_refl). rewrite app_nil_r in H. by destruct c.
Qed.

(** Packets a client can send. *)
Definition sendable (p : packet) : Prop :=
  match p with Request r => request_shape r | _ => valid_encrypted p end.
Lemma sendable_total p s key pid :
  sendable p → is_u64 s → ∃ n b, writePacket p (zeros maxPacketBytes) s key pid = Some (n, b).
Proof.
  intros Hp Hs. destruct p as [r| | | | | |];
    [rewrite writeRequest_spec; [eauto|done|by rewrite length_zeros]|..];
    (edestruct (writePacket_total _ (zeros maxPacketBytes) s key pid Hp Hs) as (n & b & -> & _);
       [by rewrite length_zeros|eauto]).
Qed.

(** Sending: the client keeps its state, the next sequence number is used up. *)
Definition same_status (c c' : Client) : Prop :=
  cl_state c' = cl_state c ∧ cl_loopback c' = cl_loopback c ∧
  cl_shouldDisconnect c' = cl_shouldDisconnect c ∧ cl_time c' = cl_time c ∧
  cl_shouldDisconnectState c' = cl_shouldDisconnectState c ∧
  cl_serverAddressIndex c' = cl_serverAddressIndex c ∧
  cl_connectStartTime c' = cl_connectStartTime c ∧
  cl_lastPacketReceiveTime c' = cl_lastPacketReceiveTime c.

Lemma client_wf_sent c c' :
  client_wf c → ClientStateDisconnected < cl_state c →
  c' = c <| cl_sequence := u64 (cl_sequence c + 1) |> ∨
  (∃ evs, c' = c <| cl_sequence := u64 (cl_sequence c + 1) |>
                 <| cl_events := cl_events c ++ evs |> <| cl_lastPacketSendTime := cl_time c |>) →
  client_wf c'.
Proof.
  intros Hwf Hst Hc. destruct Hwf. destruct Hc as [->|[evs ->]]; split; simpl; auto using u64_range.
  all: intros; unfold_constants; lia.
Qed.

Lemma sendPacketToServerInternal_wp p c :
  client_wf c → ClientStateDisconnected < cl_state c → sendable p →
  wp (ClientOps.sendPacketToServerInternal p)
    (λ _ c', client_wf c' ∧ continues c c' 1 ∧ same_status c c') c.
Proof.
  intros Hwf Hst Hp. unfold ClientOps.sendPacketToServerInternal.
  apply wp_bind, wp_gets. cbv beta delta [id].
  destruct (sendable_total p (cl_sequence c) (cl_writePacketKey c) (ct_protocolID (cl_connectToken c)) Hp
              (cw_sequence _ Hwf)) as (n & b & Hw).
  apply wp_bind. eapply wp_lift; [done|]. apply wp_bind, wp_modify.
  case_bool_decide as Hn.
  - apply wp_ret. split; [eapply client_wf_sent; eauto|]. split; [|by repeat split].
    split; try done. exists []. rewrite app_nil_r. split; [done|].
    apply (emitted_skip _ _ _ [] 0). constructor.
  - apply wp_bind, wp_modify, wp_modify. set (evs := sendPacketToAddress _ _ _ _ _ _).
    split; [eapply client_wf_sent; eauto|]. split; [|by repeat split].
    split; try done. exists (datagrams evs). split; [simpl; by rewrite datagrams_app|].
    unfold evs. rewrite datagrams_send. destruct (reachable _ _ _ _).
    + apply (emitted_send _ _ _ [] 0 p _ n b); [constructor|].
      by rewrite Z.add_0_r, u64_id by apply Hwf.
    + apply (emitted_skip _ _ _ [] 0). constructor.
Qed.

(** ** Leaving a connection *)

(** The client holds nothing of a connection any more. *)
Record idle_at (st : Z) (c : Client) : Prop := {
  ia_state : cl_state c = st;
  ia_token : cl_connectToken c = zeroConnectToken;
  ia_readKey : cl_readPacketKey c = zeros KeyBytes;
  ia_writeKey : cl_writePacketKey c = zeros KeyBytes;
  ia_noKeys : cl_hasPacketKeys c = false;
  ia_queue : cl_packetReceiveQueue c = Queue.clear;
  ia_replay : cl_replayProtection c = Replay.reset;
}.
Definition idle_state (st : Z) : Prop := ClientStateConnectTokenExpired ≤ st ≤ ClientStateDisconnected.

Lemma resetConnectionData_wp st c :
  idle_state st →
  wp (ClientOps.resetConnectionData st)
    (λ _ c', client_wf c' ∧ idle_at st c' ∧ cl_config c' = cl_config c ∧
       datagrams (cl_events c') = datagrams (cl_events c)) c.
Proof.
  intros Hst. unfold ClientOps.resetConnectionData. apply wp_bind, wp_modify, wp_bind, wp_setState.
  intros evs Hevs. apply wp_bind, wp_modify, wp_modify.
  split_and!; [|done|done|simpl; by rewrite datagrams_app, Hevs, app_nil_r].
  unfold idle_state in Hst.
  split; simpl; auto using zeroConnectToken_shape, length_zeros with go; unfold_constants; try done; lia.
Qed.

(** The ten disconnect packets. *)
Lemma sendDisconnects_wp c :
  client_wf c → ClientStateDisconnected < cl_state c →
  wp (for_ (seqZ 0 numDisconnectPackets) (λ _, ClientOps.sendPacketToServerInternal Disconnect))
    (λ _ c', client_wf c' ∧ ClientStateDisconnected < cl_state c' ∧ continues c c' numDisconnectPackets) c.
Proof.
  intros Hwf Hst.
  apply (wp_for (λ l c', client_wf c' ∧ ClientStateDisconnected < cl_state c' ∧
                         continues c c' (numDisconnectPackets - Z.of_nat (length l)))).
  - split_and!; [done..|]. by apply continues_quiet; [apply Hwf|..].
  - intros i l c1 (Hwf1 & Hst1 & Hc1).
    eapply wp_mono; [by apply sendPacketToServerInternal_wp|].
    intros _ c2 (Hwf2 & Hc2 & (-> & _)). split_and!; [done..|].
    pose proof (continues_trans _ _ _ _ _ Hc1 Hc2) as H. cbn [length] in H.
    by replace (numDisconnectPackets - Z.of_nat (length l))
      with (numDisconnectPackets - Z.of_nat (S (length l)) + 1) by lia.
Qed.

(** What one operation sends (at most [k] packets), and how it leaves the
    connection. *)
Record progress (k : Z) (c c' : Client) : Prop := {
  pg_wf : client_wf c';
  pg_config : cl_config c' = cl_config c;
  pg_emits : ∃ ds n, datagrams (cl_events c') = datagrams (cl_events c) ++ ds ∧
    emitted (cl_writePacketKey c) (ct_protocolID (cl_connectToken c)) (cl_sequence c) ds n ∧ n ≤ k ∧
    (cl_state c' ≤ ClientStateDisconnected ∨
     (cl_connectToken c' = cl_connectToken c ∧ cl_writePacketKey c' = cl_writePacketKey c ∧
      cl_loopback c' = cl_loopback c ∧ cl_sequence c' = u64 (cl_sequence c + n)));
}.
Lemma continues_progress k c c' n : client_wf c' → continues c c' n → n ≤ k → progress k c c'.
Proof.
  intros Hwf [H1 H2 H3 Hl H4 (ds & H5 & H6)] Hn. split; try done. exists ds, n.
  split_and!; [done..|right; by split_and!].
Qed.
Lemma progress_mono k k' c c' : progress k c c' → k ≤ k' → progress k' c c'.
Proof.
  intros [H1 H2 (ds & n & H3 & H4 & H5 & H6)] Hk. split; try done. exists ds, n.
  split_and!; [done|done|lia|done].
Qed.
(** A connection that goes on, and then makes progress. *)
Lemma progress_after k c c1 c2 n : continues c c1 n → progress k c1 c2 → progress (n + k) c c2.
Proof.
  intros Hc [Hwf Hcfg (ds & m & Hd & He & Hm & Hend)].
  split; [done|by rewrite Hcfg; apply Hc|].
  destruct Hc as [_ Ht Hk Hl Hs (ds1 & Hd1 & He1)]. rewrite Ht, Hk, Hl, Hs in *.
  exists (ds1 ++ ds), (n + m). rewrite Hd, Hd1, app_assoc. split_and!; [done|by apply emitted_app|lia|].
  destruct Hend as [|(? & ? & ? & ->)]; [by left|right]. split_and!; [done..|].
  unfold u64. rewrite Zplus_mod_idemp_l. f_equal. lia.
Qed.

Lemma disconnectInternal_wp dest send c :
  client_wf c → idle_state dest →
  wp (ClientOps.disconnectInternal dest send)
    (λ _ c', progress (if send then numDisconnectPackets else 0) c c' ∧
       cl_state c' ≤ ClientStateDisconnected ∧
       (cl_state c ≤ ClientStateDisconnected → c' = c) ∧
       (ClientStateDisconnected < cl_state c → idle_at dest c')) c.
Proof.
  intros Hwf Hdest. unfold ClientOps.disconnectInternal. apply wp_bind, wp_gets. cbv beta delta [id].
  unfold idle_state in Hdest.
  destruct (Z.leb_spec (cl_state c) ClientStateDisconnected) as [Hle|Hgt]; cbn [orb].
  { apply wp_ret. split_and!; [|done|done|lia].
    apply (continues_progress _ _ _ 0); [done| |by destruct send].
    apply continues_quiet; try done. apply Hwf. }
  destruct (Z.eqb_spec (cl_state c) dest); [lia|].
  apply wp_bind.
  eapply (wp_mono _ (λ _ c', client_wf c' ∧ ∃ n, continues c c' n ∧
                             n ≤ if send then numDisconnectPackets else 0)).
  - destruct (negb (cl_loopback c) && send && _) eqn:Hcond.
    + eapply wp_mono; [by apply sendDisconnects_wp|]. intros _ c' (? & _ & ?). split; [done|].
      exists numDisconnectPackets. split; [done|]. destruct send; [done|].
      rewrite andb_false_r in Hcond. done.
    + apply wp_ret. split; [done|]. exists 0. split; [|by destruct send].
      apply continues_quiet; try done. apply Hwf.
  - intros _ c1 (Hwf1 & k & Hc1 & Hk).
    eapply wp_mono; [by apply (resetConnectionData_wp dest)|].
    intros _ c2 (Hwf2 & Hidle & Hcfg & Hd). split_and!; [|rewrite (ia_state _ _ Hidle); lia|lia|done].
    eapply progress_mono; [eapply (progress_after 0); [done|]|lia]. split; [done|done|].
    exists [], 0. rewrite app_nil_r. split_and!; [done|constructor|lia|].
    left. rewrite (ia_state _ _ Hidle). lia.
Qed.
Lemma Disconnect_wp c :
  client_wf c →
  wp ClientOps.Disconnect_
    (λ _ c', progress numDisconnectPackets c c' ∧ cl_state c' ≤ ClientStateDisconnected ∧
       (cl_state c ≤ ClientStateDisconnected → c' = c)) c.
Proof.
  intros Hwf. eapply wp_mono.
  - apply (disconnectInternal_wp ClientStateDisconnected true c Hwf). unfold idle_state. clia.
  - intros [] c' (? & ? & ? & _). done.
Qed.

(** ** Packets from the server *)

(** The only state changes a packet causes, and only one from the server the
    client talks to. *)
Definition transition (from : Address) (p : packet) (c c' : Client) : Prop :=
  cl_state c' = cl_state c ∨
  (Equal from (cl_serverAddress c) = true ∧
   ((∃ s d, p = Challenge_ s d ∧ cl_state c = ClientStateSendingConnectionRequest ∧
       cl_state c' = ClientStateSendingConnectionResponse ∧
       cl_challengeTokenSequence c' = s ∧ cl_challengeTokenData c' = d) ∨
    (∃ i m, p = KeepAlive i m ∧ cl_state c = ClientStateSendingConnectionResponse ∧
       cl_state c' = ClientStateConnected ∧ cl_clientIndex c' = i ∧ cl_maxClients c' = m))).

Record handled (from : Address) (p : packet) (c c' : Client) : Prop := {
  hd_wf : client_wf c';
  hd_continues : continues c c' 0;
  hd_loopback : cl_loopback c' = cl_loopback c;
  hd_transition : transition from p c c';
  hd_foreign : Equal from (cl_serverAddress c) = false → c' = c;
  hd_idle : cl_state c ≤ ClientStateDisconnected → c' = c;
}.
Lemma handled_refl from p c : client_wf c → handled from p c c.
Proof.
  intros Hwf. split; try done; [|by left]. apply continues_quiet; try done. apply Hwf.
Qed.

(** A guarded update of an active client. *)
Lemma handled_update from p c c' :
  client_wf c → client_wf c' → Equal from (cl_serverAddress c) = true →
  ClientStateDisconnected < cl_state c →
  cl_config c' = cl_config c → cl_connectToken c' = cl_connectToken c →
  cl_writePacketKey c' = cl_writePacketKey c → cl_sequence c' = cl_sequence c →
  datagrams (cl_events c') = datagrams (cl_events c) → cl_loopback c' = cl_loopback c →
  transition from p c c' → handled from p c c'.
Proof.
  intros Hwf ? Heq Hst ??????. split; try done; [|by rewrite Heq|lia].
  apply continues_quiet; try done. apply Hwf.
Qed.

Ltac wf_update Hwf :=
  destruct Hwf; split; simpl; auto; unfold_constants; try lia; try done; intros; try lia; auto;
  try match goal with H : _ < cl_state _ → _ |- _ => apply H; [lia|assumption] end.

Lemma processPacketInternal_wp from p s c :
  client_wf c → valid_encrypted p →
  wp (ClientOps.processPacketInternal from p s) (λ _ c', handled from p c c') c.
Proof.
  intros Hwf Hp. unfold ClientOps.processPacketInternal. apply wp_bind, wp_gets. cbv beta delta [id].
  pose proof (handled_refl from p c Hwf) as Hrefl.
  destruct p as [r| |cs cd|cs cd|ci cm|d|]; try done; cbv zeta.
  - destruct (Z.eqb_spec (cl_state c) ClientStateSendingConnectionRequest) as [H1|H1];
      [|destruct (Z.eqb_spec (cl_state c) ClientStateSendingConnectionResponse) as [H2|H2]];
      cbn [orb andb]; try (by apply wp_ret);
      (destruct (Equal from (cl_serverAddress c)) eqn:Heq; [|by apply wp_ret]);
      apply wp_modify; (apply handled_update; try done; [by wf_update Hwf|unfold_constants; lia|by left]).
  - destruct (Z.eqb_spec (cl_state c) ClientStateSendingConnectionRequest) as [H1|H1];
      cbn [andb]; [|by apply wp_ret].
    destruct (Equal from (cl_serverAddress c)) eqn:Heq; [|by apply wp_ret].
    apply wp_bind, wp_modify, wp_setState. intros evs Hevs.
    apply handled_update; try done.
    + wf_update Hwf.
    + unfold_constants; lia.
    + simpl. by rewrite datagrams_app, Hevs, app_nil_r.
    + right. split; [done|]. left. by exists cs, cd.
  - destruct (Equal from (cl_serverAddress c)) eqn:Heq; [|by apply wp_ret].
    destruct (Z.eqb_spec (cl_state c) ClientStateConnected) as [H1|H1].
    { apply wp_modify. apply handled_update; try done; [by wf_update Hwf|unfold_constants; lia|by left]. }
    destruct (Z.eqb_spec (cl_state c) ClientStateSendingConnectionResponse) as [H2|H2]; [|by apply wp_ret].
    apply wp_bind, wp_modify, wp_setState. intros evs Hevs.
    apply handled_update; try done.
    + wf_update Hwf.
    + unfold_constants; lia.
    + simpl. by rewrite datagrams_app, Hevs, app_nil_r.
    + right. split; [done|]. right. by exists ci, cm.
  - destruct (Z.eqb_spec (cl_state c) ClientStateConnected) as [H1|H1]; cbn [andb]; [|by apply wp_ret].
    destruct (Equal from (cl_serverAddress c)) eqn:Heq; [|by apply wp_ret].
    destruct (push_total (cl_packetReceiveQueue c) d s (cw_queue _ Hwf)) as (b & q & Hpush & Hq).
    apply wp_bind, wp_zoom. eapply wp_run; [done|]. apply wp_modify.
    apply handled_update; try done; [by wf_update Hwf|unfold_constants; lia|by left].
  - destruct (Z.eqb_spec (cl_state c) ClientStateConnected) as [H1|H1]; cbn [andb]; [|by apply wp_ret].
    destruct (Equal from (cl_serverAddress c)) eqn:Heq; [|by apply wp_ret].
    apply wp_modify. apply handled_update; try done; [by wf_update Hwf|unfold_constants; lia|by left].
Qed.

(** A datagram changes the client only when it is sealed under the read key;
    its sequence number then enters the replay window, and the packet inside,
    if any, is handled. *)
Inductive received (from : Address) (data : list byte) (c : Client) : Client → Prop :=
| ReceivedNothing : received from data c c
| ReceivedPacket type sb plain rp op c' :
    cl_hasPacketKeys c = true →
    data = sealed_packet (cl_readPacketKey c) (ct_protocolID (cl_connectToken c)) type sb plain →
    replay_check (Some (cl_replayProtection c)) type (le_combine sb) = Some false →
    replay_advance (Some (cl_replayProtection c)) type (le_combine sb) = Some (Some rp) →
    body_of type plain op →
    match op with
    | None => c' = c <| cl_replayProtection := rp |>
    | Some p => handled from p (c <| cl_replayProtection := rp |>) c'
    end →
    (1 ≤ length sb ≤ 8)%nat ∧ 0 ≤ type < connectionNumPackets →
    received from data c c'.

Lemma client_wf_replay c rp : client_wf c → replay_wf rp → client_wf (c <| cl_replayProtection := rp |>).
Proof. intros Hwf Hrp. by wf_update Hwf. Qed.

Lemma client_wf_heard c q time :
  client_wf c → queue_wf q →
  client_wf (c <| cl_packetReceiveQueue := q |> <| cl_lastPacketReceiveTime := time |>).
Proof. intros Hwf Hq. by wf_update Hwf. Qed.

Lemma ProcessPacket_wp now from data c :
  client_wf c → wp (ClientOps.ProcessPacket now from data) (λ _ c', received from data c c') c.
Proof.
  intros Hwf. unfold ClientOps.ProcessPacket. apply wp_bind, wp_gets. cbv beta delta [id] zeta.
  edestruct (readPacket_total data (if cl_hasPacketKeys c then Some (cl_readPacketKey c) else None)
    (ct_protocolID (cl_connectToken c)) now 0 None ClientOps.clientAllowedPackets
    (Some (cl_replayProtection c))) as (res & Hread & Hout); [done|apply Hwf|].
  apply wp_bind. eapply wp_lift; [done|].
  destruct Hout as [s|key type sb plain op replay' Hkey Hdata Hsb Ht Hal Hchk Hadv Hbody|
                    key expire nonce plain mac Hkey _]; [..|done]; simpl rd_replay; simpl rd_packet.
  - apply wp_bind, wp_modify, wp_ret.
    replace (set cl_replayProtection _ c) with c by (by destruct c). constructor.
  - destruct (cl_hasPacketKeys c) eqn:Hhas; [|done]. injection Hkey as <-.
    destruct (replay_advance_total (Some (cl_replayProtection c)) type (le_combine sb)) as (r & Hr & Hok);
      [apply Hwf|]. rewrite Hadv in Hr. injection Hr as <-.
    assert (∃ rp, replay' = Some rp) as [rp ->].
    { simpl in Hadv. destruct (_ >=? _); [|injection Hadv as <-; eauto].
      destruct (Replay.advanceSequence _ _); [|done]. injection Hadv as <-. eauto. }
    apply wp_bind, wp_modify. destruct op as [p|].
    + eapply wp_mono.
      * apply (processPacketInternal_wp from p); [by apply client_wf_replay|by apply (Hbody p)].
      * intros [] c' Hh. by eapply ReceivedPacket.
    + apply wp_ret. by eapply ReceivedPacket.
Qed.

Lemma received_wf from data c c' : client_wf c → received from data c c' → client_wf c'.
Proof.
  intros Hwf Hr. destruct Hr as [|type sb plain rp op c' Hk Hd Hc Ha Hb Hop]; [done|].
  destruct (replay_advance_total (Some (cl_replayProtection c)) type (le_combine sb)) as (r & Hr & Hok);
    [apply Hwf|]. rewrite Ha in Hr. injection Hr as <-.
  destruct op; [apply Hop|subst c']. by apply client_wf_replay.
Qed.
Lemma received_continues from data c c' : client_wf c → received from data c c' → continues c c' 0.
Proof.
  intros Hwf Hr. pose proof (cw_sequence _ Hwf) as Hs. destruct Hr as [|type sb plain rp op c' _ _ _ _ _ Hop].
  - by apply continues_quiet.
  - destruct op as [p|]; [|subst c'; by apply continues_quiet].
    destruct (hd_continues _ _ _ _ Hop) as [H1 H2 H3 Hl H4 (ds & H5 & H6)].
    split; try done. exists ds. done.
Qed.
Lemma received_state from data c c' :
  client_wf c → received from data c c' →
  (cl_state c ≤ ClientStateDisconnected → c' = c) ∧
  (ClientStateDisconnected < cl_state c → ClientStateDisconnected < cl_state c') ∧
  cl_loopback c' = cl_loopback c.
Proof.
  intros Hwf Hr. destruct Hr as [|type sb plain rp op c' Hk _ _ _ _ Hop]; [done|].
  split_and!.
  - intros Hle. destruct (cw_idle _ Hwf Hle) as (_ & Hno & _). congruence.
  - destruct op as [p|]; [|by subst c'].
    destruct (hd_transition _ _ _ _ Hop) as
      [->|(_ & [(?&?&_&_&->&_)|(?&?&_&_&->&_)])]; [done|clia|clia].
  - destruct op as [p|]; [|by subst c']. by rewrite (hd_loopback _ _ _ _ Hop).
Qed.

(** ** Update *)

(** Between two states of one Update: the connection goes on, active clients
    stay active and idle ones do not change. *)
Record ongoing (n : Z) (c c' : Client) : Prop := {
  og_wf : client_wf c';
  og_continues : continues c c' n;
  og_idle : cl_state c ≤ ClientStateDisconnected → c' = c;
  og_active : ClientStateDisconnected < cl_state c → ClientStateDisconnected < cl_state c';
  og_loopback : cl_loopback c' = cl_loopback c;
}.
Lemma ongoing_refl c : client_wf c → ongoing 0 c c.
Proof. intros Hwf. split; try done. apply continues_quiet; try done. apply Hwf. Qed.
Lemma ongoing_trans n m c1 c2 c3 : ongoing n c1 c2 → ongoing m c2 c3 → ongoing (n + m) c1 c3.
Proof.
  intros [W1 C1 I1 A1 L1] [W2 C2 I2 A2 L2]. split; auto; [|..|congruence].
  - by eapply continues_trans.
  - intros H. rewrite I2; [by apply I1|]. by rewrite I1.
Qed.
Lemma received_ongoing from data c c' : client_wf c → received from data c c' → ongoing 0 c c'.
Proof.
  intros Hwf Hr. destruct (received_state _ _ _ _ Hwf Hr) as (? & ? & ?).
  split; try done; [by eapply received_wf|]. by eapply received_continues.
Qed.

Lemma processAll_wp now l c : client_wf c → wp (ClientOps.processAll now l) (λ _ c', ongoing 0 c c') c.
Proof.
  intros Hwf. apply (wp_for (λ _ c', ongoing 0 c c')); [by apply ongoing_refl|].
  intros pkt l' c1 H1. eapply wp_mono; [apply ProcessPacket_wp, H1|].
  intros [] c2 H2. eapply (ongoing_trans 0 0); [done|]. eapply received_ongoing; [apply H1|done].
Qed.
Lemma receivePackets_wp now arr c :
  client_wf c → receive_ok (cl_config c) →
  wp (ClientOps.receivePackets now arr) (λ _ c', ongoing 0 c c') c.
Proof.
  intros Hwf Hovr. unfold receive_ok in Hovr. unfold ClientOps.receivePackets.
  apply wp_bind, wp_gets. cbv beta delta [id].
  destruct (cc_networkSimulator (cl_config c)); cbn [negb]; [by apply processAll_wp|].
  destruct (cc_overrideSendAndReceive (cl_config c)); [rewrite Hovr by done; by apply processAll_wp|].
  repeat case_match; solve [by apply processAll_wp | apply wp_ret; by apply ongoing_refl].
Qed.

Lemma token_request_shape t : public_shape t →
  request_shape (mkRequest versionInfo (ct_protocolID t) (ct_expireTimestamp t) (ct_nonce t)
                   (ct_privateData t)).
Proof. intros []. by split_and!. Qed.
Lemma send_ongoing p c :
  client_wf c → ClientStateDisconnected < cl_state c → sendable p →
  wp (ClientOps.sendPacketToServerInternal p) (λ _ c', ongoing 1 c c' ∧ same_status c c') c.
Proof.
  intros Hwf Hst Hp. eapply wp_mono; [by apply sendPacketToServerInternal_wp|].
  intros [] c' (Hwf' & Hc & Hs). split; [|done]. destruct Hs as (Hs & Hl & _).
  split; [done|done|lia|lia|done].
Qed.
Lemma sendPackets_wp c :
  client_wf c → wp ClientOps.sendPackets (λ _ c', (∃ n, ongoing n c c' ∧ n ≤ 1) ∧ same_status c c') c.
Proof.
  intros Hwf. unfold ClientOps.sendPackets. apply wp_bind, wp_gets. cbv beta delta [id] zeta.
  assert ((∃ n, ongoing n c c ∧ n ≤ 1) ∧ same_status c c) as Hrefl
    by (split; [exists 0; split; [by apply ongoing_refl|lia]|done]).
  destruct (Z.eqb_spec (cl_state c) ClientStateSendingConnectionRequest);
    [|destruct (Z.eqb_spec (cl_state c) ClientStateSendingConnectionResponse);
    [|destruct (Z.eqb_spec (cl_state c) ClientStateConnected); [|by apply wp_ret]]];
    (destruct (ClientOps.sentRecently c); [by apply wp_ret|]);
    (eapply wp_mono; [apply send_ongoing; [done|clia|]|
                      intros [] c' [H ?]; split; [exists 1; by split|done]]).
  - apply token_request_shape, Hwf.
  - apply Hwf.
  - done.
Qed.

Lemma connectToNextServer_wp c :
  client_wf c → ClientStateDisconnected < cl_state c → cl_loopback c = false →
  wp ClientOps.connectToNextServer
    (λ b c', client_wf c' ∧ continues c c' 0 ∧
       if (b : bool)
       then cl_state c' = ClientStateSendingConnectionRequest ∧
            cl_serverAddressIndex c' = cl_serverAddressIndex c + 1 ∧
            cl_serverAddressIndex c + 1 < ct_numServerAddresses (cl_connectToken c) ∧
            aget (ct_serverAddresses (cl_connectToken c)) (cl_serverAddressIndex c + 1) =
              Some (cl_serverAddress c') ∧
            cl_replayProtection c' = Replay.reset ∧ cl_shouldDisconnect c' = false ∧
            cl_connectStartTime c' = cl_time c ∧ cl_lastPacketReceiveTime c' = cl_time c
       else c' = c ∧ cl_serverAddressIndex c + 1 = ct_numServerAddresses (cl_connectToken c)) c.
Proof.
  intros Hwf Hst Hlb. destruct (cw_active _ Hwf Hst Hlb) as (Hk & Htok & Hidx).
  unfold ClientOps.connectToNextServer. apply wp_bind, wp_gets. cbv beta delta [id].
  pose proof (wt_serverAddresses _ Htok) as Hnum. pose proof (cw_sequence _ Hwf) as Hs.
  destruct (Z.geb_spec (cl_serverAddressIndex c + 1) (ct_numServerAddresses (cl_connectToken c))).
  { apply wp_ret. split_and!; [done|by apply continues_quiet|done|lia]. }
  destruct (aget_Some (ct_serverAddresses (cl_connectToken c)) (cl_serverAddressIndex c + 1))
    as [a Ha].
  { rewrite (ps_serverAddresses _ (cw_shape _ Hwf)). destruct Hnum as [? _]. clia. }
  apply wp_bind, wp_modify, wp_bind. eapply wp_lift; [done|].
  apply wp_bind, wp_modify, wp_bind, wp_modify, wp_bind, wp_setState. intros evs Hevs.
  apply wp_ret. split_and!; try done.
  - destruct Hwf; split; simpl; auto using length_zeros with go; unfold_constants; try done; try lia.
    intros _ _. split_and!; [done|done|lia|lia].
  - apply continues_quiet; try done. simpl. by rewrite datagrams_app, Hevs, app_nil_r.
Qed.

Lemma nextServerOr_wp st c :
  client_wf c → ClientStateDisconnected < cl_state c → cl_loopback c = false → idle_state st →
  wp (ClientOps.nextServerOr st)
    (λ _ c', progress 0 c c' ∧
       (cl_serverAddressIndex c + 1 < ct_numServerAddresses (cl_connectToken c) →
          cl_state c' = ClientStateSendingConnectionRequest ∧
          cl_serverAddressIndex c' = cl_serverAddressIndex c + 1) ∧
       (ct_numServerAddresses (cl_connectToken c) ≤ cl_serverAddressIndex c + 1 → idle_at st c')) c.
Proof.
  intros Hwf Hst Hlb Hidle. unfold ClientOps.nextServerOr.
  apply wp_bind. eapply wp_mono; [by apply connectToNextServer_wp|].
  intros b c1 (Hwf1 & Hc1 & Hb). destruct b.
  - destruct Hb as (H1 & H2 & H3 & _). apply wp_ret.
    split_and!; [by eapply continues_progress|done|lia].
  - destruct Hb as [-> Hlast]. eapply wp_mono; [by apply disconnectInternal_wp|].
    intros [] c2 (Hp & _ & _ & Hi). split_and!; [done|lia|auto].
Qed.

Lemma progress_refl k c : client_wf c → 0 ≤ k → progress k c c.
Proof.
  intros Hwf Hk. apply (continues_progress _ _ _ 0); [done| |done].
  apply continues_quiet; try done. apply Hwf.
Qed.

Lemma checkTimeouts_wp time c :
  client_wf c → cl_loopback c = false →
  wp (ClientOps.checkTimeouts time) (λ _ c', progress 0 c c') c.
Proof.
  intros Hwf Hlb. unfold ClientOps.checkTimeouts. apply wp_bind, wp_gets. cbv beta delta [id] zeta.
  assert (∀ st, idle_state st → ClientStateDisconnected < cl_state c →
    wp (ClientOps.nextServerOr st) (λ _ c', progress 0 c c') c) as Hnext.
  { intros st Hst Hact. eapply wp_mono; [by apply nextServerOr_wp|]. by intros [] c' (? & _). }
  assert (∀ st, idle_state st → wp (ClientOps.disconnectInternal st false) (λ _ c', progress 0 c c') c)
    as Hdisc.
  { intros st Hst. eapply wp_mono; [by apply disconnectInternal_wp|]. by intros [] c' (? & _). }
  pose proof (progress_refl 0 c Hwf ltac:(lia)) as Hrefl. unfold idle_state in *.
  case_match; [apply Hdisc; clia|].
  destruct (cl_shouldDisconnect c) eqn:Hsd.
  { apply Hnext.
    - destruct (cw_reason _ Hwf Hsd) as [-> | ->]; clia.
    - destruct (decide (cl_state c ≤ ClientStateDisconnected)) as [Hle|]; [|lia].
      destruct (cw_idle _ Hwf Hle) as (_ & _ & ? & _). congruence. }
  destruct (Z.eqb_spec (cl_state c) ClientStateSendingConnectionRequest).
  { case_match; [apply Hnext; clia|by apply wp_ret]. }
  destruct (Z.eqb_spec (cl_state c) ClientStateSendingConnectionResponse).
  { case_match; [apply Hnext; clia|by apply wp_ret]. }
  case_match; [|by apply wp_ret]. case_match; [apply Hdisc; clia|by apply wp_ret].
Qed.

Lemma client_wf_time c time : client_wf c → client_wf (c <| cl_time := time |>).
Proof. intros Hwf. by wf_update Hwf. Qed.
Lemma continues_time c time : client_wf c → continues c (c <| cl_time := time |>) 0.
Proof. intros Hwf. apply continues_quiet; try done. apply Hwf. Qed.

Lemma Update_wp now arr time c :
  client_wf c → receive_ok (cl_config c) →
  wp (ClientOps.Update now arr time) (λ _ c', progress 1 c c') c.
Proof.
  intros Hwf Hcfg. unfold ClientOps.Update. apply wp_bind, wp_modify, wp_bind, wp_gets.
  pose proof (client_wf_time c time Hwf) as Hwf0. pose proof (continues_time c time Hwf) as Hc0.
  simpl cl_loopback. destruct (cl_loopback c) eqn:Hlb; [apply wp_ret; by eapply continues_progress|].
  apply wp_bind. eapply wp_mono; [by apply receivePackets_wp|]. intros [] c1 H1.
  apply wp_bind. eapply wp_mono; [apply sendPackets_wp, H1|]. intros [] c2 [(n & H2 & Hn) _].
  eapply wp_mono.
  { apply checkTimeouts_wp; [apply H2|]. rewrite (og_loopback _ _ _ H2), (og_loopback _ _ _ H1). done. }
  intros [] c3 H3. pose proof (og_continues _ _ _ H1) as Hc1. pose proof (og_continues _ _ _ H2) as Hc2.
  pose proof (continues_trans _ _ _ _ _ Hc0 (continues_trans _ _ _ _ _ Hc1 Hc2)) as Hc.
  eapply progress_mono; [by eapply progress_after|lia].
Qed.

(** ** The other operations *)
Lemma SendPacket_wp data c :
  client_wf c → cl_loopback c = false →
  wp (ClientOps.SendPacket data) (λ _ c', progress 1 c c') c.
Proof.
  intros Hwf Hlb. unfold ClientOps.SendPacket. apply wp_bind, wp_gets. cbv beta delta [id].
  pose proof (progress_refl 1 c Hwf ltac:(lia)) as Hrefl.
  destruct (bool_decide_reflect (length data ≤ 0)%nat); [by apply wp_ret|].
  destruct (bool_decide_reflect (MaxPacketSize < length data)%nat); [by apply wp_ret|]. cbn [orb].
  destruct (Z.eqb_spec (cl_state c) ClientStateConnected) as [Hst|]; cbn [negb]; [|by apply wp_ret].
  rewrite Hlb. cbn [negb]. eapply wp_mono.
  - apply sendPacketToServerInternal_wp; [done|clia|]. split; clia.
  - intros [] c' (Hwf' & Hc & _). by eapply continues_progress.
Qed.

Lemma wf_loopback_send c :
  client_wf c → ClientStateDisconnected < cl_state c → ∀ evs,
  client_wf (c <| cl_events := cl_events c ++ evs |> <| cl_sequence := u64 (cl_sequence c + 1) |>).
Proof.
  intros Hwf Hst evs. destruct Hwf; split; simpl; auto using u64_range; unfold_constants; lia.
Qed.

Lemma Connect_wp data c :
  client_wf c →
  wp (ClientOps.Connect data)
    (λ _ c', client_wf c' ∧ cl_config c' = cl_config c ∧
       ((cl_state c' = ClientStateInvalidConnectToken ∧ cl_hasPacketKeys c' = false) ∨
        (cl_state c' = ClientStateSendingConnectionRequest ∧ wf_public (cl_connectToken c') ∧
         cl_sequence c' = 0 ∧ cl_loopback c' = false ∧ cl_shouldDisconnect c' = false ∧
         cl_serverAddressIndex c' = 0 ∧
         aget (ct_serverAddresses (cl_connectToken c')) 0 = Some (cl_serverAddress c') ∧
         cl_readPacketKey c' = ct_serverToClientKey (cl_connectToken c') ∧
         cl_writePacketKey c' = ct_clientToServerKey (cl_connectToken c')))) c.
Proof.
  intros Hwf. unfold ClientOps.Connect. apply wp_bind.
  eapply wp_mono; [by apply Disconnect_wp|].
  intros [] c1 ([Hwf1 Hcfg _] & Hidle & _). destruct (cw_idle _ Hwf1 Hidle) as (Hs & Hno & Hsd & Hlb).
  apply wp_bind, wp_gets, wp_bind.
  destruct (public_read_total (cl_connectToken c1) data (cw_shape _ Hwf1)) as (err & t & Hread & Hsh & Hok).
  eapply wp_lift; [done|]. apply wp_bind, wp_modify. destruct err as [e|].
  - apply wp_setState. intros evs _. split_and!; [|done|by left].
    destruct Hwf1; split; simpl; auto; unfold_constants; try done; lia.
  - specialize (Hok eq_refl). pose proof (wt_serverAddresses _ Hok) as Hnum.
    destruct (aget_Some (ct_serverAddresses t) 0) as [a Ha].
    { rewrite (ps_serverAddresses _ Hsh). clia. }
    apply wp_bind. eapply wp_lift; [done|]. apply wp_bind, wp_modify, wp_bind, wp_modify, wp_setState.
    intros evs _. split_and!; [|done|right; by split_and!].
    destruct Hsh. destruct Hwf1; split; simpl; auto using length_zeros with go; unfold_constants;
      try done; try lia.
    intros _ _. split_and!; [done|done|lia|]. destruct Hnum as [? _]. lia.
Qed.

(** ** Runs *)
Inductive client_op :=
| OpConnect (connectTokenData : list byte)
| OpUpdate (now : Z) (arr : arrivals) (time : float64)
| OpProcessPacket (now : Z) (from : Address) (packetData : list byte)
| OpSendPacket (packetData : list byte)
| OpReceivePacket
| OpDisconnect
| OpConnectLoopback (clientIndex maxClients : Z)
| OpDisconnectLoopback
| OpProcessLoopbackPacket (packetData : list byte) (packetSequence : Z)
| OpClose.

Definition client_step (op : client_op) : M Client unit :=
  match op with
  | OpConnect data => ClientOps.Connect data
  | OpUpdate now arr time => ClientOps.Update now arr time
  | OpProcessPacket now from data => ClientOps.ProcessPacket now from data
  | OpSendPacket data => ClientOps.SendPacket data
  | OpReceivePacket => _ ← ClientOps.ReceivePacket; mret tt
  | OpDisconnect => ClientOps.Disconnect_
  | OpConnectLoopback i m => ClientOps.ConnectLoopback i m
  | OpDisconnectLoopback => ClientOps.DisconnectLoopback
  | OpProcessLoopbackPacket data s => ClientOps.ProcessLoopbackPacket data s
  | OpClose => ClientOps.Close
  end.
Definition client_run (ops : list client_op) : M Client unit := for_ ops client_step.

(** The callbacks that a call needs are set. *)
Definition op_served (cfg : clientConfig) (op : client_op) : Prop :=
  match op with
  | OpConnectLoopback _ _ => cc_sendLoopbackPacketCallback cfg = true
  | OpUpdate _ _ _ => receive_ok cfg
  | _ => True
  end.
(** The calls that never make a loopback client. *)
Definition loopback_stays (c c' : Client) : Prop :=
  cl_config c' = cl_config c ∧ (cl_loopback c = false → cl_loopback c' = false).
#[export] Instance loopback_stays_preorder : PreOrder loopback_stays.
Proof.
  split; [by split|]. intros c1 c2 c3 [A1 B1] [A2 B2]. split; [congruence|auto].
Qed.
Create HintDb stays discriminated.
#[local] Hint Constants Opaque : stays.
Ltac stays_auto := keeps_auto ltac:(first [solve [auto with stays nocore] | by split]).
Lemma client_emit_stays evs : keeps loopback_stays (ClientOps.emit evs).
Proof. unfold ClientOps.emit. stays_auto. Qed.
Hint Resolve client_emit_stays : stays.
Lemma setState_stays st : keeps loopback_stays (ClientOps.setState st).
Proof. unfold ClientOps.setState. stays_auto. Qed.
Lemma sendPacketToServerInternal_stays p : keeps loopback_stays (ClientOps.sendPacketToServerInternal p).
Proof. unfold ClientOps.sendPacketToServerInternal. stays_auto. Qed.
Hint Resolve setState_stays sendPacketToServerInternal_stays : stays.
Lemma resetConnectionData_stays st : keeps loopback_stays (ClientOps.resetConnectionData st).
Proof. unfold ClientOps.resetConnectionData, ClientOps.resetBeforeNextConnect. stays_auto. Qed.
Hint Resolve resetConnectionData_stays : stays.
Lemma disconnectInternal_stays st send : keeps loopback_stays (ClientOps.disconnectInternal st send).
Proof. unfold ClientOps.disconnectInternal. stays_auto. Qed.
Hint Resolve disconnectInternal_stays : stays.
Lemma nextServerOr_stays st : keeps loopback_stays (ClientOps.nextServerOr st).
Proof.
  unfold ClientOps.nextServerOr, ClientOps.connectToNextServer, ClientOps.resetBeforeNextConnect. stays_auto.
Qed.
Lemma client_ProcessPacket_stays now from d : keeps loopback_stays (ClientOps.ProcessPacket now from d).
Proof. unfold ClientOps.ProcessPacket, ClientOps.processPacketInternal. stays_auto. Qed.
Hint Resolve nextServerOr_stays client_ProcessPacket_stays : stays.
Lemma client_Update_stays now arr time : keeps loopback_stays (ClientOps.Update now arr time).
Proof.
  unfold ClientOps.Update, ClientOps.receivePackets, ClientOps.processAll, ClientOps.sendPackets,
    ClientOps.checkTimeouts. stays_auto.
Qed.
Hint Resolve client_Update_stays : stays.
Lemma client_step_stays op :
  (∀ i m, op ≠ OpConnectLoopback i m) → keeps loopback_stays (client_step op).
Proof.
  intros Hop. destruct op; try (by destruct (Hop clientIndex maxClients)); cbn [client_step];
    unfold ClientOps.Connect, ClientOps.SendPacket, ClientOps.ReceivePacket, ClientOps.Disconnect_,
      ClientOps.DisconnectLoopback, ClientOps.ProcessLoopbackPacket, ClientOps.Close,
      ClientOps.resetBeforeNextConnect; stays_auto.
Qed.

Lemma ReceivePacket_wp c :
  client_wf c →
  wp ClientOps.ReceivePacket
    (λ r c', client_wf c' ∧ ∃ q, c' = c <| cl_packetReceiveQueue := q |> ∧
       (is_Some r.1 → numPackets q < numPackets (cl_packetReceiveQueue c))) c.
Proof.
  intros Hwf. unfold ClientOps.ReceivePacket. apply wp_bind, wp_zoom.
  destruct (pop_total (cl_packetReceiveQueue c) (cw_queue _ Hwf)) as ([o s] & q & Hpop & Hq & Hn).
  eapply wp_run; [done|].
  assert (client_wf (c <| cl_packetReceiveQueue := q |>)) by (by wf_update Hwf).
  destruct o; apply wp_ret; (split; [done|]; exists q; split; [done|]); [by eauto|by intros []].
Qed.
Lemma drop_received c :
  client_wf c → wp (client_step OpReceivePacket)
    (λ _ c', client_wf c' ∧ ∃ q, c' = c <| cl_packetReceiveQueue := q |>) c.
Proof.
  intros Hwf. apply wp_bind. eapply wp_mono; [by apply ReceivePacket_wp|].
  intros r c' (? & q & ? & _). apply wp_ret. eauto.
Qed.

Lemma client_step_wf op c :
  client_wf c → send_ok c → op_served (cl_config c) op →
  wp (client_step op) (λ _ c', client_wf c' ∧ cl_config c' = cl_config c) c.
Proof.
  intros Hwf Hsend Hop. destruct op; cbn [client_step].
  - eapply wp_mono; [by apply Connect_wp|]. by intros [] c' (? & ? & _).
  - eapply wp_mono; [by apply Update_wp|]. by intros [] c' [? ? _].
  - eapply wp_mono; [by apply ProcessPacket_wp|]. intros [] c' Hr.
    split; [by eapply received_wf|]. by apply (received_continues _ _ _ _ Hwf Hr).
  - destruct (cl_loopback c) eqn:Hlb; [|eapply wp_mono; [by apply SendPacket_wp|]; by intros [] c' [? ? _]].
    unfold ClientOps.SendPacket. apply wp_bind, wp_gets. cbv beta delta [id]. rewrite Hlb.
    case_match; [by apply wp_ret|].
    destruct (Z.eqb_spec (cl_state c) ClientStateConnected); cbn [negb]; [|by apply wp_ret].
    rewrite (Hsend Hlb). apply wp_bind, wp_modify, wp_modify.
    split; [|done].
    exact (wf_loopback_send c Hwf ltac:(clia) [EvLoopback (cl_clientIndex c) packetData (cl_sequence c)]).
  - eapply wp_mono; [by apply drop_received|]. intros [] c' (? & q & ->). done.
  - eapply wp_mono; [by apply Disconnect_wp|].
    by intros [] c' ([? ? _] & _).
  - apply wp_modify. split; [|done]. by wf_update Hwf.
  - eapply wp_mono; [apply resetConnectionData_wp; unfold idle_state; clia|].
    by intros [] c' (? & _ & ? & _).
  - unfold ClientOps.ProcessLoopbackPacket. apply wp_bind, wp_gets. cbv beta delta [id].
    repeat (case_match; [by apply wp_ret|]).
    destruct (push_total (cl_packetReceiveQueue c) packetData packetSequence (cw_queue _ Hwf))
      as (b & q & Hpush & Hq).
    apply wp_bind, wp_zoom. eapply wp_run; [done|]. apply wp_ret. split; [|done]. by wf_update Hwf.
  - unfold ClientOps.Close. apply wp_bind, wp_gets, wp_bind.
    eapply (wp_mono _ (λ _ c', client_wf c' ∧ cl_config c' = cl_config c)).
    + case_match.
      * eapply wp_mono; [by apply Disconnect_wp|].
        by intros [] c' ([? ? _] & _).
      * eapply wp_mono; [apply resetConnectionData_wp; unfold idle_state; clia|].
        by intros [] c' (? & _ & ? & _).
    + intros [] c1 [Hwf1 Hcfg1]. apply wp_bind, wp_modify, wp_modify. split; [|done].
      wf_update Hwf1. apply queue_wf_clear.
Qed.

Lemma client_new_wf config address1 ipv4 ipv6 time :
  client_wf (ClientOps.new config address1 ipv4 ipv6 time).
Proof.
  split; simpl; auto using zeroConnectToken_shape, length_zeros with go; unfold_constants;
    try done; lia.
Qed.

Lemma client_step_served op c cfg :
  client_wf c → cl_config c = cfg → send_ok c → op_served cfg op →
  wp (client_step op) (λ _ c', client_wf c' ∧ cl_config c' = cfg ∧ send_ok c') c.
Proof.
  intros Hwf <- Hsend Hop. pose proof (client_step_wf op c Hwf Hsend Hop) as H.
  assert ((∃ i m, op = OpConnectLoopback i m) ∨ ∀ i m, op ≠ OpConnectLoopback i m) as [(i & m & ->)|Hno]
    by (destruct op; naive_solver).
  - eapply wp_mono; [exact H|]. intros [] c' [? Hc]. split_and!; [done|done|]. intros _. by rewrite Hc.
  - eapply wp_mono; [exact (wp_and_wlp _ _ _ _ H (client_step_stays op Hno c))|].
    intros [] c' [[? Hc] [_ Hl]]. split_and!; [done|done|]. intros Hlb. rewrite Hc. apply Hsend.
    destruct (cl_loopback c); [done|]. by rewrite Hl in Hlb.
Qed.
Lemma client_run_served ops c cfg :
  client_wf c → cl_config c = cfg → send_ok c → Forall (op_served cfg) ops →
  wp (client_run ops) (λ _ c', client_wf c') c.
Proof.
  intros Hwf Hc Hsend Hops. revert c Hwf Hc Hsend.
  induction Hops as [|op ops Hop _ IH]; intros c Hwf Hc Hsend; [by apply wp_ret|].
  cbn [client_run for_]. apply wp_bind. eapply wp_mono; [by apply (client_step_served op c cfg)|].
  intros [] c' (? & ? & ?). by apply IH.
Qed.

(** C12. Invariant and safety: whatever sequence of API calls is made on a new
    client (connect tokens of any bytes, datagrams of any bytes from any
    address, any clock values), no call panics and the client stays well formed:
    while disconnected it holds no keys and a zero sequence number, and while it
    is connecting or connected it holds a valid token and one of its servers.
    Any configuration will do, the zero one included, with two exceptions for
    callbacks that the code calls without a test: ConnectLoopback needs
    SendLoopbackPacketCallback, and Update needs ReceivePacketOverride when
    OverrideSendAndReceive replaces the sockets. *)
Theorem client_never_panics (config : clientConfig) (address1 : Address) (ipv4 ipv6 : option Address)
  (time : float64) (ops : list client_op) (Hops : Forall (op_served config) ops) :
  ∃ c', client_run ops (ClientOps.new config address1 ipv4 ipv6 time) = Some (tt, c') ∧ client_wf c'.
Proof.
  assert (wp (client_run ops) (λ _ c', client_wf c') (ClientOps.new config address1 ipv4 ipv6 time)) as H
    by (apply (client_run_served ops _ config); [apply client_new_wf|done|done|done]).
  apply wp_inv in H as ([] & c' & ? & ?). eauto.
Qed.

(** The exception is real: without SendLoopbackPacketCallback, a payload sent
    after ConnectLoopback panics, for every client. *)
Theorem client_loopback_needs_callback (c : Client) (i m : Z) (data : list byte)
  (Hdata : (1 ≤ length data ≤ MaxPacketSize)%nat) (Hno : cc_sendLoopbackPacketCallback (cl_config c) = false) :
  client_run [OpConnectLoopback i m; OpSendPacket data] c = None.
Proof.
  apply wlp_never. cbn [client_run for_ client_step]. unfold ClientOps.ConnectLoopback.
  apply wlp_bind, wlp_modify, wlp_bind. unfold ClientOps.SendPacket. apply wlp_bind, wlp_gets. cbv beta delta [id].
  rewrite (bool_decide_eq_false_2 (_ ≤ 0)%nat), (bool_decide_eq_false_2 (_ < _)%nat) by lia. simpl.
  by rewrite Hno.
Qed.

(** C21. Authenticity: a datagram takes the client to the connected state only
    if the client was sending challenge responses, the datagram came from the
    server it talks to, and it is a keep alive packet sealed under the
    server-to-client key of its connect token; the slot index and the number
    of slots are those of that packet. *)
Theorem client_connects_only_by_keep_alive (c c' : Client) (now : Z) (from : Address) (data : list byte)
  (Hwf : client_wf c) (Hrun : ClientOps.ProcessPacket now from data c = Some (tt, c'))
  (Hbefore : cl_state c ≠ ClientStateConnected) (Hafter : cl_state c' = ClientStateConnected) :
  cl_state c = ClientStateSendingConnectionResponse ∧ Equal from (cl_serverAddress c) = true ∧
  cl_hasPacketKeys c = true ∧
  ∃ sb, data = sealed_packet (cl_readPacketKey c) (ct_protocolID (cl_connectToken c))
                 connectionKeepAlivePacket sb (enc_body (KeepAlive (cl_clientIndex c') (cl_maxClients c'))).
Proof.
  pose proof (ProcessPacket_wp now from data c Hwf) as H. apply wp_inv in H as ([] & c1 & H1 & Hr).
  rewrite Hrun in H1. injection H1 as <-.
  destruct Hr as [|type sb plain rp op c' Hk -> _ _ Hbody Hop]; [done|].
  destruct op as [p|]; [|by subst c'].
  destruct (Hbody p eq_refl) as (<- & -> & _).
  destruct (hd_transition _ _ _ _ Hop) as [Hs|(Heq & [(s&d&->&_&Hs&_)|(i&m&->&H1&H2&<-&<-)])];
    simpl in *; [congruence|rewrite Hs in Hafter; done|]. split_and!; eauto.
Qed.

(** C22. Inertness: a datagram that is not sealed under the client's read key
    changes nothing at all in the client, and a sealed one from another address
    than the server's changes nothing but the replay window. *)
Theorem client_ignores_forgeries (c : Client) (now : Z) (from : Address) (data : list byte)
  (Hwf : client_wf c) :
  ∃ c', ClientOps.ProcessPacket now from data c = Some (tt, c') ∧
    ((∀ type sb plain, cl_hasPacketKeys c = true →
        data ≠ sealed_packet (cl_readPacketKey c) (ct_protocolID (cl_connectToken c)) type sb plain) →
     c' = c) ∧
    (Equal from (cl_serverAddress c) = false → ∃ rp, c' = c <| cl_replayProtection := rp |>).
Proof.
  pose proof (ProcessPacket_wp now from data c Hwf) as H. apply wp_inv in H as ([] & c' & H1 & Hr).
  exists c'. split; [done|].
  destruct Hr as [|type sb plain rp op c' Hk -> _ _ _ Hop].
  - split; [done|]. intros _. exists (cl_replayProtection c). by destruct c.
  - split; [intros Hf; by destruct (Hf type sb plain)|].
    intros Hne. exists rp. destruct op as [p|]; [|done].
    by apply (hd_foreign _ _ _ _ Hop).
Qed.

(** ** One connection *)
Definition in_connection (op : client_op) : Prop :=
  match op with
  | OpUpdate _ _ _ | OpProcessPacket _ _ _ | OpSendPacket _ | OpReceivePacket | OpDisconnect => True
  | _ => False
  end.

(** An idle client stays idle and sends nothing. *)
Definition silent (c c' : Client) : Prop :=
  cl_state c' = cl_state c ∧ cl_events c' = cl_events c.
Lemma idle_update now arr time c :
  client_wf c → receive_ok (cl_config c) → cl_state c ≤ ClientStateDisconnected →
  wp (ClientOps.Update now arr time) (λ _ c', silent c c') c.
Proof.
  intros Hwf Hcfg Hidle. destruct (cw_idle _ Hwf Hidle) as (_ & _ & Hsd & Hlb).
  unfold ClientOps.Update. apply wp_bind, wp_modify, wp_bind, wp_gets. simpl cl_loopback. rewrite Hlb.
  pose proof (client_wf_time c time Hwf) as Hwf0.
  apply wp_bind. eapply wp_mono; [by apply receivePackets_wp|]. intros [] c1 H1.
  rewrite (og_idle _ _ _ H1) by done.
  apply wp_bind. eapply wp_mono; [apply sendPackets_wp, Hwf0|]. intros [] c2 [(n & H2 & _) _].
  rewrite (og_idle _ _ _ H2) by done. unfold ClientOps.checkTimeouts.
  apply wp_bind, wp_gets. cbv beta delta [id] zeta. simpl cl_state. simpl cl_shouldDisconnect.
  rewrite Hsd. unfold_constants.
  destruct (Z.gtb_spec (cl_state c) 0); [lia|]. cbn [andb].
  destruct (Z.eqb_spec (cl_state c) 1); [lia|]. destruct (Z.eqb_spec (cl_state c) 2); [lia|].
  destruct (Z.eqb_spec (cl_state c) 3); [lia|]. by apply wp_ret.
Qed.
Lemma idle_step op c :
  client_wf c → receive_ok (cl_config c) → cl_state c ≤ ClientStateDisconnected → in_connection op →
  wp (client_step op) (λ _ c', silent c c') c.
Proof.
  intros Hwf Hcfg Hidle Hop. destruct op; try done; cbn [client_step].
  - by apply idle_update.
  - eapply wp_mono; [by apply ProcessPacket_wp|]. intros [] c' Hr.
    destruct (received_state _ _ _ _ Hwf Hr) as (H & _). by rewrite H.
  - unfold ClientOps.SendPacket. apply wp_bind, wp_gets. cbv beta delta [id].
    case_match; [by apply wp_ret|].
    destruct (Z.eqb_spec (cl_state c) ClientStateConnected); [clia|by apply wp_ret].
  - eapply wp_mono; [by apply drop_received|]. intros [] c' (_ & q & ->). done.
  - eapply wp_mono; [by apply Disconnect_wp|].
    intros [] c' (_ & _ & H). by rewrite H.
Qed.

Lemma progress_loopback k c c' : progress k c c' → cl_loopback c = false → cl_loopback c' = false.
Proof.
  intros [Hwf _ (ds & n & _ & _ & _ & [Hi|(_ & _ & -> & _)])] ?; [|done].
  by destruct (cw_idle _ Hwf Hi) as (_ & _ & _ & ?).
Qed.
Lemma step_progress op c :
  client_wf c → receive_ok (cl_config c) → cl_loopback c = false → in_connection op →
  wp (client_step op) (λ _ c', progress numDisconnectPackets c c') c.
Proof.
  intros Hwf Hcfg Hlb Hop. destruct op; try done; cbn [client_step].
  - eapply wp_mono; [apply Update_wp; [done|apply Hcfg]|]. intros [] c' H. by eapply progress_mono.
  - eapply wp_mono; [by apply ProcessPacket_wp|]. intros [] c' Hr.
    eapply continues_progress; [by eapply received_wf|by eapply received_continues|done].
  - eapply wp_mono; [by apply SendPacket_wp|]. intros [] c' H. by eapply progress_mono.
  - eapply wp_mono; [by apply drop_received|]. intros [] c' (? & q & ->).
    apply (continues_progress _ _ _ 0); [done| |done]. by apply continues_quiet; [apply Hwf|..].
  - eapply wp_mono; [by apply Disconnect_wp|].
    by intros [] c' (? & _).
Qed.

(** What a whole run of operations on one connection sends. *)
Lemma run_progress ops c :
  client_wf c → receive_ok (cl_config c) → cl_loopback c = false → Forall in_connection ops →
  wp (client_run ops)
    (λ _ c', progress (numDisconnectPackets * Z.of_nat (length ops)) c c' ∧
       (cl_state c ≤ ClientStateDisconnected → silent c c')) c.
Proof.
  intros Hwf Hcfg Hlb Hops. revert c Hwf Hcfg Hlb.
  induction Hops as [|op ops Hop _ IH]; intros c Hwf Hcfg Hlb.
  { apply wp_ret. split; [by apply progress_refl|done]. }
  cbn [client_run for_]. apply wp_bind.
  assert (wp (client_step op) (λ _ c', progress numDisconnectPackets c c' ∧
            (cl_state c ≤ ClientStateDisconnected → silent c c')) c) as Hstep.
  { pose proof (step_progress op c Hwf Hcfg Hlb Hop) as H1. unfold wp in *.
    destruct (client_step op c) as [[[] c1]|] eqn:Hrun; [|done]. split; [done|]. intros Hidle.
    pose proof (idle_step op c Hwf Hcfg Hidle Hop) as H2. unfold wp in H2. by rewrite Hrun in H2. }
  eapply wp_mono; [exact Hstep|]. intros [] c1 [Hp Hs].
  eapply wp_mono.
  { apply IH; [apply Hp|by rewrite (pg_config _ _ _ Hp)|by eapply progress_loopback]. }
  intros [] c2 [Hp2 Hs2]. split.
  - destruct Hp as [Hwf1 Hc1 (ds & n & Hd & He & Hn & Hend)].
    destruct Hend as [Hi|(Ht & Hk & Hl & Hq)].
    + destruct (Hs2 Hi) as [Hst Hev]. split; [apply Hp2|by rewrite (pg_config _ _ _ Hp2)|].
      exists ds, n. rewrite Hev. split_and!; [done|done|cbn [length]; clia|left; lia].
    + eapply progress_mono; [eapply (progress_after _ c c1 c2 n); [|done]|cbn [length]; clia].
      split; try done. by exists ds.
  - intros Hi. destruct (Hs Hi) as [Hst Hev]. destruct Hs2 as [Hst2 Hev2]; [lia|].
    split; congruence.
Qed.

(** Distinct offsets give distinct sequence numbers. *)
Lemma emitted_sequences key pid s ds n :
  emitted key pid s ds n → n ≤ 2 ^ 64 →
  ∃ ks, NoDup (map (λ k, u64 (s + k)) ks) ∧ Forall (λ k, 0 ≤ k < n) ks ∧
    Forall2 (λ d k, ∃ p len b,
      writePacket p (zeros maxPacketBytes) (u64 (s + k)) key pid = Some (len, b) ∧ d.2 = take len b)
      ds ks.
Proof.
  intros He. induction He as [|ds n He IH|ds n p to len b He IH Hw]; intros Hn.
  - exists []. split_and!; constructor.
  - destruct IH as (ks & H1 & H2 & H3); [lia|]. exists ks. split_and!; [done| |done].
    eapply Forall_impl; [done|]. simpl. lia.
  - destruct IH as (ks & H1 & H2 & H3); [lia|]. pose proof (emitted_nonneg _ _ _ _ _ He).
    exists (ks ++ [n]). split_and!.
    + rewrite map_app. cbn [map]. apply NoDup_app. split_and!; [done| |apply NoDup_singleton].
      intros x (k & -> & Hk)%list_elem_of_fmap. rewrite list_elem_of_singleton. intros Heq.
      rewrite list.Forall_forall in H2. specialize (H2 k Hk). unfold u64 in Heq.
      pose proof (Z.div_mod (s + k) (2 ^ 64)). pose proof (Z.div_mod (s + n) (2 ^ 64)). lia.
    + apply Forall_app. split; [|by repeat constructor; lia].
      eapply Forall_impl; [done|]. simpl. lia.
    + apply Forall2_app; [done|]. constructor; [|constructor]. by exists p, len, b.
Qed.

(** C17. Nonce uniqueness: whatever a client does on one connection (any updates
    with any received datagrams, sends, receives and a disconnect), the
    datagrams it puts on the wire are packets written under its one write key
    with pairwise distinct sequence numbers, hence pairwise distinct nonces,
    for as long as fewer than 2^64 packets can have been sent. The configuration
    is any, the zero one included; only when OverrideSendAndReceive replaces the
    sockets must ReceivePacketOverride be set. *)
Theorem client_nonces_distinct (c : Client) (ops : list client_op)
  (Hwf : client_wf c) (Hcfg : receive_ok (cl_config c)) (Hlb : cl_loopback c = false)
  (Hops : Forall in_connection ops)
  (Hlen : numDisconnectPackets * Z.of_nat (length ops) ≤ 2 ^ 64) :
  ∃ c' ds seqs, client_run ops c = Some (tt, c') ∧
    datagrams (cl_events c') = datagrams (cl_events c) ++ ds ∧
    NoDup seqs ∧ NoDup (map packet_nonce seqs) ∧
    Forall2 (λ d s, ∃ p len b,
      writePacket p (zeros maxPacketBytes) s (cl_writePacketKey c)
        (ct_protocolID (cl_connectToken c)) = Some (len, b) ∧ d.2 = take len b) ds seqs.
Proof.
  pose proof (run_progress ops c Hwf Hcfg Hlb Hops) as H. apply wp_inv in H as ([] & c' & Hrun & Hp & _).
  destruct (pg_emits _ _ _ Hp) as (ds & n & Hd & He & Hn & _).
  destruct (emitted_sequences _ _ _ _ _ He) as (ks & H1 & H2 & H3); [lia|].
  exists c', ds, (map (λ k, u64 (cl_sequence c + k)) ks). split_and!; [done..| |].
  - apply NoDup_fmap_2_strong; [|done].
    intros x y (k & -> & _)%list_elem_of_fmap (j & -> & _)%list_elem_of_fmap.
    apply packet_nonce_inj; apply u64_range.
  - apply Forall2_fmap_r. done.
Qed.

(** Nothing arrives. *)
Lemma silent_receive now c :
  receive_ok (cl_config c) → wp (ClientOps.receivePackets now (mkArrivals [] [] [] [])) (λ _ c', c' = c) c.
Proof.
  intros Hovr. unfold ClientOps.receivePackets. apply wp_bind, wp_gets. cbv beta delta [id].
  unfold receive_ok in Hovr. destruct (cc_networkSimulator (cl_config c)); [done|].
  destruct (cc_overrideSendAndReceive (cl_config c)); [by rewrite Hovr|].
  cbn [negb]. repeat case_match; done.
Qed.

(** C39. Timeout of the client, exactly: a connected client that receives nothing
    more, on an Update at [time], leaves the connection when its token has a
    positive timeout and the time of the last packet plus the timeout is before
    [time] (in 64 bit floating point), and only then: in state
    ClientStateConnectionTimedOut, with its keys, its token and its received
    packets erased. Otherwise it stays connected, with its token and key. The
    configuration is any; only when OverrideSendAndReceive replaces the sockets
    must ReceivePacketOverride be set. *)
Theorem client_times_out (c : Client) (now : Z) (time : float64)
  (Hwf : client_wf c) (Hcfg : receive_ok (cl_config c)) (Hlb : cl_loopback c = false)
  (Hst : cl_state c = ClientStateConnected) (Hsd : cl_shouldDisconnect c = false) :
  let timeout := ct_timeoutSeconds (cl_connectToken c) in
  let deadline := f64_add (cl_lastPacketReceiveTime c) (f64_of_Z timeout) in
  ∃ c', ClientOps.Update now (mkArrivals [] [] [] []) time c = Some (tt, c') ∧
    (0 < timeout → f64_ltb deadline time = true → idle_at ClientStateConnectionTimedOut c') ∧
    (timeout ≤ 0 ∨ f64_ltb deadline time = false →
       cl_state c' = ClientStateConnected ∧ cl_connectToken c' = cl_connectToken c ∧
       cl_writePacketKey c' = cl_writePacketKey c).
Proof.
  intros timeout deadline.
  enough (wp (ClientOps.Update now (mkArrivals [] [] [] []) time) (λ _ c',
    (0 < timeout → f64_ltb deadline time = true → idle_at ClientStateConnectionTimedOut c') ∧
    (timeout ≤ 0 ∨ f64_ltb deadline time = false →
       cl_state c' = ClientStateConnected ∧ cl_connectToken c' = cl_connectToken c ∧
       cl_writePacketKey c' = cl_writePacketKey c)) c) as H
    by (apply wp_inv in H as ([] & c' & ? & ?); eauto).
  unfold ClientOps.Update. apply wp_bind, wp_modify, wp_bind, wp_gets. simpl cl_loopback. rewrite Hlb.
  set (c0 := c <| cl_time := time |>). pose proof (client_wf_time c time Hwf) as Hwf0. fold c0 in Hwf0.
  apply wp_bind. eapply wp_mono; [by apply silent_receive|]. intros [] c1 ->.
  apply wp_bind. eapply wp_mono; [by apply sendPackets_wp|].
  intros [] c2 [(n & H2 & _) (Hs2 & _ & Hsd2 & _ & _ & _ & _ & Hr2)].
  pose proof (cn_token _ _ _ (og_continues _ _ _ H2)) as Ht2. pose proof (cn_key _ _ _ (og_continues _ _ _ H2)) as Hk2.
  unfold ClientOps.checkTimeouts. apply wp_bind, wp_gets. cbv beta delta [id] zeta.
  rewrite Hs2, Hsd2. simpl cl_state. simpl cl_shouldDisconnect. rewrite Hst, Hsd.
  change (ClientStateConnected <? ClientStateConnected) with false. rewrite andb_false_r. cbn [andb].
  change (ClientStateConnected =? ClientStateSendingConnectionRequest) with false.
  change (ClientStateConnected =? ClientStateSendingConnectionResponse) with false.
  change (ClientStateConnected =? ClientStateConnected) with true. cbv iota.
  assert (ClientOps.timedOut c2 time = (timeout >? 0) && f64_ltb deadline time) as ->
    by (unfold ClientOps.timedOut; by rewrite Ht2, Hr2).
  destruct (Z.gtb_spec timeout 0), (f64_ltb deadline time) eqn:Hlate; cbn [andb];
    [|apply wp_ret; split; [intros; (lia || done)|]; intros _; split_and!; [by rewrite Hs2|done|done]..].
  eapply wp_mono; [apply disconnectInternal_wp; [apply H2|unfold idle_state; clia]|].
  intros [] c3 (_ & _ & _ & Hi). split; [|intros [?|?]; [lia|done]].
  intros _ _. apply Hi. rewrite Hs2. simpl. rewrite Hst. clia.
Qed.

(** Functional: Connect, on any bytes and from any state, leaves either the
    state ClientStateInvalidConnectToken with no keys, or, for a token that
    reads as valid, a fresh connection attempt: sequence number zero, the first
    server of the token, and the token's two keys. *)
Theorem connect_outcome (c : Client) (data : list byte) (Hwf : client_wf c) :
  ∃ c', ClientOps.Connect data c = Some (tt, c') ∧ client_wf c' ∧
    ((cl_state c' = ClientStateInvalidConnectToken ∧ cl_hasPacketKeys c' = false) ∨
     (cl_state c' = ClientStateSendingConnectionRequest ∧ wf_public (cl_connectToken c') ∧
      cl_sequence c' = 0 ∧ cl_loopback c' = false ∧ cl_shouldDisconnect c' = false ∧
      cl_serverAddressIndex c' = 0 ∧
      aget (ct_serverAddresses (cl_connectToken c')) 0 = Some (cl_serverAddress c') ∧
      cl_readPacketKey c' = ct_serverToClientKey (cl_connectToken c') ∧
      cl_writePacketKey c' = ct_clientToServerKey (cl_connectToken c'))).
Proof.
  pose proof (Connect_wp data c Hwf) as H. apply wp_inv in H as ([] & c' & Hrun & Hwf' & _ & Hcase).
  eauto.
Qed.
End client_facts.

(** ** Concrete instances *)
Definition sample_client_config : clientConfig := mkClientConfig true false true false false false.
(** A client that answers the challenge of the first server of [sample_public]. *)
Definition sample_client : Client :=
  (ClientOps.new sample_client_config sample_ipv6 None None f64_1)
    <| cl_state := ClientStateSendingConnectionResponse |>
    <| cl_sequence := 4 |>
    <| cl_connectToken := sample_public |>
    <| cl_serverAddress := sample_ipv4 |>
    <| cl_readPacketKey := ct_serverToClientKey sample_public |>
    <| cl_writePacketKey := ct_clientToServerKey sample_public |>
    <| cl_hasPacketKeys := true |>.
Definition sample_server_keep_alive : list byte :=
  sealed_packet (C := sample_crypto) (ct_serverToClientKey sample_public) (ct_protocolID sample_public)
    connectionKeepAlivePacket (sequence_bytes 5) (enc_body (KeepAlive 3 16)).
Definition sample_connected_client : Client :=
  sample_client
    <| cl_replayProtection := mkReplay 5 (ainsert 5 5 (receivedPacket Replay.reset)) |>
    <| cl_lastPacketReceiveTime := f64_1 |> <| cl_clientIndex := 3 |> <| cl_maxClients := 16 |>
    <| cl_state := ClientStateConnected |>.

Lemma sample_public_wf : wf_public sample_public.
Proof.
  split; try (by vm_compute). split; [by vm_compute|]. intros i Hi.
  assert (i = 0 ∨ i = 1) as [-> | ->] by (cbn in Hi; lia); eexists; (split; [done|]); split; try done.
  - by left.
  - by right.
Qed.
Lemma sample_public_shape : public_shape sample_public.
Proof.
  split; try (by vm_compute). repeat constructor; by vm_compute.
Qed.
Lemma sample_client_wf : client_wf sample_client.
Proof.
  split; try (by vm_compute).
  - apply sample_public_shape.
  - apply queue_wf_clear.
  - intros _ _. split_and!; [done|apply sample_public_wf|done|done].
Qed.
Lemma sample_connected_client_wf : client_wf sample_connected_client.
Proof.
  split; try (by vm_compute).
  - apply sample_public_shape.
  - apply queue_wf_clear.
  - intros _ _. split_and!; [done|apply sample_public_wf|done|done].
Qed.
Lemma sample_config_ok : receive_ok sample_client_config.
Proof. done. Qed.

(** Over the network in the zero configuration, and then in loopback mode with
    the callback. *)
Lemma client_never_panics_witness :
  (∃ c', client_run (C := sample_crypto)
          [OpConnect (zeros 10); OpUpdate 1000 (mkArrivals [] [] [] []) f64_1; OpSendPacket [byte.of_Z 1]; OpClose]
          (ClientOps.new (mkClientConfig false false false false false false) sample_ipv6 (Some sample_ipv4) None f64_1) =
          Some (tt, c') ∧ client_wf c') ∧
  ∃ c', client_run (C := sample_crypto) [OpConnectLoopback 0 4; OpSendPacket [byte.of_Z 1]; OpClose]
          (ClientOps.new sample_client_config sample_ipv6 None None f64_1) = Some (tt, c') ∧ client_wf c'.
Proof. split; apply (client_never_panics (C := sample_crypto)); by repeat constructor. Defined.

Lemma client_connects_only_by_keep_alive_witness :
  ClientOps.ProcessPacket (C := sample_crypto) 1000 sample_ipv4 sample_server_keep_alive sample_client =
    Some (tt, sample_connected_client) ∧
  cl_state sample_client = ClientStateSendingConnectionResponse.
Proof.
  assert (ClientOps.ProcessPacket (C := sample_crypto) 1000 sample_ipv4 sample_server_keep_alive
            sample_client = Some (tt, sample_connected_client)) as Hrun by (by vm_compute).
  split; [exact Hrun|].
  apply (client_connects_only_by_keep_alive (C := sample_crypto) sample_client sample_connected_client
           1000 sample_ipv4 sample_server_keep_alive sample_client_wf Hrun); [done|reflexivity].
Defined.

Lemma client_ignores_forgeries_witness :
  ClientOps.ProcessPacket (C := sample_crypto) 1000 sample_ipv4 [byte.of_Z 20] sample_client =
    Some (tt, sample_client).
Proof.
  destruct (client_ignores_forgeries (C := sample_crypto) sample_client 1000 sample_ipv4
              [byte.of_Z 20] sample_client_wf) as (c' & Hrun & Hforged & _).
  rewrite Hforged in Hrun; [exact Hrun|].
  intros type sb plain _ H%(f_equal length).
  rewrite length_sealed_packet in H by reflexivity. cbn [length] in H. clia.
Defined.

Lemma client_nonces_distinct_witness :
  ∃ c' ds (seqs : list Z),
    client_run (C := sample_crypto) [OpSendPacket (zeros 4); OpDisconnect] sample_connected_client =
      Some (tt, c') ∧
    datagrams (cl_events c') = datagrams (cl_events sample_connected_client) ++ ds ∧ NoDup seqs.
Proof.
  destruct (client_nonces_distinct (C := sample_crypto) sample_connected_client
              [OpSendPacket (zeros 4); OpDisconnect] sample_connected_client_wf sample_config_ok)
    as (c' & ds & seqs & H1 & H2 & H3 & _); [reflexivity|by repeat constructor|done|].
  exists c', ds, seqs. split_and!; assumption.
Defined.

Lemma client_times_out_witness :
  ∃ c', ClientOps.Update (C := sample_crypto) 1000 (mkArrivals [] [] [] []) (f64_of_Z 100)
          sample_connected_client = Some (tt, c') ∧
    idle_at ClientStateConnectionTimedOut c'.
Proof.
  destruct (client_times_out (C := sample_crypto) sample_connected_client 1000 (f64_of_Z 100)
    sample_connected_client_wf sample_config_ok eq_refl eq_refl eq_refl) as (c' & Hrun & Hout & _).
  exists c'. split; [exact Hrun|]. apply Hout; by vm_compute.
Defined.

Lemma connect_outcome_witness :
  ∃ c', ClientOps.Connect (C := sample_crypto)
          (enc_public sample_public ++ zeros (ConnectTokenBytes - length (enc_public sample_public)))
          sample_client = Some (tt, c') ∧ client_wf c'.
Proof.
  destruct (connect_outcome (C := sample_crypto) sample_client
    (enc_public sample_public ++ zeros (ConnectTokenBytes - length (enc_public sample_public)))
    sample_client_wf) as (c' & H1 & H2 & _).
  exists c'. split; assumption.
Defined.
