(* ===== verification/ClientFailover.v ===== *)
(** Failover in client.go: a client whose server does not answer goes on to the
    next server of its connect token, and gives up after the last one. *)

From S2P Require Import Prelude Constants Float64 Buffer Replay Queue Address Crypto SampleCrypto.
From S2P Require Import Token Packet Socket Client.

Definition noArrivals : arrivals := mkArrivals [] [] [] [].

(** A client asking the server of index [i] for a connection since [since]. *)
Record requesting (i : Z) (since : float64) (c : Client) : Prop := {
  rg_wf : client_wf c;
  rg_receive : receive_ok (cl_config c);
  rg_loopback : cl_loopback c = false;
  rg_state : cl_state c = ClientStateSendingConnectionRequest;
  rg_patient : cl_shouldDisconnect c = false;
  rg_index : cl_serverAddressIndex c = i;
  rg_address : aget (ct_serverAddresses (cl_connectToken c)) i = Some (cl_serverAddress c);
  rg_since : cl_connectStartTime c = since;
  rg_heard : cl_lastPacketReceiveTime c = since;
}.
(** At [time] the attempt that began at [since] has timed out, and the token has
    not expired. *)
Definition gives_up (token : connectToken) (since time : float64) : Prop :=
  f64_ltb (f64_add since (f64_of_Z (ct_timeoutSeconds token))) time = true ∧
  f64_leb (f64_of_Z (u64 (ct_expireTimestamp token - ct_createTimestamp token))) (f64_sub time since) = false.
(** Each time gives up the attempt that began at the one before. *)
Fixpoint spaced (token : connectToken) (since : float64) (times : list float64) : Prop :=
  match times with
  | [] => True
  | time :: times => gives_up token since time ∧ spaced token time times
  end.

(** The time of the last of some updates. *)
Definition last_time (since : float64) (times : list float64) : float64 := foldl (λ _ t, t) since times.
Lemma spaced_take token since times k : spaced token since times → spaced token since (take k times).
Proof.
  revert since k. induction times as [|t times IH]; intros since [|k]; [done..|]. intros [H1 H2].
  split; [done|]. by apply IH.
Qed.
Lemma spaced_app token since times times' :
  spaced token since (times ++ times') ↔ spaced token since times ∧ spaced token (last_time since times) times'.
Proof.
  revert since. induction times as [|t times IH]; intros since; [by split; [|intros []]|].
  cbn [app spaced]. rewrite IH. unfold last_time. cbn [foldl]. tauto.
Qed.

Section failover.
Context {C : CryptoLib} {L : CryptoLaws C}.
(** Updates while nothing arrives. *)
Definition silentUpdates (now : Z) (times : list float64) : M Client unit :=
  for_ times (ClientOps.Update now noArrivals).

Lemma silent_update now time i since c :
  requesting i since c → 0 < ct_timeoutSeconds (cl_connectToken c) →
  gives_up (cl_connectToken c) since time →
  wp (ClientOps.Update now noArrivals time) (λ _ c',
    if decide (i + 1 < ct_numServerAddresses (cl_connectToken c))
    then requesting (i + 1) time c' ∧ cl_connectToken c' = cl_connectToken c ∧
         cl_writePacketKey c' = cl_writePacketKey c
    else idle_at ClientStateConnectionRequestTimedOut c') c.
Proof.
  intros [Hwf Hrc Hlb Hst Hpt Hi Ha Hs Hh] Htm [Hlate Hlive].
  unfold ClientOps.Update. apply wp_bind, wp_modify, wp_bind, wp_gets. simpl cl_loopback. rewrite Hlb.
  pose proof (client_wf_time c time Hwf) as Hwf0. set (c0 := c <| cl_time := time |>) in *.
  apply wp_bind. eapply wp_mono; [by apply silent_receive|]. intros [] c1 ->.
  apply wp_bind. eapply wp_mono; [by apply sendPackets_wp|].
  intros [] c2 [(n & H2 & _) (S1 & S2 & S3 & S4 & _ & S5 & S6 & S7)].
  pose proof (og_continues _ _ _ H2) as Hc2. pose proof (cn_token _ _ _ Hc2) as Ht2.
  simpl in S1, S2, S3, S4, S5, S6, S7, Ht2. rewrite Hst in S1. rewrite Hlb in S2.
  unfold ClientOps.checkTimeouts. apply wp_bind, wp_gets. cbv beta delta [id] zeta.
  rewrite S1, S3, S4, S6, Hs, Hpt, Ht2, Hlive, andb_false_r.
  change (ClientStateSendingConnectionRequest =? ClientStateSendingConnectionRequest) with true. cbv iota.
  assert (ClientOps.timedOut c2 time = true) as ->.
  { unfold ClientOps.timedOut. rewrite Ht2, S7, Hh, Hlate, andb_true_r. apply Z.gtb_lt. lia. }
  unfold ClientOps.nextServerOr. apply wp_bind.
  eapply wp_mono; [apply connectToNextServer_wp; [apply H2|rewrite S1; clia|done]|].
  rewrite Ht2, S5, Hi. intros [] c3 (Hwf3 & Hc3 & Hb).
  - destruct Hb as (B1 & B2 & B3 & B4 & _ & B5 & B6 & B7). apply wp_ret. cbv beta. rewrite decide_True by done.
    split_and!; [|by rewrite (cn_token _ _ _ Hc3)|by rewrite (cn_key _ _ _ Hc3), (cn_key _ _ _ Hc2)].
    split; try done.
    + by rewrite (cn_config _ _ _ Hc3), (cn_config _ _ _ Hc2).
    + by rewrite (cn_loopback _ _ _ Hc3).
    + by rewrite (cn_token _ _ _ Hc3), Ht2.
    + by rewrite B6.
    + by rewrite B7.
  - destruct Hb as [-> Hlast].
    eapply wp_mono; [apply disconnectInternal_wp; [apply H2|split; clia]|].
    intros [] c4 (_ & _ & _ & Hidle). rewrite decide_False by lia. apply Hidle. rewrite S1. clia.
Qed.

(** After [k] attempts the client is at the k-th server after its first. *)
Lemma silent_updates_reach now times i since c :
  requesting i since c → 0 < ct_timeoutSeconds (cl_connectToken c) →
  spaced (cl_connectToken c) since times →
  i + Z.of_nat (length times) < ct_numServerAddresses (cl_connectToken c) →
  wp (silentUpdates now times) (λ _ c',
    requesting (i + Z.of_nat (length times)) (last_time since times) c' ∧
    cl_connectToken c' = cl_connectToken c ∧ cl_writePacketKey c' = cl_writePacketKey c) c.
Proof.
  unfold silentUpdates. revert i since c. induction times as [|time times IH]; intros i since c Hr Ht Hsp Hn.
  { apply wp_ret. simpl. by rewrite Z.add_0_r. }
  destruct Hsp as [Hg Hsp]. cbn [length] in Hn. cbn [for_]. apply wp_bind.
  eapply wp_mono; [by apply (silent_update now time i since c)|]. intros [] c1.
  rewrite decide_True by lia. intros (H1 & E1 & K1).
  eapply wp_mono; [apply (IH (i + 1) time c1); rewrite ?E1; [done|done|done|lia]|].
  intros [] c2 (H2 & E2 & K2). rewrite E2, K2. split; [|done].
  cbn [length]. rewrite Nat2Z.inj_succ. replace (i + Z.succ (Z.of_nat (length times)))
    with (i + 1 + Z.of_nat (length times)) by lia.
  exact H2.
Qed.

(** C33. Failover: a client that asks for a connection and never hears anything goes
    through the remaining servers of its connect token in order. It stays with a
    server until an Update finds that the token's timeout has passed since it
    turned to it, then asks the next one, with the same token and keys; and the
    Update that gives up the last server ends the attempt in state
    ClientStateConnectionRequestTimedOut, with keys and token erased. Nothing
    panics on the way. *)
Theorem client_tries_every_server (c : Client) (now i : Z) (since : float64) (times : list float64)
  (Hr : requesting i since c) (Htimeout : 0 < ct_timeoutSeconds (cl_connectToken c))
  (Hspaced : spaced (cl_connectToken c) since times)
  (Hlength : i + Z.of_nat (length times) = ct_numServerAddresses (cl_connectToken c)) :
  (∀ k, (k < length times)%nat → ∃ ck,
     silentUpdates now (take k times) c = Some (tt, ck) ∧
     cl_state ck = ClientStateSendingConnectionRequest ∧
     aget (ct_serverAddresses (cl_connectToken c)) (i + Z.of_nat k) = Some (cl_serverAddress ck) ∧
     cl_connectToken ck = cl_connectToken c ∧ cl_writePacketKey ck = cl_writePacketKey c) ∧
  ∃ c', silentUpdates now times c = Some (tt, c') ∧ idle_at ClientStateConnectionRequestTimedOut c'.
Proof.
  split.
  - intros k Hk. pose proof (silent_updates_reach now (take k times) i since c Hr Htimeout
      (spaced_take _ _ _ _ Hspaced)) as H. rewrite length_take_le in H by lia.
    specialize (H ltac:(lia)). apply wp_inv in H as ([] & ck & Hrun & Hrk & Ht & Hw).
    exists ck. split_and!; [done|apply Hrk| |done|done]. rewrite <-Ht. apply Hrk.
  - assert (0 ≤ i < ct_numServerAddresses (cl_connectToken c)) as Hi.
    { destruct Hr as [Hwf _ Hlb Hst _ <- _ _ _]. apply (cw_active _ Hwf); [rewrite Hst; clia|done]. }
    destruct times as [|time times _] using rev_ind; [simpl in *; lia|].
    rewrite length_app, Nat2Z.inj_add in Hlength. change (Z.of_nat (length [time])) with 1 in Hlength.
    apply spaced_app in Hspaced as [Hsp [Hlast _]].
    enough (wp (silentUpdates now (times ++ [time]))
      (λ _ c', idle_at ClientStateConnectionRequestTimedOut c') c) as H
      by (apply wp_inv in H as ([] & c' & ? & ?); eauto).
    unfold silentUpdates. apply wp_for_app.
    eapply wp_mono; [apply (silent_updates_reach now times i since c Hr Htimeout Hsp); lia|].
    intros [] c1 (H1 & E1 & _). cbn [for_]. apply wp_bind.
    eapply wp_mono; [eapply (silent_update now time _ _ c1 H1); by rewrite E1|]. intros [] c2.
    rewrite E1, decide_False by lia. intros Hidle. by apply wp_ret.
Qed.
End failover.

(** ** A run: two servers, none of which answers *)
Definition sample_requesting : Client :=
  sample_client <| cl_state := ClientStateSendingConnectionRequest |>
    <| cl_connectStartTime := f64_1 |> <| cl_lastPacketReceiveTime := f64_1 |>.
Lemma sample_requesting_wf : client_wf sample_requesting.
Proof.
  split; try (by vm_compute).
  - apply sample_public_shape.
  - apply queue_wf_clear.
  - intros _ _. split_and!; [done|apply sample_public_wf|done|done].
Qed.
Lemma client_tries_every_server_witness :
  ∃ c', silentUpdates (C := sample_crypto) 1000 [f64_of_Z 7; f64_of_Z 13] sample_requesting = Some (tt, c') ∧
    idle_at ClientStateConnectionRequestTimedOut c'.
Proof.
  apply (client_tries_every_server (C := sample_crypto) sample_requesting 1000 0 f64_1).
  - split; [apply sample_requesting_wf|by vm_compute..].
  - by vm_compute.
  - by vm_compute.
  - by vm_compute.
Defined.
