(* ===== verification/Server.v ===== *)
(** server.go: the dedicated server. The state is the Go struct and the list of
    events it has caused so far. The wall clock, the current time, random bytes
    and the datagrams that arrive are arguments. *)

From S2P Require Import Prelude Constants Float64 Buffer Replay Queue Address Crypto.
From S2P Require Import SampleCrypto Token Packet TokenEntries Encryption Socket.

Definition serverFlagIgnoreConnectionRequestPackets : Z := 1.
Definition serverFlagIgnoreConnectionResponsePackets : Z := 2.
Definition DefaultMaxConnectTokenLifetime : Z := 30.
Definition serverMaxReceivePackets : nat := Z.to_nat (64 * MaxClients).

(** ServerConfig; a callback is present or nil. *)
Record serverConfig := mkServerConfig {
  sc_protocolID : Z;
  sc_privateKey : list byte;
  sc_maxConnectTokenLifetime : Z;
  sc_networkSimulator : bool;
  sc_connectDisconnectCallback : bool;
  sc_sendLoopbackPacketCallback : bool;
  sc_overrideSendAndReceive : bool;
  sc_sendPacketOverride : bool;
  sc_receivePacketOverride : bool;
}.
#[export] Instance eta_serverConfig : Eta serverConfig := λ c,
  mkServerConfig (sc_protocolID c) (sc_privateKey c) (sc_maxConnectTokenLifetime c)
    (sc_networkSimulator c) (sc_connectDisconnectCallback c) (sc_sendLoopbackPacketCallback c)
    (sc_overrideSendAndReceive c) (sc_sendPacketOverride c) (sc_receivePacketOverride c).

Record Server := mkServer {
  sv_config : serverConfig;
  sv_socketHolder : socketHolder;
  sv_address : Address;
  sv_address2 : Address;
  sv_flags : Z;
  sv_time : float64;
  sv_running : bool;
  sv_maxClients : Z;
  sv_numConnectedClients : Z;
  sv_globalSequence : Z;
  sv_challengeSequence : Z;
  sv_challengeKey : list byte;
  sv_clientConnected : list bool;
  sv_clientTimeout : list Z;
  sv_clientLoopback : list bool;
  sv_clientConfirmed : list bool;
  sv_clientDisconnectReason : list Z;
  sv_clientEncryptionIndex : list Z;
  sv_clientID : list Z;
  sv_clientSequence : list Z;
  sv_clientLastPacketSendTime : list float64;
  sv_clientLastPacketReceiveTime : list float64;
  sv_clientUserData : list (list byte);
  sv_clientReplayProtection : list replayProtection;
  sv_clientPacketQueue : list (packetQueue (list byte));
  sv_clientAddress : list Address;
  sv_connectTokenEntries : list connectTokenEntry;
  sv_encryptionManager : encryptionManager;
  sv_minConnectTokenExpireTimestamp : Z;
  sv_events : list event;
}.
#[export] Instance eta_server : Eta Server := λ s,
  mkServer (sv_config s) (sv_socketHolder s) (sv_address s) (sv_address2 s) (sv_flags s) (sv_time s)
    (sv_running s) (sv_maxClients s) (sv_numConnectedClients s) (sv_globalSequence s)
    (sv_challengeSequence s) (sv_challengeKey s) (sv_clientConnected s) (sv_clientTimeout s)
    (sv_clientLoopback s) (sv_clientConfirmed s) (sv_clientDisconnectReason s)
    (sv_clientEncryptionIndex s) (sv_clientID s) (sv_clientSequence s)
    (sv_clientLastPacketSendTime s) (sv_clientLastPacketReceiveTime s) (sv_clientUserData s)
    (sv_clientReplayProtection s) (sv_clientPacketQueue s) (sv_clientAddress s)
    (sv_connectTokenEntries s) (sv_encryptionManager s) (sv_minConnectTokenExpireTimestamp s)
    (sv_events s).

(** A datagram that arrives, and what the wall clock reads while it is
    processed. *)
Record serverArrival := mkServerArrival { sa_packet : receivedDatagram; sa_now : Z }.
(** What each transport hands to receivePackets, in the order its calls return
    it; with two sockets that is any interleaving of their channels. *)
Record serverArrivals := mkServerArrivals {
  sa_simulator : list serverArrival;
  sa_override : list serverArrival;
  sa_sockets : list serverArrival;
}.

Module ServerOps.
Definition slots {A : Type} (a : A) : list A := replicate (Z.to_nat MaxClients) a.

(** The struct NewServerDual returns once the addresses are parsed and the
    sockets created. *)
Definition new (config : serverConfig) (address address2 : Address) (ipv4 ipv6 : option Address)
  (time : float64) : Server :=
  let config := if sc_maxConnectTokenLifetime config <=? 0
                then config <| sc_maxConnectTokenLifetime := DefaultMaxConnectTokenLifetime |>
                else config in
  {| sv_config := config; sv_socketHolder := mkSocketHolder ipv4 ipv6; sv_address := address;
     sv_address2 := address2; sv_flags := 0; sv_time := time; sv_running := false;
     sv_maxClients := 0; sv_numConnectedClients := 0; sv_globalSequence := Z.shiftl 1 63;
     sv_challengeSequence := 0; sv_challengeKey := zeros KeyBytes;
     sv_clientConnected := slots false; sv_clientTimeout := slots 0;
     sv_clientLoopback := slots false; sv_clientConfirmed := slots false;
     sv_clientDisconnectReason := slots 0; sv_clientEncryptionIndex := slots (-1);
     sv_clientID := slots 0; sv_clientSequence := slots 0;
     sv_clientLastPacketSendTime := slots f64_0; sv_clientLastPacketReceiveTime := slots f64_0;
     sv_clientUserData := slots (zeros UserDataBytes);
     sv_clientReplayProtection := slots Replay.reset; sv_clientPacketQueue := slots Queue.clear;
     sv_clientAddress := slots zeroAddress; sv_connectTokenEntries := connectTokenEntriesReset;
     sv_encryptionManager := EncryptionManager.reset; sv_minConnectTokenExpireTimestamp := 0;
     sv_events := [] |}.

Definition emit (evs : list event) : M Server unit := modify (set sv_events (λ l, l ++ evs)).
(** if server.config.ConnectDisconnectCallback != nil { call it } *)
Definition connectDisconnect (clientIndex : Z) (connected : bool) : M Server unit :=
  callback ← gets (λ s, sc_connectDisconnectCallback (sv_config s));
  if (callback : bool) then emit [EvConnectDisconnect clientIndex connected] else mret tt.
(** sendPacketToAddress with the server's configuration. *)
Definition dispatch (to : Address) (packetData : list byte) : M Server unit :=
  s ← gets id;
  let sendPacketOverride :=
    if sc_overrideSendAndReceive (sv_config s) then sc_sendPacketOverride (sv_config s) else false in
  emit (sendPacketToAddress (sc_networkSimulator (sv_config s)) sendPacketOverride
          (sv_socketHolder s) (sv_address s) to packetData).
(** A nil slice has no bytes. *)
Definition key_bytes (key : option (list byte)) : list byte :=
  match key with Some k => k | None => [] end.

Section handlers.
Context `{C : CryptoLib}.

Definition sendGlobalPacket (p : packet) (to : Address) (packetKey : list byte) : M Server unit :=
  s ← gets id;
  '(packetBytes, packetData) ←
    lift (writePacket p (zeros maxPacketBytes) (sv_globalSequence s) packetKey
            (sc_protocolID (sv_config s)));
  if bool_decide (packetBytes = 0%nat) then mret tt
  else (dispatch to (take packetBytes packetData);;
        modify (set sv_globalSequence (λ n, u64 (n + 1)))).

Definition sendClientPacket (p : packet) (clientIndex : Z) : M Server unit :=
  encryptionIndex ← aread sv_clientEncryptionIndex clientIndex;
  address ← aread sv_clientAddress clientIndex;
  time ← gets sv_time;
  ok ← zoom sv_encryptionManager (EncryptionManager.touch encryptionIndex address time);
  if negb ok then mret tt
  else
    (packetKey ← zoom sv_encryptionManager (EncryptionManager.getSendKey encryptionIndex);
     sequence ← aread sv_clientSequence clientIndex;
     protocolID ← gets (λ s, sc_protocolID (sv_config s));
     '(packetBytes, packetData) ←
       lift (writePacket p (zeros maxPacketBytes) sequence (key_bytes packetKey) protocolID);
     if bool_decide (packetBytes = 0%nat) then mret tt
     else
       (dispatch address (take packetBytes packetData);;
        awrite sv_clientSequence clientIndex (u64 (sequence + 1));;
        awrite sv_clientLastPacketSendTime clientIndex time)).

Definition resetClientSlot (clientIndex : Z) : M Server unit :=
  awrite sv_clientPacketQueue clientIndex Queue.clear;;
  awrite sv_clientConnected clientIndex false;;
  awrite sv_clientLoopback clientIndex false;;
  awrite sv_clientConfirmed clientIndex false;;
  awrite sv_clientID clientIndex 0;;
  awrite sv_clientSequence clientIndex 0;;
  awrite sv_clientLastPacketSendTime clientIndex f64_0;;
  awrite sv_clientLastPacketReceiveTime clientIndex f64_0;;
  awrite sv_clientAddress clientIndex zeroAddress;;
  awrite sv_clientEncryptionIndex clientIndex (-1);;
  awrite sv_clientUserData clientIndex (zeros UserDataBytes);;
  modify (set sv_numConnectedClients (λ n, n - 1)).

Definition disconnectClientInternal (clientIndex : Z) (sendDisconnectPackets : bool)
  (disconnectReason : Z) : M Server unit :=
  awrite sv_clientDisconnectReason clientIndex disconnectReason;;
  connectDisconnect clientIndex false;;
  (if sendDisconnectPackets
   then for_ (seqZ 0 numDisconnectPackets) (λ _, sendClientPacket Disconnect clientIndex)
   else mret tt);;
  awrite sv_clientReplayProtection clientIndex Replay.reset;;
  encryptionIndex ← aread sv_clientEncryptionIndex clientIndex;
  zoom sv_encryptionManager (awrite em_clientIndex encryptionIndex (-1));;
  address ← aread sv_clientAddress clientIndex;
  time ← gets sv_time;
  _ ← zoom sv_encryptionManager (EncryptionManager.removeEncryptionMapping address time);
  resetClientSlot clientIndex.

(** if !server.running { return }; if clientIndex < 0 || clientIndex >= maxClients { return } *)
Definition in_slot_range (clientIndex : Z) (s : Server) : bool :=
  sv_running s && negb ((clientIndex <? 0) || (clientIndex >=? sv_maxClients s)).

Definition DisconnectClient (clientIndex : Z) : M Server unit :=
  ok ← gets (in_slot_range clientIndex);
  if negb ok then mret tt
  else
    (connected ← aread sv_clientConnected clientIndex;
     if negb connected then mret tt
     else
       (loopback ← aread sv_clientLoopback clientIndex;
        if (loopback : bool) then mret tt
        else disconnectClientInternal clientIndex true DisconnectReasonServerDisconnect)).

Definition DisconnectAllClients : M Server unit :=
  s ← gets id;
  if negb (sv_running s) then mret tt
  else for_ (seqZ 0 (sv_maxClients s)) (λ i,
    connected ← aread sv_clientConnected i;
    loopback ← aread sv_clientLoopback i;
    if connected && negb loopback
    then disconnectClientInternal i true DisconnectReasonServerDisconnect else mret tt).

Definition DisconnectLoopbackClient (clientIndex : Z) : M Server unit :=
  ok ← gets (in_slot_range clientIndex);
  if negb ok then mret tt
  else
    (connected ← aread sv_clientConnected clientIndex;
     loopback ← aread sv_clientLoopback clientIndex;
     if negb connected || negb loopback then mret tt
     else
       (awrite sv_clientDisconnectReason clientIndex DisconnectReasonServerDisconnect;;
        connectDisconnect clientIndex false;;
        resetClientSlot clientIndex)).

Definition Stop : M Server unit :=
  s ← gets id;
  if negb (sv_running s) then mret tt
  else
    (DisconnectAllClients;;
     for_ (seqZ 0 (sv_maxClients s)) (λ i,
       connected ← aread sv_clientConnected i;
       loopback ← aread sv_clientLoopback i;
       if connected && loopback then DisconnectLoopbackClient i else mret tt);;
     modify (λ s, s <| sv_running := false |> <| sv_maxClients := 0 |>
                    <| sv_numConnectedClients := 0 |> <| sv_globalSequence := Z.shiftl 1 63 |>
                    <| sv_challengeSequence := 0 |> <| sv_challengeKey := zeros KeyBytes |>
                    <| sv_connectTokenEntries := connectTokenEntriesReset |>
                    <| sv_encryptionManager := EncryptionManager.reset |>)).

(** [challengeKey] is what RandomBytes draws, [now] the wall clock. *)
Definition Start (maxClients now : Z) (challengeKey : list byte) : M Server unit :=
  if (maxClients <=? 0) || (maxClients >? MaxClients) then mret tt
  else
    (running ← gets sv_running;
     (if (running : bool) then Stop else mret tt);;
     modify (λ s, s <| sv_running := true |> <| sv_maxClients := maxClients |>
                    <| sv_numConnectedClients := 0 |> <| sv_globalSequence := Z.shiftl 1 63 |>
                    <| sv_challengeSequence := 0 |> <| sv_challengeKey := challengeKey |>
                    <| sv_minConnectTokenExpireTimestamp :=
                         u64 (now + u64 (sc_maxConnectTokenLifetime (sv_config s))) |>);;
     for_ (seqZ 0 maxClients) (λ i, awrite sv_clientPacketQueue i Queue.clear);;
     for_ (seqZ 0 MaxClients) (λ i, awrite sv_clientDisconnectReason i DisconnectReasonNone)).

Definition Close : M Server unit := Stop;; emit [EvDestroySockets].

(** The first slot below maxClients that passes the test, or -1. *)
Definition findSlot (test : Z → M Server bool) : M Server Z :=
  n ← gets sv_maxClients;
  found ← first_ (seqZ 0 n) test;
  mret (match found with Some i => i | None => -1 end).
Definition findClientIndexByID (clientID : Z) : M Server Z :=
  findSlot (λ i, connected ← aread sv_clientConnected i;
                 if (connected : bool)
                 then (id ← aread sv_clientID i; mret (id =? clientID)) else mret false).
Definition findClientIndexByAddress (address : Address) : M Server Z :=
  findSlot (λ i, connected ← aread sv_clientConnected i;
                 if (connected : bool)
                 then (a ← aread sv_clientAddress i; mret (Equal a address)) else mret false).
Definition findFreeClientIndex : M Server Z :=
  findSlot (λ i, connected ← aread sv_clientConnected i; mret (negb connected)).

(** The loop over the token's server addresses. *)
Fixpoint foundServerAddress (address address2 : Address) (serverAddresses : list Address)
  (ixs : list Z) (found : bool) : option bool :=
  match ixs with
  | [] => Some found
  | i :: ixs =>
      a ← aget serverAddresses i;
      foundServerAddress address address2 serverAddresses ixs
        (found || Equal address a ||
         (negb (Type_ address2 =? AddressNone) && Equal address2 a))
  end.

(** server.time + float64(timeoutSeconds), or -1 without a timeout. *)
Definition mappingExpireTime (time : float64) (timeoutSeconds : Z) : float64 :=
  if timeoutSeconds >=? 0 then f64_add time (f64_of_Z timeoutSeconds) else f64_m1.

(** From the challenge token to the challenge packet. *)
Definition sendChallenge (from : Address) (token : connectTokenPrivate) : M Server unit :=
  s ← gets id;
  data ← lift (Challenge.write (mkChallengeToken (ctp_clientID token) (ctp_userData token))
                 (zeros challengeTokenBytes));
  '(ok, data) ← lift (encryptChallengeToken data (sv_challengeSequence s) (sv_challengeKey s));
  if negb ok then mret tt
  else
    (modify (set sv_challengeSequence (λ n, u64 (n + 1)));;
     sendGlobalPacket (Challenge_ (sv_challengeSequence s) data) from (ctp_serverToClientKey token)).

Definition processConnectionRequestPacket (now : Z) (from : Address) (packet : connectionRequest)
  : M Server unit :=
  '(err, token) ← lift (Private.read zeroPrivate (req_connectTokenData packet));
  match err with
  | Some _ => mret tt
  | None =>
      s ← gets id;
      found ← lift (foundServerAddress (sv_address s) (sv_address2 s) (ctp_serverAddresses token)
                      (seqZ 0 (ctp_numServerAddresses token)) false);
      if negb found then mret tt
      else
        (byAddress ← findClientIndexByAddress from;
         if negb (byAddress =? -1) then mret tt
         else
           (byID ← findClientIndexByID (ctp_clientID token);
            if negb (byID =? -1) then mret tt
            else
              ('(entryIndex, entries) ←
                 lift (connectTokenEntriesFindOrAdd (sv_connectTokenEntries s) from
                         (drop (connectTokenPrivateBytes - MacBytes) (req_connectTokenData packet))
                         (req_connectTokenExpireTimestamp packet) now (sv_time s));
               modify (set sv_connectTokenEntries (λ _, entries));;
               if entryIndex =? connectTokenHistoryFull then mret tt
               else if entryIndex =? connectTokenEntryRefused then mret tt
               else if sv_numConnectedClients s =? sv_maxClients s then
                 sendGlobalPacket Denied from (ctp_serverToClientKey token)
               else
                 (added ← zoom sv_encryptionManager
                    (EncryptionManager.addEncryptionMapping from (ctp_serverToClientKey token)
                       (ctp_clientToServerKey token) (sv_time s)
                       (mappingExpireTime (sv_time s) (ctp_timeoutSeconds token))
                       (ctp_timeoutSeconds token) entryIndex);
                  if negb added then mret tt else sendChallenge from token))))
  end.

(** The assignments of connectClient to the slot. *)
Definition fillClientSlot (clientIndex : Z) (address : Address) (clientID encryptionIndex
  timeoutSeconds : Z) (userData : list byte) : M Server unit :=
  time ← gets sv_time;
  awrite sv_clientConnected clientIndex true;;
  awrite sv_clientTimeout clientIndex timeoutSeconds;;
  awrite sv_clientEncryptionIndex clientIndex encryptionIndex;;
  awrite sv_clientID clientIndex clientID;;
  awrite sv_clientSequence clientIndex 0;;
  awrite sv_clientAddress clientIndex address;;
  awrite sv_clientDisconnectReason clientIndex DisconnectReasonNone;;
  awrite sv_clientLastPacketSendTime clientIndex time;;
  awrite sv_clientLastPacketReceiveTime clientIndex time;;
  old ← aread sv_clientUserData clientIndex;
  awrite sv_clientUserData clientIndex (go_copy old userData).

Definition connectClient (clientIndex : Z) (address : Address) (clientID encryptionIndex
  timeoutSeconds : Z) (userData : list byte) : M Server unit :=
  modify (set sv_numConnectedClients (λ n, n + 1));;
  zoom sv_encryptionManager (EncryptionManager.setExpireTime encryptionIndex f64_m1);;
  zoom sv_encryptionManager (awrite em_clientIndex encryptionIndex clientIndex);;
  fillClientSlot clientIndex address clientID encryptionIndex timeoutSeconds userData;;
  entryIndex ← zoom sv_encryptionManager (EncryptionManager.getConnectTokenEntryIndex encryptionIndex);
  (if entryIndex >=? 0 then
     (entries ← gets sv_connectTokenEntries;
      entries ← lift (connectTokenEntriesConsume entries entryIndex);
      modify (set sv_connectTokenEntries (λ _, entries)))
   else mret tt);;
  maxClients ← gets sv_maxClients;
  sendClientPacket (KeepAlive (i32 clientIndex) (i32 maxClients)) clientIndex;;
  connectDisconnect clientIndex true.

Definition processConnectionResponsePacket (from : Address) (challengeTokenSequence : Z)
  (challengeTokenData : list byte) (encryptionIndex : Z) : M Server unit :=
  challengeKey ← gets sv_challengeKey;
  o ← lift (decryptChallengeToken challengeTokenData challengeTokenSequence challengeKey);
  match o with
  | None => mret tt
  | Some data =>
      '(err, token) ← lift (Challenge.read (mkChallengeToken 0 (zeros UserDataBytes)) data);
      match err with
      | Some _ => mret tt
      | None =>
          packetSendKey ← zoom sv_encryptionManager (EncryptionManager.getSendKey encryptionIndex);
          match packetSendKey with
          | None => mret tt
          | Some packetSendKey =>
              byAddress ← findClientIndexByAddress from;
              if negb (byAddress =? -1) then mret tt
              else
                (byID ← findClientIndexByID (cht_clientID token);
                 if negb (byID =? -1) then mret tt
                 else
                   (s ← gets id;
                    if sv_numConnectedClients s =? sv_maxClients s then
                      sendGlobalPacket Denied from packetSendKey
                    else
                      (clientIndex ← findFreeClientIndex;
                       timeoutSeconds ←
                         zoom sv_encryptionManager (EncryptionManager.getTimeout encryptionIndex);
                       connectClient clientIndex from (cht_clientID token) encryptionIndex
                         timeoutSeconds (cht_userData token))))
          end
      end
  end.

(** A keep alive or payload packet of a connected client. *)
Definition confirmClient (clientIndex : Z) : M Server unit :=
  time ← gets sv_time;
  awrite sv_clientLastPacketReceiveTime clientIndex time;;
  confirmed ← aread sv_clientConfirmed clientIndex;
  if negb confirmed then awrite sv_clientConfirmed clientIndex true else mret tt.
(** server.clientPacketQueue[clientIndex].push(packet, sequence) *)
Definition pushPacket (clientIndex : Z) (payloadData : list byte) (sequence : Z) : M Server unit :=
  q ← aread sv_clientPacketQueue clientIndex;
  '(_, q) ← lift (Queue.push payloadData sequence q);
  awrite sv_clientPacketQueue clientIndex q.

Definition processPacketInternal (now : Z) (from : Address) (p : packet)
  (sequence encryptionIndex clientIndex : Z) : M Server unit :=
  flags ← gets sv_flags;
  match p with
  | Request request =>
      if Z.land flags serverFlagIgnoreConnectionRequestPackets =? 0
      then processConnectionRequestPacket now from request else mret tt
  | Response challengeTokenSequence challengeTokenData =>
      if Z.land flags serverFlagIgnoreConnectionResponsePackets =? 0
      then processConnectionResponsePacket from challengeTokenSequence challengeTokenData encryptionIndex
      else mret tt
  | KeepAlive _ _ => if negb (clientIndex =? -1) then confirmClient clientIndex else mret tt
  | Payload payloadData =>
      if negb (clientIndex =? -1)
      then confirmClient clientIndex;; pushPacket clientIndex payloadData sequence
      else mret tt
  | Disconnect =>
      if negb (clientIndex =? -1)
      then disconnectClientInternal clientIndex false DisconnectReasonClientDisconnect
      else mret tt
  | Denied | Challenge_ _ _ => mret tt
  end.

(** Request, response, keep alive, payload and disconnect. *)
Definition serverAllowedPackets : list bool := [true; false; false; true; true; true; true].

(** [currentTimestamp] is the clock reading of the caller, [now] the one while
    the packet is processed. *)
Definition readAndProcessPacket (from : Address) (packetData : list byte) (currentTimestamp now : Z)
  (allowedPackets : list bool) : M Server unit :=
  running ← gets sv_running;
  if negb running then mret tt
  else if bool_decide (length packetData ≤ 1)%nat then mret tt
  else
    (clientIndex ← findClientIndexByAddress from;
     time ← gets sv_time;
     encryptionIndex ←
       (if negb (clientIndex =? -1) then aread sv_clientEncryptionIndex clientIndex
        else zoom sv_encryptionManager (EncryptionManager.findEncryptionMapping from time));
     readPacketKey ← zoom sv_encryptionManager (EncryptionManager.getReceiveKey encryptionIndex);
     b0 ← lift (aget packetData 0);
     if negb (is_some readPacketKey) && negb (byte.unsigned b0 =? 0) then mret tt
     else
       (replay ← (if negb (clientIndex =? -1)
                  then (rp ← aread sv_clientReplayProtection clientIndex; mret (Some rp))
                  else mret None);
        s ← gets id;
        res ← lift (readPacket packetData readPacketKey (sc_protocolID (sv_config s)) currentTimestamp
                      (sv_minConnectTokenExpireTimestamp s) (Some (sc_privateKey (sv_config s)))
                      allowedPackets replay);
        (match rd_replay res with
         | Some rp => awrite sv_clientReplayProtection clientIndex rp
         | None => mret tt
         end);;
        match rd_packet res with
        | None => mret tt
        | Some p => processPacketInternal now from p (rd_sequence res) encryptionIndex clientIndex
        end)).

Definition ProcessPacket (now now' : Z) (from : Address) (packetData : list byte) : M Server unit :=
  readAndProcessPacket from packetData now now' serverAllowedPackets.

Definition processAll (currentTimestamp : Z) (l : list serverArrival) : M Server unit :=
  for_ l (λ a, readAndProcessPacket (rp_from (sa_packet a)) (rp_data (sa_packet a)) currentTimestamp
                 (sa_now a) serverAllowedPackets).
Definition receivePackets (now : Z) (arr : serverArrivals) : M Server unit :=
  s ← gets id;
  if negb (sc_networkSimulator (sv_config s)) then
    (if sc_overrideSendAndReceive (sv_config s) then
       (if sc_receivePacketOverride (sv_config s) then processAll now (sa_override arr) else panic)
     else if is_some (sh_ipv4 (sv_socketHolder s)) || is_some (sh_ipv6 (sv_socketHolder s))
     then processAll now (sa_sockets arr) else mret tt)
  else processAll now (take serverMaxReceivePackets (sa_simulator arr)).

Definition sendPackets : M Server unit :=
  s ← gets id;
  if negb (sv_running s) then mret tt
  else for_ (seqZ 0 (sv_maxClients s)) (λ i,
    connected ← aread sv_clientConnected i;
    loopback ← aread sv_clientLoopback i;
    last ← aread sv_clientLastPacketSendTime i;
    time ← gets sv_time;
    if connected && negb loopback && f64_leb (f64_add last sendInterval) time then
      (maxClients ← gets sv_maxClients;
       sendClientPacket (KeepAlive (i32 i) (i32 maxClients)) i)
    else mret tt).

Definition checkForTimeouts : M Server unit :=
  s ← gets id;
  if negb (sv_running s) then mret tt
  else for_ (seqZ 0 (sv_maxClients s)) (λ i,
    connected ← aread sv_clientConnected i;
    timeout ← aread sv_clientTimeout i;
    loopback ← aread sv_clientLoopback i;
    last ← aread sv_clientLastPacketReceiveTime i;
    time ← gets sv_time;
    if negb connected then mret tt
    else if timeout <=? 0 then mret tt
    else if (loopback : bool) then mret tt
    else if f64_leb (f64_add last (f64_of_Z timeout)) time
    then disconnectClientInternal i false DisconnectReasonTimedOut
    else mret tt).

Definition Update (now : Z) (arr : serverArrivals) (time : float64) : M Server unit :=
  modify (set sv_time (λ _, time));;
  receivePackets now arr;;
  sendPackets;;
  checkForTimeouts.

Definition SendPacket (clientIndex : Z) (packetData : list byte) : M Server unit :=
  if bool_decide (length packetData ≤ 0)%nat || bool_decide (MaxPacketSize < length packetData)%nat
  then mret tt
  else
    (ok ← gets (in_slot_range clientIndex);
     if negb ok then mret tt
     else
       (connected ← aread sv_clientConnected clientIndex;
        if negb connected then mret tt
        else
          (loopback ← aread sv_clientLoopback clientIndex;
           if negb loopback then
             (confirmed ← aread sv_clientConfirmed clientIndex;
              maxClients ← gets sv_maxClients;
              (if negb confirmed
               then sendClientPacket (KeepAlive (i32 clientIndex) (i32 maxClients)) clientIndex
               else mret tt);;
              sendClientPacket (Payload packetData) clientIndex)
           else
             (callback ← gets (λ s, sc_sendLoopbackPacketCallback (sv_config s));
              if (callback : bool) then
                (sequence ← aread sv_clientSequence clientIndex;
                 emit [EvLoopback clientIndex packetData sequence];;
                 awrite sv_clientSequence clientIndex (u64 (sequence + 1));;
                 time ← gets sv_time;
                 awrite sv_clientLastPacketSendTime clientIndex time)
              else panic)))).
End handlers.

Definition ReceivePacket (clientIndex : Z) : M Server (option (list byte) * Z) :=
  ok ← gets (in_slot_range clientIndex);
  if negb ok then mret (None, 0)
  else
    (connected ← aread sv_clientConnected clientIndex;
     if negb connected then mret (None, 0)
     else
       (q ← aread sv_clientPacketQueue clientIndex;
        '(r, q) ← lift (Queue.pop q);
        awrite sv_clientPacketQueue clientIndex q;;
        match r.1 with
        | None => mret (None, 0)
        | Some payloadData => mret (Some payloadData, r.2)
        end)).

Definition ConnectLoopbackClient (clientIndex clientID : Z) (userData : list byte) : M Server unit :=
  ok ← gets (in_slot_range clientIndex);
  if negb ok then mret tt
  else
    (connected ← aread sv_clientConnected clientIndex;
     if (connected : bool) then mret tt
     else
       (time ← gets sv_time;
        modify (set sv_numConnectedClients (λ n, n + 1));;
        awrite sv_clientLoopback clientIndex true;;
        awrite sv_clientConnected clientIndex true;;
        awrite sv_clientConfirmed clientIndex true;;
        awrite sv_clientEncryptionIndex clientIndex (-1);;
        awrite sv_clientID clientIndex clientID;;
        awrite sv_clientSequence clientIndex 0;;
        awrite sv_clientDisconnectReason clientIndex DisconnectReasonNone;;
        awrite sv_clientAddress clientIndex zeroAddress;;
        awrite sv_clientLastPacketSendTime clientIndex time;;
        awrite sv_clientLastPacketReceiveTime clientIndex time;;
        awrite sv_clientUserData clientIndex (go_copy (zeros UserDataBytes) userData);;
        connectDisconnect clientIndex true)).

Definition ProcessLoopbackPacket (clientIndex : Z) (packetData : list byte) (packetSequence : Z)
  : M Server unit :=
  ok ← gets (in_slot_range clientIndex);
  if negb ok then mret tt
  else
    (connected ← aread sv_clientConnected clientIndex;
     loopback ← aread sv_clientLoopback clientIndex;
     if negb connected || negb loopback then mret tt
     else if bool_decide (length packetData ≤ 0)%nat || bool_decide (MaxPacketSize < length packetData)%nat
     then mret tt
     else
       (time ← gets sv_time;
        awrite sv_clientLastPacketReceiveTime clientIndex time;;
        pushPacket clientIndex packetData packetSequence)).

(** ** Queries: a default outside the running server's slots *)
Definition query {A : Type} (fld : Server → list A) (default : A) (clientIndex : Z) : M Server A :=
  ok ← gets (in_slot_range clientIndex);
  if negb ok then mret default else aread fld clientIndex.
Definition ClientConnected := query sv_clientConnected false.
Definition ClientDisconnectReason := query sv_clientDisconnectReason DisconnectReasonNone.
Definition ClientID := query sv_clientID 0.
Definition ClientAddress := query sv_clientAddress zeroAddress.
Definition ClientLoopback := query sv_clientLoopback false.
Definition ClientUserData (clientIndex : Z) : M Server (option (list byte)) :=
  ok ← gets (in_slot_range clientIndex);
  if negb ok then mret None else (d ← aread sv_clientUserData clientIndex; mret (Some d)).
Definition NextPacketSequence (clientIndex : Z) : M Server Z :=
  ok ← gets (in_slot_range clientIndex);
  if negb ok then mret 0
  else
    (connected ← aread sv_clientConnected clientIndex;
     if negb connected then mret 0 else aread sv_clientSequence clientIndex).
Definition NumConnectedClients (s : Server) : Z := sv_numConnectedClients s.
Definition Running (s : Server) : bool := sv_running s.
Definition MaxClients_ (s : Server) : Z := sv_maxClients s.
Definition Port_ (s : Server) : Z :=
  if Type_ (sv_address s) =? AddressIPv4
  then match sh_ipv4 (sv_socketHolder s) with Some a => Port a | None => 0 end
  else match sh_ipv6 (sv_socketHolder s) with Some a => Port a | None => 0 end.
End ServerOps.
