(* ===== verification/ServerInvariant.v ===== *)
(** The server invariant: slots and encryption mappings agree, the client count
    is exact, and every operation of server.go preserves both without a panic. *)

From S2P Require Import Prelude Constants Float64 Buffer Replay Queue Address Crypto.
From S2P Require Import SampleCrypto Token Packet TokenEntries Encryption Socket Server.

(** ** One client slot, read across the parallel arrays *)
Record slot := mkSlot {
  sl_connected : bool;
  sl_timeout : Z;
  sl_loopback : bool;
  sl_confirmed : bool;
  sl_reason : Z;
  sl_encryptionIndex : Z;
  sl_id : Z;
  sl_sequence : Z;
  sl_lastSend : float64;
  sl_lastReceive : float64;
  sl_userData : list byte;
  sl_replay : replayProtection;
  sl_queue : packetQueue (list byte);
  sl_address : Address;
}.
#[export] Instance eta_slot : Eta slot := λ x,
  mkSlot (sl_connected x) (sl_timeout x) (sl_loopback x) (sl_confirmed x) (sl_reason x)
    (sl_encryptionIndex x) (sl_id x) (sl_sequence x) (sl_lastSend x) (sl_lastReceive x)
    (sl_userData x) (sl_replay x) (sl_queue x) (sl_address x).

Definition slot_at (s : Server) (i : Z) : option slot :=
  connected ← aget (sv_clientConnected s) i;
  timeout ← aget (sv_clientTimeout s) i;
  loopback ← aget (sv_clientLoopback s) i;
  confirmed ← aget (sv_clientConfirmed s) i;
  reason ← aget (sv_clientDisconnectReason s) i;
  encryptionIndex ← aget (sv_clientEncryptionIndex s) i;
  id ← aget (sv_clientID s) i;
  sequence ← aget (sv_clientSequence s) i;
  lastSend ← aget (sv_clientLastPacketSendTime s) i;
  lastReceive ← aget (sv_clientLastPacketReceiveTime s) i;
  userData ← aget (sv_clientUserData s) i;
  replay ← aget (sv_clientReplayProtection s) i;
  queue ← aget (sv_clientPacketQueue s) i;
  address ← aget (sv_clientAddress s) i;
  Some (mkSlot connected timeout loopback confirmed reason encryptionIndex id sequence lastSend
          lastReceive userData replay queue address).

Definition num_slots : nat := Z.to_nat MaxClients.
Record server_shape (s : Server) : Prop := {
  ss_connected : length (sv_clientConnected s) = num_slots;
  ss_timeout : length (sv_clientTimeout s) = num_slots;
  ss_loopback : length (sv_clientLoopback s) = num_slots;
  ss_confirmed : length (sv_clientConfirmed s) = num_slots;
  ss_reason : length (sv_clientDisconnectReason s) = num_slots;
  ss_encryptionIndex : length (sv_clientEncryptionIndex s) = num_slots;
  ss_id : length (sv_clientID s) = num_slots;
  ss_sequence : length (sv_clientSequence s) = num_slots;
  ss_lastSend : length (sv_clientLastPacketSendTime s) = num_slots;
  ss_lastReceive : length (sv_clientLastPacketReceiveTime s) = num_slots;
  ss_userData : length (sv_clientUserData s) = num_slots;
  ss_replay : length (sv_clientReplayProtection s) = num_slots;
  ss_queue : length (sv_clientPacketQueue s) = num_slots;
  ss_address : length (sv_clientAddress s) = num_slots;
}.

Lemma slot_at_inv s i x :
  slot_at s i = Some x →
  aget (sv_clientConnected s) i = Some (sl_connected x) ∧
  aget (sv_clientTimeout s) i = Some (sl_timeout x) ∧
  aget (sv_clientLoopback s) i = Some (sl_loopback x) ∧
  aget (sv_clientConfirmed s) i = Some (sl_confirmed x) ∧
  aget (sv_clientDisconnectReason s) i = Some (sl_reason x) ∧
  aget (sv_clientEncryptionIndex s) i = Some (sl_encryptionIndex x) ∧
  aget (sv_clientID s) i = Some (sl_id x) ∧
  aget (sv_clientSequence s) i = Some (sl_sequence x) ∧
  aget (sv_clientLastPacketSendTime s) i = Some (sl_lastSend x) ∧
  aget (sv_clientLastPacketReceiveTime s) i = Some (sl_lastReceive x) ∧
  aget (sv_clientUserData s) i = Some (sl_userData x) ∧
  aget (sv_clientReplayProtection s) i = Some (sl_replay x) ∧
  aget (sv_clientPacketQueue s) i = Some (sl_queue x) ∧
  aget (sv_clientAddress s) i = Some (sl_address x).
Proof.
  unfold slot_at. intros H.
  repeat match type of H with
  | context [aget ?l i] => destruct (aget l i); [cbn [mbind option_bind] in H|done]
  end. injection H as <-. by split_and!.
Qed.
Lemma slot_at_Some s i : server_shape s → 0 ≤ i < MaxClients → ∃ x, slot_at s i = Some x.
Proof.
  intros [] Hi. unfold slot_at.
  repeat match goal with
  | H : length ?l = num_slots |- context [aget ?l i] =>
      destruct (aget_Some l i) as [? ->]; [rewrite H; unfold num_slots; clia|]; cbn [mbind option_bind]
  end. eauto.
Qed.
Lemma slot_at_range s i x : server_shape s → slot_at s i = Some x → 0 ≤ i < MaxClients.
Proof.
  intros Hs Hx. destruct (slot_at_inv _ _ _ Hx) as (H & _). apply aget_range in H.
  rewrite (ss_connected _ Hs) in H. unfold num_slots in H. clia.
Qed.

(** Slot [i] now holds [x], the other slots are as they were. *)
Record slot_updated (s : Server) (i : Z) (x : slot) (s' : Server) : Prop := {
  su_shape : server_shape s';
  su_at j : slot_at s' j = if decide (i = j) then Some x else slot_at s j;
}.

Ltac sv_lengths :=
  simpl; rewrite ?length_ainsert;
  repeat match goal with H : length _ = num_slots |- _ => rewrite H; clear H end;
  unfold num_slots; clia.
Ltac sv_write := first [apply wp_bind; apply wp_awrite; [sv_lengths|] | apply wp_awrite; [sv_lengths|]].
(** Discharge [slot_updated] for the state a block of writes leaves; [Hat] is
    what [slot_at_inv] says about the slot. *)
Ltac sv_updated Hat :=
  split;
  [ split; simpl; rewrite ?length_ainsert; assumption
  | let j := fresh "j" in intros j; unfold slot_at; simpl;
    rewrite ?aget_ainsert by sv_lengths;
    destruct (decide _) as [<-|];
    [ let H1 := fresh in let H2 := fresh in let H3 := fresh in let H4 := fresh in
      let H5 := fresh in let H6 := fresh in let H7 := fresh in let H8 := fresh in
      let H9 := fresh in let H10 := fresh in let H11 := fresh in let H12 := fresh in
      let H13 := fresh in let H14 := fresh in
      destruct Hat as (H1 & H2 & H3 & H4 & H5 & H6 & H7 & H8 & H9 & H10 & H11 & H12 & H13 & H14);
      rewrite ?H1, ?H2, ?H3, ?H4, ?H5, ?H6, ?H7, ?H8, ?H9, ?H10, ?H11, ?H12, ?H13, ?H14;
      reflexivity
    | reflexivity ] ].

(** Everything but the slots, the number of clients, the encryption manager and
    the events. *)
Record same_scalars (s s' : Server) : Prop := {
  sm_config : sv_config s' = sv_config s;
  sm_holder : sv_socketHolder s' = sv_socketHolder s;
  sm_address : sv_address s' = sv_address s;
  sm_address2 : sv_address2 s' = sv_address2 s;
  sm_flags : sv_flags s' = sv_flags s;
  sm_time : sv_time s' = sv_time s;
  sm_running : sv_running s' = sv_running s;
  sm_maxClients : sv_maxClients s' = sv_maxClients s;
  sm_globalSequence : sv_globalSequence s' = sv_globalSequence s;
  sm_challengeSequence : sv_challengeSequence s' = sv_challengeSequence s;
  sm_challengeKey : sv_challengeKey s' = sv_challengeKey s;
  sm_entries : sv_connectTokenEntries s' = sv_connectTokenEntries s;
  sm_minExpire : sv_minConnectTokenExpireTimestamp s' = sv_minConnectTokenExpireTimestamp s;
}.
#[export] Instance same_scalars_refl : Reflexive same_scalars.
Proof. by split. Qed.
#[export] Instance same_scalars_trans : Transitive same_scalars.
Proof. intros s1 s2 s3 [] []. split; etrans; eassumption. Qed.

Section slot_writes.
Context (s : Server) (i : Z) (x : slot) (Hs : server_shape s) (Hx : slot_at s i = Some x).

Lemma resetClientSlot_wp :
  wp (ServerOps.resetClientSlot i)
    (λ _ s', slot_updated s i
       (mkSlot false (sl_timeout x) false false (sl_reason x) (-1) 0 0 f64_0 f64_0
          (zeros UserDataBytes) (sl_replay x) Queue.clear zeroAddress) s' ∧
       sv_numConnectedClients s' = sv_numConnectedClients s - 1 ∧ sv_events s' = sv_events s ∧
       sv_encryptionManager s' = sv_encryptionManager s ∧ same_scalars s s') s.
Proof.
  pose proof (slot_at_range _ _ _ Hs Hx) as Hi. pose proof (slot_at_inv _ _ _ Hx) as Hat.
  destruct Hs as []. unfold ServerOps.resetClientSlot. do 11 sv_write. apply wp_modify.
  split_and!; [sv_updated Hat|done..|by split].
Qed.
End slot_writes.

(** ** Counting connected clients *)
Definition count_true (l : list bool) : Z := Z.of_nat (length (filter (λ b, b = true) l)).
Lemma count_true_app l l' : count_true (l ++ l') = count_true l + count_true l'.
Proof. unfold count_true. rewrite filter_app, length_app. lia. Qed.
Lemma count_true_cons b l : count_true (b :: l) = Z.b2z b + count_true l.
Proof. unfold count_true. rewrite filter_cons. by destruct b; case_decide; simpl; try lia. Qed.
Lemma count_true_ainsert l i b b' :
  aget l i = Some b → count_true (ainsert i b' l) = count_true l - Z.b2z b + Z.b2z b'.
Proof.
  intros Hi. pose proof (aget_range _ _ _ Hi). unfold aget, ainsert in *.
  destruct (0 <=? i); [|done].
  rewrite <-(take_drop_middle l (Z.to_nat i) b Hi) at 2.
  rewrite insert_take_drop by lia. rewrite !count_true_app, !count_true_cons. lia.
Qed.
Lemma count_true_nonneg l : 0 ≤ count_true l.
Proof. unfold count_true. lia. Qed.
(** When the first [n] are all true there are at least [n]. *)
Lemma count_true_all l (n : nat) :
  (∀ i, 0 ≤ i < Z.of_nat n → aget l i = Some true) → Z.of_nat n ≤ count_true l.
Proof.
  revert n. induction l as [|b l IH]; intros n H.
  - destruct n; [done|]. specialize (H 0 ltac:(lia)). done.
  - destruct n as [|n]; [apply count_true_nonneg|]. rewrite count_true_cons.
    assert (b = true) as -> by (specialize (H 0 ltac:(lia)); by injection H).
    assert (Z.of_nat n ≤ count_true l); [|simpl; lia]. apply IH. intros i Hi.
    specialize (H (i + 1) ltac:(lia)). unfold aget in *.
    destruct (Z.leb_spec 0 i), (Z.leb_spec 0 (i + 1)); try lia.
    by rewrite Z2Nat.inj_add, Nat.add_1_r in H by lia.
Qed.
Lemma count_true_none l : (∀ i b, aget l i = Some b → b = false) → count_true l = 0.
Proof.
  induction l as [|b l IH]; intros H; [done|]. rewrite count_true_cons.
  rewrite (H 0 b eq_refl), IH; [done|]. intros i b' Hi. apply (H (i + 1)).
  pose proof (aget_range _ _ _ Hi). unfold aget in *.
  destruct (Z.leb_spec 0 i), (Z.leb_spec 0 (i + 1)); try lia.
  by rewrite Z2Nat.inj_add, Nat.add_1_r by lia.
Qed.
(** When none from [n] on is true there are at most [n]. *)
Lemma count_true_most l n :
  0 ≤ n → (∀ i, aget l i = Some true → i < n) → count_true l ≤ n.
Proof.
  revert n. induction l as [|b l IH]; intros n Hn H; [done|]. rewrite count_true_cons.
  assert (∀ i, aget l i = Some true → aget (b :: l) (i + 1) = Some true) as Hshift.
  { intros i Hi. pose proof (aget_range _ _ _ Hi). unfold aget in *.
    destruct (Z.leb_spec 0 i), (Z.leb_spec 0 (i + 1)); try lia.
    by rewrite Z2Nat.inj_add, Nat.add_1_r by lia. }
  assert (b = true → 0 < n) as Hb by (intros ->; by apply (H 0)).
  destruct (decide (n = 0)) as [->|].
  - rewrite count_true_none; [destruct b; [lia|done]|]. intros i [] Hi; [|done].
    pose proof (aget_range _ _ _ Hi). specialize (H _ (Hshift i Hi)). lia.
  - assert (count_true l ≤ n - 1); [|destruct b; simpl; lia]. apply IH; [lia|].
    intros i Hi. specialize (H _ (Hshift i Hi)). lia.
Qed.

(** ** The invariant *)

(** A slot on its own. A free slot holds nothing of an earlier client. *)
Record slot_local (x : slot) : Prop := {
  sx_sequence : is_u64 (sl_sequence x);
  sx_replay : replay_wf (sl_replay x);
  sx_queue : queue_wf (sl_queue x);
  sx_userData : length (sl_userData x) = UserDataBytes;
  sx_free : sl_connected x = false →
    sl_loopback x = false ∧ sl_confirmed x = false ∧ sl_encryptionIndex x = -1 ∧
    sl_address x = zeroAddress ∧ sl_replay x = Replay.reset ∧ sl_sequence x = 0 ∧
    sl_queue x = Queue.clear ∧ sl_userData x = zeros UserDataBytes;
  sx_loopback : sl_loopback x = true → sl_replay x = Replay.reset;
}.
(** A client over the network. *)
Definition network (x : slot) : Prop := sl_connected x = true ∧ sl_loopback x = false.

(** Slots and encryption mappings agree: a network client owns the mapping its
    slot points to, whose address is the client's; a mapping that names an owner
    is owned by it; and no two network clients share an address. *)
Record linked (s : Server) : Prop := {
  lk_network i x : slot_at s i = Some x → network x →
    ∃ y, em_at (sv_encryptionManager s) (sl_encryptionIndex x) = Some y ∧
      mp_clientIndex y = i ∧ Equal (mp_address y) (sl_address x) = true;
  lk_loopback i x : slot_at s i = Some x → sl_connected x = true → sl_loopback x = true →
    sl_encryptionIndex x = -1 ∧ sl_address x = zeroAddress;
  lk_owner e y : em_at (sv_encryptionManager s) e = Some y → mp_clientIndex y ≠ -1 →
    ∃ x, slot_at s (mp_clientIndex y) = Some x ∧ network x ∧ sl_encryptionIndex x = e;
  lk_distinct i j x y : slot_at s i = Some x → slot_at s j = Some y → network x → network y →
    Equal (sl_address x) (sl_address y) = true → i = j;
}.

Record server_wf (s : Server) : Prop := {
  sw_shape : server_shape s;
  sw_privateKey : length (sc_privateKey (sv_config s)) = KeyBytes;
  sw_challengeKey : length (sv_challengeKey s) = KeyBytes;
  sw_maxClients : if sv_running s then 1 ≤ sv_maxClients s ≤ MaxClients else sv_maxClients s = 0;
  sw_globalSequence : is_u64 (sv_globalSequence s);
  sw_challengeSequence : is_u64 (sv_challengeSequence s);
  sw_entries : entries_wf (sv_connectTokenEntries s);
  sw_em : em_wf (sv_encryptionManager s);
  sw_count : sv_numConnectedClients s = count_true (sv_clientConnected s);
  sw_slots i x : slot_at s i = Some x → slot_local x;
  sw_active i x : slot_at s i = Some x → sl_connected x = true → i < sv_maxClients s;
  sw_linked : linked s;
}.

(** ** Changes that keep the links *)
Definition link_of (x : slot) : bool * bool * Z * Address :=
  (sl_connected x, sl_loopback x, sl_encryptionIndex x, sl_address x).
Definition slot_links (s s' : Server) : Prop := ∀ i,
  match slot_at s i, slot_at s' i with
  | Some x, Some x' => link_of x' = link_of x
  | None, None => True
  | _, _ => False
  end.
(** The owners of mappings stay, and so do the addresses of owned mappings. *)
Definition em_links (m m' : encryptionManager) : Prop := ∀ e,
  match em_at m e, em_at m' e with
  | Some y, Some y' => mp_clientIndex y' = mp_clientIndex y ∧
      (mp_clientIndex y ≠ -1 → mp_address y' = mp_address y)
  | None, None => True
  | _, _ => False
  end.
Lemma slot_links_refl s s' : (∀ i, slot_at s' i = slot_at s i) → slot_links s s'.
Proof. intros H i. rewrite H. by destruct (slot_at s i). Qed.
Lemma em_links_refl m : em_links m m.
Proof. intros e. by destruct (em_at m e). Qed.
Lemma em_links_updated m e y y' m' :
  em_at m e = Some y → updated m e y' m' → mp_clientIndex y' = mp_clientIndex y →
  (mp_clientIndex y ≠ -1 → mp_address y' = mp_address y) → em_links m m'.
Proof.
  intros Hy Hup Hc Ha j. rewrite (up_at _ _ _ _ Hup).
  case_decide; [subst; by rewrite Hy|]. by destruct (em_at m j).
Qed.
Lemma slot_links_updated s i x x' s' :
  slot_at s i = Some x → slot_updated s i x' s' → link_of x' = link_of x → slot_links s s'.
Proof.
  intros Hx Hup Hl j. rewrite (su_at _ _ _ _ Hup).
  case_decide; [subst; by rewrite Hx|]. by destruct (slot_at s j).
Qed.

Lemma slot_links_inv s s' i x' :
  slot_links s s' → slot_at s' i = Some x' → ∃ x, slot_at s i = Some x ∧ link_of x' = link_of x.
Proof. intros H Hx. specialize (H i). rewrite Hx in H. destruct (slot_at s i); eauto. done. Qed.
Lemma slot_links_fwd s s' i x :
  slot_links s s' → slot_at s i = Some x → ∃ x', slot_at s' i = Some x' ∧ link_of x' = link_of x.
Proof. intros H Hx. specialize (H i). rewrite Hx in H. destruct (slot_at s' i); eauto. done. Qed.
Lemma link_network x x' : link_of x' = link_of x → network x' → network x.
Proof. unfold link_of, network. intros [= -> -> _ _]. done. Qed.

Lemma linked_frame s s' :
  linked s → slot_links s s' → em_links (sv_encryptionManager s) (sv_encryptionManager s') →
  linked s'.
Proof.
  intros [Hnet Hloop Hown Hdist] Hsl Hem. split.
  - intros i x' Hx' Hn. destruct (slot_links_inv _ _ _ _ Hsl Hx') as (x & Hx & Hl).
    destruct (Hnet i x Hx (link_network _ _ Hl Hn)) as (y & Hy & Hi & Ha).
    injection Hl as _ _ -> ->. specialize (Hem (sl_encryptionIndex x)). rewrite Hy in Hem.
    destruct (em_at (sv_encryptionManager s') (sl_encryptionIndex x)) as [y'|]; [|done].
    destruct Hem as [Hc Hadr]. exists y'. split_and!; [done|congruence|]. rewrite Hadr; [done|].
    rewrite Hi. destruct (slot_at_inv _ _ _ Hx) as (Hr & _). apply aget_range in Hr. lia.
  - intros i x' Hx' Hc Hlb. destruct (slot_links_inv _ _ _ _ Hsl Hx') as (x & Hx & Hl).
    injection Hl as H1 H2 -> ->. apply (Hloop i x); congruence.
  - intros e y' Hy' Hc. specialize (Hem e). rewrite Hy' in Hem.
    destruct (em_at (sv_encryptionManager s) e) as [y|] eqn:Hy; [|done]. destruct Hem as [Hcc _].
    rewrite Hcc in *. destruct (Hown e y Hy Hc) as (x & Hx & Hn & He).
    destruct (slot_links_fwd _ _ _ _ Hsl Hx) as (x' & Hx' & Hl). exists x'.
    split_and!; [done|by apply (link_network x' x)|]. by injection Hl as _ _ -> _.
  - intros i j x' y' Hx' Hy' Hn1 Hn2 Heq.
    destruct (slot_links_inv _ _ _ _ Hsl Hx') as (x & Hx & Hl1).
    destruct (slot_links_inv _ _ _ _ Hsl Hy') as (y & Hy & Hl2).
    apply (Hdist i j x y Hx Hy); [by eapply link_network..|].
    injection Hl1 as _ _ _ Ha1. injection Hl2 as _ _ _ Ha2. by rewrite <-Ha1, <-Ha2.
Qed.

(** The connected flags, and with them the count, follow the links. *)
Lemma slot_links_connected s s' :
  server_shape s → server_shape s' → slot_links s s' → sv_clientConnected s' = sv_clientConnected s.
Proof.
  intros Hs Hs' Hl. apply aget_ext; [by rewrite (ss_connected _ Hs), (ss_connected _ Hs')|].
  intros i. specialize (Hl i). destruct (decide (0 ≤ i < MaxClients)) as [Hi|Hi].
  - destruct (slot_at_Some s i Hs Hi) as [x Hx]. destruct (slot_at_Some s' i Hs' Hi) as [x' Hx'].
    rewrite Hx, Hx' in Hl. injection Hl as Hc _ _ _.
    destruct (slot_at_inv _ _ _ Hx) as (-> & _). destruct (slot_at_inv _ _ _ Hx') as (-> & _).
    by rewrite Hc.
  - rewrite !aget_outside; [done|rewrite (ss_connected _ Hs)|rewrite (ss_connected _ Hs')];
      unfold num_slots; clia.
Qed.

(** Scalars that a change may touch, within their range. *)
Record scalars_ok (s s' : Server) : Prop := {
  sk_config : sv_config s' = sv_config s;
  sk_challengeKey : length (sv_challengeKey s') = KeyBytes;
  sk_running : sv_running s' = sv_running s;
  sk_maxClients : sv_maxClients s' = sv_maxClients s;
  sk_global : is_u64 (sv_globalSequence s');
  sk_challenge : is_u64 (sv_challengeSequence s');
  sk_entries : entries_wf (sv_connectTokenEntries s');
  sk_em : em_wf (sv_encryptionManager s');
}.
Lemma server_wf_frame s s' :
  server_wf s → server_shape s' → scalars_ok s s' →
  sv_numConnectedClients s' = sv_numConnectedClients s → slot_links s s' →
  em_links (sv_encryptionManager s) (sv_encryptionManager s') →
  (∀ i x, slot_at s' i = Some x → slot_local x) → server_wf s'.
Proof.
  intros Hwf Hs' Hk Hnum Hsl Hem Hlocal. pose proof (sw_shape _ Hwf) as Hs. destruct Hk. split; try done.
  - rewrite sk_config0. apply Hwf.
  - rewrite sk_running0, sk_maxClients0. apply Hwf.
  - rewrite Hnum, (slot_links_connected s s') by done. apply Hwf.
  - intros i x' Hx' Hc. destruct (slot_links_inv _ _ _ _ Hsl Hx') as (x & Hx & Hl).
    rewrite sk_maxClients0. injection Hl as Hcc _ _ _. apply (sw_active _ Hwf i x Hx). congruence.
  - eapply linked_frame; [apply Hwf|done|done].
Qed.

(** A change of one slot that keeps its links and its well-formedness. *)
Lemma server_wf_slot s i x x' s' :
  server_wf s → slot_at s i = Some x → slot_updated s i x' s' → link_of x' = link_of x →
  slot_local x' → scalars_ok s s' → sv_numConnectedClients s' = sv_numConnectedClients s →
  em_links (sv_encryptionManager s) (sv_encryptionManager s') → server_wf s'.
Proof.
  intros Hwf Hx Hup Hl Hloc Hk Hnum Hem. eapply server_wf_frame; try done; [apply Hup|..].
  - by eapply slot_links_updated.
  - intros j y. rewrite (su_at _ _ _ _ Hup). case_decide; [by intros [= <-]|apply (sw_slots _ Hwf)].
Qed.
(** A change that leaves the slots alone. *)
Lemma server_wf_rest s s' :
  server_wf s → server_shape s' → (∀ i, slot_at s' i = slot_at s i) → scalars_ok s s' →
  sv_numConnectedClients s' = sv_numConnectedClients s →
  em_links (sv_encryptionManager s) (sv_encryptionManager s') → server_wf s'.
Proof.
  intros Hwf Hs' Hat Hk Hnum Hem. eapply server_wf_frame; try done.
  - by apply slot_links_refl.
  - intros i x. rewrite Hat. apply (sw_slots _ Hwf).
Qed.
Lemma scalars_ok_refl s : server_wf s → scalars_ok s s.
Proof. intros []. by split. Qed.

(** ** Sending *)

Lemma same_scalars_ok s s' :
  server_wf s → same_scalars s s' → em_wf (sv_encryptionManager s') → scalars_ok s s'.
Proof.
  intros Hwf Hsm Hem. split; try apply Hsm; try done.
  - rewrite (sm_challengeKey _ _ Hsm). apply Hwf.
  - rewrite (sm_globalSequence _ _ Hsm). apply Hwf.
  - rewrite (sm_challengeSequence _ _ Hsm). apply Hwf.
  - rewrite (sm_entries _ _ Hsm). apply Hwf.
Qed.

Lemma shape_at s s' :
  sv_clientConnected s' = sv_clientConnected s → sv_clientTimeout s' = sv_clientTimeout s →
  sv_clientLoopback s' = sv_clientLoopback s → sv_clientConfirmed s' = sv_clientConfirmed s →
  sv_clientDisconnectReason s' = sv_clientDisconnectReason s →
  sv_clientEncryptionIndex s' = sv_clientEncryptionIndex s → sv_clientID s' = sv_clientID s →
  sv_clientSequence s' = sv_clientSequence s →
  sv_clientLastPacketSendTime s' = sv_clientLastPacketSendTime s →
  sv_clientLastPacketReceiveTime s' = sv_clientLastPacketReceiveTime s →
  sv_clientUserData s' = sv_clientUserData s →
  sv_clientReplayProtection s' = sv_clientReplayProtection s →
  sv_clientPacketQueue s' = sv_clientPacketQueue s → sv_clientAddress s' = sv_clientAddress s →
  server_shape s → server_shape s' ∧ (∀ i, slot_at s' i = slot_at s i).
Proof.
  intros E1 E2 E3 E4 E5 E6 E7 E8 E9 E10 E11 E12 E13 E14 Hs. split.
  - split; rewrite ?E1, ?E2, ?E3, ?E4, ?E5, ?E6, ?E7, ?E8, ?E9, ?E10, ?E11, ?E12, ?E13, ?E14;
      apply Hs.
  - intros i. unfold slot_at.
    by rewrite E1, E2, E3, E4, E5, E6, E7, E8, E9, E10, E11, E12, E13, E14.
Qed.

Section sending.
Context {C : CryptoLib} {L : CryptoLaws C}.

(** Whether the server has a transport for the address. *)
Definition reaches (s : Server) (to : Address) : bool :=
  reachable (sc_networkSimulator (sv_config s))
    (if sc_overrideSendAndReceive (sv_config s) then sc_sendPacketOverride (sv_config s) else false)
    (sv_socketHolder s) to.
Lemma reaches_scalars s s' to : same_scalars s s' → reaches s' to = reaches s to.
Proof. intros H. unfold reaches. by rewrite (sm_config _ _ H), (sm_holder _ _ H). Qed.
Lemma wp_dispatch to d Q s :
  (∀ evs, datagrams evs = (if reaches s to then [(to, d)] else []) →
     Q tt (s <| sv_events := sv_events s ++ evs |>)) → wp (ServerOps.dispatch to d) Q s.
Proof.
  intros H. unfold ServerOps.dispatch. apply wp_bind, wp_gets. cbv beta delta [id].
  apply wp_modify. apply H, datagrams_send.
Qed.
Lemma wp_connectDisconnect i b Q s :
  (∀ evs, datagrams evs = [] → Q tt (s <| sv_events := sv_events s ++ evs |>)) →
  wp (ServerOps.connectDisconnect i b) Q s.
Proof.
  intros H. unfold ServerOps.connectDisconnect. apply wp_bind, wp_gets.
  destruct (sc_connectDisconnectCallback (sv_config s)); [apply wp_modify; by apply H|].
  apply wp_ret. specialize (H [] eq_refl). rewrite app_nil_r in H. by destruct s.
Qed.

(** The encoding of a valid packet under a 32 byte key. *)
Definition encoding (p : packet) (sequence : Z) (key : list byte) (pid : Z) : list byte :=
  sealed_packet key pid (packetType p) (sequence_bytes sequence) (enc_body p).
Lemma writePacket_encoding p s key pid :
  valid_encrypted p → is_u64 s → length key = KeyBytes →
  ∃ n b, writePacket p (zeros maxPacketBytes) s key pid = Some (n, b) ∧ n ≠ 0%nat ∧
    take n b = encoding p s key pid.
Proof.
  intros Hp Hs Hk.
  destruct (writePacket_spec p (zeros maxPacketBytes) s key pid Hp Hs) as [Hw _];
    [by rewrite length_zeros|done|].
  rewrite Hw. eexists _, _. split_and!; [done| |by rewrite take_app_length].
  rewrite length_sealed_packet by done. lia.
Qed.

Lemma sendGlobalPacket_wp p to key s :
  server_wf s → valid_encrypted p → length key = KeyBytes →
  wp (ServerOps.sendGlobalPacket p to key)
    (λ _ s', server_wf s' ∧ ∃ evs,
       s' = s <| sv_events := sv_events s ++ evs |>
              <| sv_globalSequence := u64 (sv_globalSequence s + 1) |> ∧
       datagrams evs = if reaches s to
         then [(to, encoding p (sv_globalSequence s) key (sc_protocolID (sv_config s)))] else []) s.
Proof.
  intros Hwf Hp Hk. unfold ServerOps.sendGlobalPacket. apply wp_bind, wp_gets. cbv beta delta [id].
  destruct (writePacket_encoding p (sv_globalSequence s) key (sc_protocolID (sv_config s)) Hp
              (sw_globalSequence _ Hwf) Hk) as (n & b & Hw & Hn & He).
  apply wp_bind. eapply wp_lift; [done|]. cbv beta iota. rewrite bool_decide_eq_false_2 by done.
  apply wp_bind, wp_dispatch. intros evs Hevs. apply wp_modify. rewrite He in Hevs.
  split; [|by exists evs].
  destruct (shape_at s (s <| sv_events := sv_events s ++ evs |>
              <| sv_globalSequence := u64 (sv_globalSequence s + 1) |>)) as [Hsh Hat];
    [done..|apply Hwf|].
  eapply server_wf_rest; [done|done|done| |done|apply em_links_refl].
  destruct (scalars_ok_refl s Hwf). split; try done. apply u64_range.
Qed.

(** A packet to a network client: its sequence number is used up, its mapping
    touched, and one datagram goes out under the mapping's send key. *)
Record sent_client (s : Server) (i : Z) (x : slot) (y : mapping) (p : packet) (s' : Server) : Prop := {
  st_wf : server_wf s';
  st_slot : slot_updated s i
    (x <| sl_sequence := u64 (sl_sequence x + 1) |> <| sl_lastSend := sv_time s |>) s';
  st_mapping : updated (sv_encryptionManager s) (sl_encryptionIndex x)
    (y <| mp_lastAccessTime := sv_time s |>) (sv_encryptionManager s');
  st_scalars : same_scalars s s';
  st_count : sv_numConnectedClients s' = sv_numConnectedClients s;
  st_events : ∃ evs, sv_events s' = sv_events s ++ evs ∧
    datagrams evs = if reaches s (sl_address x)
      then [(sl_address x, encoding p (sl_sequence x) (mp_sendKey y) (sc_protocolID (sv_config s)))] else [];
}.

Lemma sendClientPacket_wp p i x s :
  server_wf s → slot_at s i = Some x → network x → valid_encrypted p →
  wp (ServerOps.sendClientPacket p i)
    (λ _ s', ∃ y, em_at (sv_encryptionManager s) (sl_encryptionIndex x) = Some y ∧
       sent_client s i x y p s') s.
Proof.
  intros Hwf Hx Hn Hp. pose proof (sw_shape _ Hwf) as Hs.
  pose proof (slot_at_range _ _ _ Hs Hx) as Hi. pose proof (slot_at_inv _ _ _ Hx) as Hat.
  destruct (lk_network _ (sw_linked _ Hwf) i x Hx Hn) as (y & Hy & Hyc & Hya).
  destruct (ew_keys _ (sw_em _ Hwf) _ _ Hy) as [Hk1 _].
  pose proof (sw_slots _ Hwf _ _ Hx) as Hloc.
  unfold ServerOps.sendClientPacket.
  apply wp_bind. eapply wp_aread; [apply Hat|]. apply wp_bind. eapply wp_aread; [apply Hat|].
  apply wp_bind, wp_gets, wp_bind, wp_zoom.
  destruct (touch_spec (sv_encryptionManager s) _ y (sl_address x) (sv_time s) (sw_em _ Hwf) Hy)
    as (m' & Htouch & Hwfm & Hnum & Hup).
  rewrite Hya in Htouch, Hup. eapply wp_run; [done|]. cbn [negb].
  pose proof (up_at _ _ _ _ Hup (sl_encryptionIndex x)) as Hy'. rewrite decide_True in Hy' by done.
  apply wp_bind, wp_zoom. simpl sv_encryptionManager.
  eapply wp_run; [apply (getSendKey_spec _ _ _ Hy')|].
  apply wp_bind. eapply wp_aread; [apply Hat|]. apply wp_bind, wp_gets.
  simpl sv_config. simpl ServerOps.key_bytes. change (mp_sendKey (y <| mp_lastAccessTime := sv_time s |>)) with (mp_sendKey y).
  destruct (writePacket_encoding p (sl_sequence x) (mp_sendKey y) (sc_protocolID (sv_config s)) Hp
              (sx_sequence _ Hloc) Hk1) as (n & b & Hw & Hn0 & He).
  apply wp_bind. eapply wp_lift; [done|]. cbv beta iota. rewrite bool_decide_eq_false_2 by done. rewrite He.
  apply wp_bind, wp_dispatch. intros evs Hevs.
  assert (∀ s', slot_updated s i
    (x <| sl_sequence := u64 (sl_sequence x + 1) |> <| sl_lastSend := sv_time s |>) s' →
    sv_encryptionManager s' = m' → same_scalars s s' →
    sv_numConnectedClients s' = sv_numConnectedClients s → server_wf s') as Hfin.
  { intros s' Hsu Hem Hsc Hnc. eapply (server_wf_slot s i x); try done.
    - destruct Hloc as [H1 H2 H3 H4 H5 H6]. split; simpl; auto using u64_range.
      intros Hc. destruct Hn as [Hc' _]. simpl in Hc. congruence.
    - apply same_scalars_ok; [done..|by rewrite Hem].
    - rewrite Hem. by eapply em_links_updated. }
  destruct Hs as []. do 2 sv_write.
  exists y. split; [done|]. split.
  - apply Hfin; [sv_updated Hat|done|by split|done].
  - sv_updated Hat.
  - done.
  - by split.
  - done.
  - by exists evs.
Qed.
End sending.
