(* ===== verification/ServerHandlers.v ===== *)
(** The handlers of server.go, one lemma each: what they do to the slots, to the
    encryption mappings and to the outside, and that they keep the invariant. *)

From S2P Require Import Prelude Constants Float64 Buffer Replay Queue Address Crypto.
From S2P Require Import SampleCrypto Token Packet TokenEntries Encryption Socket Server.
From S2P Require Import ServerInvariant.

(** ** Disconnecting *)

(** What is left of a slot after its client is gone. *)
Definition freed (x : slot) (reason : Z) : slot :=
  mkSlot false (sl_timeout x) false false reason (-1) 0 0 f64_0 f64_0 (zeros UserDataBytes)
    Replay.reset Queue.clear zeroAddress.
Lemma freed_local x reason : slot_local (freed x reason).
Proof.
  split; simpl; [done|apply replay_wf_reset|apply queue_wf_clear|
    done|intros _; by split_and!|done].
Qed.

(** The client of slot [i] has given up mapping [e], and the mappings of its
    address may be gone. *)
Record released (s : Server) (i : Z) (x : slot) (m' : encryptionManager) : Prop := {
  rl_owner e y : em_at m' e = Some y → mp_clientIndex y ≠ -1 →
    mp_clientIndex y ≠ i ∧ em_at (sv_encryptionManager s) e = Some y;
  rl_kept e y : em_at (sv_encryptionManager s) e = Some y → mp_clientIndex y ≠ -1 →
    mp_clientIndex y ≠ i → em_at m' e = Some y;
}.

Lemma released_removed s i x y m1 time b m' :
  server_wf s → slot_at s i = Some x → network x →
  em_at (sv_encryptionManager s) (sl_encryptionIndex x) = Some y → mp_clientIndex y = i →
  updated (sv_encryptionManager s) (sl_encryptionIndex x) (y <| mp_clientIndex := -1 |>) m1 →
  (if (b : bool) then ∃ r, removed m1 (sl_address x) time r m' else m' = m1) →
  released s i x m'.
Proof.
  intros Hwf Hx Hn Hy Hyi Hup Hrm. pose proof (sw_linked _ Hwf) as Hl.
  pose proof (up_at _ _ _ _ Hup) as Hat.
  assert (Hother : ∀ e z, em_at m1 e = Some z → mp_clientIndex z ≠ -1 →
    em_at (sv_encryptionManager s) e = Some z ∧ mp_clientIndex z ≠ i ∧
    Equal (mp_address z) (sl_address x) = false).
  { intros e z Hz Hc. rewrite Hat in Hz. case_decide as He; [injection Hz as <-; by destruct Hc|].
    destruct (lk_owner _ Hl e z Hz Hc) as (x' & Hx' & Hn' & He').
    assert (mp_clientIndex z ≠ i) as Hne.
    { intros Hi. rewrite Hi, Hx in Hx'. injection Hx' as <-. done. }
    split_and!; [done..|]. apply not_true_is_false. intros Heq. apply Hne.
    destruct (lk_network _ Hl _ x' Hx' Hn') as (z' & Hz' & _ & Ha). rewrite He', Hz in Hz'.
    injection Hz' as <-. apply (lk_distinct _ Hl _ _ x' x Hx' Hx Hn' Hn).
    apply Equal_spec. apply Equal_spec in Ha, Heq. rewrite <-Ha. done. }
  assert (Hkeep : ∀ e z, em_at (sv_encryptionManager s) e = Some z → mp_clientIndex z ≠ -1 →
    mp_clientIndex z ≠ i → em_at m1 e = Some z).
  { intros e z Hz Hc Hi. rewrite Hat. case_decide; [subst; congruence|done]. }
  destruct b; [|subst m'; split; [|done]; intros e z Hz Hc; by destruct (Hother e z Hz Hc) as (?&?&_)].
  destruct Hrm as [r [Hrwf (z & Hz & Hza & Hz') Hframe]]. split.
  - intros e w Hw Hc. destruct (decide (e = r)) as [->|Her].
    { rewrite Hz' in Hw. injection Hw as <-. simpl in Hc. destruct (Hother r z Hz Hc) as (_ & _ & Hf).
      by rewrite Hf in Hza. }
    destruct (em_at m1 e) as [w1|] eqn:Hw1.
    2: { exfalso. apply em_at_range in Hw; [|apply Hrwf].
         destruct (em_at_Some m1 e (up_shape _ _ _ _ Hup) Hw). congruence. }
    destruct (Hframe e w1 Hw1 Her) as [[Hw' _]|(w' & Hw' & _ & Hc1 & ->)].
    + rewrite Hw in Hw'. injection Hw' as <-. by destruct (Hother e w Hw1 Hc) as (?&?&_).
    + rewrite Hw in Hw'. injection Hw' as ->. done.
  - intros e w Hw Hc Hi. pose proof (Hkeep e w Hw Hc Hi) as Hw1.
    destruct (decide (e = r)) as [->|Her].
    { destruct (Hother r w Hw1 Hc) as (_ & _ & Hf). rewrite Hz in Hw1. injection Hw1 as ->.
      by rewrite Hf in Hza. }
    destruct (Hframe e w Hw1 Her) as [[Hw' _]|(w' & _ & _ & Hc1 & _)]; [done|]. done.
Qed.

Lemma linked_released s i x x' s' :
  linked s → slot_at s i = Some x → network x → slot_updated s i x' s' → sl_connected x' = false →
  released s i x (sv_encryptionManager s') → linked s'.
Proof.
  intros Hl Hx Hn Hup Hfree [Howner Hkept]. pose proof (su_at _ _ _ _ Hup) as Hat.
  assert (Hnx : ¬ network x') by (intros [H _]; congruence).
  split.
  - intros k z Hz Hnz. rewrite Hat in Hz. case_decide as Hik; [injection Hz as <-; done|].
    destruct (lk_network _ Hl k z Hz Hnz) as (y & Hy & Hk & Ha). exists y. split_and!; [|done..].
    apply Hkept; [done| |by rewrite Hk].
    rewrite Hk. destruct (slot_at_inv _ _ _ Hz) as (Hr & _). apply aget_range in Hr. lia.
  - intros k z Hz Hc Hlo. rewrite Hat in Hz. case_decide as Hik; [injection Hz as <-; congruence|].
    by apply (lk_loopback _ Hl k).
  - intros e y Hy Hc. destruct (Howner e y Hy Hc) as [Hi Hy0].
    destruct (lk_owner _ Hl e y Hy0 Hc) as (z & Hz & ? & ?). exists z. split; [|done].
    rewrite Hat. by rewrite decide_False by done.
  - intros j k z w Hz Hw Hnz Hnw. rewrite Hat in Hz, Hw.
    destruct (decide (i = j)); [injection Hz as <-; done|].
    destruct (decide (i = k)); [injection Hw as <-; done|].
    by apply (lk_distinct _ Hl).
Qed.

(** The number of clients after a change of one slot. *)
Lemma count_updated s i x x' s' :
  server_shape s → slot_at s i = Some x → slot_updated s i x' s' →
  count_true (sv_clientConnected s') =
    count_true (sv_clientConnected s) - Z.b2z (sl_connected x) + Z.b2z (sl_connected x').
Proof.
  intros Hs Hx Hup. destruct (slot_at_inv _ _ _ Hx) as (Hg & _).
  rewrite <-(count_true_ainsert _ _ _ _ Hg). f_equal.
  pose proof (aget_range _ _ _ Hg) as Hr. pose proof (su_shape _ _ _ _ Hup) as Hs'.
  apply aget_ext; [by rewrite length_ainsert, (ss_connected _ Hs), (ss_connected _ Hs')|].
  intros j. rewrite aget_ainsert by done. pose proof (su_at _ _ _ _ Hup j) as Hj.
  destruct (decide (0 ≤ j < MaxClients)) as [Hjr|Hjr].
  - destruct (slot_at_Some s' j Hs' Hjr) as [z Hz]. destruct (slot_at_inv _ _ _ Hz) as (-> & _).
    rewrite Hz in Hj. case_decide; [by injection Hj as ->|].
    symmetry in Hj. by destruct (slot_at_inv _ _ _ Hj) as (-> & _).
  - pose proof (slot_at_range _ _ _ Hs Hx). rewrite decide_False by (intros ->; done).
    rewrite !aget_outside; [done|rewrite (ss_connected _ Hs)|rewrite (ss_connected _ Hs')];
      unfold num_slots; clia.
Qed.

(** A change of one slot that may connect or disconnect its client. *)
Lemma server_wf_change s i x x' s' :
  server_wf s → slot_at s i = Some x → slot_updated s i x' s' → slot_local x' →
  (sl_connected x' = true → i < sv_maxClients s) → scalars_ok s s' →
  sv_numConnectedClients s' =
    sv_numConnectedClients s - Z.b2z (sl_connected x) + Z.b2z (sl_connected x') →
  linked s' → server_wf s'.
Proof.
  intros Hwf Hx Hup Hloc Hact Hk Hnum Hl. pose proof (su_at _ _ _ _ Hup) as Hat.
  split; try apply Hk; try done.
  - apply Hup.
  - rewrite (sk_config _ _ Hk). apply Hwf.
  - rewrite (sk_running _ _ Hk), (sk_maxClients _ _ Hk). apply Hwf.
  - rewrite Hnum, (count_updated s i x x' s') by (done || apply Hwf). by rewrite (sw_count _ Hwf).
  - intros j z. rewrite Hat. case_decide; [by intros [= <-]|apply (sw_slots _ Hwf)].
  - intros j z. rewrite Hat, (sk_maxClients _ _ Hk).
    case_decide; [by intros [= <-]; subst|apply (sw_active _ Hwf)].
Qed.

Lemma slot_updated_trans s1 s2 s3 i x y :
  slot_updated s1 i x s2 → slot_updated s2 i y s3 → slot_updated s1 i y s3.
Proof.
  intros H1 H2. split; [apply H2|]. intros j. rewrite (su_at _ _ _ _ H2).
  case_decide as Hd; [done|]. by rewrite (su_at _ _ _ _ H1), decide_False.
Qed.
Lemma slot_updated_at s i x s' : slot_updated s i x s' → slot_at s' i = Some x.
Proof. intros H. by rewrite (su_at _ _ _ _ H), decide_True. Qed.
Lemma slot_updated_refl s i x :
  server_shape s → slot_at s i = Some x → slot_updated s i x s.
Proof. intros Hs Hx. split; [done|]. intros j. case_decide; by subst. Qed.

(** A write to one slot that keeps its links. *)
Lemma server_wf_write s i x x' s' :
  server_wf s → slot_at s i = Some x → slot_updated s i x' s' → link_of x' = link_of x →
  slot_local x' → same_scalars s s' → sv_numConnectedClients s' = sv_numConnectedClients s →
  sv_encryptionManager s' = sv_encryptionManager s → server_wf s'.
Proof.
  intros Hwf Hx Hup Hl Hloc Hsc Hnum Hem. eapply (server_wf_slot s i x); try done.
  - apply same_scalars_ok; [done..|rewrite Hem; apply Hwf].
  - rewrite Hem. apply em_links_refl.
Qed.

(** The client of slot [i] stays connected; with [send], packets may have gone to
    it. *)
Record serving (s : Server) (i : Z) (x : slot) (send : bool) (reason : Z) (s' : Server) : Prop := {
  sg_wf : server_wf s';
  sg_slot : ∃ x', slot_updated s i x' s' ∧ link_of x' = link_of x ∧
    sl_timeout x' = sl_timeout x ∧ sl_reason x' = reason;
  sg_em e : e ≠ sl_encryptionIndex x →
    em_at (sv_encryptionManager s') e = em_at (sv_encryptionManager s) e;
  sg_scalars : same_scalars s s';
  sg_count : sv_numConnectedClients s' = sv_numConnectedClients s;
  sg_events : ∃ evs, sv_events s' = sv_events s ++ evs ∧
    Forall (λ d, d.1 = sl_address x) (datagrams evs) ∧ (send = false → datagrams evs = []);
}.

Section disconnecting.
Context {C : CryptoLib} {L : CryptoLaws C}.

Lemma serving_send s i x reason s1 p :
  network x → valid_encrypted p → serving s i x true reason s1 →
  wp (ServerOps.sendClientPacket p i) (λ _ s2, serving s i x true reason s2) s1.
Proof.
  intros Hn Hp [Hwf (x1 & Hup & Hl & Ht & Hr) Hem Hsc Hnum (evs & Hev & Hto & _)].
  pose proof (slot_updated_at _ _ _ _ Hup) as Hx1. injection Hl as H1 H2 H3 H4.
  eapply wp_mono; [apply (sendClientPacket_wp p i x1); [done..|split; [rewrite H1|rewrite H2]; apply Hn|done]|].
  intros [] s2 (y & Hy & [Hwf2 Hup2 Hem2 Hsc2 Hnum2 (evs2 & Hev2 & Hto2)]). split; [done|..].
  - eexists. split; [by eapply slot_updated_trans|]. simpl. unfold link_of. simpl. by rewrite H1, H2, H3, H4.
  - intros e He. rewrite (up_at _ _ _ _ Hem2), decide_False by congruence. by apply Hem.
  - by etrans.
  - congruence.
  - exists (evs ++ evs2). rewrite Hev2, Hev, datagrams_app, <-H4. split_and!; [by rewrite app_assoc| |done].
    apply Forall_app. split; [by rewrite H4|]. rewrite Hto2. destruct (reaches _ _); [by constructor|done].
Qed.

(** What a disconnection leaves. *)
Record disconnected (s : Server) (i : Z) (x : slot) (send : bool) (reason : Z) (s' : Server) : Prop := {
  dc_wf : server_wf s';
  dc_slot : slot_updated s i (freed x reason) s';
  dc_released : released s i x (sv_encryptionManager s');
  dc_scalars : same_scalars s s';
  dc_events : ∃ evs, sv_events s' = sv_events s ++ evs ∧
    Forall (λ d, d.1 = sl_address x) (datagrams evs) ∧ (send = false → datagrams evs = []);
}.

Lemma released_serving s i x true reason s1 x1 m' :
  network x → serving s i x true reason s1 → server_wf s → slot_at s i = Some x →
  slot_at s1 i = Some x1 → link_of x1 = link_of x → released s1 i x1 m' → released s i x m'.
Proof.
  intros Hn Hsg Hwf Hx Hx1 Hlk [Ho Hk]. injection Hlk as H1 H2 H3 H4.
  destruct (lk_network _ (sw_linked _ Hwf) i x Hx Hn) as (y & Hy & Hyi & _).
  destruct (lk_network _ (sw_linked _ (sg_wf _ _ _ _ _ _ Hsg)) i x1 Hx1) as (y1 & Hy1 & Hyi1 & _);
    [split; [rewrite H1|rewrite H2]; apply Hn|]. rewrite H3 in Hy1.
  assert (∀ e z, em_at (sv_encryptionManager s1) e = Some z → mp_clientIndex z ≠ i →
    e ≠ sl_encryptionIndex x) as Hne by (intros e z Hz Hc ->; congruence).
  split.
  - intros e z Hz Hc. destruct (Ho e z Hz Hc) as [Hi Hz1]. split; [done|].
    rewrite <-(sg_em _ _ _ _ _ _ Hsg); [done|]. by eapply Hne.
  - intros e z Hz Hc Hi. apply Hk; [|done..].
    rewrite (sg_em _ _ _ _ _ _ Hsg); [done|]. intros ->. congruence.
Qed.

(** Give up the mapping and clear the slot. *)
Lemma release_wp s i x :
  server_wf s → slot_at s i = Some x → network x →
  wp (encryptionIndex ← aread sv_clientEncryptionIndex i;
      zoom sv_encryptionManager (awrite em_clientIndex encryptionIndex (-1));;
      address ← aread sv_clientAddress i;
      time ← gets sv_time;
      _ ← zoom sv_encryptionManager (EncryptionManager.removeEncryptionMapping address time);
      ServerOps.resetClientSlot i)
    (λ _ s', slot_updated s i (mkSlot false (sl_timeout x) false false (sl_reason x) (-1) 0 0 f64_0
         f64_0 (zeros UserDataBytes) (sl_replay x) Queue.clear zeroAddress) s' ∧
       sv_numConnectedClients s' = sv_numConnectedClients s - 1 ∧ sv_events s' = sv_events s ∧
       em_wf (sv_encryptionManager s') ∧ released s i x (sv_encryptionManager s') ∧
       same_scalars s s') s.
Proof.
  intros Hwf Hx Hn. pose proof (slot_at_inv _ _ _ Hx) as Hat. pose proof (sw_em _ Hwf) as Hem.
  destruct (lk_network _ (sw_linked _ Hwf) i x Hx Hn) as (y & Hy & Hyi & _).
  apply wp_bind. eapply wp_aread; [apply Hat|]. apply wp_bind, wp_zoom.
  eapply wp_mono; [apply (write_clientIndex _ _ y); [apply Hem|done]|]. intros [] m1 [Hn1 Hup1].
  assert (em_wf m1) as Hem1 by (eapply (updated_same_wf _ _ y); [done..|by right]).
  apply wp_bind. eapply wp_aread; [simpl; apply Hat|]. apply wp_bind, wp_gets, wp_bind, wp_zoom.
  destruct (remove_spec m1 (sl_address x) (sv_time s) Hem1) as (b & m2 & Hrun & Hb).
  eapply wp_run; [done|].
  assert (em_wf m2 ∧ released s i x m2) as [Hem2 Hrel].
  { split; [destruct b; [destruct Hb as [r Hr]; apply Hr|by destruct Hb as [-> _]]|].
    eapply (released_removed s i x y m1 (sv_time s) b); try done. destruct b; [done|apply Hb]. }
  eapply wp_mono; [apply (resetClientSlot_wp _ i x); [by destruct (sw_shape _ Hwf); split|done]|].
  intros [] s' (Hup & Hnum & Hev & Hem' & Hsc). simpl in *.
  split_and!; [split; [apply Hup|intros j; apply (su_at _ _ _ _ Hup j)]|done|done|by rewrite Hem'|by rewrite Hem'|].
  etrans; [|exact Hsc]. by split.
Qed.

(** The first part: record the reason, and call back. *)
Lemma disconnect_reason_wp s i x send reason :
  server_wf s → slot_at s i = Some x → network x →
  wp (awrite sv_clientDisconnectReason i reason;; ServerOps.connectDisconnect i false)
    (λ _ s', serving s i x send reason s') s.
Proof.
  intros Hwf Hx Hn. pose proof (sw_shape _ Hwf) as Hs. pose proof (slot_at_inv _ _ _ Hx) as Hat.
  pose proof (slot_at_range _ _ _ Hs Hx) as Hi.
  destruct Hs as []. sv_write. apply wp_connectDisconnect. intros evs Hevs.
  assert (slot_updated s i (x <| sl_reason := reason |>)
    (s <| sv_clientDisconnectReason := ainsert i reason (sv_clientDisconnectReason s) |>
       <| sv_events := sv_events s ++ evs |>)) as Hup by sv_updated Hat.
  split.
  - eapply (server_wf_write s i x); [done|done|exact Hup|done| |by split|done|done].
    destruct (sw_slots _ Hwf _ _ Hx). by split.
  - eexists. split; [exact Hup|done].
  - done.
  - by split.
  - done.
  - exists evs. rewrite Hevs. done.
Qed.

Lemma disconnectClientInternal_wp s i x send reason :
  server_wf s → slot_at s i = Some x → network x →
  wp (ServerOps.disconnectClientInternal i send reason)
    (λ _ s', disconnected s i x send reason s') s.
Proof.
  intros Hwf Hx Hn. unfold ServerOps.disconnectClientInternal.
  apply wp_assoc, wp_bind. eapply wp_mono; [by apply (disconnect_reason_wp s i x send)|].
  intros [] s1 H1. apply wp_bind.
  eapply (wp_mono _ (λ _ s', serving s i x send reason s')).
  { destruct send; [|by apply wp_ret].
    apply (wp_for (λ _ s', serving s i x true reason s')); [done|].
    intros _ l s2 H2. by apply serving_send. }
  clear s1 H1. intros [] s1 H1. destruct (sg_slot _ _ _ _ _ _ H1) as (x1 & Hup1 & Hl1 & Ht1 & Hr1).
  pose proof (slot_updated_at _ _ _ _ Hup1) as Hx1. pose proof (sg_wf _ _ _ _ _ _ H1) as Hwf1.
  pose proof (slot_at_inv _ _ _ Hx1) as Hat1. pose proof (sw_shape _ Hwf1) as Hs1.
  pose proof (slot_at_range _ _ _ Hs1 Hx1) as Hi.
  assert (network x1) as Hn1.
  { injection Hl1 as H2 H3 _ _. split; [rewrite H2|rewrite H3]; apply Hn. }
  assert (∀ s2, slot_updated s1 i (x1 <| sl_replay := Replay.reset |>) s2 → same_scalars s1 s2 →
    sv_numConnectedClients s2 = sv_numConnectedClients s1 →
    sv_encryptionManager s2 = sv_encryptionManager s1 → sv_events s2 = sv_events s1 →
    wp (encryptionIndex ← aread sv_clientEncryptionIndex i;
      zoom sv_encryptionManager (awrite em_clientIndex encryptionIndex (-1));;
      address ← aread sv_clientAddress i;
      time ← gets sv_time;
      _ ← zoom sv_encryptionManager (EncryptionManager.removeEncryptionMapping address time);
      ServerOps.resetClientSlot i) (λ _ s', disconnected s i x send reason s') s2) as Hrest.
  { intros s2 Hup2 Hsc2 Hnum2 Hem2 Hev2.
    pose proof (slot_updated_at _ _ _ _ Hup2) as Hx2.
    assert (server_wf s2) as Hwf2.
    { eapply (server_wf_write s1 i x1); try done. destruct (sw_slots _ Hwf1 _ _ Hx1).
      split; try done; auto using replay_wf_reset.
      intros Hc. simpl in Hc. destruct Hn1. congruence. }
    eapply wp_mono; [by apply (release_wp s2 i _ Hwf2 Hx2)|].
    intros [] s' (Hup & Hnum & Hev & Hwfm & Hrel & Hsc). simpl in Hup. rewrite Ht1, Hr1 in Hup.
    assert (slot_updated s i (freed x reason) s') as Hupf
      by (eapply slot_updated_trans; [exact Hup1|eapply slot_updated_trans; [exact Hup2|exact Hup]]).
    assert (same_scalars s s') as Hscf by (etrans; [apply H1|]; etrans; [exact Hsc2|exact Hsc]).
    assert (released s i x (sv_encryptionManager s')) as Hrelf.
    { apply (released_serving s i x send reason s1 x1); try done. destruct Hrel as [Ho Hk].
      rewrite Hem2 in Ho, Hk. by split. }
    split; [|done..|].
    - eapply (server_wf_change s i x); [done|done|exact Hupf|apply freed_local|done| | |].
      + by apply same_scalars_ok.
      + rewrite Hnum, Hnum2, (sg_count _ _ _ _ _ _ H1). destruct Hn as [-> _]. simpl. lia.
      + eapply (linked_released s i x); [apply Hwf|done|done|exact Hupf|done|done].
    - rewrite Hev, Hev2. apply H1. }
  destruct Hs1 as []. sv_write. apply Hrest; [sv_updated Hat1|by split|done..].
Qed.
End disconnecting.

(** ** Loopback slots and slots that change on their own *)

(** A change of a slot that is not a network client's, before or after. *)
Lemma linked_local s i x x' s' :
  linked s → slot_at s i = Some x → ¬ network x → slot_updated s i x' s' → ¬ network x' →
  (sl_connected x' = true → sl_encryptionIndex x' = -1 ∧ sl_address x' = zeroAddress) →
  sv_encryptionManager s' = sv_encryptionManager s → linked s'.
Proof.
  intros Hl Hx Hn Hup Hn' Hlo Hem. pose proof (su_at _ _ _ _ Hup) as Hat. split.
  - intros k z Hz Hnz. rewrite Hat in Hz. rewrite Hem.
    case_decide as Hik; [by injection Hz as <-|by apply (lk_network _ Hl k)].
  - intros k z Hz Hc Hlz. rewrite Hat in Hz.
    case_decide as Hik; [injection Hz as <-; by apply Hlo|by apply (lk_loopback _ Hl k)].
  - intros e y. rewrite Hem. intros Hy Hc. destruct (lk_owner _ Hl e y Hy Hc) as (z & Hz & Hnz & He).
    exists z. split_and!; [|done..]. rewrite Hat. rewrite decide_False; [done|].
    intros Hd. rewrite <-Hd, Hx in Hz. by injection Hz as ->.
  - intros j k z w Hz Hw Hnz Hnw. rewrite Hat in Hz, Hw.
    destruct (decide (i = j)); [by injection Hz as <-|].
    destruct (decide (i = k)); [by injection Hw as <-|]. by apply (lk_distinct _ Hl).
Qed.

Section local_slots.
Lemma DisconnectLoopback_body_wp s i x reason :
  server_wf s → slot_at s i = Some x → sl_connected x = true → sl_loopback x = true →
  wp (awrite sv_clientDisconnectReason i reason;; ServerOps.connectDisconnect i false;;
      ServerOps.resetClientSlot i)
    (λ _ s', server_wf s' ∧ same_scalars s s' ∧ slot_updated s i (freed x reason) s') s.
Proof.
  intros Hwf Hx Hc Hlo. pose proof (sw_shape _ Hwf) as Hs. pose proof (slot_at_inv _ _ _ Hx) as Hat.
  pose proof (slot_at_range _ _ _ Hs Hx) as Hi.
  pose proof (sx_loopback _ (sw_slots _ Hwf _ _ Hx) Hlo) as Hrep.
  assert (∀ s1, slot_updated s i (x <| sl_reason := reason |>) s1 → same_scalars s s1 →
    sv_numConnectedClients s1 = sv_numConnectedClients s →
    sv_encryptionManager s1 = sv_encryptionManager s →
    wp (ServerOps.resetClientSlot i)
      (λ _ s', server_wf s' ∧ same_scalars s s' ∧ slot_updated s i (freed x reason) s') s1) as Hrest.
  { intros s1 Hup1 Hsc1 Hnum1 Hem1. eapply wp_mono.
    { apply resetClientSlot_wp; [apply Hup1|by eapply slot_updated_at]. }
    intros [] s' (Hup & Hnum & _ & Hem & Hsc). simpl in Hup. rewrite Hrep in Hup.
    pose proof (slot_updated_trans _ _ _ _ _ _ Hup1 Hup : slot_updated s i (freed x reason) s') as Hupf.
    assert (same_scalars s s') as Hscf by (etrans; [exact Hsc1|exact Hsc]).
    split_and!; [|done..]. eapply (server_wf_change s i x); [done|done|exact Hupf|apply freed_local|done|..].
    - apply same_scalars_ok; [done|done|]. rewrite Hem, Hem1. apply Hwf.
    - rewrite Hnum, Hnum1, Hc. simpl. lia.
    - eapply (linked_local s i x); [apply Hwf|done| |exact Hupf|..].
      + intros [_ H]. congruence.
      + intros [H _]. done.
      + done.
      + congruence. }
  destruct Hs as []. sv_write. apply wp_bind, wp_connectDisconnect. intros evs _.
  apply Hrest; [sv_updated Hat|by split|done..].
Qed.

(** ** Loops over the slots *)

(** The first [n] slots have become [g] of what they were. *)
Record swept (s : Server) (n : Z) (g : slot → slot) (s' : Server) : Prop := {
  sp_wf : server_wf s';
  sp_scalars : same_scalars s s';
  sp_at j : slot_at s' j = if decide (0 ≤ j < n) then g <$> slot_at s j else slot_at s j;
}.
Lemma sweep_wp (g : slot → slot) (body : Z → M Server unit) n s :
  server_wf s → 0 ≤ n ≤ MaxClients →
  (∀ i x s1, 0 ≤ i < n → server_wf s1 → same_scalars s s1 → slot_at s1 i = Some x →
     wp (body i) (λ _ s2, server_wf s2 ∧ same_scalars s1 s2 ∧ slot_updated s1 i (g x) s2) s1) →
  wp (for_ (seqZ 0 n) body) (λ _ s', swept s n g s') s.
Proof.
  intros Hwf Hn Hbody. apply (wp_for_range (λ k s1, swept s k g s1)); [lia|split|].
  - done.
  - done.
  - intros j. by rewrite decide_False by lia.
  - intros i s1 Hi [Hwf1 Hsc1 Hat1].
    destruct (slot_at_Some s1 i (sw_shape _ Hwf1)) as [x Hx]; [lia|].
    eapply wp_mono; [by apply (Hbody i x)|]. intros [] s2 (Hwf2 & Hsc2 & Hup2).
    split; [done|by etrans|]. intros j. rewrite (su_at _ _ _ _ Hup2).
    destruct (decide (i = j)) as [<-|Hij].
    + rewrite Hat1, decide_False in Hx by lia. by rewrite decide_True, Hx by lia.
    + rewrite Hat1. destruct (decide (0 ≤ j < i)), (decide (0 ≤ j < i + 1)); done || lia.
Qed.
End local_slots.

Ltac sv_read Hat := apply wp_bind; eapply wp_aread; [simpl; apply Hat|].

Section lifecycle.
Context {C : CryptoLib} {L : CryptoLaws C}.

(** A slot with its network (loopback) client disconnected by the server. *)
Definition drop_network (x : slot) : slot :=
  if sl_connected x && negb (sl_loopback x) then freed x DisconnectReasonServerDisconnect else x.
Definition drop_loopback (x : slot) : slot :=
  if sl_connected x && sl_loopback x then freed x DisconnectReasonServerDisconnect else x.

Lemma active_range s : server_wf s → 0 ≤ sv_maxClients s ≤ MaxClients.
Proof. intros Hwf. pose proof (sw_maxClients _ Hwf). destruct (sv_running s); clia. Qed.
Lemma in_slot_range_spec s i :
  server_wf s → ServerOps.in_slot_range i s = true → sv_running s = true ∧ 0 ≤ i < sv_maxClients s.
Proof.
  intros Hwf. unfold ServerOps.in_slot_range. rewrite Z.geb_leb.
  destruct (sv_running s), (Z.ltb_spec i 0), (Z.leb_spec (sv_maxClients s) i); simpl; done || lia.
Qed.
Lemma in_slot_range_slot s i :
  server_wf s → ServerOps.in_slot_range i s = true → ∃ x, slot_at s i = Some x.
Proof.
  intros Hwf Hr. apply in_slot_range_spec in Hr as [_ Hr]; [|done].
  apply slot_at_Some; [apply Hwf|]. pose proof (active_range s Hwf). lia.
Qed.

Lemma DisconnectAllClients_wp s :
  server_wf s →
  wp ServerOps.DisconnectAllClients (λ _ s', swept s (sv_maxClients s) drop_network s') s.
Proof.
  intros Hwf. unfold ServerOps.DisconnectAllClients. apply wp_bind, wp_gets. cbv beta delta [id].
  pose proof (active_range s Hwf). destruct (sv_running s) eqn:Hrun; cbn [negb].
  - apply sweep_wp; [done..|]. intros i x s1 Hi Hwf1 _ Hx. pose proof (slot_at_inv _ _ _ Hx) as Hat.
    sv_read Hat. sv_read Hat. unfold drop_network.
    destruct (sl_connected x) eqn:Hc; cbn [andb];
      [|apply wp_ret; split_and!; [done..|]; apply slot_updated_refl; [apply Hwf1|done]].
    destruct (sl_loopback x) eqn:Hlo; cbn [negb];
      [apply wp_ret; split_and!; [done..|]; apply slot_updated_refl; [apply Hwf1|done]|].
    eapply wp_mono; [by apply (disconnectClientInternal_wp s1 i x)|]. intros [] s2 []. done.
  - apply wp_ret. pose proof (sw_maxClients _ Hwf) as Hm. rewrite Hrun in Hm. split; [done..|].
    intros j. by rewrite decide_False by lia.
Qed.

Lemma DisconnectClient_wp s i :
  server_wf s →
  wp (ServerOps.DisconnectClient i) (λ _ s', server_wf s' ∧ same_scalars s s' ∧
    if ServerOps.in_slot_range i s
    then ∀ x, slot_at s i = Some x → slot_updated s i (drop_network x) s'
    else s' = s) s.
Proof.
  intros Hwf. unfold ServerOps.DisconnectClient. apply wp_bind, wp_gets.
  destruct (ServerOps.in_slot_range i s) eqn:Hr; cbn [negb]; [|by apply wp_ret].
  destruct (in_slot_range_slot s i Hwf Hr) as [x Hx]. pose proof (slot_at_inv _ _ _ Hx) as Hat.
  eapply (wp_mono _ (λ _ s', server_wf s' ∧ same_scalars s s' ∧ slot_updated s i (drop_network x) s')).
  - sv_read Hat. unfold drop_network.
    destruct (sl_connected x) eqn:Hc; cbn [negb andb];
      [|apply wp_ret; split_and!; [done..|]; apply slot_updated_refl; [apply Hwf|done]].
    sv_read Hat. destruct (sl_loopback x) eqn:Hlo; cbn [negb];
      [apply wp_ret; split_and!; [done..|]; apply slot_updated_refl; [apply Hwf|done]|].
    eapply wp_mono; [by apply (disconnectClientInternal_wp s i x)|]. intros [] s2 []. done.
  - intros [] s' (?&?&?). split_and!; [done..|]. intros x'. rewrite Hx. by intros [= <-].
Qed.

Lemma DisconnectLoopbackClient_wp s i x :
  server_wf s → slot_at s i = Some x → ServerOps.in_slot_range i s = true →
  wp (ServerOps.DisconnectLoopbackClient i)
    (λ _ s', server_wf s' ∧ same_scalars s s' ∧ slot_updated s i (drop_loopback x) s') s.
Proof.
  intros Hwf Hx Hr. unfold ServerOps.DisconnectLoopbackClient. apply wp_bind, wp_gets.
  rewrite Hr. cbn [negb]. pose proof (slot_at_inv _ _ _ Hx) as Hat. sv_read Hat. sv_read Hat.
  unfold drop_loopback. destruct (sl_connected x) eqn:Hc, (sl_loopback x) eqn:Hlo; cbn [negb orb andb];
    try (apply wp_ret; split_and!; [done..|]; apply slot_updated_refl; [apply Hwf|done]).
  by apply DisconnectLoopback_body_wp.
Qed.

(** ** Starting and stopping *)

(** No client is connected and no mapping is owned. *)
Record idle (s : Server) : Prop := {
  id_free i x : slot_at s i = Some x → sl_connected x = false;
  id_unowned e y : em_at (sv_encryptionManager s) e = Some y → mp_clientIndex y = -1;
}.
Lemma linked_idle s : idle s → linked s.
Proof.
  intros [Hfree Hun]. split.
  - intros i x Hx [Hc _]. rewrite (Hfree i x Hx) in Hc. done.
  - intros i x Hx Hc. rewrite (Hfree i x Hx) in Hc. done.
  - intros e y Hy Hc. by destruct Hc; eapply Hun.
  - intros i j x y Hx _ [Hc _]. rewrite (Hfree i x Hx) in Hc. done.
Qed.
Lemma count_idle s : server_shape s → idle s → count_true (sv_clientConnected s) = 0.
Proof.
  intros Hs Hid. apply count_true_none. intros i b Hb. pose proof (aget_range _ _ _ Hb) as Hr.
  rewrite (ss_connected _ Hs) in Hr. destruct (slot_at_Some s i Hs) as [x Hx];
    [unfold num_slots in Hr; clia|].
  destruct (slot_at_inv _ _ _ Hx) as (Hc & _). rewrite Hb in Hc. injection Hc as ->.
  by apply (id_free _ Hid i).
Qed.
Lemma free_idle s :
  server_wf s → (∀ i x, slot_at s i = Some x → sl_connected x = false) → idle s.
Proof.
  intros Hwf Hfree. split; [done|]. intros e y Hy. destruct (decide (mp_clientIndex y = -1)); [done|].
  destruct (lk_owner _ (sw_linked _ Hwf) e y Hy) as (x & Hx & [Hc _] & _); [done|].
  rewrite (Hfree _ x Hx) in Hc. done.
Qed.
Lemma stopped_idle s : server_wf s → sv_running s = false → idle s.
Proof.
  intros Hwf Hrun. pose proof (sw_maxClients _ Hwf) as Hm. rewrite Hrun in Hm.
  apply free_idle; [done|]. intros i x Hx. apply not_true_is_false. intros Hc.
  pose proof (sw_active _ Hwf i x Hx Hc). pose proof (slot_at_range _ _ _ (sw_shape _ Hwf) Hx). lia.
Qed.
Lemma em_reset_unowned e y : em_at EncryptionManager.reset e = Some y → mp_clientIndex y = -1.
Proof.
  intros Hy. destruct (em_at_inv _ _ _ Hy) as (_ & _ & _ & _ & Hc & _).
  by apply aget_replicate_inv in Hc.
Qed.

(** An idle server whose scalars are replaced. *)
Lemma server_wf_idle s s' :
  server_wf s → server_shape s' → (∀ i, slot_at s' i = slot_at s i) → idle s' →
  sv_config s' = sv_config s → length (sv_challengeKey s') = KeyBytes →
  (if sv_running s' then 1 ≤ sv_maxClients s' ≤ MaxClients else sv_maxClients s' = 0) →
  is_u64 (sv_globalSequence s') → is_u64 (sv_challengeSequence s') →
  entries_wf (sv_connectTokenEntries s') → em_wf (sv_encryptionManager s') →
  sv_numConnectedClients s' = 0 → server_wf s'.
Proof.
  intros Hwf Hs' Hat Hid Hcfg Hck Hmax Hgs Hcs Hent Hem Hnum. split; try done.
  - rewrite Hcfg. apply Hwf.
  - by rewrite count_idle.
  - intros i x. rewrite Hat. apply (sw_slots _ Hwf).
  - intros i x Hx Hc. by rewrite (id_free _ Hid i x Hx) in Hc.
  - by apply linked_idle.
Qed.

Lemma Stop_wp s :
  server_wf s →
  wp ServerOps.Stop (λ _ s', server_wf s' ∧ sv_running s' = false ∧ idle s' ∧
    sv_config s' = sv_config s ∧ (sv_running s = false → s' = s)) s.
Proof.
  intros Hwf. unfold ServerOps.Stop. apply wp_bind, wp_gets. cbv beta delta [id].
  destruct (sv_running s) eqn:Hrun; cbn [negb];
    [|apply wp_ret; split_and!; auto using stopped_idle].
  pose proof (active_range s Hwf) as Hm.
  apply wp_bind. eapply wp_mono; [by apply DisconnectAllClients_wp|]. intros [] s1 [Hwf1 Hsc1 Hat1].
  apply wp_bind. eapply (wp_mono _ (λ _ s2, swept s1 (sv_maxClients s) drop_loopback s2)).
  { apply sweep_wp; [done..|]. intros i x s2 Hi Hwf2 Hsc2 Hx. pose proof (slot_at_inv _ _ _ Hx) as Hat.
    sv_read Hat. sv_read Hat. destruct (sl_connected x && sl_loopback x) eqn:Hcl.
    - apply DisconnectLoopbackClient_wp; [done..|]. unfold ServerOps.in_slot_range.
      rewrite (sm_running _ _ Hsc2), (sm_running _ _ Hsc1), Hrun, (sm_maxClients _ _ Hsc2),
        (sm_maxClients _ _ Hsc1), Z.geb_leb.
      destruct (Z.ltb_spec i 0), (Z.leb_spec (sv_maxClients s) i); simpl; done || lia.
    - apply wp_ret. split_and!; [done..|]. unfold drop_loopback. rewrite Hcl.
      apply slot_updated_refl; [apply Hwf2|done]. }
  intros [] s2 [Hwf2 Hsc2 Hat2]. apply wp_modify.
  assert (∀ i x, slot_at s2 i = Some x → sl_connected x = false) as Hfree.
  { intros i x. rewrite Hat2, Hat1. destruct (decide _) as [Hi|Hi].
    - destruct (slot_at s i) as [x0|]; [|done]. intros [= <-]. by destruct x0 as [[] ? []].
    - intros Hx. apply not_true_is_false. intros Hc. pose proof (sw_active _ Hwf i x Hx Hc).
      pose proof (slot_at_range _ _ _ (sw_shape _ Hwf) Hx). lia. }
  match goal with |- server_wf ?s' ∧ _ => destruct (shape_at s2 s') as [Hsh Hsame];
    [done..|apply Hwf2|]; assert (idle s') as Hid by
      (split; [intros i x; rewrite Hsame; apply Hfree|exact em_reset_unowned]) end.
  split_and!; [|done|done| |done].
  - eapply (server_wf_idle s2); try done; [apply entries_wf_reset|apply em_wf_reset].
  - simpl. by rewrite (sm_config _ _ Hsc2), (sm_config _ _ Hsc1).
Qed.

Lemma clear_queue_wp s i x :
  server_wf s → slot_at s i = Some x →
  wp (awrite sv_clientPacketQueue i Queue.clear) (λ _ s', server_wf s' ∧ same_scalars s s' ∧
    slot_updated s i (set sl_queue (λ _, Queue.clear) x) s') s.
Proof.
  intros Hwf Hx. pose proof (sw_shape _ Hwf) as Hs. pose proof (slot_at_inv _ _ _ Hx) as Hat.
  pose proof (slot_at_range _ _ _ Hs Hx) as Hi. destruct Hs as []. sv_write.
  match goal with |- server_wf ?s' ∧ _ => assert (slot_updated s i (x <| sl_queue := Queue.clear |>) s')
    as Hup by sv_updated Hat end.
  split_and!; [|by split|exact Hup].
  eapply (server_wf_write s i x); [done|done|exact Hup|done| |by split|done|done].
  destruct (sw_slots _ Hwf _ _ Hx). split; auto using queue_wf_clear. intros Hc. naive_solver.
Qed.
Lemma write_reason_wp s i x reason :
  server_wf s → slot_at s i = Some x →
  wp (awrite sv_clientDisconnectReason i reason) (λ _ s', server_wf s' ∧ same_scalars s s' ∧
    slot_updated s i (set sl_reason (λ _, reason) x) s') s.
Proof.
  intros Hwf Hx. pose proof (sw_shape _ Hwf) as Hs. pose proof (slot_at_inv _ _ _ Hx) as Hat.
  pose proof (slot_at_range _ _ _ Hs Hx) as Hi. destruct Hs as []. sv_write.
  match goal with |- server_wf ?s' ∧ _ => assert (slot_updated s i (x <| sl_reason := reason |>) s')
    as Hup by sv_updated Hat end.
  split_and!; [|by split|exact Hup].
  eapply (server_wf_write s i x); [done|done|exact Hup|done| |by split|done|done].
  destruct (sw_slots _ Hwf _ _ Hx). by split.
Qed.

Lemma Start_wp s maxClients now challengeKey :
  server_wf s → length challengeKey = KeyBytes →
  wp (ServerOps.Start maxClients now challengeKey) (λ _ s', server_wf s' ∧
    sv_config s' = sv_config s ∧
    if (1 <=? maxClients) && (maxClients <=? MaxClients)
    then sv_running s' = true ∧ sv_maxClients s' = maxClients ∧ idle s' ∧
      sv_globalSequence s' = 2 ^ 63 ∧ sv_challengeKey s' = challengeKey
    else s' = s) s.
Proof.
  intros Hwf Hck. unfold ServerOps.Start. rewrite Z.gtb_ltb.
  destruct (Z.leb_spec maxClients 0), (Z.ltb_spec MaxClients maxClients),
    (Z.leb_spec 1 maxClients), (Z.leb_spec maxClients MaxClients); cbn [orb andb]; try lia;
    try by apply wp_ret.
  apply wp_bind, wp_gets, wp_bind.
  eapply (wp_mono _ (λ _ s1, server_wf s1 ∧ idle s1 ∧ sv_config s1 = sv_config s)).
  { destruct (sv_running s) eqn:Hrun; [|apply wp_ret; auto using stopped_idle].
    eapply wp_mono; [by apply Stop_wp|]. naive_solver. }
  intros [] s1 (Hwf1 & Hid1 & Hcfg1). apply wp_bind, wp_modify.
  match goal with |- wp _ _ ?s2 => destruct (shape_at s1 s2) as [Hsh Hsame];
    [done..|apply Hwf1|]; assert (server_wf s2) as Hwf2; [|set (s2' := s2) in *] end.
  { eapply (server_wf_idle s1); try done; [|apply Hwf1..].
    destruct Hid1 as [Hf Hu]. split; [intros i x; rewrite Hsame; apply Hf|exact Hu]. }
  apply wp_bind. eapply wp_mono; [apply (sweep_wp (set sl_queue (λ _, Queue.clear)) _ _ s2' Hwf2); [lia|]|].
  { intros i x s3 Hi Hwf3 Hsc3 Hx. by apply clear_queue_wp. }
  intros [] s3 [Hwf3 Hsc3 Hat3].
  eapply wp_mono; [apply (sweep_wp (set sl_reason (λ _, DisconnectReasonNone)) _ _ s3 Hwf3); [clia|]|].
  { intros i x s4 Hi Hwf4 Hsc4 Hx. by apply write_reason_wp. }
  intros [] s4 [Hwf4 Hsc4 Hat4]. pose proof (same_scalars_trans _ _ _ Hsc3 Hsc4) as Hsc.
  assert (idle s4).
  { apply free_idle; [done|]. intros i x. rewrite Hat4, Hat3, Hsame. pose proof (id_free _ Hid1 i) as Hf.
    destruct (slot_at s1 i) as [x0|]; [specialize (Hf x0 eq_refl)|]; repeat case_decide; try done;
      by intros [= <-]. }
  split_and!; [done|by rewrite (sm_config _ _ Hsc)|..].
  - by rewrite (sm_running _ _ Hsc).
  - by rewrite (sm_maxClients _ _ Hsc).
  - done.
  - by rewrite (sm_globalSequence _ _ Hsc).
  - by rewrite (sm_challengeKey _ _ Hsc).
Qed.

(** ** The periodic part of Update *)

(** The client is over the network, its token has a timeout, and nothing was
    heard for that long. *)
Definition timed_out (time : float64) (x : slot) : bool :=
  sl_connected x && negb (sl_timeout x <=? 0) && negb (sl_loopback x) &&
  f64_leb (f64_add (sl_lastReceive x) (f64_of_Z (sl_timeout x))) time.
Definition drop_timed_out (time : float64) (x : slot) : slot :=
  if timed_out time x then freed x DisconnectReasonTimedOut else x.

Lemma checkForTimeouts_wp s :
  server_wf s →
  wp ServerOps.checkForTimeouts
    (λ _ s', swept s (sv_maxClients s) (drop_timed_out (sv_time s)) s') s.
Proof.
  intros Hwf. unfold ServerOps.checkForTimeouts. apply wp_bind, wp_gets. cbv beta delta [id].
  pose proof (active_range s Hwf). destruct (sv_running s) eqn:Hrun; cbn [negb].
  - apply sweep_wp; [done..|]. intros i x s1 Hi Hwf1 Hsc1 Hx. pose proof (slot_at_inv _ _ _ Hx) as Hat.
    do 4 sv_read Hat. apply wp_bind, wp_gets. rewrite (sm_time _ _ Hsc1).
    unfold drop_timed_out, timed_out.
    destruct (sl_connected x) eqn:Hc, (sl_timeout x <=? 0) eqn:Ht, (sl_loopback x) eqn:Hlo,
      (f64_leb (f64_add (sl_lastReceive x) (f64_of_Z (sl_timeout x))) (sv_time s)) eqn:Hlate;
      cbn [negb andb]; try (apply wp_ret; split_and!; [done..|]; apply slot_updated_refl; [apply Hwf1|done]).
    eapply wp_mono; [by apply (disconnectClientInternal_wp s1 i x)|]. intros [] s2 []. done.
  - apply wp_ret. pose proof (sw_maxClients _ Hwf) as Hm. rewrite Hrun in Hm. split; [done..|].
    intros j. by rewrite decide_False by lia.
Qed.

(** A keep alive is due. *)
Definition keep_alive_due (time : float64) (x : slot) : bool :=
  sl_connected x && negb (sl_loopback x) && f64_leb (f64_add (sl_lastSend x) sendInterval) time.
Definition keep_alive_sent (time : float64) (x : slot) : slot :=
  if keep_alive_due time x
  then x <| sl_sequence := u64 (sl_sequence x + 1) |> <| sl_lastSend := time |> else x.

Lemma keepAlive_valid i m : valid_encrypted (KeepAlive (i32 i) (i32 m)).
Proof. split; apply i32_range. Qed.

Lemma server_sendPackets_wp s :
  server_wf s →
  wp ServerOps.sendPackets (λ _ s', swept s (sv_maxClients s) (keep_alive_sent (sv_time s)) s') s.
Proof.
  intros Hwf. unfold ServerOps.sendPackets. apply wp_bind, wp_gets. cbv beta delta [id].
  pose proof (active_range s Hwf). destruct (sv_running s) eqn:Hrun; cbn [negb].
  - apply sweep_wp; [done..|]. intros i x s1 Hi Hwf1 Hsc1 Hx. pose proof (slot_at_inv _ _ _ Hx) as Hat.
    do 3 sv_read Hat. apply wp_bind, wp_gets. rewrite (sm_time _ _ Hsc1).
    unfold keep_alive_sent. fold (keep_alive_due (sv_time s) x).
    destruct (keep_alive_due (sv_time s) x) eqn:Hdue;
      [|apply wp_ret; split_and!; [done..|]; apply slot_updated_refl; [apply Hwf1|done]].
    apply wp_bind, wp_gets. unfold keep_alive_due in Hdue.
    apply andb_prop in Hdue as [[Hc Hlo]%andb_prop _]. apply negb_true_iff in Hlo.
    eapply wp_mono; [by apply (sendClientPacket_wp _ i x s1); [..|apply keepAlive_valid]|].
    intros [] s2 (y & _ & []). rewrite <-(sm_time _ _ Hsc1). done.
  - apply wp_ret. pose proof (sw_maxClients _ Hwf) as Hm. rewrite Hrun in Hm. split; [done..|].
    intros j. by rewrite decide_False by lia.
Qed.

(** ** A new server *)
Definition fresh_slot : slot :=
  mkSlot false 0 false false 0 (-1) 0 0 f64_0 f64_0 (zeros UserDataBytes) Replay.reset Queue.clear
    zeroAddress.
Lemma new_slot_at config a a2 v4 v6 time i x :
  slot_at (ServerOps.new config a a2 v4 v6 time) i = Some x → x = fresh_slot.
Proof.
  intros (H1 & H2 & H3 & H4 & H5 & H6 & H7 & H8 & H9 & H10 & H11 & H12 & H13 & H14)%slot_at_inv.
  apply aget_replicate_inv in H1, H2, H3, H4, H5, H6, H7, H8, H9, H10, H11, H12, H13, H14.
  destruct x. simpl in *. by subst.
Qed.
Lemma new_wf config a a2 v4 v6 time :
  length (sc_privateKey config) = KeyBytes → server_wf (ServerOps.new config a a2 v4 v6 time).
Proof.
  intros Hk. pose proof (new_slot_at config a a2 v4 v6 time) as Hat.
  assert (server_shape (ServerOps.new config a a2 v4 v6 time)) as Hs by (split; apply length_replicate).
  assert (idle (ServerOps.new config a a2 v4 v6 time)) as Hid.
  { split; [intros i x ->%Hat; done|apply em_reset_unowned]. }
  split; try done.
  - simpl. by destruct (sc_maxConnectTokenLifetime config <=? 0).
  - apply entries_wf_reset.
  - apply em_wf_reset.
  - intros i x ->%Hat. apply (freed_local fresh_slot 0).
  - intros i x ->%Hat. done.
  - by apply linked_idle.
Qed.

(** ** The claims *)

(** C23. Timeouts: checkForTimeouts frees, with reason timed out, exactly the slots
    whose network client has a positive timeout and was not heard from for that
    long, and leaves every other slot as it is. *)
Theorem server_times_out_exactly (s : Server) (Hwf : server_wf s) :
  ∃ s', ServerOps.checkForTimeouts s = Some (tt, s') ∧ server_wf s' ∧
    ∀ i x, slot_at s i = Some x →
      slot_at s' i = Some (if timed_out (sv_time s) x then freed x DisconnectReasonTimedOut else x).
Proof.
  pose proof (checkForTimeouts_wp s Hwf) as H. apply wp_inv in H as ([] & s' & Hrun & [Hwf' _ Hat]).
  exists s'. split_and!; [done..|]. intros i x Hx. rewrite Hat. case_decide as Hi; rewrite Hx; [done|].
  destruct (timed_out (sv_time s) x) eqn:Ht; [|done]. exfalso. apply Hi.
  unfold timed_out in Ht. apply andb_prop in Ht as [[[Hc _]%andb_prop _]%andb_prop _].
  pose proof (sw_active _ Hwf i x Hx Hc). pose proof (slot_at_range _ _ _ (sw_shape _ Hwf) Hx). lia.
Qed.

(** Start: with 1 to 256 clients the server, running or not, ends up running
    with that many slots, every slot free and every encryption mapping unowned,
    the global sequence number at 2^63 and the given challenge key; with any
    other number the call changes nothing. It never panics. *)
Theorem server_start_fresh (s : Server) (maxClients now : Z) (challengeKey : list byte)
  (Hwf : server_wf s) (Hkey : length challengeKey = KeyBytes) :
  ∃ s', ServerOps.Start maxClients now challengeKey s = Some (tt, s') ∧ server_wf s' ∧
    if (1 <=? maxClients) && (maxClients <=? MaxClients)
    then sv_running s' = true ∧ sv_maxClients s' = maxClients ∧ idle s' ∧
      sv_globalSequence s' = 2 ^ 63 ∧ sv_challengeKey s' = challengeKey
    else s' = s.
Proof.
  pose proof (Start_wp s maxClients now challengeKey Hwf Hkey) as H.
  apply wp_inv in H as ([] & s' & Hrun & Hwf' & _ & Hpost). by exists s'.
Qed.

(** Disconnecting: DisconnectClient on a slot of the running server frees the
    slot when it holds a network client and changes no other slot (a free slot
    or a loopback client is left alone); with any other index it changes
    nothing. It never panics. *)
Theorem server_disconnects_exactly (s : Server) (i : Z) (Hwf : server_wf s) :
  ∃ s', ServerOps.DisconnectClient i s = Some (tt, s') ∧ server_wf s' ∧
    if ServerOps.in_slot_range i s
    then ∀ j x, slot_at s j = Some x →
      slot_at s' j = Some (if decide (j = i) then
        if sl_connected x && negb (sl_loopback x) then freed x DisconnectReasonServerDisconnect else x
        else x)
    else s' = s.
Proof.
  pose proof (DisconnectClient_wp s i Hwf) as H.
  apply wp_inv in H as ([] & s' & Hrun & Hwf' & _ & Hpost). exists s'. split_and!; [done..|].
  destruct (ServerOps.in_slot_range i s) eqn:Hr; [|done].
  destruct (in_slot_range_slot s i Hwf Hr) as [x Hx]. specialize (Hpost x Hx). intros j z Hz.
  rewrite (su_at _ _ _ _ Hpost). destruct (decide (i = j)) as [<-|].
  - rewrite decide_True by done. by rewrite Hx in Hz; injection Hz as <-.
  - by rewrite decide_False.
Qed.
End lifecycle.
