(* ===== verification/ServerConnect.v ===== *)
(** How server.go admits clients: connection requests, challenge responses and
    the packets of connected clients, up to readAndProcessPacket. *)

From S2P Require Import Prelude Constants Float64 Buffer Replay Queue Address Crypto.
From S2P Require Import SampleCrypto Token Packet TokenEntries Encryption Socket Server.
From S2P Require Import ServerInvariant ServerHandlers.

(** ** Searches over the slots *)
Definition by_id (id : Z) (x : slot) : bool := sl_connected x && (sl_id x =? id).
Definition by_address (a : Address) (x : slot) : bool := sl_connected x && Equal (sl_address x) a.

(** [r] is a slot below maxClients that passes [t], or -1 when there is none. *)
Definition slot_search (s : Server) (t : slot → bool) (r : Z) : Prop :=
  (r = -1 ∧ ∀ j x, 0 ≤ j < sv_maxClients s → slot_at s j = Some x → t x = false) ∨
  (0 ≤ r < sv_maxClients s ∧ ∃ x, slot_at s r = Some x ∧ t x = true).

Lemma findSlot_spec test t s :
  server_wf s → (∀ i x, slot_at s i = Some x → test i s = Some (t x, s)) →
  ∃ r, ServerOps.findSlot test s = Some (r, s) ∧ slot_search s t r.
Proof.
  intros Hwf Htest. pose proof (active_range s Hwf) as Hm.
  set (b i := match slot_at s i with Some x => t x | None => false end).
  exists (match List.find b (seqZ 0 (sv_maxClients s)) with Some i => i | None => -1 end). split.
  - unfold ServerOps.findSlot, mbind, M_bind, gets. cbn [mbind option_bind].
    rewrite (first_spec _ _ b); [done|]. intros i Hi. apply elem_of_seqZ in Hi.
    destruct (slot_at_Some s i (sw_shape _ Hwf)) as [x Hx]; [lia|]. unfold b. rewrite Hx. by apply Htest.
  - destruct (List.find b _) as [i|] eqn:Hf.
    + apply find_seqZ_Some in Hf as (Hi & Hb & _). right. split; [lia|]. unfold b in Hb.
      destruct (slot_at s i) as [x|]; [by exists x|done].
    + left. split; [done|]. intros j x Hj Hx. pose proof (find_seqZ_None _ _ _ Hf j) as Hb.
      unfold b in Hb. rewrite Hx in Hb. apply Hb. lia.
Qed.
Lemma findClientIndexByID_spec id s :
  server_wf s → ∃ r, ServerOps.findClientIndexByID id s = Some (r, s) ∧ slot_search s (by_id id) r.
Proof.
  intros Hwf. apply findSlot_spec; [done|]. intros i x Hx.
  destruct (slot_at_inv _ _ _ Hx) as (H1 & _ & _ & _ & _ & _ & H7 & _).
  unfold by_id, mbind, M_bind, aread. rewrite H1. cbn [mbind option_bind].
  destruct (sl_connected x); [|done]. by rewrite H7.
Qed.
Lemma findClientIndexByAddress_spec a s :
  server_wf s →
  ∃ r, ServerOps.findClientIndexByAddress a s = Some (r, s) ∧ slot_search s (by_address a) r.
Proof.
  intros Hwf. apply findSlot_spec; [done|]. intros i x Hx.
  destruct (slot_at_inv _ _ _ Hx) as (H1 & _ & _ & _ & _ & _ & _ & _ & _ & _ & _ & _ & _ & H14).
  unfold by_address, mbind, M_bind, aread. rewrite H1. cbn [mbind option_bind].
  destruct (sl_connected x); [|done]. by rewrite H14.
Qed.
Lemma findFreeClientIndex_spec s :
  server_wf s →
  ∃ r, ServerOps.findFreeClientIndex s = Some (r, s) ∧ slot_search s (λ x, negb (sl_connected x)) r.
Proof.
  intros Hwf. apply findSlot_spec; [done|]. intros i x Hx.
  destruct (slot_at_inv _ _ _ Hx) as (H1 & _). unfold mbind, M_bind, aread. by rewrite H1.
Qed.

(** Nobody is connected from [a]. *)
Definition address_free (s : Server) (a : Address) : Prop :=
  ∀ j x, slot_at s j = Some x → sl_connected x = true → Equal (sl_address x) a = false.
Definition id_unused (s : Server) (id : Z) : Prop :=
  ∀ j x, slot_at s j = Some x → sl_connected x = true → sl_id x ≠ id.
Lemma search_none_address s a : server_wf s → slot_search s (by_address a) (-1) → address_free s a.
Proof.
  intros Hwf [[_ H]|[H _]]; [|lia]. intros j x Hx Hc. specialize (H j x).
  unfold by_address in H. rewrite Hc in H. apply H; [|done].
  split; [by apply (slot_at_range s j x); [apply Hwf|]|by apply (sw_active _ Hwf j x)].
Qed.
Lemma search_none_id s id : server_wf s → slot_search s (by_id id) (-1) → id_unused s id.
Proof.
  intros Hwf [[_ H]|[H _]]; [|lia]. intros j x Hx Hc. specialize (H j x).
  unfold by_id in H. rewrite Hc in H. apply Z.eqb_neq, H; [|done].
  split; [by apply (slot_at_range s j x); [apply Hwf|]|by apply (sw_active _ Hwf j x)].
Qed.
Lemma num_clients_range s : server_wf s → 0 ≤ sv_numConnectedClients s ≤ sv_maxClients s.
Proof.
  intros Hwf. rewrite (sw_count _ Hwf). split; [apply count_true_nonneg|].
  apply count_true_most; [by apply active_range|]. intros i Hi.
  pose proof (aget_range _ _ _ Hi) as Hr. rewrite (ss_connected _ (sw_shape _ Hwf)) in Hr.
  destruct (slot_at_Some s i (sw_shape _ Hwf)) as [x Hx]; [unfold num_slots in Hr; clia|].
  apply (sw_active _ Hwf i x Hx). destruct (slot_at_inv _ _ _ Hx) as (Hc & _). congruence.
Qed.
(** With fewer clients than slots, the search for a free slot succeeds. *)
Lemma search_free s r :
  server_wf s → sv_numConnectedClients s ≠ sv_maxClients s →
  slot_search s (λ x, negb (sl_connected x)) r →
  0 ≤ r < sv_maxClients s ∧ ∃ x, slot_at s r = Some x ∧ sl_connected x = false.
Proof.
  intros Hwf Hnum [[-> Hall]|(Hr & x & Hx & Hf)].
  - destruct Hnum. pose proof (num_clients_range s Hwf). apply Z.le_antisymm; [lia|].
    rewrite (sw_count _ Hwf), <-(Z2Nat.id (sv_maxClients s)) by lia. apply count_true_all.
    intros i Hi. pose proof (active_range s Hwf).
    destruct (slot_at_Some s i (sw_shape _ Hwf)) as [x Hx]; [lia|].
    destruct (slot_at_inv _ _ _ Hx) as (-> & _). f_equal. apply negb_false_iff. apply (Hall i); [lia|done].
  - split; [done|]. exists x. by apply negb_true_iff in Hf.
Qed.

(** ** Replies

    At most one datagram went out, to [a], of at most [n] bytes. *)
Definition replies (s s' : Server) (a : Address) (n : nat) : Prop :=
  ∃ evs, sv_events s' = sv_events s ++ evs ∧
    (datagrams evs = [] ∨ ∃ d, datagrams evs = [(a, d)] ∧ (length d ≤ n)%nat).
Lemma replies_none s s' a n : sv_events s' = sv_events s → replies s s' a n.
Proof. intros H. exists []. rewrite app_nil_r. auto. Qed.
Lemma replies_weaken s s' a n m : (n ≤ m)%nat → replies s s' a n → replies s s' a m.
Proof.
  intros Hle (evs & He & [Hd|(d & Hd & Hl)]); exists evs; split; auto. right. exists d. split; [done|lia].
Qed.

Section admission.
Context {C : CryptoLib} {L : CryptoLaws C}.

Lemma length_encoding p sequence key pid :
  is_u64 sequence → length key = KeyBytes →
  (length (encoding p sequence key pid) ≤ 9 + length (enc_body p) + MacBytes)%nat.
Proof.
  intros Hs Hk. unfold encoding. rewrite length_sealed_packet by done.
  pose proof (sequence_bytes_range sequence Hs). lia.
Qed.

(** ** Connection requests *)

(** What a connection request may change: token history, an unowned mapping,
    the two global sequence numbers; and it causes at most one reply. *)
Record requested (s : Server) (from : Address) (s' : Server) : Prop := {
  rq_wf : server_wf s';
  rq_slots i : slot_at s' i = slot_at s i;
  rq_count : sv_numConnectedClients s' = sv_numConnectedClients s;
  rq_config : sv_config s' = sv_config s;
  rq_max : sv_maxClients s' = sv_maxClients s;
  rq_owned e y : em_at (sv_encryptionManager s) e = Some y → mp_clientIndex y ≠ -1 →
    em_at (sv_encryptionManager s') e = Some y;
  rq_replies : replies s s' from 333;
}.

Lemma requested_refl s from : server_wf s → requested s from s.
Proof. intros. split; auto. by apply replies_none. Qed.
(** A silent step, then one with a reply. *)
Lemma requested_trans s s1 from s' :
  requested s from s1 → sv_events s1 = sv_events s → requested s1 from s' → requested s from s'.
Proof.
  intros H1 Hev H2. split; [apply H2|..].
  - intros i. by rewrite (rq_slots _ _ _ H2), (rq_slots _ _ _ H1).
  - by rewrite (rq_count _ _ _ H2), (rq_count _ _ _ H1).
  - by rewrite (rq_config _ _ _ H2), (rq_config _ _ _ H1).
  - by rewrite (rq_max _ _ _ H2), (rq_max _ _ _ H1).
  - intros e y Hy Hc. apply (rq_owned _ _ _ H2); [|done]. by apply (rq_owned _ _ _ H1).
  - pose proof (rq_replies _ _ _ H2) as Hr. unfold replies in *. by rewrite Hev in Hr.
Qed.

Lemma sendGlobal_requested s p to key :
  server_wf s → valid_encrypted p → length key = KeyBytes → (length (enc_body p) ≤ 308)%nat →
  wp (ServerOps.sendGlobalPacket p to key)
    (λ _ s', requested s to s' ∧ replies s s' to (25 + length (enc_body p))) s.
Proof.
  intros Hwf Hp Hk Hb. eapply wp_mono; [by apply sendGlobalPacket_wp|].
  intros [] s' (Hwf' & evs & -> & Hevs).
  match goal with |- requested _ _ ?s' ∧ _ =>
    assert (replies s s' to (25 + length (enc_body p))) as Hr end.
  { exists evs. split; [done|]. rewrite Hevs. destruct (reaches s to); [right|by left]. eexists. split; [done|].
    pose proof (length_encoding p (sv_globalSequence s) key (sc_protocolID (sv_config s))
      (sw_globalSequence _ Hwf) Hk). change MacBytes with 16%nat in *. lia. }
  split; [|done]. split; try done. eapply replies_weaken; [|exact Hr]. lia.
Qed.

Lemma challenge_sequence_requested s from n :
  server_wf s → requested s from (s <| sv_challengeSequence := u64 n |>).
Proof.
  intros Hwf. split; try done; [|by apply replies_none].
  eapply server_wf_rest; [done|by destruct (sw_shape _ Hwf); split|done| |done|apply em_links_refl].
  destruct (scalars_ok_refl s Hwf). split; try done. apply u64_range.
Qed.

Lemma sendChallenge_wp s from token :
  server_wf s → wf_private token →
  wp (ServerOps.sendChallenge from token) (λ _ s', requested s from s') s.
Proof.
  intros Hwf Ht. unfold ServerOps.sendChallenge. apply wp_bind, wp_gets. cbv beta delta [id].
  apply wp_bind. eapply wp_lift.
  { apply challenge_write_spec; [split; apply Ht|apply length_zeros]. }
  set (data := enc_challenge _ ++ _).
  assert (length data = challengeTokenBytes) as Hd.
  { unfold data. rewrite length_app, length_enc_challenge; [done|split; apply Ht]. }
  apply wp_bind. eapply wp_lift; [apply encryptChallengeToken_spec; [done|apply Hwf]|].
  cbn [negb]. apply wp_bind, wp_modify. set (sealed := Seal _ _ _ _ _).
  assert (length sealed = challengeTokenBytes) as Hsl.
  { unfold sealed. rewrite Seal_length, length_take, Hd; [done|apply Hwf]. }
  eapply wp_mono.
  { apply sendGlobal_requested; [|split; [apply Hwf|done]|apply Ht|].
    - apply (challenge_sequence_requested s from (sv_challengeSequence s + 1) Hwf).
    - cbn [enc_body]. rewrite length_app, length_le_split, Hsl. done. }
  intros [] s' [H _]. revert H. apply requested_trans; [by apply challenge_sequence_requested|done].
Qed.

Lemma foundServerAddress_total a a2 addresses ixs b :
  (∀ i, i ∈ ixs → ∃ x, aget addresses i = Some x) →
  ∃ b', ServerOps.foundServerAddress a a2 addresses ixs b = Some b'.
Proof.
  revert b. induction ixs as [|i ixs IH]; intros b H; [by eexists|]. cbn [ServerOps.foundServerAddress].
  destruct (H i) as [x ->]; [by left|]. cbn [mbind option_bind]. apply IH.
  intros j Hj. apply H. by right.
Qed.

Lemma entries_requested s from entries :
  server_wf s → entries_wf entries → requested s from (s <| sv_connectTokenEntries := entries |>).
Proof.
  intros Hwf He. split; try done; [|by apply replies_none].
  eapply server_wf_rest; [done|by destruct (sw_shape _ Hwf); split|done| |done|apply em_links_refl].
  destruct (scalars_ok_refl s Hwf). by split.
Qed.

(** A mapping that addEncryptionMapping may take for an address nobody is
    connected from is not owned. *)
Lemma taken_unowned s from e y time :
  server_wf s → address_free s from → em_at (sv_encryptionManager s) e = Some y →
  live_for y from time = true ∨ free_slot y time = true → mp_clientIndex y = -1.
Proof.
  intros Hwf Hfree Hy Htake. destruct (decide (mp_clientIndex y = -1)) as [|Hc]; [done|].
  destruct (lk_owner _ (sw_linked _ Hwf) e y Hy Hc) as (x & Hx & Hn & He).
  destruct (lk_network _ (sw_linked _ Hwf) _ x Hx Hn) as (y' & Hy' & _ & Ha).
  rewrite He, Hy in Hy'. injection Hy' as <-. exfalso. destruct Htake as [Hl|Hf].
  - apply andb_prop in Hl as [Hl _]. specialize (Hfree _ x Hx (proj1 Hn)).
    apply Equal_spec in Ha, Hl. apply Equal_false in Hfree. apply Hfree. by rewrite <-Ha.
  - unfold free_slot in Hf. apply orb_prop in Hf as [Hf|[_ Hf]%andb_prop].
    + apply Equal_not_none in Ha as [Ha _]. by apply Z.eqb_eq in Hf.
    + by apply Z.eqb_eq in Hf.
Qed.

Lemma mapping_requested s from sendKey receiveKey expireTime timeout entryIndex i m' :
  server_wf s → address_free s from →
  added (sv_encryptionManager s) from sendKey receiveKey (sv_time s) expireTime timeout entryIndex i m' →
  requested s from (s <| sv_encryptionManager := m' |>).
Proof.
  intros Hwf Hfree Hadd. destruct (ad_old _ _ _ _ _ _ _ _ _ _ Hadd) as (y & a & Hy & Hy' & Hold).
  assert (mp_clientIndex y = -1) as Hc by (eapply (taken_unowned s from i y); naive_solver).
  split; try done; [| |by apply replies_none].
  - eapply server_wf_rest; [done|by destruct (sw_shape _ Hwf); split|done| |done|].
    + destruct (scalars_ok_refl s Hwf). split; try done. apply Hadd.
    + intros e. simpl. destruct (decide (e = i)) as [->|He].
      * rewrite Hy, Hy'. simpl. by rewrite Hc.
      * rewrite (ad_frame _ _ _ _ _ _ _ _ _ _ Hadd) by done.
        by destruct (em_at (sv_encryptionManager s) e).
  - intros e z Hz Hcz. simpl. rewrite (ad_frame _ _ _ _ _ _ _ _ _ _ Hadd); [done|].
    intros ->. congruence.
Qed.

Lemma processConnectionRequestPacket_wp s now from request :
  server_wf s → length (req_connectTokenData request) = connectTokenPrivateBytes →
  wp (ServerOps.processConnectionRequestPacket now from request) (λ _ s', requested s from s') s.
Proof.
  intros Hwf Hlen. unfold ServerOps.processConnectionRequestPacket.
  destruct (private_read_total (req_connectTokenData request)) as (err & token & Hread & Htok).
  apply wp_bind. eapply wp_lift; [done|]. cbv beta iota.
  destruct err; [apply wp_ret; by apply requested_refl|]. specialize (Htok eq_refl).
  apply wp_bind, wp_gets. cbv beta delta [id].
  destruct (foundServerAddress_total (sv_address s) (sv_address2 s) (ctp_serverAddresses token)
              (seqZ 0 (ctp_numServerAddresses token)) false) as [found Hfound].
  { intros i Hi. apply elem_of_seqZ in Hi. destruct (wp_serverAddresses _ Htok) as [_ Ha].
    destruct (Ha i) as (a & -> & _); [lia|]. by eexists. }
  apply wp_bind. eapply wp_lift; [done|].
  destruct found; cbn [negb]; [|apply wp_ret; by apply requested_refl].
  destruct (findClientIndexByAddress_spec from s Hwf) as (r & Hr & Hsr).
  apply wp_bind. eapply wp_run; [done|].
  destruct (Z.eqb_spec r (-1)) as [->|]; cbn [negb]; [|apply wp_ret; by apply requested_refl].
  apply search_none_address in Hsr; [|done].
  destruct (findClientIndexByID_spec (ctp_clientID token) s Hwf) as (r' & Hr' & _).
  apply wp_bind. eapply wp_run; [done|].
  destruct (Z.eqb_spec r' (-1)) as [->|]; cbn [negb]; [|apply wp_ret; by apply requested_refl].
  destruct (find_or_add_total (sv_connectTokenEntries s) from
              (drop (connectTokenPrivateBytes - MacBytes) (req_connectTokenData request))
              (req_connectTokenExpireTimestamp request) now (sv_time s)) as (k & entries & Hk & Hent & _);
    [apply Hwf|rewrite length_drop, Hlen; clia|].
  apply wp_bind. eapply wp_lift; [done|]. cbv beta iota. apply wp_bind, wp_modify.
  pose proof (entries_requested s from entries Hwf Hent) as H1. set (s1 := set _ _ s).
  change (requested s from s1) in H1. pose proof (rq_wf _ _ _ H1) as Hwf1.
  destruct (k =? connectTokenHistoryFull); [by apply wp_ret|].
  destruct (k =? connectTokenEntryRefused); [by apply wp_ret|].
  destruct (sv_numConnectedClients s =? sv_maxClients s).
  { eapply wp_mono; [apply (sendGlobal_requested s1); [done..|apply Htok|simpl; lia]|].
    intros [] s' [H _]. revert H. by apply requested_trans. }
  destruct (add_spec (sv_encryptionManager s1) from (ctp_serverToClientKey token)
    (ctp_clientToServerKey token) (sv_time s)
    (ServerOps.mappingExpireTime (sv_time s) (ctp_timeoutSeconds token)) (ctp_timeoutSeconds token) k)
    as (b & m' & Hadd & Hb); [apply Hwf1|apply Htok..|].
  apply wp_bind, wp_zoom. eapply wp_run; [done|]. destruct b; cbn [negb].
  - destruct Hb as [i Hb]. pose proof (mapping_requested s1 from _ _ _ _ _ i m' Hwf1 Hsr Hb) as H2.
    eapply wp_mono; [apply sendChallenge_wp; [apply H2|done]|]. intros [] s' H3.
    eapply requested_trans; [exact H1|done|]. by eapply requested_trans; [exact H2|done|].
  - destruct Hb as [-> _]. apply wp_ret. exact H1.
Qed.

(** More events leave the state as it is. *)
Lemma events_requested s from evs :
  server_wf s → datagrams evs = [] → requested s from (s <| sv_events := sv_events s ++ evs |>).
Proof.
  intros Hwf Hevs. split; try done; [|exists evs; auto].
  eapply server_wf_rest; [done|by destruct (sw_shape _ Hwf); split|done| |done|apply em_links_refl].
  destruct (scalars_ok_refl s Hwf). by split.
Qed.

(** ** Connecting a client *)

(** Four statements taken together. *)
Lemma wp_block4 {S A B : Type} (m1 m2 m3 : M S unit) (m4 : M S A) (k : A → M S B) Q s :
  wp (m1;; m2;; m3;; m4) (λ a s', wp (k a) Q s') s → wp (m1;; m2;; m3;; a ← m4; k a) Q s.
Proof.
  unfold wp, mbind, M_bind. destruct (m1 s) as [[[] s1]|]; [|done]. cbn [mbind option_bind].
  destruct (m2 s1) as [[[] s2]|]; [|done]. cbn [mbind option_bind].
  destruct (m3 s2) as [[[] s3]|]; [|done]. cbn [mbind option_bind].
  by destruct (m4 s3) as [[a s4]|].
Qed.
Lemma fillClientSlot_wp s i x a id e timeout userData :
  server_shape s → slot_at s i = Some x → length (sl_userData x) = length userData →
  wp (ServerOps.fillClientSlot i a id e timeout userData) (λ _ s',
    slot_updated s i (mkSlot true timeout (sl_loopback x) (sl_confirmed x) DisconnectReasonNone e id 0
      (sv_time s) (sv_time s) userData (sl_replay x) (sl_queue x) a) s' ∧
    sv_numConnectedClients s' = sv_numConnectedClients s ∧ sv_events s' = sv_events s ∧
    sv_encryptionManager s' = sv_encryptionManager s ∧ same_scalars s s') s.
Proof.
  intros Hs Hx Hu. pose proof (slot_at_range _ _ _ Hs Hx) as Hi. pose proof (slot_at_inv _ _ _ Hx) as Hat.
  destruct Hs as []. unfold ServerOps.fillClientSlot. apply wp_bind, wp_gets. do 9 sv_write.
  sv_read Hat. sv_write. rewrite copyKeys_full by done.
  split_and!; [sv_updated Hat|done..|by split].
Qed.

Lemma linked_connect s i x x' e y y' s' :
  server_wf s → slot_at s i = Some x → sl_connected x = false → slot_updated s i x' s' → network x' →
  sl_encryptionIndex x' = e → address_free s (sl_address x') →
  em_at (sv_encryptionManager s) e = Some y → mp_clientIndex y = -1 →
  Equal (mp_address y) (sl_address x') = true →
  updated (sv_encryptionManager s) e y' (sv_encryptionManager s') → mp_clientIndex y' = i →
  mp_address y' = mp_address y → linked s'.
Proof.
  intros Hwf Hx Hfree Hup Hn' He Haf Hy Hun Ha Hem Hi Ha'. pose proof (sw_linked _ Hwf) as Hl.
  pose proof (su_at _ _ _ _ Hup) as Hat. pose proof (up_at _ _ _ _ Hem) as Hat'.
  assert (i ≠ -1) as Hi1. { pose proof (slot_at_range _ _ _ (sw_shape _ Hwf) Hx). lia. }
  split.
  - intros k z Hz Hnz. rewrite Hat in Hz. rewrite Hat'. destruct (decide (i = k)) as [<-|Hik].
    + injection Hz as <-. exists y'. rewrite He, decide_True, Ha' by done. done.
    + destruct (lk_network _ Hl k z Hz Hnz) as (w & Hw & Hwk & Hwa). exists w.
      rewrite decide_False; [done|]. intros Hd. rewrite <-Hd, Hy in Hw. injection Hw as ->.
      pose proof (slot_at_range _ _ _ (sw_shape _ Hwf) Hz). lia.
  - intros k z Hz Hc Hlo. rewrite Hat in Hz. destruct (decide (i = k)) as [<-|Hik].
    + injection Hz as <-. destruct Hn'. congruence.
    + by apply (lk_loopback _ Hl k).
  - intros f w Hw Hc. rewrite Hat' in Hw. destruct (decide (e = f)) as [<-|Hef].
    + injection Hw as <-. rewrite Hi, Hat, decide_True by done. by exists x'.
    + destruct (lk_owner _ Hl f w Hw Hc) as (z & Hz & Hnz & Hzf). exists z. split; [|done].
      rewrite Hat, decide_False; [done|]. intros Hd. rewrite <-Hd, Hx in Hz. injection Hz as ->.
      destruct Hnz. congruence.
  - assert (∀ k z, slot_at s k = Some z → network z → Equal (sl_address z) (sl_address x') = false)
      as Hdis by (intros k z Hz [Hc _]; by apply (Haf k)).
    intros j k z w Hz Hw Hnz Hnw Heq. rewrite Hat in Hz, Hw.
    destruct (decide (i = j)), (decide (i = k)); try congruence.
    + injection Hz as <-. rewrite Equal_sym, (Hdis k w) in Heq by done. done.
    + injection Hw as <-. rewrite (Hdis j z) in Heq by done. done.
    + by apply (lk_distinct _ Hl j k z w).
Qed.

(** The slot of a client that has just been let in, before its first packet. *)
Definition connected_slot (x : slot) (time : float64) (a : Address) (id e timeout : Z)
  (userData : list byte) : slot :=
  mkSlot true timeout false false DisconnectReasonNone e id 0 time time userData (sl_replay x)
    (sl_queue x) a.
Lemma connected_slot_local x time a id e timeout userData :
  slot_local x → length userData = UserDataBytes →
  slot_local (connected_slot x time a id e timeout userData).
Proof. intros [] Hu. by split. Qed.

Section connecting.
Context (s : Server) (i : Z) (x : slot) (from : Address) (id e timeout : Z) (userData : list byte)
  (y : mapping).
Context (Hwf : server_wf s) (Hx : slot_at s i = Some x) (Hfree : sl_connected x = false)
  (Hi : 0 ≤ i < sv_maxClients s) (Haf : address_free s from)
  (Hy : em_at (sv_encryptionManager s) e = Some y)
  (Ha : Equal (mp_address y) from = true) (Hu : length userData = UserDataBytes).

Definition new_slot : slot := connected_slot x (sv_time s) from id e timeout userData.

Lemma response_unowned : mp_clientIndex y = -1.
Proof.
  destruct (decide (mp_clientIndex y = -1)) as [|Hc]; [done|].
  destruct (lk_owner _ (sw_linked _ Hwf) e y Hy Hc) as (z & Hz & Hn & He).
  destruct (lk_network _ (sw_linked _ Hwf) _ z Hz Hn) as (y' & Hy' & _ & Ha').
  rewrite He, Hy in Hy'. injection Hy' as <-. exfalso.
  specialize (Haf _ z Hz (proj1 Hn)). apply Equal_false in Haf. apply Haf.
  apply Equal_spec in Ha, Ha'. by rewrite <-Ha'.
Qed.

(** The slot is filled and the mapping owned. *)
Lemma occupy_wp :
  wp (modify (set sv_numConnectedClients (λ n, n + 1));;
      zoom sv_encryptionManager (EncryptionManager.setExpireTime e f64_m1);;
      zoom sv_encryptionManager (awrite em_clientIndex e i);;
      ServerOps.fillClientSlot i from id e timeout userData)
    (λ _ s', server_wf s' ∧ slot_updated s i new_slot s' ∧ sv_events s' = sv_events s ∧
       sv_numConnectedClients s' = sv_numConnectedClients s + 1 ∧
       updated (sv_encryptionManager s) e (y <| mp_expireTime := f64_m1 |> <| mp_clientIndex := i |>)
         (sv_encryptionManager s') ∧ same_scalars s s') s.
Proof.
  apply wp_bind, wp_modify, wp_bind, wp_zoom. pose proof (sw_em _ Hwf) as Hem.
  eapply wp_mono; [apply (write_expireTime _ _ y); [apply Hem|done]|]. intros [] m1 [Hn1 Hup1].
  assert (em_wf m1) as Hem1 by (eapply (updated_same_wf _ _ y); [done..|by right]).
  pose proof (up_at _ _ _ _ Hup1 e) as Hy1. rewrite decide_True in Hy1 by done.
  apply wp_bind, wp_zoom.
  eapply wp_mono; [apply (write_clientIndex _ _ _ (ew_shape _ Hem1) Hy1)|]. intros [] m2 [Hn2 Hup2].
  assert (em_wf m2) as Hem2 by (eapply (updated_same_wf _ _ _ _ _ Hem1 Hy1); [done..|by right]).
  assert (updated (sv_encryptionManager s) e (y <| mp_expireTime := f64_m1 |> <| mp_clientIndex := i |>) m2)
    as Hupm.
  { split; [apply Hup2|]. intros j. rewrite (up_at _ _ _ _ Hup2). case_decide; [done|].
    by rewrite (up_at _ _ _ _ Hup1), decide_False. }
  eapply wp_mono.
  { apply (fillClientSlot_wp _ i x); [by destruct (sw_shape _ Hwf); split|done|].
    rewrite Hu. apply (sw_slots _ Hwf _ _ Hx). }
  intros [] s' (Hup & Hnum & Hev & Hem' & Hsc). simpl in *.
  destruct (sx_free _ (sw_slots _ Hwf _ _ Hx) Hfree) as (Hlo & Hcf & _).
  assert (slot_updated s i new_slot s') as Hupf.
  { split; [apply Hup|]. intros j. rewrite (su_at _ _ _ _ Hup).
    unfold new_slot, connected_slot. rewrite Hlo, Hcf. done. }
  assert (same_scalars s s') as Hscf by (etrans; [|exact Hsc]; by split).
  split_and!; try done; [|by rewrite Hem'].
  eapply (server_wf_change s i x); [done|done|exact Hupf| | | | |].
  - apply connected_slot_local; [by apply (sw_slots _ Hwf _ _ Hx)|done].
  - intros _. apply Hi.
  - apply same_scalars_ok; [done..|by rewrite Hem'].
  - rewrite Hnum, Hfree. simpl. lia.
  - apply (linked_connect s i x new_slot e y (y <| mp_expireTime := f64_m1 |> <| mp_clientIndex := i |>));
      try done; [apply response_unowned|by rewrite Hem'].
Qed.

(** What letting a client in does. *)
Record admitted (s' : Server) : Prop := {
  am_wf : server_wf s';
  am_slot : slot_updated s i (new_slot <| sl_sequence := 1 |>) s';
  am_config : sv_config s' = sv_config s;
  am_max : sv_maxClients s' = sv_maxClients s;
  am_count : sv_numConnectedClients s' = sv_numConnectedClients s + 1;
  am_owned f z : em_at (sv_encryptionManager s) f = Some z → mp_clientIndex z ≠ -1 →
    em_at (sv_encryptionManager s') f = Some z;
  am_replies : replies s s' from 33;
  am_keepAlive z : em_at (sv_encryptionManager s) e = Some z → ∃ evs, sv_events s' = sv_events s ++ evs ∧
    datagrams evs = if reaches s from
      then [(from, encoding (KeepAlive (i32 i) (i32 (sv_maxClients s))) 0 (mp_sendKey z)
                     (sc_protocolID (sv_config s)))] else [];
  am_running : sv_running s' = sv_running s;
  am_holder : sv_socketHolder s' = sv_socketHolder s;
  am_mapping z : em_at (sv_encryptionManager s) e = Some z → ∃ z', em_at (sv_encryptionManager s') e = Some z' ∧
    mp_sendKey z' = mp_sendKey z ∧ mp_receiveKey z' = mp_receiveKey z;
}.

Lemma consume_wp s1 k :
  server_wf s1 →
  wp (if k >=? 0 then
        (entries ← gets sv_connectTokenEntries;
         entries ← lift (connectTokenEntriesConsume entries k);
         modify (set sv_connectTokenEntries (λ _, entries)))
      else mret tt)
    (λ _ s2, server_wf s2 ∧ ∃ entries, s2 = s1 <| sv_connectTokenEntries := entries |>) s1.
Proof.
  intros Hwf1. destruct (k >=? 0); [|apply wp_ret; split; [done|]; exists (sv_connectTokenEntries s1); by destruct s1].
  apply wp_bind, wp_gets.
  destruct (consume_total (sv_connectTokenEntries s1) k) as (entries & Hc & Hcase); [apply Hwf1|].
  apply wp_bind. eapply wp_lift; [done|]. apply wp_modify. split; [|by eexists].
  apply (rq_wf s1 from). apply entries_requested; [done|].
  destruct Hcase as [->|(te & Hte & ->)]; [apply Hwf1|].
  apply entries_wf_ainsert; [apply Hwf1| |].
  { apply aget_range in Hte. rewrite (ew_length _ (sw_entries _ Hwf1)) in Hte. clia. }
  simpl. by apply (ew_mac _ (sw_entries _ Hwf1) k).
Qed.

Lemma connectClient_wp :
  wp (ServerOps.connectClient i from id e timeout userData) (λ _ s', admitted s') s.
Proof.
  unfold ServerOps.connectClient. apply wp_block4. eapply wp_mono; [apply occupy_wp|].
  intros [] s1 (Hwf1 & Hup1 & Hev1 & Hnum1 & Hem1 & Hsc1).
  pose proof (up_at _ _ _ _ Hem1 e) as Hy1. rewrite decide_True in Hy1 by done.
  apply wp_bind, wp_zoom. eapply wp_run; [by apply getConnectTokenEntryIndex_spec|].
  replace (s1 <| sv_encryptionManager := sv_encryptionManager s1 |>) with s1 by (by destruct s1).
  apply wp_bind. eapply wp_mono; [by apply consume_wp|]. intros [] s2 [Hwf2 [entries ->]].
  apply wp_bind, wp_gets, wp_bind. pose proof (slot_updated_at _ _ _ _ Hup1) as Hx1.
  eapply wp_mono; [by apply (sendClientPacket_wp _ i new_slot); [..|apply keepAlive_valid]|].
  intros [] s3 (y3 & Hy3 & [Hwf3 Hup3 Hem3 Hsc3 Hnum3 (evs & Hev3 & Hd3)]).
  apply wp_connectDisconnect. intros evs' Hevs'.
  pose proof (events_requested s3 from evs' Hwf3 Hevs') as H4.
  assert (Hem2 : updated (sv_encryptionManager s1) e
    (y3 <| mp_lastAccessTime := sv_time s1 |>) (sv_encryptionManager s3)) by exact Hem3.
  split.
  - apply H4.
  - split; [apply H4|]. intros j. rewrite (rq_slots _ _ _ H4), (su_at _ _ _ _ Hup3). case_decide.
    + simpl. by rewrite (sm_time _ _ Hsc1).
    + change (slot_at _ j) with (slot_at s1 j) at 1. by rewrite (su_at _ _ _ _ Hup1), decide_False.
  - simpl. by rewrite (sm_config _ _ Hsc3), <-(sm_config _ _ Hsc1).
  - simpl. by rewrite (sm_maxClients _ _ Hsc3), <-(sm_maxClients _ _ Hsc1).
  - simpl. by rewrite Hnum3, <-Hnum1.
  - intros f z Hz Hc. pose proof response_unowned. assert (e ≠ f) by congruence. simpl.
    by rewrite (up_at _ _ _ _ Hem2), decide_False, (up_at _ _ _ _ Hem1), decide_False.
  - exists (evs ++ evs'). simpl. rewrite Hev3, datagrams_app, Hevs', app_nil_r. simpl. rewrite Hev1.
    split; [by rewrite app_assoc|]. rewrite Hd3. destruct (reaches _ _); [right|by left]. eexists. split; [done|].
    etrans; [apply length_encoding; [done|]|].
    + by apply (ew_keys _ (sw_em _ Hwf2) _ _ Hy3).
    + cbn [enc_body]. rewrite length_app, !length_le_split. done.
  - intros z Hz. rewrite Hy in Hz. injection Hz as <-. exists (evs ++ evs'). simpl.
    rewrite Hev3, datagrams_app, Hevs', app_nil_r, Hd3. simpl. rewrite Hev1. split; [by rewrite app_assoc|].
    simpl in Hy3. rewrite Hy1 in Hy3. injection Hy3 as <-.
    change (reaches (s1 <| sv_connectTokenEntries := entries |>) from) with (reaches s1 from).
    rewrite (reaches_scalars s s1 from Hsc1).
    by rewrite (sm_config _ _ Hsc1), (sm_maxClients _ _ Hsc1).
  - simpl. by rewrite (sm_running _ _ Hsc3), <-(sm_running _ _ Hsc1).
  - simpl. by rewrite (sm_holder _ _ Hsc3), <-(sm_holder _ _ Hsc1).
  - intros z Hz. rewrite Hy in Hz. injection Hz as <-. simpl in Hy3. rewrite Hy1 in Hy3. injection Hy3 as <-.
    eexists. split; [simpl; by rewrite (up_at _ _ _ _ Hem2), decide_True|done].
Qed.
End connecting.

(** ** Challenge responses *)

(** [data] is a challenge token for [token], sealed under [key]. *)
Definition sealed_challenge (key : list byte) (sequence : Z) (token : challengeToken)
  (data : list byte) : Prop :=
  ∃ padding, data = Seal chacha20poly1305 key (packet_nonce sequence) []
                      (enc_challenge token ++ padding) ∧ valid_challenge token.

Lemma challenge_opened data sequence key :
  length data = challengeTokenBytes →
  ∃ o, decryptChallengeToken data sequence key = Some o ∧
    match o with
    | None => True
    | Some d => ∃ err token, Challenge.read zeroChallengeToken d = Some (err, token) ∧
        (err = None → sealed_challenge key sequence token data)
    end.
Proof.
  intros Hl. unfold decryptChallengeToken. rewrite packetNonce_spec. cbn [mbind option_bind].
  unfold decryptAEAD.
  destruct (decrypt_in_place_total chacha20poly1305 chachaNonceSize data challengeTokenBytes []
    (packet_nonce sequence) key) as (o & Ho & Hlen); [apply length_packet_nonce|lia|].
  rewrite Ho. exists o. split; [done|]. destruct o as [d|]; [|done].
  destruct (decrypt_in_place_inv _ _ _ _ _ _ _ _ Ho) as (plain & Hseal & Hlp & _ & Hd).
  rewrite take_ge in Hseal by lia. specialize (Hlen d eq_refl).
  assert (length plain = 284%nat) as Hp by clia.
  set (token := mkChallengeToken (le_combine (slice plain 0 8)) (slice plain 8 256)).
  assert (valid_challenge token) as Hv.
  { split; [apply le_combine_u64, length_slice; lia|].
    change (length (slice plain 8 256) = 256%nat). apply length_slice. lia. }
  assert (plain = enc_challenge token ++ drop 264 plain) as Hplain.
  { unfold enc_challenge. cbn [cht_clientID cht_userData token]. rewrite le_split_combine by (rewrite length_slice; lia).
    pose proof (drop_slice plain 8 256) as E1. pose proof (drop_slice plain 0 8) as E0.
    cbn [Nat.add] in E0, E1. rewrite <-app_assoc, <-E1, <-E0. done. }
  exists None, token. split.
  - rewrite Hd, Hplain, <-app_assoc. apply challenge_read_spec; [done|].
    rewrite app_assoc, <-Hplain, <-Hd. lia.
  - intros _. exists (drop 264 plain). by rewrite <-Hplain.
Qed.

(** A response changes no slot, or lets its sender in. *)
Inductive responded (s : Server) (from : Address) (sequence : Z) (data : list byte) (e : Z)
  : Server → Prop :=
| RespIgnored s' :
    requested s from s' → replies s s' from 25 → responded s from sequence data e s'
| RespConnected i x timeout token s' :
    sealed_challenge (sv_challengeKey s) sequence token data →
    address_free s from → id_unused s (cht_clientID token) →
    0 ≤ i < sv_maxClients s → slot_at s i = Some x → sl_connected x = false →
    admitted s i x from (cht_clientID token) e timeout (cht_userData token) s' →
    responded s from sequence data e s'.

Lemma processConnectionResponsePacket_wp s from sequence data e y :
  server_wf s → length data = challengeTokenBytes →
  em_at (sv_encryptionManager s) e = Some y → Equal (mp_address y) from = true →
  wp (ServerOps.processConnectionResponsePacket from sequence data e)
    (λ _ s', responded s from sequence data e s') s.
Proof.
  intros Hwf Hlen Hy Ha. pose proof (requested_refl s from Hwf) as Hrefl.
  assert (replies s s from 25) as Hrep by (by apply replies_none).
  unfold ServerOps.processConnectionResponsePacket. apply wp_bind, wp_gets.
  destruct (challenge_opened data sequence (sv_challengeKey s) Hlen) as (o & Ho & Hread).
  apply wp_bind. eapply wp_lift; [done|]. destruct o as [d|]; [|apply wp_ret; by left].
  destruct Hread as (err & token & Hread & Hsealed). apply wp_bind. eapply wp_lift; [done|]. cbv beta iota.
  destruct err; [apply wp_ret; by left|]. specialize (Hsealed eq_refl).
  apply wp_bind, wp_zoom. eapply wp_run; [by apply getSendKey_spec|].
  replace (s <| sv_encryptionManager := sv_encryptionManager s |>) with s by (by destruct s).
  destruct (findClientIndexByAddress_spec from s Hwf) as (r & Hr & Hsr).
  apply wp_bind. eapply wp_run; [done|].
  destruct (Z.eqb_spec r (-1)) as [->|]; cbn [negb]; [|apply wp_ret; by left].
  apply search_none_address in Hsr; [|done].
  destruct (findClientIndexByID_spec (cht_clientID token) s Hwf) as (r' & Hr' & Hsr').
  apply wp_bind. eapply wp_run; [done|].
  destruct (Z.eqb_spec r' (-1)) as [->|]; cbn [negb]; [|apply wp_ret; by left].
  apply search_none_id in Hsr'; [|done]. apply wp_bind, wp_gets. cbv beta delta [id].
  destruct (Z.eqb_spec (sv_numConnectedClients s) (sv_maxClients s)) as [|Hnum].
  { eapply wp_mono; [apply sendGlobal_requested; [done..| |simpl; lia]|].
    - by apply (ew_keys _ (sw_em _ Hwf) _ _ Hy).
    - intros [] s' []. by left. }
  destruct (findFreeClientIndex_spec s Hwf) as (i & Hfi & Hsi).
  destruct (search_free s i Hwf Hnum Hsi) as (Hi & x & Hx & Hc).
  apply wp_bind. eapply wp_run; [done|].
  apply wp_bind, wp_zoom. eapply wp_run; [by apply getTimeout_spec|].
  replace (s <| sv_encryptionManager := sv_encryptionManager s |>) with s by (by destruct s).
  eapply wp_mono; [eapply (connectClient_wp s i x from _ e _ _ y); try done|].
  - by destruct Hsealed as (? & _ & _ & ?).
  - intros [] s'. by eapply RespConnected.
Qed.

(** ** Packets of connected clients *)

(** Slot [i] holds [x], and that is all that changed. *)
Record slot_only (s : Server) (i : Z) (x : slot) (s' : Server) : Prop := {
  so_wf : server_wf s';
  so_slot : slot_updated s i x s';
  so_scalars : same_scalars s s';
  so_count : sv_numConnectedClients s' = sv_numConnectedClients s;
  so_em : sv_encryptionManager s' = sv_encryptionManager s;
  so_events : sv_events s' = sv_events s;
}.
Lemma slot_only_refl s i x : server_wf s → slot_at s i = Some x → slot_only s i x s.
Proof. intros Hwf Hx. split; try done. apply slot_updated_refl; [apply Hwf|done]. Qed.
Lemma slot_only_trans s s1 i x y s' : slot_only s i x s1 → slot_only s1 i y s' → slot_only s i y s'.
Proof.
  intros [] []. split; try congruence; [by eapply slot_updated_trans|by etrans].
Qed.

Section client_packets.
Context (s : Server) (i : Z) (x : slot).
Context (Hwf : server_wf s) (Hx : slot_at s i = Some x) (Hc : sl_connected x = true).

Lemma slot_write_only x' s' :
  slot_updated s i x' s' → link_of x' = link_of x → slot_local x' → same_scalars s s' →
  sv_numConnectedClients s' = sv_numConnectedClients s →
  sv_encryptionManager s' = sv_encryptionManager s → sv_events s' = sv_events s →
  slot_only s i x' s'.
Proof. intros. split; try done. by eapply (server_wf_write s i x). Qed.

Definition heard : slot := x <| sl_lastReceive := sv_time s |> <| sl_confirmed := true |>.
Lemma confirmClient_wp : wp (ServerOps.confirmClient i) (λ _ s', slot_only s i heard s') s.
Proof.
  pose proof (sw_shape _ Hwf) as Hs. pose proof (slot_at_inv _ _ _ Hx) as Hat.
  pose proof (slot_at_range _ _ _ Hs Hx) as Hi. pose proof (sw_slots _ Hwf _ _ Hx) as Hloc.
  assert (slot_local heard) as Hl'.
  { destruct Hloc. split; try done. intros H. simpl in H. congruence. }
  destruct Hs as []. unfold ServerOps.confirmClient. apply wp_bind, wp_gets. sv_write. sv_read Hat.
  destruct (sl_confirmed x) eqn:Hcf; cbn [negb].
  - apply wp_ret. apply slot_write_only; [sv_updated Hat|done || by split..].
  - sv_write. apply slot_write_only; [sv_updated Hat|done || by split..].
Qed.

Lemma pushPacket_wp payloadData sequence :
  wp (ServerOps.pushPacket i payloadData sequence) (λ _ s', ∃ b q,
    Queue.push payloadData sequence (sl_queue x) = Some (b, q) ∧
    slot_only s i (x <| sl_queue := q |>) s') s.
Proof.
  pose proof (sw_shape _ Hwf) as Hs. pose proof (slot_at_inv _ _ _ Hx) as Hat.
  pose proof (slot_at_range _ _ _ Hs Hx) as Hi. pose proof (sw_slots _ Hwf _ _ Hx) as Hloc.
  destruct (push_total (sl_queue x) payloadData sequence (sx_queue _ Hloc)) as (b & q & Hq & Hqwf).
  assert (slot_local (x <| sl_queue := q |>)) as Hl'.
  { destruct Hloc. split; try done. intros H. simpl in H. congruence. }
  destruct Hs as []. unfold ServerOps.pushPacket. sv_read Hat. apply wp_bind. eapply wp_lift; [done|].
  cbv beta iota. sv_write. exists b, q. split; [done|].
  apply slot_write_only; [sv_updated Hat|done || by split..].
Qed.
Lemma replay_wp rp :
  replay_wf rp → (sl_loopback x = true → rp = Replay.reset) →
  wp (awrite sv_clientReplayProtection i rp) (λ _ s', slot_only s i (x <| sl_replay := rp |>) s') s.
Proof.
  intros Hrp Hlo. pose proof (sw_shape _ Hwf) as Hs. pose proof (slot_at_inv _ _ _ Hx) as Hat.
  pose proof (slot_at_range _ _ _ Hs Hx) as Hi. pose proof (sw_slots _ Hwf _ _ Hx) as Hloc.
  assert (slot_local (x <| sl_replay := rp |>)) as Hl'.
  { destruct Hloc. split; try done. intros H. simpl in H. congruence. }
  destruct Hs as []. sv_write. apply slot_write_only; [sv_updated Hat|done || by split..].
Qed.
End client_packets.
End admission.
