(* ===== verification/ServerReceive.v ===== *)
(** server.go from a datagram to its effect: processPacketInternal and
    readAndProcessPacket. *)

From S2P Require Import Prelude Constants Float64 Buffer Replay Queue Address Crypto.
From S2P Require Import SampleCrypto Token Packet TokenEntries Encryption Socket Server.
From S2P Require Import ServerInvariant ServerHandlers ServerConnect.

Section receiving.
Context {C : CryptoLib} {L : CryptoLaws C}.

(** [i] is the slot of the client at [from], or -1. *)
Definition sender (s : Server) (from : Address) (i : Z) : Prop :=
  (i = -1 ∧ address_free s from) ∨
  ∃ x, slot_at s i = Some x ∧ network x ∧ Equal (sl_address x) from = true.

Lemma sender_search s from i : server_wf s → slot_search s (by_address from) i → sender s from i.
Proof.
  intros Hwf Hs. destruct Hs as [[-> Hnone]|(Hi & x & Hx & Ht)].
  - left. split; [done|]. apply search_none_address; [done|]. by left.
  - right. exists x. apply andb_prop in Ht as [Hc Ha]. split_and!; [done| |done].
    split; [done|]. apply not_true_is_false. intros Hlo.
    destruct (lk_loopback _ (sw_linked _ Hwf) i x Hx Hc Hlo) as [_ Hz].
    rewrite Hz in Ha. apply Equal_not_none in Ha as [Ha _]. done.
Qed.

(** What readPacket guarantees of the fields the handlers rely on. *)
Definition packet_ok (s : Server) (from : Address) (e : Z) (p : packet) : Prop :=
  match p with
  | Request r => length (req_connectTokenData r) = connectTokenPrivateBytes
  | Response _ data => length data = challengeTokenBytes ∧
      ∃ y, em_at (sv_encryptionManager s) e = Some y ∧ Equal (mp_address y) from = true
  | _ => True
  end.

(** The effect of a packet from [from] that was read with mapping [e]. *)
Inductive handled (s : Server) (from : Address) (sequence e i : Z) : packet → Server → Prop :=
| HIgnored p : handled s from sequence e i p s
| HRequest r s' : requested s from s' → handled s from sequence e i (Request r) s'
| HResponse q data s' :
    responded s from q data e s' → handled s from sequence e i (Response q data) s'
| HKeepAlive a b x s' :
    slot_at s i = Some x → slot_only s i (heard s x) s' →
    handled s from sequence e i (KeepAlive a b) s'
| HPayload data x b q s' :
    slot_at s i = Some x → Queue.push data sequence (sl_queue x) = Some (b, q) →
    slot_only s i (heard s x <| sl_queue := q |>) s' →
    handled s from sequence e i (Payload data) s'
| HDisconnect x s' :
    slot_at s i = Some x → disconnected s i x false DisconnectReasonClientDisconnect s' →
    handled s from sequence e i Disconnect s'.

Lemma server_processPacketInternal_wp s now from p sequence e i :
  server_wf s → sender s from i → packet_ok s from e p →
  wp (ServerOps.processPacketInternal now from p sequence e i)
    (λ _ s', handled s from sequence e i p s') s.
Proof.
  intros Hwf Hsend Hok. unfold ServerOps.processPacketInternal. apply wp_bind, wp_gets.
  assert (i ≠ -1 → ∃ x, slot_at s i = Some x ∧ network x) as Hclient.
  { destruct Hsend as [[-> _]|(x & Hx & Hn & _)]; [done|eauto]. }
  destruct p as [r| | |q data|a b|data|].
  - case_match; [|apply wp_ret; constructor].
    eapply wp_mono; [by apply processConnectionRequestPacket_wp|]. intros [] s'. by constructor.
  - apply wp_ret. constructor.
  - apply wp_ret. constructor.
  - case_match; [|apply wp_ret; constructor]. destruct Hok as (Hl & y & Hy & Ha).
    eapply wp_mono; [by eapply processConnectionResponsePacket_wp|]. intros [] s'. by constructor.
  - destruct (Z.eqb_spec i (-1)) as [|Hi]; cbn [negb]; [apply wp_ret; constructor|].
    destruct (Hclient Hi) as (x & Hx & Hc & _).
    eapply wp_mono; [by apply (confirmClient_wp s i x)|]. intros [] s'. by econstructor.
  - destruct (Z.eqb_spec i (-1)) as [|Hi]; cbn [negb]; [apply wp_ret; constructor|].
    destruct (Hclient Hi) as (x & Hx & Hc & _).
    apply wp_bind. eapply wp_mono; [by apply (confirmClient_wp s i x)|]. intros [] s1 H1.
    eapply wp_mono.
    { apply (pushPacket_wp s1 i (heard s x)); [apply H1|by eapply slot_updated_at, H1|done]. }
    intros [] s' (b & q' & Hq & H2). econstructor; [done|exact Hq|]. by eapply slot_only_trans.
  - destruct (Z.eqb_spec i (-1)) as [|Hi]; cbn [negb]; [apply wp_ret; constructor|].
    destruct (Hclient Hi) as (x & Hx & Hn).
    eapply wp_mono; [by apply disconnectClientInternal_wp|]. intros [] s'. by econstructor.
Qed.

(** findEncryptionMapping refreshes the mapping it finds. *)
Definition with_mappings (s : Server) (m : encryptionManager) : Server :=
  s <| sv_encryptionManager := m |>.
Lemma with_mappings_same s : with_mappings s (sv_encryptionManager s) = s.
Proof. by destruct s. Qed.
Lemma found_requested s from e m :
  server_wf s → address_free s from → found (sv_encryptionManager s) from (sv_time s) e m →
  requested s from (with_mappings s m).
Proof.
  intros Hwf Hfree Hf. destruct (fd_at _ _ _ _ _ Hf) as (y & Hy & Hlive & Hup).
  assert (mp_clientIndex y = -1) as Hc by (eapply (taken_unowned s from e y); eauto).
  split; try done; [| |by apply replies_none].
  - eapply server_wf_rest; [done|by destruct (sw_shape _ Hwf); split|done| |done|].
    + destruct (scalars_ok_refl s Hwf). split; try done. apply Hf.
    + by eapply em_links_updated.
  - intros f z Hz Hcz. simpl. rewrite (up_at _ _ _ _ Hup), decide_False; [done|]. congruence.
Qed.

Lemma length_sealed_request key pid expire nonce plaintext :
  length key = KeyBytes → length nonce = connectTokenNonceBytes →
  length plaintext = (connectTokenPrivateBytes - MacBytes)%nat →
  length (sealed_request key pid expire nonce plaintext) = requestPacketBytes.
Proof.
  intros Hk Hn Hp. unfold sealed_request. cbn [length].
  rewrite !length_app, !length_le_split, Seal_length, Hn, Hp by done. done.
Qed.

(** The effect of one datagram. *)
Inductive processed (s : Server) (from : Address) (d : list byte) : Server → Prop :=
| PrDropped : processed s from d s
| PrTouched e m :
    address_free s from → found (sv_encryptionManager s) from (sv_time s) e m →
    processed s from d (with_mappings s m)
| PrRequest s0 expire nonce plaintext s' :
    d = sealed_request (sc_privateKey (sv_config s)) (sc_protocolID (sv_config s)) expire nonce plaintext →
    length d = requestPacketBytes → requested s from s0 → sv_events s0 = sv_events s → requested s0 from s' →
    processed s from d s'
| PrStranger e m y type sequenceBytes plaintext p s' :
    address_free s from → found (sv_encryptionManager s) from (sv_time s) e m →
    em_at (sv_encryptionManager s) e = Some y → Equal (mp_address y) from = true →
    d = sealed_packet (mp_receiveKey y) (sc_protocolID (sv_config s)) type sequenceBytes plaintext →
    (1 ≤ length sequenceBytes ≤ 8)%nat → body_of type plaintext (Some p) →
    handled (with_mappings s m) from (le_combine sequenceBytes) e (-1) p s' →
    processed s from d s'
| PrClient i x y type sequenceBytes plaintext p rp s1 s' :
    slot_at s i = Some x → network x → Equal (sl_address x) from = true →
    em_at (sv_encryptionManager s) (sl_encryptionIndex x) = Some y →
    Equal (mp_address y) from = true →
    d = sealed_packet (mp_receiveKey y) (sc_protocolID (sv_config s)) type sequenceBytes plaintext →
    (1 ≤ length sequenceBytes ≤ 8)%nat → 0 ≤ type < connectionNumPackets →
    body_of type plaintext p →
    replay_check (Some (sl_replay x)) type (le_combine sequenceBytes) = Some false →
    replay_advance (Some (sl_replay x)) type (le_combine sequenceBytes) = Some (Some rp) →
    slot_only s i (x <| sl_replay := rp |>) s1 →
    match p with
    | None => s' = s1
    | Some p => handled s1 from (le_combine sequenceBytes) (sl_encryptionIndex x) i p s'
    end →
    processed s from d s'.

(** The token data of a request that was read has its full length. *)
Lemma request_data_length key pid expire nonce plaintext :
  length key = KeyBytes → length nonce = connectTokenNonceBytes →
  length plaintext = (connectTokenPrivateBytes - MacBytes)%nat →
  length (plaintext ++ drop (requestPacketBytes - MacBytes) (sealed_request key pid expire nonce plaintext))
    = connectTokenPrivateBytes.
Proof. intros. rewrite length_app, length_drop, length_sealed_request by done. unfold requestPacketBytes. clia. Qed.

Lemma ainsert_same {A : Type} (l : list A) i x : aget l i = Some x → ainsert i x l = l.
Proof. unfold aget, ainsert. destruct (0 <=? i); [|done]. apply list_insert_id. Qed.
Lemma replay_same_wp s i x :
  slot_at s i = Some x →
  wp (awrite sv_clientReplayProtection i (sl_replay x)) (λ _ s', s' = s) s.
Proof.
  intros (_ & _ & _ & _ & _ & _ & _ & _ & _ & _ & _ & H & _)%slot_at_inv.
  apply wp_awrite; [by eapply aget_range|]. rewrite (ainsert_same _ _ _ H). by destruct s.
Qed.

Lemma body_ok s from e y type plaintext p :
  body_of type plaintext (Some p) → em_at (sv_encryptionManager s) e = Some y →
  Equal (mp_address y) from = true → packet_ok s from e p.
Proof.
  intros Hb Hy Ha. destruct (Hb p eq_refl) as (_ & _ & Hv).
  destruct p; try done. destruct Hv as [_ Hl]. split; eauto.
Qed.

(** The two ways a datagram is read: from a connected client, and from anybody
    else. *)
Definition client_block (s : Server) (now now' : Z) (from : Address) (d : list byte) (i : Z) (x : slot)
  (y : mapping) : M Server unit :=
  res ← lift (readPacket d (Some (mp_receiveKey y)) (sc_protocolID (sv_config s)) now
                (sv_minConnectTokenExpireTimestamp s) (Some (sc_privateKey (sv_config s)))
                ServerOps.serverAllowedPackets (Some (sl_replay x)));
  (match rd_replay res with
   | Some rp => awrite sv_clientReplayProtection i rp
   | None => mret tt
   end);;
  match rd_packet res with
  | None => mret tt
  | Some p => ServerOps.processPacketInternal now' from p (rd_sequence res) (sl_encryptionIndex x) i
  end.
Lemma read_client_wp s now now' from d i x :
  server_wf s → slot_at s i = Some x → network x → Equal (sl_address x) from = true → i ≠ -1 →
  ∃ y, em_at (sv_encryptionManager s) (sl_encryptionIndex x) = Some y ∧
    wp (client_block s now now' from d i x y) (λ _ s', processed s from d s') s.
Proof.
  intros Hwf Hx Hn Ha Hi. pose proof (sw_slots _ Hwf _ _ Hx) as Hloc.
  destruct (lk_network _ (sw_linked _ Hwf) i x Hx Hn) as (y & Hy & _ & Hya). exists y. split; [done|].
  assert (Equal (mp_address y) from = true) as Hyf.
  { apply Equal_spec. apply Equal_spec in Ha, Hya. by rewrite Hya. }
  destruct (readPacket_total d (Some (mp_receiveKey y)) (sc_protocolID (sv_config s)) now
    (sv_minConnectTokenExpireTimestamp s) (Some (sc_privateKey (sv_config s)))
    ServerOps.serverAllowedPackets (Some (sl_replay x))) as (res & Hres & Hout); [done|apply Hloc|].
  unfold client_block. apply wp_bind. eapply wp_lift; [done|]. apply wp_bind.
  destruct Hout as [sq|key type sb plain p rp Hkey Hd Hsb Hty _ Hchk Hadv Hbody
    |key expire nonce plain mac [= <-] Hd _ _ _ _ _ Hn1 Hp1 ->]; cbn [rd_replay rd_packet rd_sequence].
  - eapply wp_mono; [by apply replay_same_wp|]. intros [] s' ->. apply wp_ret. apply PrDropped.
  - injection Hkey as <-. destruct (replay_advance_total (Some (sl_replay x)) type (le_combine sb))
      as (rp' & Hadv' & Hrp); [apply Hloc|]. rewrite Hadv in Hadv'. injection Hadv' as <-.
    destruct rp as [rp|]; [|unfold replay_advance in Hadv; case_match; [|done];
      by destruct (Replay.advanceSequence _ _)].
    eapply wp_mono; [apply (replay_wp s i x); [done|done|apply Hn|done|]|].
    { destruct Hn. congruence. }
    intros [] s1 Hs1.
    assert (∀ s', match p with None => s' = s1
      | Some p => handled s1 from (le_combine sb) (sl_encryptionIndex x) i p s' end →
      processed s from d s') as Hfin by (intros s' H; by eapply (PrClient s from d i x y)).
    destruct p as [p|]; [|apply wp_ret; by apply Hfin].
    eapply wp_mono; [apply server_processPacketInternal_wp; [apply Hs1| |]|intros [] s' H; by apply Hfin].
    + right. eexists. split; [by eapply slot_updated_at, Hs1|]. done.
    + eapply body_ok; [done|by rewrite (so_em _ _ _ _ Hs1)|done].
  - eapply wp_mono; [by apply replay_same_wp|]. intros [] s' ->. eapply wp_mono.
    { apply server_processPacketInternal_wp; [done|right; by exists x|]. cbn [packet_ok req_connectTokenData].
      rewrite Hd. apply request_data_length; [apply Hwf|done..]. }
    intros [] s' Hh. eapply PrRequest; [exact Hd| |by apply requested_refl|done|].
    { rewrite Hd. apply length_sealed_request; [apply Hwf|done..]. }
    inversion Hh; subst; [by apply requested_refl|done].
Qed.

(** Without a connected client, after the search for a mapping: [key] is its
    receive key when there is one. *)
Lemma read_stranger_wp s s0 now now' from d e key :
  server_wf s → address_free s from → requested s from s0 → sv_events s0 = sv_events s →
  sv_config s0 = sv_config s → processed s from d s0 →
  match key with
  | None => True
  | Some key => ∃ m y, found (sv_encryptionManager s) from (sv_time s) e m ∧ s0 = with_mappings s m ∧
      em_at (sv_encryptionManager s) e = Some y ∧ em_at m e = Some (y <| mp_lastAccessTime := sv_time s |>) ∧
      Equal (mp_address y) from = true ∧ key = mp_receiveKey y
  end →
  wp (res ← lift (readPacket d key (sc_protocolID (sv_config s0)) now
                    (sv_minConnectTokenExpireTimestamp s0) (Some (sc_privateKey (sv_config s0)))
                    ServerOps.serverAllowedPackets None);
      (match rd_replay res with
       | Some rp => awrite sv_clientReplayProtection (-1) rp
       | None => mret tt
       end);;
      match rd_packet res with
      | None => mret tt
      | Some p => ServerOps.processPacketInternal now' from p (rd_sequence res) e (-1)
      end) (λ _ s', processed s from d s') s0.
Proof.
  intros Hwf Hfree Hreq Hev Hcfg Hdrop Hkey. pose proof (rq_wf _ _ _ Hreq) as Hwf0.
  assert (sender s0 from (-1)) as Hsend.
  { left. split; [done|]. intros j x. rewrite (rq_slots _ _ _ Hreq). apply Hfree. }
  destruct (readPacket_total d key (sc_protocolID (sv_config s0)) now
    (sv_minConnectTokenExpireTimestamp s0) (Some (sc_privateKey (sv_config s0)))
    ServerOps.serverAllowedPackets None) as (res & Hres & Hout); [done..|].
  apply wp_bind. eapply wp_lift; [done|]. apply wp_bind.
  destruct Hout as [sq|key' type sb plain p rp -> Hd Hsb Hty _ _ Hadv Hbody
    |key' expire nonce plain mac [= <-] Hd _ _ _ _ _ Hn1 Hp1 ->]; cbn [rd_replay rd_packet rd_sequence].
  - by do 2 apply wp_ret.
  - injection Hadv as <-. apply wp_ret. destruct p as [p|]; [|by apply wp_ret].
    destruct Hkey as (m & y & Hf & -> & Hy & Hy' & Ha & ->). rewrite Hcfg in Hd.
    eapply wp_mono; [apply server_processPacketInternal_wp; [done|done|]|].
    + eapply body_ok; [done|exact Hy'|done].
    + intros [] s' H. by eapply (PrStranger s from d e m y).
  - apply wp_ret. rewrite Hcfg in Hd. eapply wp_mono.
    { apply server_processPacketInternal_wp; [done|done|]. cbn [packet_ok req_connectTokenData].
      rewrite Hd. apply request_data_length; [apply Hwf|done..]. }
    intros [] s' Hh. eapply PrRequest; [exact Hd| |done|done|].
    { rewrite Hd. apply length_sealed_request; [apply Hwf|done..]. }
    inversion Hh; subst; [by apply requested_refl|done].
Qed.

(** The part of readAndProcessPacket before readPacket, for a client. *)
Lemma read_prefix_client s now now' from d i x y Q :
  server_wf s → sv_running s = true → (1 < length d)%nat → slot_at s i = Some x → network x →
  Equal (sl_address x) from = true → em_at (sv_encryptionManager s) (sl_encryptionIndex x) = Some y →
  wp (client_block s now now' from d i x y) Q s →
  wp (ServerOps.readAndProcessPacket from d now now' ServerOps.serverAllowedPackets) Q s.
Proof.
  intros Hwf Hrun Hlen Hx Hn Ha Hy Hblock. unfold ServerOps.readAndProcessPacket.
  apply wp_bind, wp_gets. rewrite Hrun. cbn [negb]. rewrite bool_decide_eq_false_2 by lia.
  destruct (findClientIndexByAddress_spec from s Hwf) as (i' & Hfi & Hsi).
  assert (i' = i) as ->.
  { destruct (sender_search s from i' Hwf Hsi) as [[_ Hfree]|(x' & Hx' & Hn' & Ha')].
    - rewrite (Hfree i x Hx (proj1 Hn)) in Ha. done.
    - apply (lk_distinct _ (sw_linked _ Hwf) _ _ x' x Hx' Hx Hn' Hn).
      apply Equal_spec. apply Equal_spec in Ha, Ha'. by rewrite Ha'. }
  apply wp_bind. eapply wp_run; [done|]. apply wp_bind, wp_gets.
  destruct (aget_Some d 0) as [b0 Hb0]; [lia|].
  assert (i ≠ -1) as Hi. { pose proof (slot_at_range _ _ _ (sw_shape _ Hwf) Hx). lia. }
  pose proof (slot_at_inv _ _ _ Hx) as Hat.
  destruct (Z.eqb_spec i (-1)); [done|]. cbn [negb]. sv_read Hat.
  apply wp_bind, wp_zoom. eapply wp_run; [by apply getReceiveKey_spec|].
  fold (with_mappings s (sv_encryptionManager s)). rewrite with_mappings_same.
  apply wp_bind. eapply wp_lift; [done|]. cbn [is_some negb andb].
  apply wp_bind. sv_read Hat. apply wp_ret, wp_bind, wp_gets. exact Hblock.
Qed.

Lemma readAndProcessPacket_wp s now now' from d :
  server_wf s →
  wp (ServerOps.readAndProcessPacket from d now now' ServerOps.serverAllowedPackets)
    (λ _ s', processed s from d s' ∧ (sv_running s = false → s' = s)) s.
Proof.
  intros Hwf. destruct (sv_running s) eqn:Hrun.
  2: { unfold ServerOps.readAndProcessPacket. apply wp_bind, wp_gets. rewrite Hrun.
       apply wp_ret. split; [constructor|done]. }
  eapply (wp_mono _ (λ _ s', processed s from d s')); [|intros [] s' H; by split].
  destruct (decide (length d ≤ 1)%nat) as [Hlen|Hlen].
  { unfold ServerOps.readAndProcessPacket. apply wp_bind, wp_gets. rewrite Hrun. cbn [negb].
    rewrite bool_decide_eq_true_2 by done. apply wp_ret. constructor. }
  destruct (findClientIndexByAddress_spec from s Hwf) as (i & Hfi & Hsi).
  destruct (sender_search s from i Hwf Hsi) as [[-> Hfree]|(x & Hx & Hn & Ha)].
  - unfold ServerOps.readAndProcessPacket. apply wp_bind, wp_gets. rewrite Hrun. cbn [negb].
    rewrite bool_decide_eq_false_2 by done. apply wp_bind. eapply wp_run; [done|]. apply wp_bind, wp_gets.
    destruct (aget_Some d 0) as [b0 Hb0]; [lia|]. rewrite Z.eqb_refl. cbn [negb].
    destruct (find_spec (sv_encryptionManager s) from (sv_time s) (sw_em _ Hwf))
      as (e & m & Hfind & Hcase).
    apply wp_bind, wp_zoom. eapply wp_run; [done|]. fold (with_mappings s m).
    assert (∃ key, EncryptionManager.getReceiveKey e m = Some (key, m) ∧
      requested s from (with_mappings s m) ∧ processed s from d (with_mappings s m) ∧
      match key with
      | None => True
      | Some key => ∃ m' y, found (sv_encryptionManager s) from (sv_time s) e m' ∧
          with_mappings s m = with_mappings s m' ∧ em_at (sv_encryptionManager s) e = Some y ∧
          em_at m' e = Some (y <| mp_lastAccessTime := sv_time s |>) ∧
          Equal (mp_address y) from = true ∧ key = mp_receiveKey y
      end) as (key & Hgk & Hreq & Hdrop & Hkey).
    { destruct Hcase as [(-> & -> & _)|Hf].
      - exists None. rewrite with_mappings_same. split_and!; [done|by apply requested_refl|constructor|done].
      - destruct (fd_at _ _ _ _ _ Hf) as (y & Hy & Hl & Hup).
        pose proof (up_at _ _ _ _ Hup e) as Hy'. rewrite decide_True in Hy' by done.
        exists (Some (mp_receiveKey y)). split_and!; [by apply (getReceiveKey_spec m e _ Hy')|
          by eapply found_requested|by eapply PrTouched|].
        apply andb_prop in Hl as [Hl _]. by exists m, y. }
    apply wp_bind, wp_zoom. eapply wp_run; [exact Hgk|].
    change ((with_mappings s m) <| sv_encryptionManager := m |>) with (with_mappings s m).
    apply wp_bind. eapply wp_lift; [done|].
    destruct (negb (is_some key) && _); [by apply wp_ret|].
    apply wp_bind, wp_ret, wp_bind, wp_gets. cbv beta delta [id].
    by eapply read_stranger_wp.
  - assert (i ≠ -1) as Hi. { pose proof (slot_at_range _ _ _ (sw_shape _ Hwf) Hx). lia. }
    destruct (read_client_wp s now now' from d i x Hwf Hx Hn Ha Hi) as (y & Hy & Hread).
    eapply read_prefix_client; try done. lia.
Qed.
End receiving.
