(* ===== verification/ServerRun.v ===== *)
(** The server as a whole: every public operation of server.go keeps the
    invariant, whatever is called in whatever order, and the claims about
    admission, forgeries, replies, timeouts and counting. *)

From S2P Require Import Prelude Constants Float64 Buffer Replay Queue Address Crypto.
From S2P Require Import SampleCrypto Token Packet TokenEntries Encryption Socket Server.
From S2P Require Import ServerInvariant ServerHandlers ServerConnect ServerReceive.

(** The invariant, and the configuration stays. *)
Definition kept (s s' : Server) : Prop := server_wf s' ∧ sv_config s' = sv_config s.

Section operations.
Context {C : CryptoLib} {L : CryptoLaws C}.

Lemma kept_trans s s1 s' : kept s s1 → kept s1 s' → kept s s'.
Proof. intros [_ H1] [? H2]. split; congruence. Qed.
Lemma kept_scalars s s' : server_wf s' → same_scalars s s' → kept s s'.
Proof. intros Hwf Hsc. split; [done|apply Hsc]. Qed.
Lemma requested_kept s from s' : requested s from s' → kept s s'.
Proof. intros H. split; apply H. Qed.
Lemma slot_only_kept s i x s' : slot_only s i x s' → kept s s'.
Proof. intros H. apply kept_scalars; apply H. Qed.
Lemma handled_kept s from sequence e i p s' :
  server_wf s → handled s from sequence e i p s' → kept s s'.
Proof.
  intros Hwf Hh. destruct Hh as [p|r s' H|q data s' H|a b x s' _ H|data x b q s' _ _ H|x s' _ H].
  - done.
  - by eapply requested_kept.
  - destruct H as [s' H _|? ? ? ? s' _ _ _ _ _ _ H]; [by eapply requested_kept|split; apply H].
  - by eapply slot_only_kept.
  - by eapply slot_only_kept.
  - apply kept_scalars; apply H.
Qed.
Lemma processed_kept s from d s' : server_wf s → processed s from d s' → kept s s'.
Proof.
  intros Hwf Hp. destruct Hp as [|e m Hfree Hf|s0 ? ? ? s' _ _ H0 _ H1|e m ? ? ? ? p s' Hfree Hf _ _ _ _ _ Hh
    |i x ? ? ? ? p ? s1 s' _ _ _ _ _ _ _ _ _ _ _ H1 Hh].
  - done.
  - by eapply requested_kept, found_requested.
  - eapply kept_trans; by eapply requested_kept.
  - pose proof (found_requested s from e m Hwf Hfree Hf) as H0.
    eapply kept_trans; [by eapply requested_kept|]. eapply handled_kept; [apply H0|done].
  - eapply kept_trans; [by eapply slot_only_kept|]. destruct p; [|subst; split; [apply H1|done]].
    eapply handled_kept; [apply H1|done].
Qed.

Lemma server_processAll_wp s now l :
  server_wf s → wp (ServerOps.processAll now l) (λ _ s', kept s s') s.
Proof.
  intros Hwf. apply (wp_for (λ _ s', kept s s')); [done|]. intros a l' s1 [Hwf1 Hc1].
  eapply wp_mono; [by apply readAndProcessPacket_wp|]. intros [] s2 [Hp _].
  eapply kept_trans; [by split|]. by eapply processed_kept.
Qed.

(** Update calls ReceivePacketOverride without a test when the configuration
    replaces the sockets. *)
Definition server_receive_ok (c : serverConfig) : Prop :=
  sc_networkSimulator c = false → sc_overrideSendAndReceive c = true → sc_receivePacketOverride c = true.
(** So does SendPacket with SendLoopbackPacketCallback, for a loopback client. *)
Definition server_send_ok (s : Server) : Prop :=
  sc_sendLoopbackPacketCallback (sv_config s) = true ∨ Forall (eq false) (sv_clientLoopback s).

Lemma server_receivePackets_wp s now arr :
  server_wf s → server_receive_ok (sv_config s) →
  wp (ServerOps.receivePackets now arr) (λ _ s', kept s s') s.
Proof.
  intros Hwf Hcb. unfold server_receive_ok in Hcb. unfold ServerOps.receivePackets. apply wp_bind, wp_gets. cbv beta delta [id].
  destruct (sc_networkSimulator (sv_config s)); cbn [negb]; [by apply server_processAll_wp|].
  destruct (sc_overrideSendAndReceive (sv_config s)); [rewrite Hcb by done; by apply server_processAll_wp|].
  case_match; [by apply server_processAll_wp|by apply wp_ret].
Qed.

Lemma swept_kept s n g s' : swept s n g s' → kept s s'.
Proof. intros []. by apply kept_scalars. Qed.
Lemma time_kept s t : server_wf s → kept s (s <| sv_time := t |>).
Proof.
  intros Hwf. split; [|done].
  eapply server_wf_rest; [done|by destruct (sw_shape _ Hwf); split|done| |done|apply em_links_refl].
  destruct (scalars_ok_refl s Hwf). by split.
Qed.
Lemma server_Update_wp s now arr time :
  server_wf s → server_receive_ok (sv_config s) →
  wp (ServerOps.Update now arr time) (λ _ s', kept s s') s.
Proof.
  intros Hwf Hcb. unfold ServerOps.Update. apply wp_bind, wp_modify.
  pose proof (time_kept s time Hwf) as H0. apply wp_bind.
  eapply wp_mono; [apply server_receivePackets_wp; [apply H0|done]|]. intros [] s1 H1.
  apply wp_bind. eapply wp_mono; [apply server_sendPackets_wp, H1|]. intros [] s2 H2%swept_kept.
  eapply wp_mono; [apply checkForTimeouts_wp, H2|]. intros [] s3 H3%swept_kept.
  eapply kept_trans; [exact H0|]. eapply kept_trans; [exact H1|]. by eapply kept_trans.
Qed.

(** ** The calls of the application *)
Lemma payload_valid d :
  bool_decide (length d ≤ 0)%nat || bool_decide (MaxPacketSize < length d)%nat = false →
  valid_encrypted (Payload d).
Proof.
  intros [H1%bool_decide_eq_false H2%bool_decide_eq_false]%orb_false_iff.
  cbn [valid_encrypted]. clia.
Qed.

(** A write to the slot of a loopback client. *)
Lemma loopback_sent_wp s i x :
  server_wf s → slot_at s i = Some x → sl_connected x = true → ∀ evs,
  wp (ServerOps.emit evs;;
      awrite sv_clientSequence i (u64 (sl_sequence x + 1));;
      time ← gets sv_time;
      awrite sv_clientLastPacketSendTime i time) (λ _ s', kept s s') s.
Proof.
  intros Hwf Hx Hc evs. pose proof (sw_shape _ Hwf) as Hs. pose proof (slot_at_inv _ _ _ Hx) as Hat.
  pose proof (slot_at_range _ _ _ Hs Hx) as Hi. pose proof (sw_slots _ Hwf _ _ Hx) as Hloc.
  destruct Hs as []. apply wp_bind, wp_modify. sv_write. apply wp_bind, wp_gets. sv_write.
  match goal with |- kept s ?s' => assert (slot_updated s i
    (x <| sl_sequence := u64 (sl_sequence x + 1) |> <| sl_lastSend := sv_time s |>) s') as Hup
    by sv_updated Hat end.
  split; [|done]. eapply (server_wf_write s i x); [done|done|exact Hup|done| |by split|done|done].
  destruct Hloc. split; try done; [apply u64_range|]. intros H. simpl in H. congruence.
Qed.

Lemma server_SendPacket_wp s i d :
  server_wf s →
  (aget (sv_clientLoopback s) i = Some true → sc_sendLoopbackPacketCallback (sv_config s) = true) →
  wp (ServerOps.SendPacket i d) (λ _ s', kept s s') s.
Proof.
  intros Hwf Hcb. unfold ServerOps.SendPacket. destruct (_ || _) eqn:Hlen; [by apply wp_ret|].
  apply payload_valid in Hlen. apply wp_bind, wp_gets.
  destruct (ServerOps.in_slot_range i s) eqn:Hr; cbn [negb]; [|by apply wp_ret].
  destruct (in_slot_range_slot s i Hwf Hr) as [x Hx]. pose proof (slot_at_inv _ _ _ Hx) as Hat.
  sv_read Hat. destruct (sl_connected x) eqn:Hc; cbn [negb]; [|by apply wp_ret].
  sv_read Hat. destruct (sl_loopback x) eqn:Hlo; cbn [negb].
  - apply wp_bind, wp_gets. rewrite Hcb by (by apply Hat). sv_read Hat. by apply loopback_sent_wp.
  - assert (network x) as Hn by done.
    sv_read Hat. apply wp_bind, wp_gets, wp_bind.
    eapply (wp_mono _ (λ _ s', serving s i x true (sl_reason x) s')).
    + assert (serving s i x true (sl_reason x) s) as Hs.
      { split; try done; [|by exists []; rewrite app_nil_r].
        exists x. split; [apply slot_updated_refl; [apply Hwf|done]|done]. }
      destruct (sl_confirmed x); cbn [negb]; [by apply wp_ret|].
      apply serving_send; [done|apply keepAlive_valid|done].
    + intros [] s1 H1. eapply wp_mono; [by apply (serving_send s i x (sl_reason x) s1)|].
      intros [] s2 []. by apply kept_scalars.
Qed.

Lemma server_ReceivePacket_wp s i :
  server_wf s →
  wp (ServerOps.ReceivePacket i)
    (λ r s', kept s s' ∧
       (is_Some r.1 → ∃ x q, slot_at s i = Some x ∧ slot_updated s i (x <| sl_queue := q |>) s' ∧
          numPackets q < numPackets (sl_queue x))) s.
Proof.
  intros Hwf. unfold ServerOps.ReceivePacket. apply wp_bind, wp_gets.
  destruct (ServerOps.in_slot_range i s) eqn:Hr; cbn [negb]; [|apply wp_ret; split; [done|by intros []]].
  destruct (in_slot_range_slot s i Hwf Hr) as [x Hx]. pose proof (slot_at_inv _ _ _ Hx) as Hat.
  pose proof (sw_shape _ Hwf) as Hs. pose proof (slot_at_range _ _ _ Hs Hx) as Hi.
  sv_read Hat. destruct (sl_connected x) eqn:Hc; cbn [negb]; [|apply wp_ret; split; [done|by intros []]].
  clear Hat. pose proof (slot_at_inv _ _ _ Hx) as Hat. pose proof (sw_slots _ Hwf _ _ Hx) as Hloc.
  destruct (pop_total (sl_queue x) (sx_queue _ Hloc)) as ([o n] & q & Hq & Hqwf & Hn).
  sv_read Hat. apply wp_bind. eapply wp_lift; [done|]. cbv beta iota.
  destruct Hs as []. sv_write. match goal with |- wp _ _ ?s' => assert (kept s s' ∧
    slot_updated s i (x <| sl_queue := q |>) s') as [Hk Hup] end.
  2: { destruct o; cbn [fst]; apply wp_ret; (split; [done|]); [|by intros []]. exists x, q. eauto. }
  match goal with |- kept s ?s' ∧ ?P => assert P as Hup by sv_updated Hat end. split; [|exact Hup].
  split; [|done]. eapply (server_wf_write s i x); [done|done|exact Hup|done| |by split|done|done].
  destruct Hloc. split; try done. intros H. simpl in H. congruence.
Qed.

Lemma ProcessLoopbackPacket_wp s i d sequence :
  server_wf s → wp (ServerOps.ProcessLoopbackPacket i d sequence) (λ _ s', kept s s') s.
Proof.
  intros Hwf. unfold ServerOps.ProcessLoopbackPacket. apply wp_bind, wp_gets.
  destruct (ServerOps.in_slot_range i s) eqn:Hr; cbn [negb]; [|by apply wp_ret].
  destruct (in_slot_range_slot s i Hwf Hr) as [x Hx]. pose proof (slot_at_inv _ _ _ Hx) as Hat.
  pose proof (sw_shape _ Hwf) as Hs. pose proof (slot_at_range _ _ _ Hs Hx) as Hi.
  do 2 sv_read Hat. destruct (sl_connected x) eqn:Hc, (sl_loopback x) eqn:Hlo; cbn [negb orb];
    try by apply wp_ret.
  destruct (_ || _); [by apply wp_ret|]. apply wp_bind, wp_gets.
  apply wp_bind. eapply (wp_mono _ (λ _ s1, slot_only s i (x <| sl_lastReceive := sv_time s |>) s1)).
  - clear Hat. pose proof (slot_at_inv _ _ _ Hx) as Hat. pose proof (sw_slots _ Hwf _ _ Hx) as Hloc.
    destruct Hs as []. sv_write.
    eapply (slot_write_only s i x); [done|done|sv_updated Hat|done| |by split|done|done|done].
    destruct Hloc. by split.
  - intros [] s1 H1. eapply wp_mono.
    { eapply (pushPacket_wp s1 i); [apply H1|by eapply slot_updated_at, H1|done]. }
    intros [] s2 (b & q & _ & H2). eapply kept_trans; by eapply slot_only_kept.
Qed.

Lemma length_go_copy {A : Type} (dst src : list A) : length (go_copy dst src) = length dst.
Proof. unfold go_copy. apply length_splice. rewrite length_take. lia. Qed.

Lemma ConnectLoopbackClient_wp s i id userData :
  server_wf s → wp (ServerOps.ConnectLoopbackClient i id userData) (λ _ s', kept s s') s.
Proof.
  intros Hwf. unfold ServerOps.ConnectLoopbackClient. apply wp_bind, wp_gets.
  destruct (ServerOps.in_slot_range i s) eqn:Hr; cbn [negb]; [|by apply wp_ret].
  destruct (in_slot_range_slot s i Hwf Hr) as [x Hx]. pose proof (slot_at_inv _ _ _ Hx) as Hat.
  apply in_slot_range_spec in Hr as [_ Hr]; [|done].
  pose proof (sw_shape _ Hwf) as Hs. pose proof (slot_at_range _ _ _ Hs Hx) as Hi.
  sv_read Hat. destruct (sl_connected x) eqn:Hc; [by apply wp_ret|].
  clear Hat. pose proof (slot_at_inv _ _ _ Hx) as Hat. pose proof (sw_slots _ Hwf _ _ Hx) as Hloc.
  destruct (sx_free _ Hloc Hc) as (_ & _ & _ & _ & Hrp & _).
  set (x' := mkSlot true (sl_timeout x) true true DisconnectReasonNone (-1) id 0 (sv_time s) (sv_time s)
    (go_copy (zeros UserDataBytes) userData) (sl_replay x) (sl_queue x) zeroAddress).
  assert (∀ s', slot_updated s i x' s' → same_scalars s s' →
    sv_numConnectedClients s' = sv_numConnectedClients s + 1 →
    sv_encryptionManager s' = sv_encryptionManager s → kept s s') as Hfin.
  { intros s' Hup Hsc Hnum Hem. split; [|apply Hsc].
    eapply (server_wf_change s i x x'); [done|done|exact Hup| |simpl; lia| | |].
    - destruct Hloc. split; try done. apply length_go_copy.
    - apply same_scalars_ok; [done..|]. rewrite Hem. apply Hwf.
    - rewrite Hnum, Hc. simpl. lia.
    - eapply (linked_local s i x x'); [apply Hwf|done| |exact Hup| |done|done].
      + intros [H _]. congruence.
      + by intros [_ H]. }
  destruct Hs as []. apply wp_bind, wp_gets, wp_bind, wp_modify. do 11 sv_write.
  apply wp_connectDisconnect. intros evs _. apply Hfin; [sv_updated Hat|by split|done|done].
Qed.

Lemma DisconnectLoopback_kept s i :
  server_wf s → wp (ServerOps.DisconnectLoopbackClient i) (λ _ s', kept s s') s.
Proof.
  intros Hwf. destruct (ServerOps.in_slot_range i s) eqn:Hr.
  - destruct (in_slot_range_slot s i Hwf Hr) as [x Hx].
    eapply wp_mono; [by apply (DisconnectLoopbackClient_wp s i x)|]. intros [] s' (?&?&_).
    by apply kept_scalars.
  - unfold ServerOps.DisconnectLoopbackClient. apply wp_bind, wp_gets. rewrite Hr. by apply wp_ret.
Qed.
Lemma Close_kept s : server_wf s → wp ServerOps.Close (λ _ s', kept s s') s.
Proof.
  intros Hwf. unfold ServerOps.Close. apply wp_bind. eapply wp_mono; [by apply Stop_wp|].
  intros [] s1 (Hwf1 & _ & _ & Hc & _). apply wp_modify. split; [|done].
  apply (rq_wf s1 zeroAddress). by apply events_requested.
Qed.
End operations.
