(* ===== verification/Footprint.v ===== *)
(** What the operations of clients and servers leave alone: only Close destroys
    sockets, no operation replaces them, only ConnectLoopback and
    ConnectLoopbackClient make a loopback client, and what waits to be received
    is neither empty nor larger than a payload. *)

From S2P Require Import Prelude Constants Float64 Buffer Replay Queue Address Crypto.
From S2P Require Import Token Packet TokenEntries Encryption Socket Client Server.

(** Events are only added, and none of them destroys the sockets. *)
Definition destroys (ev : event) : Prop := ev = EvDestroySockets.
Definition extends (l l' : list event) : Prop :=
  ∃ evs, l' = l ++ evs ∧ Forall (λ ev, ¬ destroys ev) evs.
#[export] Instance extends_preorder : PreOrder extends.
Proof.
  split; [intros l; exists []; by rewrite app_nil_r|].
  intros l1 l2 l3 (e1 & -> & H1) (e2 & -> & H2). exists (e1 ++ e2).
  split; [by rewrite app_assoc|by apply Forall_app].
Qed.
Lemma extends_app l evs : Forall (λ ev, ¬ destroys ev) evs → extends l (l ++ evs).
Proof. by exists evs. Qed.
Lemma send_quiet sim ovr holder from to d :
  Forall (λ ev, ¬ destroys ev) (sendPacketToAddress sim ovr holder from to d).
Proof. unfold sendPacketToAddress. repeat case_match; by repeat constructor. Qed.

(** ** The sizes of received payloads *)
Definition sized (payloadData : list byte) : Prop := (1 ≤ length payloadData ≤ maxPayloadBytes)%nat.
Definition queue_sized (q : packetQueue (list byte)) : Prop :=
  Forall (λ o, from_option sized True o) (packets q).
Lemma queue_sized_clear : queue_sized Queue.clear.
Proof. by apply Forall_replicate. Qed.
Lemma push_sized d n q b q' :
  sized d → queue_sized q → Queue.push d n q = Some (b, q') → queue_sized q'.
Proof.
  intros Hd Hq. apply (wlp_inv _ (λ _ q', queue_sized q')). unfold Queue.push.
  apply wlp_bind, wlp_gets. case_match; [by apply wlp_ret|].
  apply wlp_bind, wlp_gets, wlp_bind, wlp_awrite. intros _.
  apply wlp_bind, wlp_awrite. intros _. apply wlp_bind, wlp_modify, wlp_ret.
  unfold queue_sized, ainsert. simpl. by apply Forall_insert.
Qed.
Lemma pop_sized q r q' :
  queue_sized q → Queue.pop q = Some (r, q') → queue_sized q' ∧ from_option sized True r.1.
Proof.
  intros Hq. apply (wlp_inv _ (λ r q', queue_sized q' ∧ from_option sized True r.1)). unfold Queue.pop.
  apply wlp_bind, wlp_gets. case_match; [by apply wlp_ret|].
  apply wlp_bind, wlp_gets, wlp_bind, wlp_aread. intros o Ho. apply wlp_bind, wlp_aread. intros n _.
  apply wlp_bind, wlp_awrite. intros _. apply wlp_bind, wlp_modify, wlp_bind, wlp_modify, wlp_ret. split.
  - unfold queue_sized, ainsert. simpl. by apply Forall_insert.
  - by apply (aget_Forall _ _ _ _ Hq) in Ho.
Qed.

(** A payload that readPacket returns has passed the size checks. *)
Lemma wlp_skip {S A B} (m : M S A) (k : A → M S B) Q s :
  (∀ a s', wlp (k a) Q s') → wlp (m ≫= k) Q s.
Proof. intros H. apply wlp_bind. unfold wlp. destruct (m s) as [[a s']|]; [apply H|done]. Qed.
Definition payload_sized (o : option packet) : Prop := ∀ d, o = Some (Payload d) → sized d.
Lemma not_payload_sized o : (∀ d, o ≠ Some (Payload d)) → payload_sized o.
Proof. by intros H d Hd%H. Qed.
Lemma readBody_sized type n r : wlp (readBody type n) (λ o _, payload_sized o) r.
Proof.
  unfold readBody. repeat case_match;
    repeat match goal with
    | |- wlp (mret _) _ _ => apply wlp_ret; by apply not_payload_sized
    | H : bool_decide (_ < 1)%nat = false |- _ => apply bool_decide_eq_false in H
    | H : bool_decide (maxPayloadBytes < _)%nat = false |- _ => apply bool_decide_eq_false in H
    end.
  4: { unfold Reader.bytes, wlp, mbind, M_bind. case_decide; [|done]. simpl.
       intros d [= <-]. unfold sized. rewrite length_slice by done. lia. }
  all: repeat (apply wlp_skip; intros); apply wlp_ret; by apply not_payload_sized.
Qed.
Section read.
Context {C : CryptoLib}.
Lemma readPacket_sized buf key pid now minExpire pk allowed rp res :
  readPacket buf key pid now minExpire pk allowed rp = Some res → payload_sized (rd_packet res).
Proof.
  unfold readPacket. case_bool_decide; [intros [= <-]; by apply not_payload_sized|].
  intros ([res' r] & Hrun & Hres)%fmap_Some. simpl in Hres. subst res'. revert Hrun.
  apply (wlp_inv _ (λ res _, payload_sized (rd_packet res))).
  apply wlp_skip. intros prefix s. case_match.
  - apply wlp_bind, (wlp_mono _ (λ o _, payload_sized o)); [|intros o s' Ho; by apply wlp_ret].
    unfold readRequest. repeat (first [apply wlp_skip; intros|case_match|apply wlp_ret; by apply not_payload_sized]).
  - unfold readEncrypted. cbv zeta.
    repeat (first [apply wlp_ret; by apply not_payload_sized
       | apply wlp_bind; eapply wlp_mono; [apply readBody_sized|]; intros ? ? Hp; apply wlp_ret; exact Hp
       | case_match | apply wlp_skip; intros]).
Qed.
End read.

(** ** The relations *)
Record client_quiet (c c' : Client) : Prop := {
  cq_holder : cl_socketHolder c' = cl_socketHolder c;
  cq_events : extends (cl_events c) (cl_events c');
  cq_loopback : cl_loopback c = false → cl_loopback c' = false;
  cq_queue : queue_sized (cl_packetReceiveQueue c) → queue_sized (cl_packetReceiveQueue c');
}.
#[export] Instance client_quiet_preorder : PreOrder client_quiet.
Proof.
  split; [by split|]. intros c1 c2 c3 [A1 B1 C1 D1] [A2 B2 C2 D2].
  split; [congruence|by etrans|auto|auto].
Qed.
Lemma client_quiet_same c c' :
  cl_socketHolder c' = cl_socketHolder c → cl_events c' = cl_events c →
  (cl_loopback c' = cl_loopback c ∨ cl_loopback c' = false) →
  (cl_packetReceiveQueue c' = cl_packetReceiveQueue c ∨ cl_packetReceiveQueue c' = Queue.clear) →
  client_quiet c c'.
Proof.
  intros H1 H2 H3 H4. split; [done|by rewrite H2|destruct H3; congruence|].
  destruct H4 as [->| ->]; [done|]. intros _. apply queue_sized_clear.
Qed.

Record server_quiet (s s' : Server) : Prop := {
  sq_holder : sv_socketHolder s' = sv_socketHolder s;
  sq_events : extends (sv_events s) (sv_events s');
  sq_loopback : Forall (eq false) (sv_clientLoopback s) → Forall (eq false) (sv_clientLoopback s');
  sq_queue : Forall queue_sized (sv_clientPacketQueue s) → Forall queue_sized (sv_clientPacketQueue s');
}.
#[export] Instance server_quiet_preorder : PreOrder server_quiet.
Proof.
  split; [by split|]. intros s1 s2 s3 [A1 B1 C1 D1] [A2 B2 C2 D2].
  split; [congruence|by etrans|auto|auto].
Qed.
Lemma server_quiet_same s s' :
  sv_socketHolder s' = sv_socketHolder s → sv_events s' = sv_events s →
  sv_clientLoopback s' = sv_clientLoopback s → sv_clientPacketQueue s' = sv_clientPacketQueue s →
  server_quiet s s'.
Proof. intros H1 H2 H3 H4. split; [done|by rewrite H2|by rewrite H3|by rewrite H4]. Qed.

Lemma client_emit_quiet evs : Forall (λ ev, ¬ destroys ev) evs → keeps client_quiet (ClientOps.emit evs).
Proof. intros H c. apply wlp_modify. split; [done|by apply extends_app|done|done]. Qed.
Lemma server_emit_quiet evs : Forall (λ ev, ¬ destroys ev) evs → keeps server_quiet (ServerOps.emit evs).
Proof. intros H c. apply wlp_modify. split; [done|by apply extends_app|done|done]. Qed.

(** Updates of other fields, what is sent, and the operations already seen. *)
Create HintDb quiet discriminated.
#[export] Hint Constants Opaque : quiet.
Ltac quiet_auto :=
  keeps_auto ltac:(first
    [ solve [auto with quiet nocore]
    | lazymatch goal with
      | |- keeps _ (ClientOps.emit _) => apply client_emit_quiet
      | |- keeps _ (ServerOps.emit _) => apply server_emit_quiet
      end; first [apply send_quiet | by repeat constructor]
    | apply client_quiet_same; [reflexivity|reflexivity|(left + right); reflexivity|(left + right); reflexivity]
    | by apply server_quiet_same ]).

(** ** Clients *)
Section client.
Context {C : CryptoLib}.
Lemma setState_quiet st : keeps client_quiet (ClientOps.setState st).
Proof. unfold ClientOps.setState. quiet_auto. Qed.
Lemma resetBeforeNextConnect_quiet : keeps client_quiet ClientOps.resetBeforeNextConnect.
Proof. unfold ClientOps.resetBeforeNextConnect. quiet_auto. Qed.
Hint Resolve setState_quiet resetBeforeNextConnect_quiet : quiet.
Lemma resetConnectionData_quiet st : keeps client_quiet (ClientOps.resetConnectionData st).
Proof. unfold ClientOps.resetConnectionData. quiet_auto. Qed.
Lemma sendPacketToServerInternal_quiet p : keeps client_quiet (ClientOps.sendPacketToServerInternal p).
Proof. unfold ClientOps.sendPacketToServerInternal. quiet_auto. Qed.
Hint Resolve resetConnectionData_quiet sendPacketToServerInternal_quiet : quiet.
Lemma disconnectInternal_quiet dest send : keeps client_quiet (ClientOps.disconnectInternal dest send).
Proof. unfold ClientOps.disconnectInternal. quiet_auto. Qed.
Hint Resolve disconnectInternal_quiet : quiet.
Lemma Disconnect_quiet : keeps client_quiet ClientOps.Disconnect_.
Proof. unfold ClientOps.Disconnect_. quiet_auto. Qed.
Hint Resolve Disconnect_quiet : quiet.
Lemma Connect_quiet data : keeps client_quiet (ClientOps.Connect data).
Proof. unfold ClientOps.Connect. quiet_auto. Qed.
(** A payload of the right size is queued. *)
Lemma client_push_quiet d n :
  sized d → keeps client_quiet (zoom cl_packetReceiveQueue (Queue.push d n)).
Proof.
  intros Hd c. unfold wlp, zoom. destruct (Queue.push d n _) as [[b q]|] eqn:Hp; [|done]. simpl.
  split; [done|done|done|]. simpl. intros Hq. by eapply push_sized.
Qed.
Lemma client_processPacketInternal_quiet from p n :
  payload_sized (Some p) → keeps client_quiet (ClientOps.processPacketInternal from p n).
Proof.
  intros Hp. unfold ClientOps.processPacketInternal.
  keeps_auto ltac:(first [solve [auto with quiet nocore] | apply client_push_quiet; by apply Hp
    | apply client_quiet_same; [reflexivity|reflexivity|(left + right); reflexivity|(left + right); reflexivity]]).
Qed.
Lemma client_ProcessPacket_quiet now from d : keeps client_quiet (ClientOps.ProcessPacket now from d).
Proof.
  intros c. unfold ClientOps.ProcessPacket. apply wlp_bind, wlp_gets. cbv beta delta [id] zeta.
  apply wlp_bind, wlp_lift. intros res Hres%readPacket_sized.
  match goal with |- wlp ?m _ _ => assert (keeps client_quiet m) as Hm end; [|apply Hm].
  destruct (rd_packet res) as [p|]; [pose proof (client_processPacketInternal_quiet from p (rd_sequence res) Hres)|];
    quiet_auto.
Qed.
Hint Resolve client_ProcessPacket_quiet : quiet.
Lemma nextServerOr_quiet st : keeps client_quiet (ClientOps.nextServerOr st).
Proof. unfold ClientOps.nextServerOr, ClientOps.connectToNextServer. quiet_auto. Qed.
Hint Resolve nextServerOr_quiet : quiet.
Lemma client_Update_quiet now arr time : keeps client_quiet (ClientOps.Update now arr time).
Proof.
  unfold ClientOps.Update, ClientOps.receivePackets, ClientOps.processAll, ClientOps.sendPackets,
    ClientOps.checkTimeouts. quiet_auto.
Qed.
Lemma client_SendPacket_quiet d : keeps client_quiet (ClientOps.SendPacket d).
Proof. unfold ClientOps.SendPacket. quiet_auto. Qed.
Lemma client_pop_quiet : keeps client_quiet (zoom cl_packetReceiveQueue Queue.pop).
Proof.
  intros c. unfold wlp, zoom. destruct (Queue.pop _) as [[r q]|] eqn:Hp; [|done]. simpl.
  split; [done|done|done|]. simpl. intros Hq. by eapply pop_sized.
Qed.
Hint Resolve client_pop_quiet : quiet.
Lemma client_ReceivePacket_quiet : keeps client_quiet ClientOps.ReceivePacket.
Proof. unfold ClientOps.ReceivePacket. quiet_auto. Qed.
Lemma client_ReceivePacket_sized c :
  queue_sized (cl_packetReceiveQueue c) →
  wlp ClientOps.ReceivePacket (λ r _, from_option sized True r.1) c.
Proof.
  intros Hq. unfold wlp, ClientOps.ReceivePacket, zoom, mbind, M_bind.
  destruct (Queue.pop _) as [[[o n] q]|] eqn:Hp; [|done]. simpl.
  apply pop_sized in Hp as [_ Ho]; [|done]. by destruct o.
Qed.
End client.

(** ** Servers *)
Section server.
Context {C : CryptoLib}.
Lemma loopback_off_quiet i : keeps server_quiet (awrite sv_clientLoopback i false).
Proof.
  intros s. apply wlp_awrite. intros Hi. split; [done|done| |done]. simpl. intros H.
  unfold ainsert. by apply Forall_insert.
Qed.
Lemma queue_write_quiet i q : queue_sized q → keeps server_quiet (awrite sv_clientPacketQueue i q).
Proof.
  intros Hq s. apply wlp_awrite. intros Hi. split; [done|done|done|]. simpl. intros H.
  unfold ainsert. by apply Forall_insert.
Qed.
Lemma queue_clear_quiet i : keeps server_quiet (awrite sv_clientPacketQueue i Queue.clear).
Proof. apply queue_write_quiet, queue_sized_clear. Qed.
Hint Resolve loopback_off_quiet queue_clear_quiet : quiet.
Lemma dispatch_quiet to d : keeps server_quiet (ServerOps.dispatch to d).
Proof. unfold ServerOps.dispatch. quiet_auto. Qed.
Lemma connectDisconnect_quiet i b : keeps server_quiet (ServerOps.connectDisconnect i b).
Proof. unfold ServerOps.connectDisconnect. quiet_auto. Qed.
Hint Resolve dispatch_quiet connectDisconnect_quiet : quiet.
Lemma sendGlobalPacket_quiet p to key : keeps server_quiet (ServerOps.sendGlobalPacket p to key).
Proof. unfold ServerOps.sendGlobalPacket. quiet_auto. Qed.
Lemma sendClientPacket_quiet p i : keeps server_quiet (ServerOps.sendClientPacket p i).
Proof. unfold ServerOps.sendClientPacket. quiet_auto. Qed.
Lemma resetClientSlot_quiet i : keeps server_quiet (ServerOps.resetClientSlot i).
Proof. unfold ServerOps.resetClientSlot. quiet_auto. Qed.
Hint Resolve sendGlobalPacket_quiet sendClientPacket_quiet resetClientSlot_quiet : quiet.
Lemma disconnectClientInternal_quiet i send reason :
  keeps server_quiet (ServerOps.disconnectClientInternal i send reason).
Proof. unfold ServerOps.disconnectClientInternal. quiet_auto. Qed.
Hint Resolve disconnectClientInternal_quiet : quiet.
Lemma DisconnectClient_quiet i : keeps server_quiet (ServerOps.DisconnectClient i).
Proof. unfold ServerOps.DisconnectClient. quiet_auto. Qed.
Lemma Stop_quiet : keeps server_quiet ServerOps.Stop.
Proof. unfold ServerOps.Stop, ServerOps.DisconnectAllClients, ServerOps.DisconnectLoopbackClient. quiet_auto. Qed.
Hint Resolve Stop_quiet : quiet.
Lemma Start_quiet n now key : keeps server_quiet (ServerOps.Start n now key).
Proof. unfold ServerOps.Start. quiet_auto. Qed.
Lemma sendChallenge_quiet from token : keeps server_quiet (ServerOps.sendChallenge from token).
Proof. unfold ServerOps.sendChallenge. quiet_auto. Qed.
Hint Resolve sendChallenge_quiet : quiet.
Lemma processConnectionRequestPacket_quiet now from r :
  keeps server_quiet (ServerOps.processConnectionRequestPacket now from r).
Proof.
  unfold ServerOps.processConnectionRequestPacket, ServerOps.findClientIndexByAddress,
    ServerOps.findClientIndexByID, ServerOps.findSlot. quiet_auto.
Qed.
Lemma fillClientSlot_quiet i a id e timeout userData :
  keeps server_quiet (ServerOps.fillClientSlot i a id e timeout userData).
Proof. unfold ServerOps.fillClientSlot. quiet_auto. Qed.
Hint Resolve fillClientSlot_quiet : quiet.
Lemma connectClient_quiet i a id e timeout userData :
  keeps server_quiet (ServerOps.connectClient i a id e timeout userData).
Proof. unfold ServerOps.connectClient. quiet_auto. Qed.
Hint Resolve connectClient_quiet : quiet.
Lemma processConnectionResponsePacket_quiet from q data e :
  keeps server_quiet (ServerOps.processConnectionResponsePacket from q data e).
Proof.
  unfold ServerOps.processConnectionResponsePacket, ServerOps.findClientIndexByAddress,
    ServerOps.findClientIndexByID, ServerOps.findFreeClientIndex, ServerOps.findSlot. quiet_auto.
Qed.
Hint Resolve processConnectionRequestPacket_quiet processConnectionResponsePacket_quiet : quiet.
Lemma pushPacket_quiet i d n : sized d → keeps server_quiet (ServerOps.pushPacket i d n).
Proof.
  intros Hd s. unfold ServerOps.pushPacket. apply wlp_bind, wlp_aread. intros q Hat.
  apply wlp_bind, wlp_lift. intros [b q'] Hq. cbv beta iota. apply wlp_awrite. intros _.
  split; [done|done|done|]. simpl. intros H. unfold ainsert. apply Forall_insert; [done|].
  eapply push_sized; [done| |done]. by eapply aget_Forall.
Qed.
Lemma confirmClient_quiet i : keeps server_quiet (ServerOps.confirmClient i).
Proof. unfold ServerOps.confirmClient. quiet_auto. Qed.
Hint Resolve confirmClient_quiet : quiet.
Lemma server_processPacketInternal_quiet now from p n e i :
  payload_sized (Some p) → keeps server_quiet (ServerOps.processPacketInternal now from p n e i).
Proof.
  intros Hp. unfold ServerOps.processPacketInternal.
  keeps_auto ltac:(first [solve [auto with quiet nocore] | apply pushPacket_quiet; by apply Hp]).
Qed.
(** From the decoded packet on. *)
Lemma process_decoded_quiet now from e i buf key pid ts minExpire pk allowed rp :
  keeps server_quiet
    (res ← lift (readPacket buf key pid ts minExpire pk allowed rp);
     (match rd_replay res with
      | Some rp => awrite sv_clientReplayProtection i rp
      | None => mret tt
      end);;
     match rd_packet res with
     | None => mret tt
     | Some p => ServerOps.processPacketInternal now from p (rd_sequence res) e i
     end).
Proof.
  intros s. apply wlp_bind, wlp_lift. intros res Hres%readPacket_sized.
  match goal with |- wlp ?m _ _ => assert (keeps server_quiet m) as Hm end; [|apply Hm].
  destruct (rd_packet res) as [p|];
    [pose proof (server_processPacketInternal_quiet now from p (rd_sequence res) e i Hres)|]; quiet_auto.
Qed.
Hint Resolve process_decoded_quiet : quiet.
Lemma readAndProcessPacket_quiet from d now now' allowed :
  keeps server_quiet (ServerOps.readAndProcessPacket from d now now' allowed).
Proof. unfold ServerOps.readAndProcessPacket, ServerOps.findClientIndexByAddress, ServerOps.findSlot. quiet_auto. Qed.
Hint Resolve readAndProcessPacket_quiet : quiet.
Lemma server_Update_quiet now arr time : keeps server_quiet (ServerOps.Update now arr time).
Proof.
  unfold ServerOps.Update, ServerOps.receivePackets, ServerOps.processAll, ServerOps.sendPackets,
    ServerOps.checkForTimeouts. quiet_auto.
Qed.
Lemma server_SendPacket_quiet i d : keeps server_quiet (ServerOps.SendPacket i d).
Proof. unfold ServerOps.SendPacket. quiet_auto. Qed.
(** A packet leaves the queue of its slot. *)
Lemma server_ReceivePacket_footprint i s :
  wlp (ServerOps.ReceivePacket i)
    (λ r s', server_quiet s s' ∧
       (Forall queue_sized (sv_clientPacketQueue s) → from_option sized True r.1)) s.
Proof.
  unfold ServerOps.ReceivePacket. apply wlp_bind, wlp_gets. case_match; [by apply wlp_ret|].
  apply wlp_bind, wlp_aread. intros b _. case_match; [by apply wlp_ret|].
  apply wlp_bind, wlp_aread. intros q Hat. apply wlp_bind, wlp_lift. intros [[o n] q'] Hq. cbv beta iota.
  apply wlp_bind, wlp_awrite. intros _.
  destruct o; apply wlp_ret; (split; [split; [done|done|done|]|]); simpl; intros Hall;
    (assert (queue_sized q) as Hs by (by eapply aget_Forall)); apply pop_sized in Hq as [? ?]; try done;
    unfold ainsert; by apply Forall_insert.
Qed.
Lemma server_ReceivePacket_quiet i : keeps server_quiet (ServerOps.ReceivePacket i).
Proof. intros s. eapply wlp_mono; [apply server_ReceivePacket_footprint|]. by intros r s' [? _]. Qed.
End server.
#[export] Hint Resolve Connect_quiet Disconnect_quiet client_Update_quiet client_SendPacket_quiet
  client_ReceivePacket_quiet DisconnectClient_quiet Stop_quiet Start_quiet server_Update_quiet
  server_SendPacket_quiet server_ReceivePacket_quiet : quiet.
