(* ===== verification/Startup.v ===== *)
(** Constructing clients and servers: clientCreateSocket, NewClientDual and
    NewClient of client.go, serverCreateSocket, NewServerDual and NewServer of
    server.go. They combine address parsing with socket creation. *)

From S2P Require Import Prelude Constants Float64 Netip Address AddressString Crypto Token Socket SocketIO.
From S2P Require Import Client Server ServerInvariant ServerHandlers.
From Stdlib Require Import(notations) Strings.String.

Inductive clientError :=
| ErrClientParseAddressFailed
| ErrClientParseAddress2Failed
| ErrClientSimulatorRequiresPort
| ErrClientCreateSocketIPv4Failed
| ErrClientCreateSocketIPv6Failed.
Inductive serverError :=
| ErrServerParseAddressFailed
| ErrServerParseAddress2Failed
| ErrServerCreateSocketIPv4Failed
| ErrServerCreateSocketIPv6Failed
| ErrServerBindSocketIPv4Failed
| ErrServerBindSocketIPv6Failed.

(** The zero values that stand in for a nil config. *)
Definition zeroClientConfig : clientConfig := mkClientConfig false false false false false false.
Definition zeroServerConfig : serverConfig :=
  mkServerConfig 0 (zeros KeyBytes) 0 false false false false false false.

Module Startup.
(** The second address: the zero Address when the string is empty. [None] is a
    parse error. *)
Definition parseOptional (s : list byte) : M osState (option Address) :=
  if bool_decide (s = []) then mret (Some zeroAddress)
  else
    r ← lift (ParseAddress s);
    mret match r with inl _ => None | inr a => Some a end.

Section startup.
Context `{OS}.

(** ** Client *)
Definition clientCreateSocket (address : Address) (config : clientConfig)
  : M osState (clientError + option Address) :=
  if negb (cc_networkSimulator config) then
    (if negb (cc_overrideSendAndReceive config) then
       r ← SocketIO.createSocket address clientSocketSndbufSize clientSocketRcvbufSize;
       mret match r with
            | inl _ => if Type_ address =? AddressIPv6 then inl ErrClientCreateSocketIPv6Failed
                       else inl ErrClientCreateSocketIPv4Failed
            | inr s => inr (Some s)
            end
     else mret (inr None))
  else if Port address =? 0 then mret (inl ErrClientSimulatorRequiresPort)
  else mret (inr None).

(** The socket of one family, when one of the two addresses is of it. *)
Definition clientFamilySocket (family : Z) (address1 address2 : Address) (config : clientConfig)
  : M osState (clientError + option Address) :=
  if (Type_ address1 =? family) || (Type_ address2 =? family) then
    let bindAddress := if negb (Type_ address1 =? family) then address2 else address1 in
    clientCreateSocket bindAddress config
  else mret (inr None).

Definition NewClientDual (address1String address2String : list byte) (config : option clientConfig)
  (time : float64) : M osState (clientError + Client) :=
  let config := default zeroClientConfig config in
  r ← lift (ParseAddress address1String);
  match r with
  | inl _ => mret (inl ErrClientParseAddressFailed)
  | inr address1 =>
      r ← parseOptional address2String;
      match r with
      | None => mret (inl ErrClientParseAddress2Failed)
      | Some address2 =>
          r ← clientFamilySocket AddressIPv4 address1 address2 config;
          match r with
          | inl err => mret (inl err)
          | inr socketIPv4 =>
              r ← clientFamilySocket AddressIPv6 address1 address2 config;
              match r with
              | inl err => SocketIO.destroySocket false socketIPv4;; mret (inl err)
              | inr socketIPv6 => mret (inr (ClientOps.new config address1 socketIPv4 socketIPv6 time))
              end
          end
      end
  end.
Definition NewClient (address : list byte) (config : option clientConfig) (time : float64)
  : M osState (clientError + Client) := NewClientDual address [] config time.

(** ** Server *)
Definition serverCreateSocket (address : Address) (config : serverConfig)
  : M osState (serverError + option Address) :=
  if negb (sc_networkSimulator config) && negb (sc_overrideSendAndReceive config) then
    r ← SocketIO.createSocket address serverSocketSndbufSize serverSocketRcvbufSize;
    mret match r with
         | inl sockErr =>
             if Type_ address =? AddressIPv6 then
               (if se_bind sockErr then inl ErrServerBindSocketIPv6Failed
                else inl ErrServerCreateSocketIPv6Failed)
             else if se_bind sockErr then inl ErrServerBindSocketIPv4Failed
             else inl ErrServerCreateSocketIPv4Failed
         | inr s => inr (Some s)
         end
  else mret (inr None).
(** The server binds to the wildcard address with the port of its public
    address. *)
Definition serverFamilySocket (family : Z) (address1 address2 : Address) (config : serverConfig)
  : M osState (serverError + option Address) :=
  if (Type_ address1 =? family) || (Type_ address2 =? family) then
    let bindAddress := zeroAddress <| Type_ := family |>
      <| Port := if Type_ address1 =? family then Port address1 else Port address2 |> in
    serverCreateSocket bindAddress config
  else mret (inr None).

Definition NewServerDual (address1String address2String : list byte) (config : option serverConfig)
  (time : float64) : M osState (serverError + Server) :=
  let config := default zeroServerConfig config in
  r ← lift (ParseAddress address1String);
  match r with
  | inl _ => mret (inl ErrServerParseAddressFailed)
  | inr address1 =>
      r ← parseOptional address2String;
      match r with
      | None => mret (inl ErrServerParseAddress2Failed)
      | Some address2 =>
          r ← serverFamilySocket AddressIPv4 address1 address2 config;
          match r with
          | inl err => mret (inl err)
          | inr socketIPv4 =>
              r ← serverFamilySocket AddressIPv6 address1 address2 config;
              match r with
              | inl err => SocketIO.destroySocket false socketIPv4;; mret (inl err)
              | inr socketIPv6 =>
                  mret (inr (ServerOps.new config address1 address2 socketIPv4 socketIPv6 time))
              end
          end
      end
  end.
Definition NewServer (serverAddress : list byte) (config : option serverConfig) (time : float64)
  : M osState (serverError + Server) := NewServerDual serverAddress [] config time.
End startup.

(** ** Proofs *)
Import SocketIO.

(** The shape of an address or of the zero address. *)
Definition maybe_address (a : Address) : Prop := a = zeroAddress ∨ valid_address a.
Lemma maybe_address_port a : maybe_address a → is_u16 (Port a).
Proof. intros [->|Ha]; [done|by apply va_port]. Qed.
Lemma parse_wp str (s : osState) Q :
  (∀ e, Q (inl e) s) → (∀ a, valid_address a → Q (inr a) s) → wp (lift (ParseAddress str)) Q s.
Proof.
  intros He Ha. pose proof (ParseAddress_safe str) as Ht.
  destruct (ParseAddress str) as [[e|a]|]; [apply He|by apply Ha|done].
Qed.
Lemma parseOptional_wp str s Q :
  Q None s → (∀ a, maybe_address a → Q (Some a) s) → wp (parseOptional str) Q s.
Proof.
  intros He Ha. unfold parseOptional. case_bool_decide.
  - apply wp_ret, Ha. by left.
  - apply wp_bind, parse_wp; intros; apply wp_ret; [done|]. apply Ha. by right.
Qed.

(** What opening the socket of a family does: nothing is left open on an
    error, and otherwise one connection exactly if there is a socket. *)
Definition family_post {E : Type} (family : Z) (s : osState) (r : E + option Address) (s' : osState) : Prop :=
  let ipv6 := family =? AddressIPv6 in
  match r with
  | inl _ => adds s s' 0 0
  | inr so => adds s s' (only ipv6 false (opened so)) (only ipv6 true (opened so)) ∧
              from_option (λ a, Type_ a = family) True so
  end.
Lemma family_post_none {E : Type} family s : family_post (E := E) family s (inr None) s.
Proof. split; [|done]. unfold only. destruct (family =? AddressIPv6); apply adds_refl. Qed.
Lemma size_int : 4 * 1024 * 1024 < 2 ^ 63.
Proof. lia. Qed.

Section startup_wp.
Context `{OS}.
Lemma clientCreateSocket_wp address config family s :
  is_u16 (Port address) → Type_ address = family →
  wp (clientCreateSocket address config) (λ r s', family_post family s r s') s.
Proof.
  intros Hp <-. unfold clientCreateSocket.
  destruct (cc_networkSimulator config); cbn [negb].
  { destruct (Port address =? 0); [apply adds_refl|apply family_post_none]. }
  destruct (cc_overrideSendAndReceive config); cbn [negb]; [apply family_post_none|].
  apply wp_bind. eapply wp_mono; [apply createSocket_wp; [apply size_int|apply size_int|done]|].
  intros [err|a] s' Hr; apply wp_ret; [by destruct (Type_ address =? AddressIPv6)|].
  destruct Hr as [Ha Hb]. split; [done|]. by apply bound_to_type.
Qed.
Lemma serverCreateSocket_wp address config family s :
  is_u16 (Port address) → Type_ address = family →
  wp (serverCreateSocket address config) (λ r s', family_post family s r s') s.
Proof.
  intros Hp <-. unfold serverCreateSocket. destruct (_ && _); [|apply family_post_none].
  apply wp_bind. eapply wp_mono; [apply createSocket_wp; [apply size_int|apply size_int|done]|].
  intros [err|a] s' Hr; apply wp_ret; [by destruct (Type_ address =? AddressIPv6), (se_bind err)|].
  destruct Hr as [Ha Hb]. split; [done|]. by apply bound_to_type.
Qed.
Lemma clientFamilySocket_wp family a1 a2 config s :
  maybe_address a1 → maybe_address a2 →
  wp (clientFamilySocket family a1 a2 config) (λ r s', family_post family s r s') s.
Proof.
  intros H1 H2. unfold clientFamilySocket.
  destruct (Z.eqb_spec (Type_ a1) family), (Z.eqb_spec (Type_ a2) family); cbn [orb negb];
    first [by apply clientCreateSocket_wp; [apply maybe_address_port|] | apply family_post_none].
Qed.
Lemma serverFamilySocket_wp family a1 a2 config s :
  maybe_address a1 → maybe_address a2 →
  wp (serverFamilySocket family a1 a2 config) (λ r s', family_post family s r s') s.
Proof.
  intros H1 H2. unfold serverFamilySocket.
  destruct (Z.eqb_spec (Type_ a1) family), (Z.eqb_spec (Type_ a2) family); cbn [orb];
    first [by apply serverCreateSocket_wp; [first [exact (maybe_address_port a1 H1)|exact (maybe_address_port a2 H2)]|]
          | apply family_post_none].
Qed.

(** A holder that has a socket of a family exactly when a connection of that
    family was opened and not closed. *)
Definition holder_owns (h : socketHolder) (s s' : osState) : Prop :=
  adds s s' (opened (sh_ipv4 h)) (opened (sh_ipv6 h)) ∧
  from_option (λ a, Type_ a = AddressIPv4) True (sh_ipv4 h) ∧
  from_option (λ a, Type_ a = AddressIPv6) True (sh_ipv6 h).

(** Both constructors open the IPv4 socket, then the IPv6 socket, and release
    the first when the second fails. *)
Lemma dual_wp {E A : Type} (open4 open6 : M osState (E + option Address))
  (build : option Address → option Address → A) (Q : A → Prop) s :
  (∀ s, wp open4 (λ r s', family_post AddressIPv4 s r s') s) →
  (∀ s, wp open6 (λ r s', family_post AddressIPv6 s r s') s) →
  (∀ v4 v6, Q (build v4 v6)) →
  wp (r ← open4;
      match r with
      | inl err => mret (inl err)
      | inr v4 =>
          r ← open6;
          match r with
          | inl err => destroySocket false v4;; mret (inl err)
          | inr v6 => mret (inr (build v4 v6))
          end
      end)
    (λ r s', match r with
             | inl _ => adds s s' 0 0
             | inr a => ∃ v4 v6, a = build v4 v6 ∧ Q a ∧ holder_owns (mkSocketHolder v4 v6) s s'
             end) s.
Proof.
  intros H4 H6 HQ. apply wp_bind. eapply wp_mono; [apply H4|].
  intros [err|v4] s1 Hs1; [by apply wp_ret|]. destruct Hs1 as [Hs1 Ht4].
  change (only (AddressIPv4 =? AddressIPv6) false (opened v4)) with (opened v4) in Hs1.
  change (only (AddressIPv4 =? AddressIPv6) true (opened v4)) with 0 in Hs1.
  apply wp_bind. eapply wp_mono; [apply H6|]. intros [err|v6] s2 Hs2.
  - apply wp_bind. eapply wp_mono; [apply destroySocket_wp|]. intros [] s3 Hs3. apply wp_ret.
    pose proof (adds_trans _ _ _ _ _ _ _ (adds_trans _ _ _ _ _ _ _ Hs1 Hs2) Hs3) as Hs.
    by destruct v4.
  - apply wp_ret. destruct Hs2 as [Hs2 Ht6]. exists v4, v6. split_and!; [done|apply HQ|].
    split; [|done]. pose proof (adds_trans _ _ _ _ _ _ _ Hs1 Hs2) as Hs.
    by destruct v4, v6.
Qed.

(** What the constructors leave: nothing open after an error, and otherwise a
    holder that owns what was opened. *)
Lemma NewClientDual_wp address1 address2 config time s :
  wp (NewClientDual address1 address2 config time)
    (λ r s', match r with
             | inl _ => adds s s' 0 0
             | inr c => ∃ a v4 v6, c = ClientOps.new (default zeroClientConfig config) a v4 v6 time ∧
                          holder_owns (mkSocketHolder v4 v6) s s'
             end) s.
Proof.
  unfold NewClientDual. apply wp_bind, parse_wp; [intros; apply adds_refl|intros a1 Ha1].
  apply wp_bind, parseOptional_wp; [apply adds_refl|intros a2 Ha2].
  assert (maybe_address a1) as Hm1 by (by right).
  eapply wp_mono; [apply (dual_wp _ _ (λ v4 v6, ClientOps.new _ a1 v4 v6 time) (λ _, True))|].
  - intros. by apply clientFamilySocket_wp.
  - intros. by apply clientFamilySocket_wp.
  - done.
  - intros [err|c] s'; [done|]. intros (v4 & v6 & -> & _ & Ho). by exists a1, v4, v6.
Qed.
Lemma NewServerDual_wp address1 address2 config time s :
  wp (NewServerDual address1 address2 config time)
    (λ r s', match r with
             | inl _ => adds s s' 0 0
             | inr sv => ∃ a a2 v4 v6, sv = ServerOps.new (default zeroServerConfig config) a a2 v4 v6 time ∧
                          holder_owns (mkSocketHolder v4 v6) s s'
             end) s.
Proof.
  unfold NewServerDual. apply wp_bind, parse_wp; [intros; apply adds_refl|intros a1 Ha1].
  apply wp_bind, parseOptional_wp; [apply adds_refl|intros a2 Ha2].
  assert (maybe_address a1) as Hm1 by (by right).
  eapply wp_mono; [apply (dual_wp _ _ (λ v4 v6, ServerOps.new _ a1 a2 v4 v6 time) (λ _, True))|].
  - intros. by apply serverFamilySocket_wp.
  - intros. by apply serverFamilySocket_wp.
  - done.
  - intros [err|c] s'; [done|]. intros (v4 & v6 & -> & _ & Ho). by exists a1, a2, v4, v6.
Qed.

(** C34. Constructing a client or a server never panics, whatever the address
    strings and whatever the operating system answers, and it never leaks a
    connection: an error leaves every connection it opened closed again, and on
    success the new client or server is well formed, its IPv4 socket is bound to
    an IPv4 address and its IPv6 socket to an IPv6 address, and it holds a socket
    of a family exactly when one connection of that family is open. *)
Theorem constructors_leak_nothing (address1 address2 : list byte) (time : float64) (s : osState) :
  (∀ config : option clientConfig, ∃ r s',
     NewClientDual address1 address2 config time s = Some (r, s') ∧
     match r with
     | inl _ => adds s s' 0 0
     | inr c => client_wf c ∧ holder_owns (cl_socketHolder c) s s'
     end) ∧
  (∀ config : option serverConfig,
     length (sc_privateKey (default zeroServerConfig config)) = KeyBytes → ∃ r s',
     NewServerDual address1 address2 config time s = Some (r, s') ∧
     match r with
     | inl _ => adds s s' 0 0
     | inr sv => server_wf sv ∧ holder_owns (sv_socketHolder sv) s s'
     end).
Proof.
  split; intros config; [|intros Hkey]; apply wp_inv; eapply wp_mono;
    [apply NewClientDual_wp| |apply NewServerDual_wp|].
  - intros [err|c] s'; [done|]. intros (a & v4 & v6 & -> & Ho). split; [apply client_new_wf|exact Ho].
  - intros [err|c] s'; [done|]. intros (a & a2 & v4 & v6 & -> & Ho). split; [by apply new_wf|exact Ho].
Qed.
End startup_wp.

(** An operating system on which the IPv6 port is already in use. *)
#[export] Instance errno_eq_dec : EqDecision errno.
Proof. solve_decision. Defined.
Definition sample_os : OS := {|
  GOOS := TaggingUnix;
  osError := errno;
  errorsIs err target := bool_decide (err = target);
  ListenUDP ipv6 _ := if ipv6 then Some EADDRINUSE else None;
  SetWriteBuffer _ size := if size <=? 1000000 then None else Some EACCES;
  SetReadBuffer _ size := if size <=? 1000000 then None else Some EACCES;
  SyscallConn _ := None;
  RawControl _ := None;
  SetsockoptInt _ _ _ := None;
  LocalPort _ := Some 40000;
|}.
Definition sample_address1 : list byte := String.list_byte_of_string "127.0.0.1:40000"%string.
Definition sample_address2 : list byte := String.list_byte_of_string "[::1]:40000"%string.
Definition sample_start : osState := mkOsState false [].
Lemma constructors_leak_nothing_witness :
  NewServerDual (H := sample_os) sample_address1 sample_address2 None f64_0 sample_start =
    Some (inl ErrServerBindSocketIPv6Failed,
          mkOsState false [OsListen false; OsReader false; OsClose false]) ∧
  ∃ r s', NewServerDual (H := sample_os) sample_address1 sample_address2 None f64_0 sample_start = Some (r, s') ∧
    match r with inl _ => adds sample_start s' 0 0 | inr sv => holder_owns (sv_socketHolder sv) sample_start s' end.
Proof.
  split; [vm_compute; reflexivity|].
  destruct (constructors_leak_nothing (H := sample_os) sample_address1 sample_address2 f64_0 sample_start) as [_ Hs].
  destruct (Hs None eq_refl) as (r & s' & Hrun & Hpost). exists r, s'. split; [exact Hrun|].
  destruct r; [exact Hpost|exact (proj2 Hpost)].
Defined.
End Startup.
