(* ===== verification/Process.v ===== *)
(** A process that uses the library: its sockets, its random numbers, its log
    level, and what the world outside answers. Here the operations of a client or
    a server are run against the operating system: a datagram they send is
    written to a socket, and Close closes the sockets. *)

From S2P Require Import Prelude Constants Float64 Buffer Queue Logging Address Crypto Token.
From S2P Require Import TokenGenerate Packet Socket SocketIO Client Server ServerInvariant.
From S2P Require Import ServerHandlers ServerRun Footprint Startup.

(** ** The world

    The k-th question the process asks is answered by the values at k: whether an
    interrupt is pending, the wall clock, the datagrams that arrive at the client
    or the server being updated (which may depend on what was sent before), the
    operating system, and math/rand. *)
Class World := {
  interrupted : nat → bool;
  unixTime : nat → Z;
  arriving : nat → list osEvent → arrivals;
  arrivingAtServer : nat → list osEvent → serverArrivals;
  system : nat → OS;
  randIntn : nat → Z → Z;
}.
(** The documentation of math/rand: Intn(n) is in [0,n). The clock is past 1970. *)
Class WorldLaws (W : World) : Prop := {
  randIntn_range k n : 0 < n → 0 ≤ randIntn k n < n;
  unixTime_range k : 0 ≤ unixTime k < 2 ^ 63;
}.

Record proc := mkProc {
  pr_os : osState;
  (** Calls of crypto/rand so far. *)
  pr_random : nat;
  (** Questions asked so far. *)
  pr_asked : nat;
  pr_log : logState (list byte);
}.
#[export] Instance eta_proc : Eta proc := λ p, mkProc (pr_os p) (pr_random p) (pr_asked p) (pr_log p).
(** A process at its start. *)
Definition newProc : proc := mkProc (mkOsState false []) 0 0 Logging.initial.

(** ** Computations that may end the process

    os.Exit with a code, or the panic of the commands when a packet has the wrong
    contents. *)
Inductive stop := Exit (code : Z) | Mismatch.
Definition E (S A : Type) : Type := M S (stop + A).
Definition ebind {S A B : Type} (m : E S A) (k : A → E S B) : E S B :=
  r ← m; match r with inl e => mret (inl e) | inr a => k a end.
Definition eret {S A : Type} (a : A) : E S A := mret (inr a).
Definition ethrow {S A : Type} (e : stop) : E S A := mret (inl e).
Definition run {S A : Type} (m : M S A) : E S A := a ← m; mret (inr a).
Notation "x ←? y ; z" := (ebind y (λ x : _, z))
  (at level 20, y at level 100, z at level 200, only parsing).
Notation "' x ←? y ; z" := (ebind y (λ x : _, z))
  (at level 20, x pattern, y at level 100, z at level 200, only parsing).

(** for { if quit { break }; turn; time += dt }: whether the loop was left, within
    as many turns as the fuel says. A turn says whether it breaks out of it. *)
Fixpoint loop {S X : Type} (quit : M S bool) (dt : float64) (turn : float64 → X → E S (bool * X))
  (fuel : nat) (x : X) (time : float64) : E S (bool * X) :=
  match fuel with
  | O => eret (false, x)
  | S fuel =>
      q ←? run quit;
      if (q : bool) then eret (true, x)
      else
        ('(break, x) ←? turn time x;
         if (break : bool) then eret (true, x) else loop quit dt turn fuel x (f64_add time dt))
  end.

(** The ways in which the programs stop. *)
Definition expected (e : stop) : Prop := e = Exit 1 ∨ e = Mismatch.
(** No panic of the library; if the process goes on, [Q] holds. *)
Definition wpe {S A : Type} (m : E S A) (Q : A → S → Prop) (s : S) : Prop :=
  wp m (λ r s', match r with inl e => expected e | inr a => Q a s' end) s.
Section wpe_lemmas.
Context {S : Type}.
Lemma wpe_ret {A} (a : A) Q (s : S) : Q a s → wpe (eret a) Q s.
Proof. done. Qed.
Lemma wpe_throw {A} e (Q : A → S → Prop) s : expected e → wpe (ethrow e) Q s.
Proof. done. Qed.
Lemma wpe_bind {A B} (m : E S A) (k : A → E S B) Q s :
  wpe m (λ a s', wpe (k a) Q s') s → wpe (ebind m k) Q s.
Proof. intros H. apply wp_bind. eapply wp_mono; [exact H|]. intros [e|a] s' Ha; [done|exact Ha]. Qed.
Lemma wpe_run {A} (m : M S A) Q s : wp m Q s → wpe (run m) Q s.
Proof. intros H. apply wp_bind. eapply wp_mono; [exact H|]. intros a s' Ha. by apply wp_ret. Qed.
Lemma wpe_mono {A} (m : E S A) (Q Q' : A → S → Prop) s :
  wpe m Q s → (∀ a s', Q a s' → Q' a s') → wpe m Q' s.
Proof. intros H HQ. eapply wp_mono; [exact H|]. intros [e|a] s'; [done|apply HQ]. Qed.
(** Sequencing with a computation that cannot stop. *)
Lemma wpe_then {A B} (m : M S A) (k : A → E S B) Q s :
  wp m (λ a s', wpe (k a) Q s') s → wpe (ebind (run m) k) Q s.
Proof. intros H. by apply wpe_bind, wpe_run. Qed.
(** An invariant of a loop, and that it is left: [ends k] says that the answer is
    yes from the k-th question on. *)
Lemma loop_wp {X} (quit : M S bool) dt (turn : float64 → X → E S (bool * X))
  (I : X → S → Prop) (asked : S → nat) (ends : nat → Prop) :
  (∀ x s, I x s → wp quit (λ b s', I x s' ∧ (asked s < asked s')%nat ∧
     ∀ k, ends k → (k ≤ asked s)%nat → b = true) s) →
  (∀ time x s, I x s → wpe (turn time x) (λ r s', I r.2 s' ∧ (asked s ≤ asked s')%nat) s) →
  ∀ fuel x time s, I x s →
  wpe (loop quit dt turn fuel x time)
    (λ r s', I r.2 s' ∧ ∀ k, ends k → (k < asked s + fuel)%nat → (0 < fuel)%nat → r.1 = true) s.
Proof.
  intros Hquit Hturn. induction fuel as [|fuel IH]; intros x time s Hx; cbn [loop].
  { apply wpe_ret. split; [done|lia]. }
  apply wpe_then. eapply wp_mono; [by apply Hquit|]. intros q s1 (H1 & Hlt & Hends).
  destruct q; [by apply wpe_ret|]. apply wpe_bind. eapply wpe_mono; [by apply Hturn|].
  intros [break y] s2 [H2 Hle]. cbn [fst snd] in *. destruct break; [by apply wpe_ret|].
  eapply wpe_mono; [by apply IH|]. intros r s3 [H3 Hr]. split; [done|]. intros k Hk Hless _.
  destruct (decide (k ≤ asked s)%nat) as [Hnow|]; [by specialize (Hends k Hk Hnow)|].
  apply (Hr k Hk); lia.
Qed.
(** A loop that counts down is left. *)
Lemma loop_limit_wp {X} (quit : M S bool) dt (turn : float64 → X → E S (bool * X))
  (I : X → S → Prop) (remaining : X → Z) :
  (∀ x s, I x s → wp quit (λ _ s', I x s') s) →
  (∀ time x s, I x s → 0 < remaining x →
     wpe (turn time x) (λ r s', I r.2 s' ∧ (r.1 = false → 0 < remaining r.2 < remaining x)) s) →
  ∀ fuel x time s, I x s → 0 < remaining x ≤ Z.of_nat fuel →
  wpe (loop quit dt turn fuel x time) (λ r _, r.1 = true) s.
Proof.
  intros Hquit Hturn. induction fuel as [|fuel IH]; intros x time s Hx Hn; [lia|]. cbn [loop].
  apply wpe_then. eapply wp_mono; [by apply Hquit|]. intros q s1 H1.
  destruct q; [by apply wpe_ret|]. apply wpe_bind. eapply wpe_mono; [apply Hturn; [done|lia]|].
  intros [break y] s2 [H2 Hless]. cbn [fst snd] in *. destruct break; [by apply wpe_ret|].
  specialize (Hless eq_refl). apply IH; [done|lia].
Qed.
Lemma wpe_and {A} (m : E S A) (Q Q' : A → S → Prop) s :
  wpe m Q s → wpe m Q' s → wpe m (λ a s', Q a s' ∧ Q' a s') s.
Proof. unfold wpe, wp. by destruct (m s) as [[[e|a] s']|]. Qed.
Lemma wpe_zoom {T A} (fld : S → T) `{!Setter fld} (m : E T A) Q s :
  wpe m (λ a t, Q a (s <| fld := t |>)) (fld s) → wpe (zoom fld m) Q s.
Proof. intros H. apply wp_zoom. eapply wp_mono; [exact H|]. by intros [e|a] t. Qed.
End wpe_lemmas.

(** ** Endpoints: what clients and servers have in common *)
Class Endpoint (T : Type) := {
  holder_of : T → socketHolder;
  events_of : T → list event;
}.
#[export] Instance client_endpoint : Endpoint Client := {| holder_of := cl_socketHolder; events_of := cl_events |}.
#[export] Instance server_endpoint : Endpoint Server := {| holder_of := sv_socketHolder; events_of := sv_events |}.

Module Process.
Section process.
Context {W : World} {R : Rand} {C : CryptoLib}.

Definition ask {A : Type} (answer : nat → A) : M proc A :=
  k ← gets pr_asked; modify (set pr_asked S);; mret (answer k).
Definition receiving {A : Type} (answer : nat → list osEvent → A) : M proc A :=
  trace ← gets (λ p, os_trace (pr_os p)); ask (λ k, answer k trace).
Definition RandomBytes (n : nat) : M proc (list byte) := zoom pr_random (TokenGenerate.RandomBytes n).
Definition SetLogLevel (level : Z) : M proc unit := zoom pr_log (Logging.SetLogLevel level).

(** An operation of a client or server, and what it does to the sockets. *)
Definition perform (holder : socketHolder) (evs : list event) : M proc unit :=
  for_ evs (λ ev, zoom pr_os (SocketIO.perform holder ev)).
Definition on {T A : Type} `{Endpoint T} (m : M T A) (x : T) : M proc (A * T) :=
  '(a, x') ← lift (m x);
  perform (holder_of x) (drop (length (events_of x)) (events_of x'));;
  mret (a, x').
(** For operations without a result. *)
Definition does {T : Type} `{Endpoint T} (m : M T unit) (x : T) : M proc T :=
  '(_, x) ← on m x; mret x.

Definition clientUpdate (client : Client) (time : float64) : M proc Client :=
  now ← ask unixTime;
  arr ← receiving arriving;
  does (ClientOps.Update now arr time) client.
Definition serverUpdate (server : Server) (time : float64) : M proc Server :=
  now ← ask unixTime;
  arr ← receiving arrivingAtServer;
  does (ServerOps.Update now arr time) server.
(** Start with a valid number of clients draws the challenge key. *)
Definition serverStart (server : Server) (maxClients : Z) : M proc Server :=
  challengeKey ← RandomBytes KeyBytes;
  now ← ask unixTime;
  does (ServerOps.Start maxClients now challengeKey) server.
Definition NewClientDual (address1 address2 : list byte) (config : option clientConfig) (time : float64)
  : M proc (clientError + Client) :=
  sys ← ask system; zoom pr_os (Startup.NewClientDual (H := sys) address1 address2 config time).
Definition NewServerDual (address1 address2 : list byte) (config : option serverConfig) (time : float64)
  : M proc (serverError + Server) :=
  sys ← ask system; zoom pr_os (Startup.NewServerDual (H := sys) address1 address2 config time).
Definition NewClient (address : list byte) := NewClientDual address [].
Definition NewServer (address : list byte) := NewServerDual address [].
Definition GenerateConnectToken (publicServerAddresses internalServerAddresses : list (list byte))
  (expireSeconds timeoutSeconds clientID protocolID : Z) (privateKey userData : list byte)
  : M proc (generateError + list byte) :=
  now ← ask unixTime;
  zoom pr_random (TokenGenerate.GenerateConnectToken now publicServerAddresses internalServerAddresses
    expireSeconds timeoutSeconds clientID protocolID privateKey userData).

(** for { packet, _ := receive(); if packet == nil { break }; check; count++ },
    with a bound on the number of turns that is never reached. *)
Definition drainFuel : nat := S (Z.to_nat packetQueueSize).
Fixpoint drain {T : Type} `{Endpoint T} (receive : M T (option (list byte) * Z))
  (check : list byte → option bool) (fuel : nat) (x : T) (count : Z) : E proc (Z * T) :=
  match fuel with
  | O => panic
  | S fuel =>
      '((packet, _), x) ←? run (on receive x);
      match packet with
      | None => eret (count, x)
      | Some packet =>
          matches ←? run (lift (check packet));
          if negb matches then ethrow Mismatch else drain receive check fuel x (count + 1)
      end
  end.
End process.

(** ** What every operation keeps *)
Class EndpointSpec (T : Type) `{Endpoint T} := {
  good : T → Prop;
  quiet : T → T → Prop;
  quiet_preorder :: PreOrder quiet;
  quiet_holder x y : quiet x y → holder_of y = holder_of x;
  quiet_events x y : quiet x y → extends (events_of x) (events_of y);
}.

(** The connections opened less those closed, of each network; time goes on. *)
Definition moved (p p' : proc) (d4 d6 : Z) : Prop :=
  SocketIO.adds (pr_os p) (pr_os p') d4 d6 ∧ (pr_asked p ≤ pr_asked p')%nat.
Lemma moved_os p p' d4 d6 :
  SocketIO.adds (pr_os p) (pr_os p') d4 d6 → pr_asked p' = pr_asked p → moved p p' d4 d6.
Proof. intros Ha Hk. split; [done|lia]. Qed.
Lemma moved_trans p1 p2 p3 a b c d : moved p1 p2 a b → moved p2 p3 c d → moved p1 p3 (a + c) (b + d).
Proof. intros [H1 K1] [H2 K2]. split; [by eapply SocketIO.adds_trans|lia]. Qed.
(** No connection is opened or closed. *)
Definition steady (p p' : proc) : Prop := moved p p' 0 0.
#[export] Instance steady_preorder : PreOrder steady.
Proof.
  split; [intros p; by apply moved_os; [apply SocketIO.adds_refl|]|].
  intros p1 p2 p3 H1 H2. exact (moved_trans _ _ _ _ _ _ _ H1 H2).
Qed.
(** The connections of a holder are opened, or closed. *)
Definition opened (h : socketHolder) (p p' : proc) : Prop :=
  moved p p' (SocketIO.opened (sh_ipv4 h)) (SocketIO.opened (sh_ipv6 h)).
Definition closed (h : socketHolder) (p p' : proc) : Prop :=
  moved p p' (- SocketIO.opened (sh_ipv4 h)) (- SocketIO.opened (sh_ipv6 h)).
Lemma steady_opened h p1 p2 p3 : steady p1 p2 → opened h p2 p3 → opened h p1 p3.
Proof. intros H1 H2. exact (moved_trans _ _ _ _ _ _ _ H1 H2). Qed.
Lemma steady_closed h p1 p2 p3 : steady p1 p2 → closed h p2 p3 → closed h p1 p3.
Proof. intros H1 H2. exact (moved_trans _ _ _ _ _ _ _ H1 H2). Qed.

Section endpoint.
Context {W : World} {WL : WorldLaws W} {R : Rand} {RL : RandLaws R} {C : CryptoLib} {L : CryptoLaws C}.
Lemma ask_wp {A : Type} (answer : nat → A) Q p :
  (∀ p', steady p p' → (pr_asked p < pr_asked p')%nat → Q (answer (pr_asked p)) p') → wp (ask answer) Q p.
Proof.
  intros HQ. apply wp_bind, wp_gets, wp_bind, wp_modify, wp_ret. apply HQ; [|simpl; lia].
  split; [apply SocketIO.adds_refl|simpl; lia].
Qed.

Lemma perform_event_wp h ev s :
  ¬ destroys ev → wp (SocketIO.perform h ev) (λ _ s', SocketIO.adds s s' 0 0) s.
Proof.
  intros Hev. destruct ev as [[] from to d| | | |]; cbn [SocketIO.perform]; try (apply SocketIO.adds_refl);
    [eapply wp_mono; [apply SocketIO.emit_wp|]; done..|]. by destruct Hev.
Qed.
Lemma perform_wp h evs p :
  Forall (λ ev, ¬ destroys ev) evs → wp (perform h evs) (λ _ p', steady p p') p.
Proof.
  intros Hevs. unfold perform. revert p. induction Hevs as [|ev evs Hev _ IH]; intros p; cbn [for_];
    [apply wp_ret; reflexivity|].
  apply wp_bind, wp_zoom. eapply wp_mono; [by apply perform_event_wp|]. intros [] s1 H1.
  eapply wp_mono; [apply IH|]. intros [] p2 H2. etrans; [|exact H2].
  by apply moved_os.
Qed.
Lemma perform_app_wp h evs evs' p Q :
  wp (perform h evs) (λ _ p', wp (perform h evs') Q p') p → wp (perform h (evs ++ evs')) Q p.
Proof. apply wp_for_app. Qed.

Context {T : Type} `{ES : EndpointSpec T}.
Lemma on_wp {A : Type} (m : M T A) Q x p :
  keeps quiet m → wp m Q x →
  wp (on m x) (λ r p', Q r.1 r.2 ∧ quiet x r.2 ∧ steady p p') p.
Proof.
  intros Hm HQ. apply wp_inv in HQ as (a & x' & Hrun & HQ). pose proof (wlp_inv _ _ _ _ _ (Hm x) Hrun) as Hq.
  unfold on. apply wp_bind. eapply wp_lift; [done|]. destruct (quiet_events _ _ Hq) as (evs & -> & Hevs).
  rewrite drop_app_length. apply wp_bind. eapply wp_mono; [by apply perform_wp|]. intros [] p' Hp.
  by apply wp_ret.
Qed.
Lemma does_wp (m : M T unit) (Q : T → Prop) x p :
  keeps quiet m → wp m (λ _ x', Q x') x →
  wp (does m x) (λ x' p', Q x' ∧ quiet x x' ∧ steady p p') p.
Proof.
  intros Hm HQ. apply wp_bind. eapply wp_mono; [by apply on_wp|]. intros [[] x'] p' Hr. by apply wp_ret.
Qed.
(** Closing: anything quiet, and then the sockets are destroyed. *)
Definition closes (m : M T unit) : Prop := ∀ x,
  wlp m (λ _ x', ∃ evs, events_of x' = events_of x ++ evs ++ [EvDestroySockets] ∧
    Forall (λ ev, ¬ destroys ev) evs) x.
Lemma close_wp (m : M T unit) (Q : T → Prop) x p :
  closes m → wp m (λ _ x', Q x') x → wp (does m x) (λ _ p', closed (holder_of x) p p') p.
Proof.
  intros Hm HQ. apply wp_inv in HQ as (a & x' & Hrun & HQ).
  destruct (wlp_inv _ _ _ _ _ (Hm x) Hrun) as (evs & He & Hevs).
  unfold does, on. apply wp_bind, wp_bind. eapply wp_lift; [done|]. cbv beta iota. rewrite He, drop_app_length.
  apply wp_bind, perform_app_wp. eapply wp_mono; [by apply perform_wp|]. intros [] p1 H1.
  apply wp_bind, wp_zoom. eapply wp_mono; [apply (SocketIO.destroyHolder_wp (holder_of x))|].
  intros [] s2 H2. apply wp_ret, wp_ret, wp_ret. eapply steady_closed; [exact H1|]. by apply moved_os.
Qed.
(** The bound on the turns is enough when each packet received leaves fewer. *)
Lemma drain_wp receive check (left_over : T → Z) :
  keeps quiet receive →
  (∀ x, good x → wp receive (λ r x', good x' ∧
     (is_Some r.1 → 0 ≤ left_over x' < left_over x) ∧ ∀ d, r.1 = Some d → is_Some (check d)) x) →
  ∀ fuel x count p, good x → left_over x < Z.of_nat fuel → (0 < fuel)%nat →
  wpe (drain receive check fuel x count) (λ r p', good r.2 ∧ quiet x r.2 ∧ steady p p') p.
Proof.
  intros Hq Hr. induction fuel as [|fuel IH]; intros x count p Hx Hn Hf; [lia|]. cbn [drain].
  apply wpe_then. eapply wp_mono; [apply on_wp; [done|by apply Hr]|].
  intros [[o n] x1] p1 ((Hx1 & Hless & Hcheck) & Hq1 & Hs1). cbn [fst snd] in *.
  destruct o as [d|]; [|by apply wpe_ret].
  destruct (Hcheck d eq_refl) as [b Hb]. apply wpe_then. eapply wp_lift; [done|].
  destruct b; cbn [negb]; [|apply wpe_throw; by right]. specialize (Hless ltac:(by eexists)).
  eapply wpe_mono; [apply IH; [done|lia|lia]|]. intros r p2 (H1 & H2 & H3).
  split_and!; [done|by etrans|by etrans].
Qed.
End endpoint.

(** ** Clients *)
Record good_client (c : Client) : Prop := {
  gc_wf : client_wf c;
  gc_receive : receive_ok (cl_config c);
  gc_loopback : cl_loopback c = false;
  gc_sized : queue_sized (cl_packetReceiveQueue c);
}.
#[export] Instance client_spec : EndpointSpec Client := {|
  good := good_client; quiet := client_quiet;
  quiet_holder := cq_holder; quiet_events := cq_events;
|}.
Record good_server (s : Server) : Prop := {
  gs_wf : server_wf s;
  gs_receive : server_receive_ok (sv_config s);
  gs_loopback : Forall (eq false) (sv_clientLoopback s);
  gs_sized : Forall queue_sized (sv_clientPacketQueue s);
}.
#[export] Instance server_spec : EndpointSpec Server := {|
  good := good_server; quiet := server_quiet;
  quiet_holder := sq_holder; quiet_events := sq_events;
|}.
(** It is still good, holds the same sockets, and the process has the same
    connections. *)
Definition after {T : Type} `{EndpointSpec T} (x : T) (p : proc) (x' : T) (p' : proc) : Prop :=
  good x' ∧ holder_of x' = holder_of x ∧ steady p p'.

Lemma after_steady {T : Type} `{EndpointSpec T} (x x' : T) p1 p2 p3 :
  steady p1 p2 → after x p2 x' p3 → after x p1 x' p3.
Proof. intros Hs (Hg & Hh & H3). split_and!; [done|done|by etrans]. Qed.

(** Of the connections that the process has opened since [p0], exactly those of
    [x] are still open. *)
Definition held {T : Type} `{EndpointSpec T} (p0 : proc) (x : T) (p : proc) : Prop :=
  good x ∧ opened (holder_of x) p0 p.
Lemma held_after {T : Type} `{EndpointSpec T} p0 (x x' : T) p p' :
  held p0 x p → after x p x' p' → held p0 x' p'.
Proof.
  intros [Hg Ho] (Hg' & Hh & Hs). split; [done|]. rewrite Hh. unfold opened in *.
  pose proof (moved_trans _ _ _ _ _ _ _ Ho Hs) as Hm. by rewrite !Z.add_0_r in Hm.
Qed.
Lemma opened_closed h p1 p2 p3 : opened h p1 p2 → closed h p2 p3 → steady p1 p3.
Proof.
  intros Ho Hc. pose proof (moved_trans _ _ _ _ _ _ _ Ho Hc) as Hm. by rewrite !Z.add_opp_diag_r in Hm.
Qed.

Section operations.
Context {W : World} {WL : WorldLaws W} {R : Rand} {RL : RandLaws R} {C : CryptoLib} {L : CryptoLaws C}.
Lemma good_client_quiet c c' :
  good_client c → client_wf c' → cl_config c' = cl_config c → client_quiet c c' → good_client c'.
Proof.
  intros [H1 H2 H3 H4] Hwf Hcfg [Q1 Q2 Q3 Q4]. split; [done|by rewrite Hcfg|auto|auto].
Qed.
Lemma good_server_quiet s s' :
  good_server s → kept s s' → server_quiet s s' → good_server s'.
Proof.
  intros [H1 H2 H3 H4] [Hwf Hcfg] [Q1 Q2 Q3 Q4]. split; [done|by rewrite Hcfg|auto|auto].
Qed.
Lemma client_does_wp m c p :
  good_client c → keeps client_quiet m → wp m (λ _ c', client_wf c' ∧ cl_config c' = cl_config c) c →
  wp (does m c) (λ c' p', after c p c' p') p.
Proof.
  intros Hc Hm Hwp. eapply wp_mono; [apply (does_wp (ES := client_spec) m _ c p Hm Hwp)|]. intros c' p' ([? ?] & Hq & Hs).
  split; [by eapply good_client_quiet|]. split; [|done]. by apply cq_holder.
Qed.
Lemma server_does_wp m s p :
  good_server s → keeps server_quiet m → wp m (λ _ s', kept s s') s →
  wp (does m s) (λ s' p', after s p s' p') p.
Proof.
  intros Hs Hm Hwp. eapply wp_mono; [apply (does_wp (ES := server_spec) m _ s p Hm Hwp)|]. intros s' p' (? & Hq & Hp).
  split; [by eapply good_server_quiet|]. split; [|done]. by apply sq_holder.
Qed.

Lemma clientUpdate_wp c time p :
  good_client c → wp (clientUpdate c time) (λ c' p', after c p c' p') p.
Proof.
  intros Hc. apply wp_bind, ask_wp. intros p1 H1 _. apply wp_bind, wp_bind, wp_gets, ask_wp. intros p2 H2 _.
  eapply wp_mono; [apply client_does_wp; [done|auto with quiet|]|intros; by eapply after_steady; [etrans|]].
  eapply wp_mono; [apply Update_wp; apply Hc|]. by intros [] c' [? ? _].
Qed.
Lemma client_send_wp c d p :
  good_client c → wp (does (ClientOps.SendPacket d) c) (λ c' p', after c p c' p') p.
Proof.
  intros Hc. apply client_does_wp; [done|auto with quiet|].
  eapply wp_mono; [apply SendPacket_wp; [apply Hc|by apply gc_loopback]|]. by intros [] c' [? ? _].
Qed.
Lemma client_connect_wp c token p :
  good_client c → wp (does (ClientOps.Connect token) c) (λ c' p', after c p c' p') p.
Proof.
  intros Hc. apply client_does_wp; [done|auto with quiet|].
  eapply wp_mono; [apply Connect_wp, Hc|]. by intros [] c' (? & ? & _).
Qed.
Lemma client_disconnect_wp c p :
  good_client c → wp (does ClientOps.Disconnect_ c) (λ c' p', after c p c' p') p.
Proof.
  intros Hc. apply client_does_wp; [done|auto with quiet|].
  eapply wp_mono; [by apply Disconnect_wp, gc_wf|].
  by intros [] c' ([? ? _] & _).
Qed.
Lemma serverUpdate_wp s time p :
  good_server s → wp (serverUpdate s time) (λ s' p', after s p s' p') p.
Proof.
  intros Hs. apply wp_bind, ask_wp. intros p1 H1 _. apply wp_bind, wp_bind, wp_gets, ask_wp. intros p2 H2 _.
  eapply wp_mono; [apply server_does_wp; [done|auto with quiet|]|intros; by eapply after_steady; [etrans|]].
  apply server_Update_wp; apply Hs.
Qed.
Lemma server_send_wp s i d p :
  good_server s → wp (does (ServerOps.SendPacket i d) s) (λ s' p', after s p s' p') p.
Proof.
  intros Hs. apply server_does_wp; [done|auto with quiet|]. apply server_SendPacket_wp; [apply Hs|].
  intros Hl. by apply (aget_Forall _ _ _ _ (gs_loopback _ Hs)) in Hl.
Qed.
Lemma server_disconnect_wp s i p :
  good_server s → wp (does (ServerOps.DisconnectClient i) s) (λ s' p', after s p s' p') p.
Proof.
  intros Hs. apply server_does_wp; [done|auto with quiet|].
  eapply wp_mono; [apply DisconnectClient_wp, Hs|]. intros [] s' (?&?&_). by apply kept_scalars.
Qed.
Lemma server_stop_wp s p :
  good_server s → wp (does ServerOps.Stop s) (λ s' p', after s p s' p') p.
Proof.
  intros Hs. apply server_does_wp; [done|auto with quiet|].
  eapply wp_mono; [apply Stop_wp, Hs|]. intros [] s' (?&_&_&?&_). by split.
Qed.
Lemma draw_wp n p Q :
  (∀ bs p', length bs = n → steady p p' → Q bs p') → wp (RandomBytes n) Q p.
Proof.
  intros HQ. apply wp_zoom, TokenGenerate.RandomBytes_wp. intros bs Hbs. apply HQ; [done|].
  by apply moved_os; [apply SocketIO.adds_refl|].
Qed.
Lemma serverStart_wp s n p :
  good_server s → wp (serverStart s n) (λ s' p', after s p s' p') p.
Proof.
  intros Hs. apply wp_bind, draw_wp. intros key p1 Hkey H1. apply wp_bind, ask_wp. intros p2 H2 _.
  eapply wp_mono; [apply server_does_wp; [done|auto with quiet|]|intros; by eapply after_steady; [etrans|]].
  eapply wp_mono; [apply Start_wp; [apply Hs|done]|]. intros [] s' (?&?&_). by split.
Qed.

(** ** Receiving *)
Lemma drain_client_wp check c p :
  (∀ d, sized d → is_Some (check d)) → good_client c → ∀ count,
  wpe (drain ClientOps.ReceivePacket check drainFuel c count) (λ r p', after c p r.2 p') p.
Proof.
  intros Hcheck Hc count. eapply wpe_mono.
  - apply (drain_wp (ES := client_spec) _ _ (λ c, numPackets (cl_packetReceiveQueue c)));
      [apply client_ReceivePacket_quiet| |done| |unfold drainFuel; lia].
    + intros x Hx. eapply wp_mono; [apply wp_and_wlp; [apply ReceivePacket_wp, Hx|apply wlp_and;
        [apply client_ReceivePacket_quiet|apply client_ReceivePacket_sized, Hx]]|].
      intros r x' ((Hwf & q & -> & Hn) & Hq & Hs). split_and!.
      * by eapply good_client_quiet.
      * intros H. split; [|by apply Hn]. by apply queue_count, Hwf.
      * intros d Hd. apply Hcheck. by rewrite Hd in Hs.
    + pose proof (queue_count _ (cw_queue _ (gc_wf _ Hc))). unfold drainFuel. lia.
  - intros [n c'] p' (Hg & Hq & Hs). split; [done|]. split; [by apply cq_holder|done].
Qed.
Definition queued (i : Z) (s : Server) : Z :=
  match slot_at s i with Some x => numPackets (sl_queue x) | None => 0 end.
Lemma queued_range i s : server_wf s → 0 ≤ queued i s ≤ packetQueueSize.
Proof.
  intros Hwf. unfold queued. destruct (slot_at s i) as [x|] eqn:Hx; [|clia].
  apply queue_count. by apply (sw_slots _ Hwf _ _ Hx).
Qed.
Lemma drain_server_wp check i s p :
  (∀ d, sized d → is_Some (check d)) → good_server s → ∀ count,
  wpe (drain (ServerOps.ReceivePacket i) check drainFuel s count) (λ r p', after s p r.2 p') p.
Proof.
  intros Hcheck Hs count. eapply wpe_mono.
  - apply (drain_wp (ES := server_spec) _ _ (queued i));
      [apply server_ReceivePacket_quiet| |done| |unfold drainFuel; lia].
    + intros x Hx. eapply wp_mono; [apply wp_and_wlp;
        [apply server_ReceivePacket_wp, Hx|apply server_ReceivePacket_footprint]|].
      intros r x' ((Hk & Hn) & Hq & Hz). split_and!.
      * by eapply good_server_quiet.
      * intros (y & q & Hy & Hup & Hlt)%Hn. split; [by apply queued_range; apply Hk|].
        unfold queued. rewrite Hy, (su_at _ _ _ _ Hup), decide_True by done. exact Hlt.
      * intros d Hd. apply Hcheck. specialize (Hz (gs_sized _ Hx)). by rewrite Hd in Hz.
    + pose proof (queued_range i s (gs_wf _ Hs)). unfold drainFuel. lia.
  - intros [n s'] p' (Hg & Hq & Hp). split; [done|]. split; [by apply sq_holder|done].
Qed.

(** ** Closing and opening *)
Lemma client_closes : closes ClientOps.Close.
Proof.
  intros c. unfold ClientOps.Close. apply wlp_bind, wlp_gets, wlp_bind.
  apply (wlp_mono _ (λ _ c', client_quiet c c')).
  - destruct (cl_loopback c); cbn [negb]; [apply resetConnectionData_quiet|apply Disconnect_quiet].
  - intros [] c1 [_ (evs & He & Hevs) _ _]. apply wlp_bind, wlp_modify, wlp_modify. exists evs.
    simpl. by rewrite He, app_assoc.
Qed.
Lemma server_closes : closes ServerOps.Close.
Proof.
  intros s. unfold ServerOps.Close. apply wlp_bind. eapply wlp_mono; [apply Stop_quiet|].
  intros [] s1 [_ (evs & He & Hevs) _ _]. apply wlp_modify. exists evs. simpl. by rewrite He, app_assoc.
Qed.
Lemma client_close_wp c p :
  good_client c → wp (does ClientOps.Close c) (λ _ p', closed (holder_of c) p p') p.
Proof.
  intros Hc. eapply (close_wp (T := Client) _ (λ _, True)); [apply client_closes|]. unfold ClientOps.Close.
  apply wp_bind, wp_gets. rewrite (gc_loopback _ Hc). cbn [negb]. apply wp_bind.
  eapply wp_mono; [by apply Disconnect_wp, gc_wf|].
  intros [] c' _. by apply wp_bind, wp_modify, wp_modify.
Qed.
Lemma server_close_wp s p :
  good_server s → wp (does ServerOps.Close s) (λ _ p', closed (holder_of s) p p') p.
Proof.
  intros Hs. eapply (close_wp (T := Server) _ (λ _, True)); [apply server_closes|].
  eapply wp_mono; [apply Close_kept, Hs|done].
Qed.
Lemma NewClient_wp address1 address2 config time p :
  receive_ok (default zeroClientConfig config) →
  wp (NewClientDual address1 address2 config time)
    (λ r p', match r with
             | inl _ => steady p p'
             | inr c => good_client c ∧ opened (holder_of c) p p'
             end) p.
Proof.
  intros Hcfg. apply wp_bind, ask_wp. intros p1 H1 _. apply wp_zoom.
  eapply wp_mono; [apply Startup.NewClientDual_wp|].
  intros [e|c] s'; [intros Ho; etrans; [exact H1|by apply moved_os]|].
  intros (a & v4 & v6 & -> & Ho & _ & _). split; [|eapply steady_opened; [exact H1|by apply moved_os]].
  split; [apply client_new_wf|done|done|apply queue_sized_clear].
Qed.
Lemma NewServer_wp address1 address2 config time p :
  length (sc_privateKey config) = KeyBytes → server_receive_ok config →
  wp (NewServerDual address1 address2 (Some config) time)
    (λ r p', match r with
             | inl _ => steady p p'
             | inr s => good_server s ∧ opened (holder_of s) p p'
             end) p.
Proof.
  intros Hkey Hcfg. apply wp_bind, ask_wp. intros p1 H1 _. apply wp_zoom.
  eapply wp_mono; [apply Startup.NewServerDual_wp|].
  intros [e|s] s'; [intros Ho; etrans; [exact H1|by apply moved_os]|].
  intros (a & a2 & v4 & v6 & -> & Ho & _ & _). split; [|eapply steady_opened; [exact H1|by apply moved_os]].
  split; [by apply new_wf| |by apply Forall_replicate|].
  - simpl. by destruct (sc_maxConnectTokenLifetime config <=? 0).
  - apply Forall_replicate, queue_sized_clear.
Qed.
Lemma Generate_wp public internal expireSeconds timeoutSeconds clientID protocolID privateKey userData p :
  expireSeconds < 2 ^ 63 → is_u64 clientID → is_u64 protocolID →
  wp (GenerateConnectToken public internal expireSeconds timeoutSeconds clientID protocolID privateKey userData)
    (λ _ p', steady p p') p.
Proof.
  intros He Hid Hpid. apply wp_bind, ask_wp. intros p1 H1 _. apply wp_zoom.
  eapply wp_mono; [apply GenerateConnectToken_wp; [apply unixTime_range|done..]|]. intros r k _.
  etrans; [exact H1|]. by apply moved_os; [apply SocketIO.adds_refl|].
Qed.
End operations.
End Process.
