(* ===== verification/Commands.v ===== *)
(** The example programs cmd/client, cmd/server and cmd/client_server: whole
    processes on top of the library. A main function returns whether it has
    returned; it is false while the program is still in its loop, after as many
    turns as the fuel says. Text on standard output and time.Sleep are left out. *)

From S2P Require Import Prelude Constants Float64 Buffer Queue Netip Logging Address AddressString Crypto.
From S2P Require Import SampleCrypto Token.
From S2P Require Import TokenGenerate Packet Socket SocketIO Client Server ServerInvariant.
From S2P Require Import ServerHandlers ServerRun Footprint Startup Process.
From Stdlib Require Import(notations) Strings.String.
Import Process.

Definition ascii (s : String.string) : list byte := String.list_byte_of_string s.
Arguments ascii s%_string.

(** ** What the programs share *)
Definition protocolID : Z := 0x1122334455667788.
Definition privateKey : list byte := byte.of_Z <$>
  [0x60; 0x6a; 0xbe; 0x6e; 0xc9; 0x19; 0x10; 0xea; 0x9a; 0x65; 0x62; 0xf6; 0x6f; 0x2b; 0x30; 0xe4;
   0x43; 0x71; 0xd6; 0x2c; 0xd1; 0x99; 0x27; 0x26; 0x6b; 0x3c; 0x60; 0xf4; 0xb7; 0x15; 0xab; 0xa1].
Definition connectTokenExpiry : Z := 30.
Definition connectTokenTimeout : Z := 5.
(** 1.0 / 60.0 *)
Definition deltaTime : float64 := SFdiv 53 1024 f64_1 (f64_of_Z 60).
(** packetData[i] = byte(i) *)
Definition packetData : list byte := (λ i, byte.of_Z (u8 (Z.of_nat i))) <$> seq 0 MaxPacketSize.
Definition exampleConfig : serverConfig :=
  zeroServerConfig <| sc_protocolID := protocolID |> <| sc_privateKey := privateKey |>.
(** len(packet) != MaxPacketSize || !bytes.Equal(packet, packetData), negated. *)
Definition packetMatches (packet : list byte) : option bool :=
  Some (bool_decide (length packet = MaxPacketSize) && bool_decide (packet = packetData)).

Section programs.
Context {W : World} {R : Rand} {C : CryptoLib}.

(** A random client id and user data, and a token for one server address. *)
Definition exampleToken (serverAddress : list byte) : M proc (generateError + list byte) :=
  clientIDBytes ← RandomBytes 8;
  userData ← RandomBytes UserDataBytes;
  GenerateConnectToken [serverAddress] [serverAddress] connectTokenExpiry connectTokenTimeout
    (le_combine clientIDBytes) protocolID privateKey userData.
(** if client.State() == ClientStateConnected { client.SendPacket(packetData) } *)
Definition clientSend (client : Client) : M proc Client :=
  if ClientOps.State client =? ClientStateConnected
  then does (ClientOps.SendPacket packetData) client else mret client.
(** if server.ClientConnected(0) { server.SendPacket(0, packetData) } *)
Definition serverSend (server : Server) : M proc Server :=
  '(connected, server) ← on (ServerOps.ClientConnected 0) server;
  if (connected : bool) then does (ServerOps.SendPacket 0 packetData) server else mret server.

(** if server.ClientConnected(0) { server.DisconnectClient(0) } *)
Definition serverDisconnect (server : Server) : M proc Server :=
  '(connected, server) ← on (ServerOps.ClientConnected 0) server;
  if (connected : bool) then does (ServerOps.DisconnectClient 0) server else mret server.

(** ** cmd/client *)
Definition clientTurn (currentTime : float64) (client : Client) : E proc (bool * Client) :=
  client ←? run (clientUpdate client currentTime);
  client ←? run (clientSend client);
  '(_, client) ←? drain ClientOps.ReceivePacket packetMatches drainFuel client 0;
  eret (ClientOps.State client <=? ClientStateDisconnected, client).
Definition clientLoop := loop (ask interrupted) deltaTime clientTurn.
Definition clientMain (args : list (list byte)) (fuel : nat) : E proc bool :=
  _ ←? run (SetLogLevel LogLevelInfo);
  client ←? run (NewClientDual (ascii "0.0.0.0") (ascii "::") None f64_0);
  match client with
  | inl _ => ethrow (Exit 1)
  | inr client =>
      let serverAddress := match args with [_; address] => address | _ => ascii "127.0.0.1:40000" end in
      connectToken ←? run (exampleToken serverAddress);
      match connectToken with
      | inl _ => ethrow (Exit 1)
      | inr connectToken =>
          client ←? run (does (ClientOps.Connect connectToken) client);
          '(done, client) ←? clientLoop fuel client f64_0;
          if negb done then eret false
          else (_ ←? run (does ClientOps.Close client); eret true)
      end
  end.

(** ** cmd/server *)
Fixpoint serverDrain (ixs : list Z) (server : Server) : E proc Server :=
  match ixs with
  | [] => eret server
  | clientIndex :: ixs =>
      '(_, server) ←? drain (ServerOps.ReceivePacket clientIndex) packetMatches drainFuel server 0;
      serverDrain ixs server
  end.
Definition serverTurn (currentTime : float64) (server : Server) : E proc (bool * Server) :=
  server ←? run (serverUpdate server currentTime);
  server ←? run (serverSend server);
  server ←? serverDrain (seqZ 0 MaxClients) server;
  eret (false, server).
Definition serverLoop := loop (ask interrupted) deltaTime serverTurn.
Definition serverMain (args : list (list byte)) (fuel : nat) : E proc bool :=
  _ ←? run (SetLogLevel LogLevelInfo);
  let '(serverAddressIPv4, serverAddressIPv6) :=
    match args with
    | [_; a] => (a, [])
    | [_; a; a6] => (a, a6)
    | _ => (ascii "127.0.0.1:40000", ascii "[::1]:40000")
    end in
  server ←? run (NewServerDual serverAddressIPv4 serverAddressIPv6 (Some exampleConfig) f64_0);
  match server with
  | inl _ => ethrow (Exit 1)
  | inr server =>
      server ←? run (serverStart server MaxClients);
      '(done, server) ←? serverLoop fuel server f64_0;
      if negb done then eret false
      else (_ ←? run (does ServerOps.Close server); eret true)
  end.

(** ** cmd/client_server *)
Record exchange := mkExchange {
  ex_client : Client;
  ex_server : Server;
  ex_clientNumPacketsReceived : Z;
  ex_serverNumPacketsReceived : Z;
}.
Definition exchangeTurn (currentTime : float64) (x : exchange) : E proc (bool * exchange) :=
  client ←? run (clientUpdate (ex_client x) currentTime);
  server ←? run (serverUpdate (ex_server x) currentTime);
  client ←? run (clientSend client);
  server ←? run (serverSend server);
  '(clientNum, client) ←? drain ClientOps.ReceivePacket packetMatches drainFuel client
                            (ex_clientNumPacketsReceived x);
  '(serverNum, server) ←? drain (ServerOps.ReceivePacket 0) packetMatches drainFuel server
                            (ex_serverNumPacketsReceived x);
  server ←? run (if (clientNum >=? 10) && (serverNum >=? 10) then serverDisconnect server else mret server);
  eret (ClientOps.State client <=? ClientStateDisconnected, mkExchange client server clientNum serverNum).
Definition exchangeLoop := loop (ask interrupted) deltaTime exchangeTurn.
Definition clientServerMain (fuel : nat) : E proc bool :=
  _ ←? run (SetLogLevel LogLevelInfo);
  client ←? run (NewClient (ascii "::") None f64_0);
  match client with
  | inl _ => ethrow (Exit 1)
  | inr client =>
      let serverAddress := ascii "[::1]:40000" in
      server ←? run (NewServer serverAddress (Some exampleConfig) f64_0);
      match server with
      | inl _ => ethrow (Exit 1)
      | inr server =>
          server ←? run (serverStart server 1);
          connectToken ←? run (exampleToken serverAddress);
          match connectToken with
          | inl _ => ethrow (Exit 1)
          | inr connectToken =>
              client ←? run (does (ClientOps.Connect connectToken) client);
              '(done, x) ←? exchangeLoop fuel (mkExchange client server 0 0) f64_0;
              if negb done then eret false
              else
                (_ ←? run (does ServerOps.Close (ex_server x));
                 _ ←? run (does ClientOps.Close (ex_client x));
                 eret true)
          end
      end
  end.
End programs.

(** ** Proofs *)
Lemma packetMatches_total d : is_Some (packetMatches d).
Proof. by eexists. Qed.
Lemma length_privateKey : length privateKey = KeyBytes.
Proof. done. Qed.
Lemma after_refl {T : Type} `{EndpointSpec T} (x : T) p : good x → after x p x p.
Proof. intros Hg. split_and!; [done|done|reflexivity]. Qed.
Lemma after_trans {T : Type} `{EndpointSpec T} (x y z : T) p1 p2 p3 :
  after x p1 y p2 → after y p2 z p3 → after x p1 z p3.
Proof. intros (_ & Hh & Hs) (Hg & Hh' & Hs'). split_and!; [done|congruence|by etrans]. Qed.

(** From the k-th question on, an interrupt is pending. *)
Definition pending {W : World} (k : nat) : Prop := ∀ j, (k ≤ j)%nat → interrupted j = true.

Section proofs.
Context {W : World} {WL : WorldLaws W} {R : Rand} {RL : RandLaws R} {C : CryptoLib} {L : CryptoLaws C}.

Lemma SetLogLevel_wp level p : wp (SetLogLevel level) (λ _ p', steady p p') p.
Proof. apply wp_zoom, wp_modify. by apply moved_os; [apply SocketIO.adds_refl|]. Qed.
Lemma exampleToken_wp a p : wp (exampleToken a) (λ _ p', steady p p') p.
Proof.
  apply wp_bind, draw_wp. intros id p1 Hid H1. apply wp_bind, draw_wp. intros ud p2 _ H2.
  eapply wp_mono; [apply Generate_wp; [done|by apply le_combine_u64|done]|].
  intros r p3 H3. by do 2 (etrans; [done|]).
Qed.
Lemma clientSend_wp c p : good_client c → wp (clientSend c) (λ c' p', after c p c' p') p.
Proof.
  intros Hc. unfold clientSend. case_match; [by apply client_send_wp|]. apply wp_ret. by apply after_refl.
Qed.
Lemma ClientConnected_wp i s p :
  good_server s → wp (on (ServerOps.ClientConnected i) s) (λ r p', r.2 = s ∧ steady p p') p.
Proof.
  intros Hs. eapply wp_mono; [apply (on_wp (ES := server_spec) _ (λ _ s', s' = s))|].
  - unfold ServerOps.ClientConnected, ServerOps.query. quiet_auto.
  - unfold ServerOps.ClientConnected, ServerOps.query. apply wp_bind, wp_gets.
    destruct (ServerOps.in_slot_range i s) eqn:Hr; cbn [negb]; [|done].
    destruct (in_slot_range_slot s i (gs_wf _ Hs) Hr) as [x Hx]. pose proof (slot_at_inv _ _ _ Hx) as Hat.
    by eapply wp_aread; [apply Hat|].
  - intros r p' (? & _ & ?). done.
Qed.
Lemma serverSend_wp s p : good_server s → wp (serverSend s) (λ s' p', after s p s' p') p.
Proof.
  intros Hs. apply wp_bind. eapply wp_mono; [by apply ClientConnected_wp|]. intros [b s1] p1 [Heq H1].
  cbn [snd] in Heq. subst s1. destruct b.
  - eapply wp_mono; [by apply server_send_wp|]. intros s2 p2 H2. by eapply after_steady.
  - apply wp_ret. eapply after_steady; [done|]. by apply after_refl.
Qed.
Lemma serverDisconnect_wp s p : good_server s → wp (serverDisconnect s) (λ s' p', after s p s' p') p.
Proof.
  intros Hs. apply wp_bind. eapply wp_mono; [by apply ClientConnected_wp|]. intros [b s1] p1 [Heq H1].
  cbn [snd] in Heq. subst s1. destruct b.
  - eapply wp_mono; [by apply server_disconnect_wp|]. intros s2 p2 H2. by eapply after_steady.
  - apply wp_ret. eapply after_steady; [done|]. by apply after_refl.
Qed.
Lemma serverDrain_wp ixs s p : good_server s → wpe (serverDrain ixs s) (λ s' p', after s p s' p') p.
Proof.
  revert s p. induction ixs as [|i ixs IH]; intros s p Hs; cbn [serverDrain].
  { apply wpe_ret. by apply after_refl. }
  apply wpe_bind. eapply wpe_mono; [apply drain_server_wp; [|done]; intros; apply packetMatches_total|].
  intros [n s1] p1 H1. eapply wpe_mono; [apply IH, H1|]. intros s2 p2 H2. by eapply after_trans.
Qed.

(** ** Turns *)
Lemma clientTurn_wp time c p :
  good_client c → wpe (clientTurn time c) (λ r p', after c p r.2 p') p.
Proof.
  intros Hc. apply wpe_then. eapply wp_mono; [by apply clientUpdate_wp|]. intros c1 p1 H1.
  apply wpe_then. eapply wp_mono; [apply clientSend_wp, H1|]. intros c2 p2 H2.
  apply wpe_bind. eapply wpe_mono; [apply drain_client_wp; [intros; apply packetMatches_total|apply H2]|].
  intros [n c3] p3 H3. apply wpe_ret. eapply after_trans; [done|]. by eapply after_trans.
Qed.
Lemma serverTurn_wp time s p :
  good_server s → wpe (serverTurn time s) (λ r p', after s p r.2 p') p.
Proof.
  intros Hs. apply wpe_then. eapply wp_mono; [by apply serverUpdate_wp|]. intros s1 p1 H1.
  apply wpe_then. eapply wp_mono; [apply serverSend_wp, H1|]. intros s2 p2 H2.
  apply wpe_bind. eapply wpe_mono; [apply serverDrain_wp, H2|].
  intros s3 p3 H3. apply wpe_ret. eapply after_trans; [done|]. by eapply after_trans.
Qed.
Lemma quit_wp I p :
  (∀ p', steady p p' → I p') →
  wp (ask interrupted) (λ b p', I p' ∧ (pr_asked p < pr_asked p')%nat ∧
    ∀ k, pending k → (k ≤ pr_asked p)%nat → b = true) p.
Proof. intros HI. apply ask_wp. intros p' Hs Hlt. split_and!; [by apply HI|done|]. intros k Hk ?. by apply Hk. Qed.
(** The turn of the client/server program: each operation leaves the other side
    alone. *)
Definition after_both (x : exchange) (p : proc) (x' : exchange) (p' : proc) : Prop :=
  after (ex_client x) p (ex_client x') p' ∧ after (ex_server x) p (ex_server x') p'.
Lemma exchangeTurn_wp time x p :
  good_client (ex_client x) → good_server (ex_server x) →
  wpe (exchangeTurn time x) (λ r p', after_both x p r.2 p') p.
Proof.
  intros Hc Hs. apply wpe_then. eapply wp_mono; [by apply clientUpdate_wp|]. intros c1 p1 H1.
  apply wpe_then. eapply wp_mono; [by apply serverUpdate_wp|]. intros s2 p2 H2.
  apply wpe_then. eapply wp_mono; [apply clientSend_wp, H1|]. intros c3 p3 H3.
  apply wpe_then. eapply wp_mono; [apply serverSend_wp, H2|]. intros s4 p4 H4.
  apply wpe_bind. eapply wpe_mono; [apply drain_client_wp; [intros; apply packetMatches_total|apply H3]|].
  intros [n c5] p5 H5. apply wpe_bind.
  eapply wpe_mono; [apply drain_server_wp; [intros; apply packetMatches_total|apply H4]|].
  intros [m s6] p6 H6. cbn [snd] in *. apply wpe_then.
  eapply (wp_mono _ (λ s7 p7, after s6 p6 s7 p7)).
  { case_match; [apply serverDisconnect_wp, H6|apply wp_ret, after_refl, H6]. }
  intros s7 p7 H7. apply wpe_ret.
  assert (steady p p7) as Hp by (etrans; [apply H1|]; etrans; [apply H2|]; etrans; [apply H3|];
    etrans; [apply H4|]; etrans; [apply H5|]; etrans; [apply H6|apply H7]).
  destruct H1 as (_ & h1 & _), H2 as (_ & h2 & _), H3 as (_ & h3 & _), H4 as (_ & h4 & _),
    H5 as (g5 & h5 & _), H6 as (_ & h6 & _), H7 as (g7 & h7 & _).
  split; (split_and!; [done| |done]); cbn [snd ex_client ex_server]; congruence.
Qed.

(** ** Loops *)
Lemma clientLoop_wp p0 fuel c time p :
  held p0 c p → wpe (clientLoop fuel c time)
    (λ r p', held p0 r.2 p' ∧
       ∀ k, pending k → (k < pr_asked p + fuel)%nat → (0 < fuel)%nat → r.1 = true) p.
Proof.
  apply (loop_wp _ _ _ (λ c p, held p0 c p) pr_asked pending).
  - intros x s Hx. apply quit_wp. intros p' Hs. eapply held_after; [exact Hx|].
    eapply after_steady; [done|]. apply after_refl, Hx.
  - intros t x s Hx. eapply wpe_mono; [apply clientTurn_wp, Hx|]. intros r s' Ha.
    split; [by eapply held_after|apply Ha].
Qed.
Lemma serverLoop_wp p0 fuel s time p :
  held p0 s p → wpe (serverLoop fuel s time)
    (λ r p', held p0 r.2 p' ∧
       ∀ k, pending k → (k < pr_asked p + fuel)%nat → (0 < fuel)%nat → r.1 = true) p.
Proof.
  apply (loop_wp _ _ _ (λ s p, held p0 s p) pr_asked pending).
  - intros x q Hx. apply quit_wp. intros p' Hs. eapply held_after; [exact Hx|].
    eapply after_steady; [done|]. apply after_refl, Hx.
  - intros t x q Hx. eapply wpe_mono; [apply serverTurn_wp, Hx|]. intros r s' Ha.
    split; [by eapply held_after|apply Ha].
Qed.
(** Since [p0] the connections of the client were opened first, then those of the
    server. *)
Definition held_both (p0 : proc) (x : exchange) (p : proc) : Prop :=
  good_client (ex_client x) ∧ good_server (ex_server x) ∧
  ∃ p1, opened (holder_of (ex_client x)) p0 p1 ∧ opened (holder_of (ex_server x)) p1 p.
Lemma held_both_after p0 x x' p p' : held_both p0 x p → after_both x p x' p' → held_both p0 x' p'.
Proof.
  intros (Hc & Hs & p1 & Ho & Ho') [(Gc & Ec & Sc) (Gs & Es & Ss)]. split_and!; [done|done|].
  exists p1. rewrite Ec, Es. split; [done|].
  pose proof (moved_trans _ _ _ _ _ _ _ Ho' Ss) as Hm. by rewrite !Z.add_0_r in Hm.
Qed.
Lemma exchangeLoop_wp p0 fuel x time p :
  held_both p0 x p → wpe (exchangeLoop fuel x time)
    (λ r p', held_both p0 r.2 p' ∧
       ∀ k, pending k → (k < pr_asked p + fuel)%nat → (0 < fuel)%nat → r.1 = true) p.
Proof.
  apply (loop_wp _ _ _ (held_both p0) pr_asked pending).
  - intros x' s Hx. apply quit_wp. intros p' Hs. eapply held_both_after; [exact Hx|].
    destruct Hx as (Hc & Hsv & _). split; (eapply after_steady; [done|]; by apply after_refl).
  - intros t x' s Hx. eapply wpe_mono; [apply exchangeTurn_wp; apply Hx|]. intros r s' Ha.
    split; [by eapply held_both_after|apply Ha].
Qed.

(** ** Whole programs *)

(** Once a program has returned, every connection it opened is closed; and it does
    return when an interrupt arrives in time. *)
Definition returns_clean (fuel : nat) (p : proc) (done : bool) (p' : proc) : Prop :=
  (done = true → ∀ ipv6, SocketIO.openConns ipv6 (os_trace (pr_os p')) =
                         SocketIO.openConns ipv6 (os_trace (pr_os p))) ∧
  (∀ k, pending k → (k < fuel)%nat → done = true).
Lemma steady_clean p p' : steady p p' → ∀ ipv6,
  SocketIO.openConns ipv6 (os_trace (pr_os p')) = SocketIO.openConns ipv6 (os_trace (pr_os p)).
Proof. intros [(_ & H4 & H6) _] []; lia. Qed.
(** The end of a program: it has left its loop or not, and closes if so. *)
Lemma finish_wp fuel p0 p done (close : E proc bool) :
  (∀ k, pending k → (k < fuel)%nat → done = true) →
  wpe close (λ b p', b = true ∧ steady p0 p') p →
  wpe (if negb done then eret false else close) (returns_clean fuel p0) p.
Proof.
  intros Hk Hc. destruct done; cbn [negb].
  - eapply wpe_mono; [exact Hc|]. intros b p' [-> Hs]. split; [|done]. intros _. by apply steady_clean.
  - apply wpe_ret. split; [done|]. intros k Hp Hlt. by rewrite <-(Hk k Hp Hlt).
Qed.
Lemma clientMain_wp args fuel p : wpe (clientMain args fuel) (returns_clean fuel p) p.
Proof.
  apply wpe_then. eapply wp_mono; [apply SetLogLevel_wp|]. intros [] p1 H1.
  apply wpe_then. eapply wp_mono; [by apply NewClient_wp|].
  intros [err|c] p2 H2; [apply wpe_throw; by left|]. destruct H2 as [Hc Ho]. cbv zeta.
  apply wpe_then. eapply wp_mono; [apply exampleToken_wp|].
  intros [err|token] p3 H3; [apply wpe_throw; by left|].
  apply wpe_then. eapply wp_mono; [by apply client_connect_wp|]. intros c4 p4 H4.
  apply wpe_bind. eapply wpe_mono; [apply (clientLoop_wp p)|].
  { eapply held_after; [split; [exact Hc|by eapply steady_opened]|]. by eapply after_steady. }
  intros [done c5] p5 [[Hc5 Ho5] Hk]. apply finish_wp; [intros k Hp Hlt; apply (Hk k Hp); lia|].
  apply wpe_then. eapply wp_mono; [by apply client_close_wp|]. intros c6 p6 H6. apply wpe_ret.
  split; [done|]. by eapply opened_closed.
Qed.
Lemma serverMain_wp args fuel p : wpe (serverMain args fuel) (returns_clean fuel p) p.
Proof.
  apply wpe_then. eapply wp_mono; [apply SetLogLevel_wp|]. intros [] p1 H1.
  destruct (match args with [_; a] => _ | _ => _ end) as [a4 a6].
  apply wpe_then. eapply wp_mono; [by apply NewServer_wp|].
  intros [err|s] p2 H2; [apply wpe_throw; by left|]. destruct H2 as [Hs Ho].
  apply wpe_then. eapply wp_mono; [by apply serverStart_wp|]. intros s3 p3 H3.
  apply wpe_bind. eapply wpe_mono; [apply (serverLoop_wp p)|].
  { eapply held_after; [split; [exact Hs|by eapply steady_opened]|done]. }
  intros [done s5] p5 [[Hs5 Ho5] Hk]. apply finish_wp; [intros k Hp Hlt; apply (Hk k Hp); lia|].
  apply wpe_then. eapply wp_mono; [by apply server_close_wp|]. intros s6 p6 H6. apply wpe_ret.
  split; [done|]. by eapply opened_closed.
Qed.
Lemma clientServerMain_wp fuel p : wpe (clientServerMain fuel) (returns_clean fuel p) p.
Proof.
  apply wpe_then. eapply wp_mono; [apply SetLogLevel_wp|]. intros [] p1 H1.
  apply wpe_then. eapply wp_mono; [by apply NewClient_wp|].
  intros [err|c] p2 H2; [apply wpe_throw; by left|]. destruct H2 as [Hc Hoc]. cbv zeta.
  apply wpe_then. eapply wp_mono; [by apply NewServer_wp|].
  intros [err|s] p3 H3; [apply wpe_throw; by left|]. destruct H3 as [Hs Hos].
  apply wpe_then. eapply wp_mono; [by apply serverStart_wp|]. intros s4 p4 H4.
  apply wpe_then. eapply wp_mono; [apply exampleToken_wp|].
  intros [err|token] p5 H5; [apply wpe_throw; by left|].
  apply wpe_then. eapply wp_mono; [by apply client_connect_wp|]. intros c6 p6 H6.
  apply wpe_bind. eapply wpe_mono; [apply (exchangeLoop_wp p)|].
  { eapply (held_both_after p (mkExchange c s 0 0) _ p3).
    - split_and!; [done|done|]. exists p2. split; [by eapply steady_opened|done].
    - assert (steady p3 p6) by (etrans; [apply H4|]; etrans; [exact H5|apply H6]).
      split; (split_and!; [apply H4 || apply H6|apply H4 || apply H6|done]). }
  intros [done x] p7 [(Hc7 & Hs7 & q & Ho & Ho') Hk].
  apply finish_wp; [intros k Hp Hlt; apply (Hk k Hp); lia|].
  apply wpe_then. eapply wp_mono; [by apply server_close_wp|]. intros s8 p8 H8.
  apply wpe_then. eapply wp_mono; [by apply client_close_wp|]. intros c9 p9 H9.
  apply wpe_ret. split; [done|]. eapply opened_closed; [exact Ho|]. eapply steady_closed; [|exact H9].
  by eapply opened_closed.
Qed.

(** C32. The example programs are safe: whatever the command line, the operating
    system, the clock, the random bytes, the datagrams that arrive and the moment
    of the interrupt, the client, the server and the client/server program never
    run into a panic of the library; they end with exit code 1 or in their own
    check of a packet's contents, or run on; when one of them has returned, it has
    closed every connection it opened; and once an interrupt is pending it does
    return. *)
Theorem programs_run_clean (args : list (list byte)) (fuel : nat) (p : proc) :
  ∀ main, main ∈ [clientMain args fuel; serverMain args fuel; clientServerMain fuel] →
  ∃ r p', main p = Some (r, p') ∧
    match r with
    | inl e => e = Exit 1 ∨ e = Mismatch
    | inr done => returns_clean fuel p done p'
    end.
Proof.
  intros main Hin. apply wp_inv. rewrite !elem_of_cons in Hin.
  destruct Hin as [->|[->|[->|Hin]]]; [apply clientMain_wp|apply serverMain_wp|apply clientServerMain_wp|].
  by apply elem_of_nil in Hin.
Qed.
End proofs.

(** ** Runs *)

(** Everything succeeds. *)
Definition idle_os : OS := {|
  GOOS := TaggingUnix;
  osError := unit;
  errorsIs _ _ := false;
  ListenUDP _ _ := None;
  SetWriteBuffer _ _ := None;
  SetReadBuffer _ _ := None;
  SyscallConn _ := None;
  RawControl _ := None;
  SetsockoptInt _ _ _ := None;
  LocalPort _ := Some 50000;
|}.
(** Nothing arrives, and the interrupt comes late. *)
Definition sample_world : World := {|
  interrupted k := bool_decide (12 ≤ k)%nat;
  unixTime _ := 1000;
  arriving _ _ := mkArrivals [] [] [] [];
  arrivingAtServer _ _ := mkServerArrivals [] [] [];
  system _ := idle_os;
  randIntn _ _ := 0;
|}.
#[export] Instance sample_world_laws : WorldLaws sample_world.
Proof. split; simpl; lia. Qed.

(** A network on one host: what was written to an address among the last few
    things done arrives there, some of it more than once. *)
#[export] Instance netipAddr_eq_dec : EqDecision netipAddr.
Proof. solve_decision. Defined.
Definition delivered (from to : Address) (trace : list osEvent) : list receivedDatagram :=
  omap (λ ev, match ev with
              | OsWrite _ d dest => if bool_decide (dest = toNetip to) then Some (mkReceived from d) else None
              | _ => None
              end) (drop (length trace - 3) trace).
Definition localhost6 (port : Z) : Address :=
  zeroAddress <| Type_ := AddressIPv6 |> <| IPv6 := [0; 0; 0; 0; 0; 0; 0; 1] |> <| Port := port |>.
Definition host_network : World := {|
  interrupted _ := false;
  unixTime _ := 1000;
  arriving _ trace := mkArrivals [] [] [] (delivered (localhost6 40000) (localhost6 50000) trace);
  arrivingAtServer _ trace := mkServerArrivals [] []
    ((λ d, mkServerArrival d 1000) <$> delivered (localhost6 50000) (localhost6 40000) trace);
  system _ := idle_os;
  randIntn _ _ := 0;
|}.
#[export] Instance host_network_laws : WorldLaws host_network.
Proof. split; simpl; lia. Qed.
(** On it the client/server program connects, exchanges its packets and returns by
    itself within 30 turns. *)
Lemma exchange_run :
  fst <$> clientServerMain (W := host_network) (R := sample_rand) (C := sample_crypto) 30 newProc =
  Some (inr true).
Proof. vm_compute. reflexivity. Qed.

Lemma programs_run_clean_witness :
  pending (W := sample_world) 12 ∧
  (∃ r p', clientMain (W := sample_world) (R := sample_rand) (C := sample_crypto) [] 20 newProc = Some (r, p') ∧
     match r with inl e => e = Exit 1 ∨ e = Mismatch | inr done => done = true end) ∧
  ∃ p', clientServerMain (W := host_network) (R := sample_rand) (C := sample_crypto) 30 newProc =
          Some (inr true, p') ∧
        ∀ ipv6, SocketIO.openConns ipv6 (os_trace (pr_os p')) = 0.
Proof.
  assert (pending (W := sample_world) 12) as Hp by (intros j Hj; by apply bool_decide_eq_true_2).
  split; [exact Hp|]. split.
  - destruct (programs_run_clean (W := sample_world) (R := sample_rand) (C := sample_crypto) [] 20 newProc
      (clientMain (W := sample_world) (R := sample_rand) (C := sample_crypto) [] 20) ltac:(by left)) as (r & p' & Hrun & Hr).
    exists r, p'. split; [exact Hrun|]. destruct r; [exact Hr|]. apply (proj2 Hr 12%nat Hp). lia.
  - destruct (programs_run_clean (W := host_network) (R := sample_rand) (C := sample_crypto) [] 30 newProc
      (clientServerMain (W := host_network) (R := sample_rand) (C := sample_crypto) 30) ltac:(by right; right; left)) as (r & p' & Hrun & Hr).
    pose proof exchange_run as He. rewrite Hrun in He. injection He as ->.
    exists p'. split; [exact Hrun|]. exact (proj1 Hr eq_refl).
Defined.
