(* ===== verification/Soak.v ===== *)
(** cmd/soak: the program that creates and destroys clients and servers at random
    and exchanges packets between them. Its global variables are the state. *)

From S2P Require Import Prelude Constants Float64 Buffer Text Queue Logging Address Crypto SampleCrypto Token.
From S2P Require Import TokenGenerate Packet Socket SocketIO Client Server ServerInvariant.
From S2P Require Import ServerHandlers ServerRun Footprint Startup Process Commands.
From Stdlib Require Import(notations) Strings.String.
Import Process.

Definition maxServers : Z := 2.
Definition maxClients : Z := 64.
Definition serverBasePort : Z := 20000.

Record soak := mkSoak {
  sk_proc : proc;
  sk_servers : list (option Server);
  sk_clients : list (option Client);
  sk_packetData : list byte;
  sk_privateKey : list byte;
}.
#[export] Instance eta_soak : Eta soak := λ s,
  mkSoak (sk_proc s) (sk_servers s) (sk_clients s) (sk_packetData s) (sk_privateKey s).

Module Soak.
Definition connectTokenExpiry : Z := 45.
Definition connectTokenTimeout : Z := 5.
(** 0.1 *)
Definition deltaTime : float64 := SFdiv 53 1024 f64_1 (f64_of_Z 10).
(** The globals at the start. *)
Definition initial : soak :=
  mkSoak newProc (replicate (Z.to_nat maxServers) None) (replicate (Z.to_nat maxClients) None)
    (zeros MaxPacketSize) (zeros KeyBytes).

(** s[:n], which panics beyond the capacity. *)
Definition sliceTo (s : list byte) (n : Z) : option (list byte) :=
  if (0 <=? n) && (n <=? Z.of_nat (length s)) then Some (take (Z.to_nat n) s) else None.
(** bytes.Equal(packet, packetData[:len(packet)]) *)
Definition packetMatches (packetData packet : list byte) : option bool :=
  expected ← sliceTo packetData (Z.of_nat (length packet));
  Some (bool_decide (packet = expected)).
(** fmt.Sprintf("127.0.0.1:%d", serverBasePort+i) *)
Definition serverAddress (i : Z) : list byte := ascii "127.0.0.1:" ++ decimal (serverBasePort + i).

(** ** strconv.Atoi, its error ignored: 0 for what is no number, the nearest int
    for a number out of range *)
Fixpoint parseDigits (s : list byte) (n : Z) : option Z :=
  match s with
  | [] => Some n
  | c :: s =>
      if is_digit c then
        let n' := n * 10 + (byte.unsigned c - 48) in
        if n' <? 2 ^ 64 then parseDigits s n' else Some (2 ^ 64 - 1)
      else None
  end.
Definition parseUint (s : list byte) : option Z :=
  match s with [] => None | _ => parseDigits s 0 end.
Definition Atoi (s : list byte) : Z :=
  let '(neg, digits) :=
    match s with
    | c :: rest => if bool_decide (c = chr "-") then (true, rest)
                   else if bool_decide (c = chr "+") then (false, rest) else (false, s)
    | [] => (false, [])
    end in
  match parseUint digits with
  | None => 0
  | Some un => if neg then (if un >? 2 ^ 63 then - 2 ^ 63 else - un)
               else if un >=? 2 ^ 63 then 2 ^ 63 - 1 else un
  end.

Section soak.
Context {W : World} {R : Rand} {C : CryptoLib}.

Definition randomInt (a b : Z) : M proc Z :=
  r ← ask (λ k, randIntn k (b - a + 1)); mret (a + r).
(** randomInt(0, n) == 0 *)
Definition oneIn (n : Z) : M proc bool := r ← randomInt 0 n; mret (r =? 0).
(** for i := 0; i < n; i++ { body }, where the body may end the process. *)
Fixpoint each {S : Type} (ixs : list Z) (body : Z → E S unit) : E S unit :=
  match ixs with [] => eret tt | i :: ixs => _ ←? body i; each ixs body end.
(** A computation of the process within the program. *)
Definition within {A : Type} (m : M proc A) : E soak A := run (zoom sk_proc m).

Definition soakInitialize : E soak unit :=
  _ ←? within (SetLogLevel LogLevelInfo);
  key ←? within (RandomBytes KeyBytes);
  _ ←? run (modify (set sk_privateKey (λ _, key)));
  run (modify (set sk_packetData (λ _, packetData))).

(** ** Shutdown *)
Definition closeServer (i : Z) : E soak unit :=
  server ←? run (aread sk_servers i);
  match server with
  | None => eret tt
  | Some server => _ ←? within (does ServerOps.Close server); run (awrite sk_servers i None)
  end.
Definition closeClient (i : Z) : E soak unit :=
  client ←? run (aread sk_clients i);
  match client with
  | None => eret tt
  | Some client => _ ←? within (does ClientOps.Close client); run (awrite sk_clients i None)
  end.
Definition soakShutdown : E soak unit :=
  _ ←? each (seqZ 0 maxServers) closeServer;
  each (seqZ 0 maxClients) closeClient.

(** ** Creating and destroying *)
Definition createServer (config : serverConfig) (time : float64) (i : Z) : E soak unit :=
  server ←? run (aread sk_servers i);
  match server with
  | Some _ => eret tt
  | None =>
      create ←? within (oneIn 10);
      if (create : bool) then
        (r ←? within (NewServer (serverAddress i) (Some config) time);
         run (awrite sk_servers i (match r with inl _ => None | inr server => Some server end)))
      else eret tt
  end.
Definition destroyServer (i : Z) : E soak unit :=
  server ←? run (aread sk_servers i);
  match server with
  | None => eret tt
  | Some server =>
      if ServerOps.NumConnectedClients server =? ServerOps.MaxClients_ server then
        (destroy ←? within (oneIn 10000);
         if (destroy : bool) then closeServer i else eret tt)
      else eret tt
  end.
Definition createClient (time : float64) (i : Z) : E soak unit :=
  client ←? run (aread sk_clients i);
  match client with
  | Some _ => eret tt
  | None =>
      create ←? within (oneIn 10);
      if (create : bool) then
        (r ←? within (NewClient (ascii "0.0.0.0") None time);
         match r with
         | inl _ => ethrow (Exit 1)
         | inr client => run (awrite sk_clients i (Some client))
         end)
      else eret tt
  end.
Definition destroyClient (i : Z) : E soak unit :=
  client ←? run (aread sk_clients i);
  match client with
  | None => eret tt
  | Some _ =>
      destroy ←? within (oneIn 1000);
      if (destroy : bool) then closeClient i else eret tt
  end.

(** ** A turn of a server *)
Definition startSometimes (server : Server) : M proc Server :=
  start ← oneIn 10;
  if start && negb (ServerOps.Running server)
  then (n ← randomInt 1 MaxClients; serverStart server n) else mret server.
Definition stopSometimes (server : Server) : M proc Server :=
  stop ← oneIn 1000;
  if stop && (ServerOps.NumConnectedClients server =? ServerOps.MaxClients_ server) && ServerOps.Running server
  then does ServerOps.Stop server else mret server.
(** packetData[:randomInt(1, netcode.MaxPacketSize)] *)
Definition randomPacket (packetData : list byte) : M proc (list byte) :=
  n ← randomInt 1 (Z.of_nat MaxPacketSize); lift (sliceTo packetData n).
Fixpoint serverSends (packetData : list byte) (ixs : list Z) (server : Server) : E proc Server :=
  match ixs with
  | [] => eret server
  | clientIndex :: ixs =>
      '(connected, server) ←? run (on (ServerOps.ClientConnected clientIndex) server);
      server ←? run (if (connected : bool)
                     then (packet ← randomPacket packetData; does (ServerOps.SendPacket clientIndex packet) server)
                     else mret server);
      serverSends packetData ixs server
  end.
Fixpoint serverReceives (packetData : list byte) (ixs : list Z) (server : Server) : E proc Server :=
  match ixs with
  | [] => eret server
  | clientIndex :: ixs =>
      '(connected, server) ←? run (on (ServerOps.ClientConnected clientIndex) server);
      '(_, server) ←? (if (connected : bool)
                       then drain (ServerOps.ReceivePacket clientIndex) (packetMatches packetData) drainFuel server 0
                       else eret (0, server));
      serverReceives packetData ixs server
  end.
Definition serverTurn (packetData : list byte) (time : float64) (server : Server) : E proc Server :=
  server ←? run (startSometimes server);
  server ←? run (stopSometimes server);
  server ←? (if ServerOps.Running server then
               (let serverMaxClients := ServerOps.MaxClients_ server in
                server ←? serverSends packetData (seqZ 0 serverMaxClients) server;
                serverReceives packetData (seqZ 0 serverMaxClients) server)
             else eret server);
  run (serverUpdate server time).
Definition soakServer (time : float64) (i : Z) : E soak unit :=
  server ←? run (aread sk_servers i);
  match server with
  | None => eret tt
  | Some server =>
      packetData ←? run (gets sk_packetData);
      server ←? zoom sk_proc (serverTurn packetData time server);
      run (awrite sk_servers i (Some server))
  end.

(** ** A turn of a client *)

(** The addresses of the running servers, at most as many as a token holds. *)
Fixpoint serverAddresses (servers : list (option Server)) (j : Z) (addresses : list (list byte))
  : list (list byte) :=
  match servers with
  | [] => addresses
  | server :: servers =>
      if bool_decide (length addresses = MaxServersPerConnect) then addresses
      else
        serverAddresses servers (j + 1)
          (match server with
           | Some server => if ServerOps.Running server then addresses ++ [serverAddress j] else addresses
           | None => addresses
           end)
  end.
Definition connectSometimes (privateKey : list byte) (servers : list (option Server)) (client : Client)
  : M proc Client :=
  connect ← oneIn 10;
  if connect && (ClientOps.State client <=? ClientStateDisconnected) then
    (clientIDBytes ← RandomBytes 8;
     userData ← RandomBytes UserDataBytes;
     let addresses := serverAddresses servers 0 [] in
     if bool_decide (0 < length addresses)%nat then
       (r ← GenerateConnectToken addresses addresses connectTokenExpiry connectTokenTimeout
              (le_combine clientIDBytes) protocolID privateKey userData;
        match r with
        | inl _ => mret client
        | inr connectToken => does (ClientOps.Connect connectToken) client
        end)
     else mret client)
  else mret client.
Definition disconnectSometimes (client : Client) : M proc Client :=
  disconnect ← oneIn 100;
  if disconnect && (ClientOps.State client =? ClientStateConnected)
  then does ClientOps.Disconnect_ client else mret client.
Definition clientTurn (packetData privateKey : list byte) (servers : list (option Server)) (time : float64)
  (client : Client) : E proc Client :=
  client ←? run (connectSometimes privateKey servers client);
  client ←? run (disconnectSometimes client);
  client ←? (if ClientOps.State client =? ClientStateConnected then
               (packet ←? run (randomPacket packetData);
                client ←? run (does (ClientOps.SendPacket packet) client);
                '(_, client) ←? drain ClientOps.ReceivePacket (packetMatches packetData) drainFuel client 0;
                eret client)
             else eret client);
  run (clientUpdate client time).
Definition soakClient (time : float64) (i : Z) : E soak unit :=
  client ←? run (aread sk_clients i);
  match client with
  | None => eret tt
  | Some client =>
      s ←? run (gets id);
      client ←? zoom sk_proc (clientTurn (sk_packetData s) (sk_privateKey s) (sk_servers s) time client);
      run (awrite sk_clients i (Some client))
  end.

(** ** The program *)
Definition soakIteration (time : float64) : E soak unit :=
  privateKey ←? run (gets sk_privateKey);
  let config := zeroServerConfig <| sc_protocolID := protocolID |> <| sc_privateKey := privateKey |> in
  _ ←? each (seqZ 0 maxServers) (λ i, _ ←? createServer config time i; destroyServer i);
  _ ←? each (seqZ 0 maxClients) (λ i, _ ←? createClient time i; destroyClient i);
  _ ←? each (seqZ 0 maxServers) (soakServer time);
  each (seqZ 0 maxClients) (soakClient time).
(** The number of turns made so far; with a positive limit the loop is left when it
    is reached. *)
Definition soakTurn (numIterations : Z) (time : float64) (i : Z) : E soak (bool * Z) :=
  _ ←? soakIteration time;
  eret ((numIterations >? 0) && (i + 1 >=? numIterations), i + 1).
Definition soakLoop (numIterations : Z) :=
  loop (zoom sk_proc (ask interrupted)) deltaTime (soakTurn numIterations).
Definition numIterationsOf (args : list (list byte)) : Z :=
  match args with [_; n] => Atoi n | _ => -1 end.
Definition soakMain (args : list (list byte)) (fuel : nat) : E soak bool :=
  _ ←? soakInitialize;
  '(done, _) ←? soakLoop (numIterationsOf args) fuel 0 f64_0;
  if negb done then eret false else (_ ←? soakShutdown; eret true).
End soak.

(** ** The invariant *)

(** The connections that a slot of the program holds. *)
Definition conns (ipv6 : bool) (h : socketHolder) : Z :=
  SocketIO.opened (if ipv6 then sh_ipv6 h else sh_ipv4 h).
Definition slot_conns {T : Type} `{Endpoint T} (ipv6 : bool) (o : option T) : Z :=
  match o with Some x => conns ipv6 (holder_of x) | None => 0 end.
Definition held_conns (ipv6 : bool) (s : soak) : Z :=
  sum_with (slot_conns ipv6) (sk_servers s) + sum_with (slot_conns ipv6) (sk_clients s).
Definition open_conns (ipv6 : bool) (s : soak) : Z := SocketIO.openConns ipv6 (os_trace (pr_os (sk_proc s))).

Definition slot_good {T : Type} `{EndpointSpec T} (o : option T) : Prop := from_option good True o.
Record soak_ok (s : soak) : Prop := {
  so_servers : length (sk_servers s) = Z.to_nat maxServers;
  so_clients : length (sk_clients s) = Z.to_nat maxClients;
  so_good_servers : Forall slot_good (sk_servers s);
  so_good_clients : Forall slot_good (sk_clients s);
  so_packetData : length (sk_packetData s) = MaxPacketSize;
  so_privateKey : length (sk_privateKey s) = KeyBytes;
  (** What is open is what the program's clients and servers hold. *)
  so_balance ipv6 : open_conns ipv6 s = held_conns ipv6 s;
}.
Definition ok_after (s s' : soak) : Prop :=
  soak_ok s' ∧ (pr_asked (sk_proc s) ≤ pr_asked (sk_proc s'))%nat.
Lemma ok_after_trans s1 s2 s3 : ok_after s1 s2 → ok_after s2 s3 → ok_after s1 s3.
Proof. intros [_ H1] [? H2]. split; [done|lia]. Qed.
Lemma ok_after_refl s : soak_ok s → ok_after s s.
Proof. by split. Qed.

Lemma moved_conns p p' d4 d6 ipv6 :
  moved p p' d4 d6 →
  SocketIO.openConns ipv6 (os_trace (pr_os p')) =
  SocketIO.openConns ipv6 (os_trace (pr_os p)) + (if ipv6 then d6 else d4).
Proof. intros [(_ & H4 & H6) _]. by destruct ipv6. Qed.
Lemma proc_ok s p' : soak_ok s → steady (sk_proc s) p' → ok_after s (s <| sk_proc := p' |>).
Proof.
  intros [] Hm. split; [split; try done|apply Hm].
  intros ipv6. specialize (so_balance0 ipv6). unfold open_conns, held_conns in *. simpl.
  rewrite (moved_conns _ _ _ _ ipv6 Hm). destruct ipv6; lia.
Qed.
(** A slot is assigned, after the connections of its old value gave way to those
    of the new one. *)
Lemma set_server s i o o' p' :
  soak_ok s → aget (sk_servers s) i = Some o → slot_good o' →
  moved (sk_proc s) p' (slot_conns false o' - slot_conns false o) (slot_conns true o' - slot_conns true o) →
  ok_after s (s <| sk_proc := p' |> <| sk_servers := ainsert i o' (sk_servers s) |>).
Proof.
  intros [] Hi Ho Hm. split; [split; try done|apply Hm].
  - simpl. by rewrite length_ainsert.
  - simpl. unfold ainsert. by apply Forall_insert.
  - intros ipv6. specialize (so_balance0 ipv6). unfold open_conns, held_conns in *. simpl.
    rewrite (moved_conns _ _ _ _ ipv6 Hm). erewrite sum_with_insert by exact Hi. destruct ipv6; lia.
Qed.
Lemma set_client s i o o' p' :
  soak_ok s → aget (sk_clients s) i = Some o → slot_good o' →
  moved (sk_proc s) p' (slot_conns false o' - slot_conns false o) (slot_conns true o' - slot_conns true o) →
  ok_after s (s <| sk_proc := p' |> <| sk_clients := ainsert i o' (sk_clients s) |>).
Proof.
  intros [] Hi Ho Hm. split; [split; try done|apply Hm].
  - simpl. by rewrite length_ainsert.
  - simpl. unfold ainsert. by apply Forall_insert.
  - intros ipv6. specialize (so_balance0 ipv6). unfold open_conns, held_conns in *. simpl.
    rewrite (moved_conns _ _ _ _ ipv6 Hm). erewrite sum_with_insert by exact Hi. destruct ipv6; lia.
Qed.

Lemma sliceTo_total s n : 0 ≤ n ≤ Z.of_nat (length s) → is_Some (sliceTo s n).
Proof.
  intros Hn. unfold sliceTo. destruct (Z.leb_spec 0 n), (Z.leb_spec n (Z.of_nat (length s))); try lia. by eexists.
Qed.
(** A received packet is never longer than the data it is compared with. *)
Lemma soak_matches_total pd d : length pd = MaxPacketSize → sized d → is_Some (packetMatches pd d).
Proof.
  intros Hl [_ Hd]. unfold packetMatches. destruct (sliceTo_total pd (Z.of_nat (length d))) as [e ->]; [clia|].
  by eexists.
Qed.

Section proofs.
Context {W : World} {WL : WorldLaws W} {R : Rand} {RL : RandLaws R} {C : CryptoLib} {L : CryptoLaws C}.

Lemma randomInt_wp a b p Q :
  a ≤ b → (∀ r p', a ≤ r ≤ b → steady p p' → Q r p') → wp (randomInt a b) Q p.
Proof.
  intros Hab HQ. apply wp_bind, ask_wp. intros p' Hs _. apply wp_ret, HQ; [|done].
  pose proof (randIntn_range (pr_asked p) (b - a + 1)). lia.
Qed.
Lemma oneIn_wp n p Q : 0 ≤ n → (∀ b p', steady p p' → Q b p') → wp (oneIn n) Q p.
Proof. intros Hn HQ. apply wp_bind, randomInt_wp; [done|]. intros r p' _ Hs. by apply wp_ret, HQ. Qed.
Lemma randomPacket_wp pd p Q :
  length pd = MaxPacketSize → (∀ d p', steady p p' → Q d p') → wp (randomPacket pd) Q p.
Proof.
  intros Hl HQ. apply wp_bind, randomInt_wp; [clia|]. intros n p' Hn Hs.
  destruct (sliceTo_total pd n) as [d Hd]; [clia|]. eapply wp_lift; [done|]. by apply HQ.
Qed.

(** ** Servers *)
Lemma startSometimes_wp s p : good_server s → wp (startSometimes s) (λ s' p', after s p s' p') p.
Proof.
  intros Hs. apply wp_bind, oneIn_wp; [done|]. intros b p1 H1. destruct (b && _).
  - apply wp_bind, randomInt_wp; [clia|]. intros n p2 _ H2.
    eapply wp_mono; [by apply serverStart_wp|]. intros s3 p3 H3. eapply after_steady; [by etrans|done].
  - apply wp_ret. eapply after_steady; [done|]. by apply after_refl.
Qed.
Lemma stopSometimes_wp s p : good_server s → wp (stopSometimes s) (λ s' p', after s p s' p') p.
Proof.
  intros Hs. apply wp_bind, oneIn_wp; [done|]. intros b p1 H1. destruct (b && _ && _).
  - eapply wp_mono; [by apply server_stop_wp|]. intros s3 p3 H3. by eapply after_steady.
  - apply wp_ret. eapply after_steady; [done|]. by apply after_refl.
Qed.
Lemma serverSends_wp pd ixs s p :
  length pd = MaxPacketSize → good_server s → wpe (serverSends pd ixs s) (λ s' p', after s p s' p') p.
Proof.
  intros Hl. revert s p. induction ixs as [|i ixs IH]; intros s p Hs; cbn [serverSends].
  { apply wpe_ret. by apply after_refl. }
  apply wpe_then. eapply wp_mono; [by apply ClientConnected_wp|]. intros [b s1] p1 [Heq H1].
  cbn [snd] in Heq. subst s1. apply wpe_then. eapply (wp_mono _ (λ s2 p2, after s p s2 p2)).
  - destruct b; [|apply wp_ret; eapply after_steady; [done|by apply after_refl]].
    apply wp_bind, randomPacket_wp; [done|]. intros d p2 H2.
    eapply wp_mono; [by apply server_send_wp|]. intros s3 p3 H3. eapply after_steady; [by etrans|done].
  - intros s2 p2 H2. eapply wpe_mono; [apply IH, H2|]. intros s3 p3 H3. by eapply after_trans.
Qed.
Lemma serverReceives_wp pd ixs s p :
  length pd = MaxPacketSize → good_server s → wpe (serverReceives pd ixs s) (λ s' p', after s p s' p') p.
Proof.
  intros Hl. revert s p. induction ixs as [|i ixs IH]; intros s p Hs; cbn [serverReceives].
  { apply wpe_ret. by apply after_refl. }
  apply wpe_then. eapply wp_mono; [by apply ClientConnected_wp|]. intros [b s1] p1 [Heq H1].
  cbn [snd] in Heq. subst s1. apply wpe_bind. eapply (wpe_mono _ (λ r p2, after s p r.2 p2)).
  - destruct b; [|apply wpe_ret; eapply after_steady; [done|by apply after_refl]].
    eapply wpe_mono; [apply drain_server_wp; [|done]; intros; by apply soak_matches_total|].
    intros r p2 H2. by eapply after_steady.
  - intros [n s2] p2 H2. eapply wpe_mono; [apply IH, H2|]. intros s3 p3 H3. by eapply after_trans.
Qed.
Lemma soak_serverTurn_wp pd time s p :
  length pd = MaxPacketSize → good_server s → wpe (serverTurn pd time s) (λ s' p', after s p s' p') p.
Proof.
  intros Hl Hs. apply wpe_then. eapply wp_mono; [by apply startSometimes_wp|]. intros s1 p1 H1.
  apply wpe_then. eapply wp_mono; [apply stopSometimes_wp, H1|]. intros s2 p2 H2. apply wpe_bind.
  eapply (wpe_mono _ (λ s' p', after s2 p2 s' p')).
  - destruct (ServerOps.Running s2); [|apply wpe_ret, after_refl, H2]. cbv zeta.
    apply wpe_bind. eapply wpe_mono; [apply serverSends_wp; [done|apply H2]|]. intros s3 p3 H3.
    eapply wpe_mono; [apply serverReceives_wp; [done|apply H3]|]. intros s4 p4 H4. by eapply after_trans.
  - intros s5 p5 H5. apply wpe_run. eapply wp_mono; [apply serverUpdate_wp, H5|]. intros s6 p6 H6.
    eapply after_trans; [exact H1|]. eapply after_trans; [exact H2|]. by eapply after_trans.
Qed.

(** ** Clients *)
Lemma connectSometimes_wp key servers c p :
  good_client c → wp (connectSometimes key servers c) (λ c' p', after c p c' p') p.
Proof.
  intros Hc. apply wp_bind, oneIn_wp; [done|]. intros b p1 H1.
  destruct (b && _); [|apply wp_ret; eapply after_steady; [done|by apply after_refl]].
  apply wp_bind, draw_wp. intros id p2 Hid H2. apply wp_bind, draw_wp. intros ud p3 _ H3. cbv zeta.
  assert (steady p p3) as Hs by (do 2 (etrans; [done|]); done).
  case_match; [|apply wp_ret; eapply after_steady; [done|by apply after_refl]].
  apply wp_bind. eapply wp_mono; [apply Generate_wp; [done|by apply le_combine_u64|done]|].
  intros [e|token] p4 H4; [apply wp_ret; eapply after_steady; [by etrans|by apply after_refl]|].
  eapply wp_mono; [by apply client_connect_wp|]. intros c5 p5 H5. eapply after_steady; [by etrans|done].
Qed.
Lemma disconnectSometimes_wp c p :
  good_client c → wp (disconnectSometimes c) (λ c' p', after c p c' p') p.
Proof.
  intros Hc. apply wp_bind, oneIn_wp; [done|]. intros b p1 H1. destruct (b && _).
  - eapply wp_mono; [by apply client_disconnect_wp|]. intros c3 p3 H3. by eapply after_steady.
  - apply wp_ret. eapply after_steady; [done|]. by apply after_refl.
Qed.
Lemma soak_clientTurn_wp pd key servers time c p :
  length pd = MaxPacketSize → good_client c →
  wpe (clientTurn pd key servers time c) (λ c' p', after c p c' p') p.
Proof.
  intros Hl Hc. apply wpe_then. eapply wp_mono; [by apply connectSometimes_wp|]. intros c1 p1 H1.
  apply wpe_then. eapply wp_mono; [apply disconnectSometimes_wp, H1|]. intros c2 p2 H2. apply wpe_bind.
  eapply (wpe_mono _ (λ c' p', after c2 p2 c' p')).
  - case_match; [|apply wpe_ret, after_refl, H2].
    apply wpe_then, randomPacket_wp; [done|]. intros d p3 H3.
    apply wpe_then. eapply wp_mono; [apply client_send_wp, H2|]. intros c4 p4 H4.
    apply wpe_bind. eapply wpe_mono; [apply drain_client_wp; [|apply H4]; intros; by apply soak_matches_total|].
    intros [n c5] p5 H5. apply wpe_ret. eapply after_steady; [done|]. by eapply after_trans.
  - intros c5 p5 H5. apply wpe_run. eapply wp_mono; [apply clientUpdate_wp, H5|]. intros c6 p6 H6.
    eapply after_trans; [exact H1|]. eapply after_trans; [exact H2|]. by eapply after_trans.
Qed.

(** ** The slots of the program *)
Lemma each_wp (ixs : list Z) (body : Z → E soak unit) s :
  (∀ i s, i ∈ ixs → soak_ok s → wpe (body i) (λ _ s', ok_after s s') s) →
  soak_ok s → wpe (each ixs body) (λ _ s', ok_after s s') s.
Proof.
  revert s. induction ixs as [|i ixs IH]; intros s Hbody Hs; cbn [each].
  { apply wpe_ret. by apply ok_after_refl. }
  apply wpe_bind. eapply wpe_mono; [apply Hbody; [by left|done]|]. intros [] s1 H1.
  eapply wpe_mono; [apply IH; [|apply H1]|].
  - intros j s2 Hj Hs2. apply Hbody; [by right|done].
  - intros [] s2 H2. by eapply ok_after_trans.
Qed.
Lemma both_wp (m m' : E soak unit) s :
  wpe m (λ _ s', ok_after s s') s → (∀ s, soak_ok s → wpe m' (λ _ s', ok_after s s') s) →
  wpe (_ ←? m; m') (λ _ s', ok_after s s') s.
Proof.
  intros H1 H2. apply wpe_bind. eapply wpe_mono; [exact H1|]. intros [] s1 Hs1.
  eapply wpe_mono; [apply H2, Hs1|]. intros [] s2 Hs2. by eapply ok_after_trans.
Qed.
Lemma server_slot_wp i s (Q : option Server → soak → Prop) :
  soak_ok s → i ∈ seqZ 0 maxServers →
  (∀ o, aget (sk_servers s) i = Some o → slot_good o → Q o s) → wp (aread sk_servers i) Q s.
Proof.
  intros Hs Hi HQ. apply elem_of_seqZ in Hi.
  destruct (aget_Some (sk_servers s) i) as [o Ho]; [rewrite (so_servers _ Hs); unfold maxServers in *; lia|].
  eapply wp_aread; [done|]. apply HQ; [done|]. by apply (aget_Forall _ _ _ _ (so_good_servers _ Hs) Ho).
Qed.
Lemma client_slot_wp i s (Q : option Client → soak → Prop) :
  soak_ok s → i ∈ seqZ 0 maxClients →
  (∀ o, aget (sk_clients s) i = Some o → slot_good o → Q o s) → wp (aread sk_clients i) Q s.
Proof.
  intros Hs Hi HQ. apply elem_of_seqZ in Hi.
  destruct (aget_Some (sk_clients s) i) as [o Ho]; [rewrite (so_clients _ Hs); unfold maxClients in *; lia|].
  eapply wp_aread; [done|]. apply HQ; [done|]. by apply (aget_Forall _ _ _ _ (so_good_clients _ Hs) Ho).
Qed.
(** Assigning a slot at the end of a block; the proof of [set_server] or
    [set_client] shows what becomes of the connections. *)
Lemma write_server_wp s i o o' p' :
  soak_ok s → aget (sk_servers s) i = Some o → slot_good o' →
  moved (sk_proc s) p' (slot_conns false o' - slot_conns false o) (slot_conns true o' - slot_conns true o) →
  wp (awrite sk_servers i o') (λ _ s', ok_after s s' ∧ sk_clients s' = sk_clients s ∧
    sk_servers s' = ainsert i o' (sk_servers s)) (s <| sk_proc := p' |>).
Proof.
  intros Hs Hi Hg Hm. apply wp_awrite; [by eapply aget_range|]. split; [exact (set_server s i o o' p' Hs Hi Hg Hm)|done].
Qed.
Lemma write_client_wp s i o o' p' :
  soak_ok s → aget (sk_clients s) i = Some o → slot_good o' →
  moved (sk_proc s) p' (slot_conns false o' - slot_conns false o) (slot_conns true o' - slot_conns true o) →
  wp (awrite sk_clients i o') (λ _ s', ok_after s s' ∧ sk_servers s' = sk_servers s ∧
    sk_clients s' = ainsert i o' (sk_clients s)) (s <| sk_proc := p' |>).
Proof.
  intros Hs Hi Hg Hm. apply wp_awrite; [by eapply aget_range|]. split; [exact (set_client s i o o' p' Hs Hi Hg Hm)|done].
Qed.

(** What closing a slot leaves. *)
Lemma closeServer_wp i s :
  soak_ok s → i ∈ seqZ 0 maxServers →
  wpe (closeServer i) (λ _ s', ok_after s s' ∧ sk_clients s' = sk_clients s ∧
    sk_servers s' = ainsert i None (sk_servers s)) s.
Proof.
  intros Hs Hi. apply wpe_then, server_slot_wp; [done|done|]. intros [sv|] Ho Hg.
  - apply wpe_then, wp_zoom. eapply wp_mono; [by apply server_close_wp|]. intros sv' p' Hc. apply wpe_run.
    eapply write_server_wp; [done|done|done|exact Hc].
  - apply wpe_ret. split_and!; [by apply ok_after_refl|done|].
    unfold ainsert. rewrite list_insert_id; [done|]. unfold aget in Ho. by case_match.
Qed.
Lemma closeClient_wp i s :
  soak_ok s → i ∈ seqZ 0 maxClients →
  wpe (closeClient i) (λ _ s', ok_after s s' ∧ sk_servers s' = sk_servers s ∧
    sk_clients s' = ainsert i None (sk_clients s)) s.
Proof.
  intros Hs Hi. apply wpe_then, client_slot_wp; [done|done|]. intros [c|] Ho Hg.
  - apply wpe_then, wp_zoom. eapply wp_mono; [by apply client_close_wp|]. intros c' p' Hc. apply wpe_run.
    eapply write_client_wp; [done|done|done|exact Hc].
  - apply wpe_ret. split_and!; [by apply ok_after_refl|done|].
    unfold ainsert. rewrite list_insert_id; [done|]. unfold aget in Ho. by case_match.
Qed.
Lemma within_wp {A : Type} (m : M proc A) s (Q : A → soak → Prop) :
  wp m (λ a p', Q a (s <| sk_proc := p' |>)) (sk_proc s) → wpe (within m) Q s.
Proof. intros H. by apply wpe_run, wp_zoom. Qed.
Lemma oneIn_ok n s (Q : bool → soak → Prop) :
  0 ≤ n → soak_ok s →
  (∀ b p', steady (sk_proc s) p' → ok_after s (s <| sk_proc := p' |>) → Q b (s <| sk_proc := p' |>)) →
  wpe (within (oneIn n)) Q s.
Proof. intros Hn Hs HQ. apply within_wp, oneIn_wp; [done|]. intros b p' Hp. apply HQ; [done|]. by apply proc_ok. Qed.
(** A slot keeps its connections. *)
Lemma slot_steady {T : Type} `{EndpointSpec T} (x x' : T) p p' :
  after x p x' p' →
  moved p p' (slot_conns false (Some x') - slot_conns false (Some x))
    (slot_conns true (Some x') - slot_conns true (Some x)).
Proof. intros (_ & Hh & Hs). simpl. by rewrite Hh, !Z.sub_diag. Qed.
(** An empty slot is filled. *)
Lemma slot_filled {T : Type} `{Endpoint T} (x : T) p p' :
  opened (holder_of x) p p' →
  moved p p' (slot_conns false (Some x) - slot_conns false (None : option T))
    (slot_conns true (Some x) - slot_conns true (None : option T)).
Proof. intros Ho. simpl. by rewrite !Z.sub_0_r. Qed.

Lemma createServer_wp config time i s :
  length (sc_privateKey config) = KeyBytes → server_receive_ok config →
  i ∈ seqZ 0 maxServers → soak_ok s → wpe (createServer config time i) (λ _ s', ok_after s s') s.
Proof.
  intros Hkey Hcfg Hi Hs. apply wpe_then, server_slot_wp; [done|done|]. intros [sv|] Ho _.
  { apply wpe_ret. by apply ok_after_refl. }
  apply wpe_bind, oneIn_ok; [done|done|]. intros b p1 H1 Hok1.
  destruct b; [|by apply wpe_ret].
  apply wpe_bind, within_wp. eapply wp_mono; [by apply NewServer_wp|]. intros r p2 H2. apply wpe_run.
  eapply wp_mono; [eapply (write_server_wp _ i None); [apply Hok1|exact Ho| |]|].
  - destruct r as [e|sv]; [done|]. apply H2.
  - destruct r as [e|sv]; [exact H2|]. apply slot_filled, H2.
  - intros [] s' [H _]. by eapply ok_after_trans.
Qed.
Lemma createClient_wp time i s :
  i ∈ seqZ 0 maxClients → soak_ok s → wpe (createClient time i) (λ _ s', ok_after s s') s.
Proof.
  intros Hi Hs. apply wpe_then, client_slot_wp; [done|done|]. intros [c|] Ho _.
  { apply wpe_ret. by apply ok_after_refl. }
  apply wpe_bind, oneIn_ok; [done|done|]. intros b p1 H1 Hok1.
  destruct b; [|by apply wpe_ret].
  apply wpe_bind, within_wp. eapply wp_mono; [by apply NewClient_wp|].
  intros [e|c] p2 H2; [apply wpe_throw; by left|]. destruct H2 as [Hg Hop]. apply wpe_run.
  eapply wp_mono; [eapply (write_client_wp _ i None); [apply Hok1|exact Ho|done|by apply slot_filled]|].
  intros [] s' [H _]. by eapply ok_after_trans.
Qed.
Lemma destroyServer_wp i s :
  i ∈ seqZ 0 maxServers → soak_ok s → wpe (destroyServer i) (λ _ s', ok_after s s') s.
Proof.
  intros Hi Hs. apply wpe_then, server_slot_wp; [done|done|]. intros [sv|] Ho _.
  2: { apply wpe_ret. by apply ok_after_refl. }
  case_match; [|apply wpe_ret; by apply ok_after_refl].
  apply wpe_bind, oneIn_ok; [done|done|]. intros b p1 H1 Hok1. destruct b; [|by apply wpe_ret].
  eapply wpe_mono; [apply closeServer_wp; [apply Hok1|done]|]. intros [] s' [H' _]. by eapply ok_after_trans.
Qed.
Lemma destroyClient_wp i s :
  i ∈ seqZ 0 maxClients → soak_ok s → wpe (destroyClient i) (λ _ s', ok_after s s') s.
Proof.
  intros Hi Hs. apply wpe_then, client_slot_wp; [done|done|]. intros [sv|] Ho _.
  2: { apply wpe_ret. by apply ok_after_refl. }
  apply wpe_bind, oneIn_ok; [done|done|]. intros b p1 H1 Hok1. destruct b; [|by apply wpe_ret].
  eapply wpe_mono; [apply closeClient_wp; [apply Hok1|done]|]. intros [] s' [H' _]. by eapply ok_after_trans.
Qed.
Lemma soakServer_wp time i s :
  i ∈ seqZ 0 maxServers → soak_ok s → wpe (soakServer time i) (λ _ s', ok_after s s') s.
Proof.
  intros Hi Hs. apply wpe_then, server_slot_wp; [done|done|]. intros [sv|] Ho Hg.
  2: { apply wpe_ret. by apply ok_after_refl. }
  apply wpe_then, wp_gets, wpe_bind, wpe_zoom.
  eapply wpe_mono; [apply soak_serverTurn_wp; [apply Hs|exact Hg]|]. intros sv' p' Ha. apply wpe_run.
  eapply wp_mono; [eapply write_server_wp; [done|exact Ho|apply Ha|by apply slot_steady]|]. by intros [] s' [? _].
Qed.
Lemma soakClient_wp time i s :
  i ∈ seqZ 0 maxClients → soak_ok s → wpe (soakClient time i) (λ _ s', ok_after s s') s.
Proof.
  intros Hi Hs. apply wpe_then, client_slot_wp; [done|done|]. intros [c|] Ho Hg.
  2: { apply wpe_ret. by apply ok_after_refl. }
  apply wpe_then, wp_gets, wpe_bind, wpe_zoom.
  eapply wpe_mono; [apply soak_clientTurn_wp; [apply Hs|exact Hg]|]. intros c' p' Ha. apply wpe_run.
  eapply wp_mono; [eapply write_client_wp; [done|exact Ho|apply Ha|by apply slot_steady]|]. by intros [] s' [? _].
Qed.
Lemma soakIteration_wp time s : soak_ok s → wpe (soakIteration time) (λ _ s', ok_after s s') s.
Proof.
  intros Hs. apply wpe_then, wp_gets. cbv zeta. apply both_wp; [|intros s1 H1; apply both_wp;
    [|intros s2 H2; apply both_wp; [|intros s3 H3]]]; (apply each_wp; [|done]); intros i s' Hi Hs'.
  - apply both_wp; [apply createServer_wp; [apply Hs|done|done|done]|]. intros. by apply destroyServer_wp.
  - apply both_wp; [by apply createClient_wp|]. intros. by apply destroyClient_wp.
  - by apply soakServer_wp.
  - by apply soakClient_wp.
Qed.

(** ** Shutdown *)
Lemma each_close {T U : Type} (fld : soak → list (option T)) (other : soak → U) ixs body s :
  (∀ i s, i ∈ ixs → soak_ok s →
     wpe (body i) (λ _ s', ok_after s s' ∧ other s' = other s ∧ fld s' = ainsert i None (fld s)) s) →
  Forall (λ i, 0 ≤ i) ixs → soak_ok s →
  wpe (each ixs body) (λ _ s', ok_after s s' ∧ other s' = other s ∧
    ∀ j o, aget (fld s') j = Some o → o = None ∨ ((j ∉ ixs) ∧ aget (fld s) j = Some o)) s.
Proof.
  intros Hbody Hpos. revert s Hbody. induction Hpos as [|i ixs Hi Hpos IH]; intros s Hbody Hs; cbn [each].
  { apply wpe_ret. split_and!; [by apply ok_after_refl|done|]. intros j o Ho. right. split; [|done].
    apply not_elem_of_nil. }
  apply wpe_bind. eapply wpe_mono; [apply Hbody; [by left|done]|]. intros [] s1 (H1 & O1 & F1).
  eapply wpe_mono; [apply IH; [|apply H1]; intros j s2 Hj; apply Hbody; by right|].
  intros [] s2 (H2 & O2 & F2). split_and!; [by eapply ok_after_trans|congruence|].
  intros j o Ho. destruct (F2 j o Ho) as [->|[Hj Hat]]; [by left|]. rewrite F1 in Hat.
  apply aget_ainsert_some in Hat as [[-> ->]|[Hne Hat]]; [by left| |done].
  right. split; [|done]. by apply not_elem_of_cons.
Qed.
Lemma all_closed {T : Type} (l : list (option T)) (n : Z) :
  length l = Z.to_nat n → (∀ j o, aget l j = Some o → o = None ∨ j ∉ seqZ 0 n) →
  l = replicate (Z.to_nat n) None.
Proof.
  intros Hl Hall. symmetry. apply replicate_as_Forall. split; [done|]. apply list.Forall_forall.
  intros o [k Hk]%list_elem_of_lookup.
  assert (aget l (Z.of_nat k) = Some o) as Hat.
  { unfold aget. rewrite Nat2Z.id. destruct (Z.leb_spec 0 (Z.of_nat k)); [done|lia]. }
  destruct (Hall _ _ Hat) as [->|Hn]; [done|].
  destruct Hn. apply elem_of_seqZ. apply lookup_lt_Some in Hk. lia.
Qed.
Lemma soakShutdown_wp s :
  soak_ok s → wpe soakShutdown (λ _ s', ok_after s s' ∧
    sk_servers s' = replicate (Z.to_nat maxServers) None ∧
    sk_clients s' = replicate (Z.to_nat maxClients) None) s.
Proof.
  intros Hs. apply wpe_bind. eapply wpe_mono.
  { apply (each_close sk_servers sk_clients); [|vm_compute; by repeat constructor|done]. intros. by apply closeServer_wp. }
  intros [] s1 (H1 & _ & F1). eapply wpe_mono.
  { apply (each_close sk_clients sk_servers); [| |apply H1].
    - intros. by apply closeClient_wp.
    - apply list.Forall_forall. intros i Hi%elem_of_seqZ. lia. }
  intros [] s2 (H2 & E2 & F2). split_and!; [by eapply ok_after_trans|rewrite E2|].
  - apply all_closed; [apply H1|]. intros j o Ho. destruct (F1 j o Ho) as [?|[? _]]; [by left|by right].
  - apply all_closed; [apply H2|]. intros j o Ho. destruct (F2 j o Ho) as [?|[? _]]; [by left|by right].
Qed.
Lemma initial_ok : soak_ok initial.
Proof.
  split; [done|done|by apply Forall_replicate|by apply Forall_replicate|by apply length_zeros
    |by apply length_zeros|]. intros ipv6. unfold held_conns, initial. cbn [sk_servers sk_clients].
  by rewrite !sum_with_replicate.
Qed.
Lemma soakInitialize_wp s : soak_ok s → wpe soakInitialize (λ _ s', ok_after s s') s.
Proof.
  intros Hs. apply wpe_bind, within_wp. eapply wp_mono; [apply SetLogLevel_wp|]. intros [] p1 H1.
  destruct (proc_ok s p1 Hs H1) as [Hs1 Hk1]. apply wpe_bind, within_wp, draw_wp. intros key p2 Hkey H2.
  destruct (proc_ok _ p2 Hs1 H2) as [Hs2 Hk2]. apply wpe_then, wp_modify, wpe_run, wp_modify.
  split; [|simpl in *; lia]. destruct Hs2. by split.
Qed.

(** ** The program *)
Lemma soak_quit_wp s :
  soak_ok s →
  wp (zoom sk_proc (ask interrupted)) (λ b s', soak_ok s' ∧
    (pr_asked (sk_proc s) < pr_asked (sk_proc s'))%nat ∧
    ∀ k, pending k → (k ≤ pr_asked (sk_proc s))%nat → b = true) s.
Proof.
  intros Hs. apply wp_zoom. eapply wp_mono; [by apply (quit_wp (steady (sk_proc s)))|].
  intros b p' (H1 & Hlt & Hk). split_and!; [|done|done]. by apply proc_ok.
Qed.
Lemma soakTurn_wp n time i s :
  soak_ok s → wpe (soakTurn n time i) (λ r s', ok_after s s' ∧ r.2 = i + 1 ∧
    (r.1 = false → n ≤ 0 ∨ i + 1 < n)) s.
Proof.
  intros Hs. apply wpe_bind. eapply wpe_mono; [by apply soakIteration_wp|]. intros [] s1 H1.
  apply wpe_ret. split_and!; [done|done|]. cbn [fst].
  destruct (Z.gtb_spec n 0), (Z.geb_spec (i + 1) n); cbn [andb]; intros ?; try done; lia.
Qed.
Lemma soakLoop_wp n fuel s :
  soak_ok s →
  wpe (soakLoop n fuel 0 f64_0) (λ r s', soak_ok s' ∧
    (0 < n ≤ Z.of_nat fuel → r.1 = true) ∧ ∀ k, pending k → (k < fuel)%nat → r.1 = true) s.
Proof.
  intros Hs. eapply (wpe_mono _ (λ r s', (soak_ok s' ∧ ∀ k, pending k →
    (k < pr_asked (sk_proc s) + fuel)%nat → (0 < fuel)%nat → r.1 = true) ∧ (0 < n ≤ Z.of_nat fuel → r.1 = true))).
  2: { intros r s' [[H1 H2] H3]. split_and!; [done|done|]. intros k Hk Hlt. apply (H2 k Hk); lia. }
  assert (Hloop : ∀ Q, (∀ r s', soak_ok s' ∧ (∀ k, pending k →
    (k < pr_asked (sk_proc s) + fuel)%nat → (0 < fuel)%nat → r.1 = true) → Q r s') →
    wpe (soakLoop n fuel 0 f64_0) Q s).
  { intros Q HQ. eapply wpe_mono; [|exact HQ].
    apply (loop_wp _ _ _ (λ _ s, soak_ok s) (λ s, pr_asked (sk_proc s)) pending); [|..|done].
    - intros _ s' Hs'. by apply soak_quit_wp.
    - intros t i s' Hs'. eapply wpe_mono; [by apply soakTurn_wp|]. intros r s2 [H _]. exact H. }
  apply wpe_and; [by apply Hloop|].
  destruct (decide (0 < n ≤ Z.of_nat fuel)) as [Hn|Hn]; [|by apply Hloop].
  eapply (wpe_mono _ (λ r _, r.1 = true)); [|done].
  apply (loop_limit_wp _ _ _ (λ _ s, soak_ok s) (λ i, n - i)); [| |done|lia].
  - intros _ s' Hs'. eapply wp_mono; [by apply soak_quit_wp|]. by intros b s2 [? _].
  - intros t i s' Hs' Hi. eapply wpe_mono; [by apply soakTurn_wp|]. intros r s2 ([H _] & E & Hf).
    split; [done|]. rewrite E. intros [?|?]%Hf; lia.
Qed.

(** C8. The soak test is safe and leaves nothing behind: whatever the command line,
    the operating system, the clock, the random numbers and the datagrams that
    arrive, no call of it panics in the library or on a nil client or server, a
    slice bound or an array index; while it runs, every client and server it has
    is well formed and the connections that are open are exactly those that its
    clients and servers hold; it ends with exit code 1 or in its own check of a
    packet's contents, or runs on; it returns after the number of iterations asked
    for, or when an interrupt is found pending; and when it has returned, all its
    clients and servers are gone and no connection is open. *)
Theorem soak_runs_clean (args : list (list byte)) (fuel : nat) :
  ∃ r s', soakMain args fuel initial = Some (r, s') ∧
    match r with
    | inl e => e = Exit 1 ∨ e = Mismatch
    | inr done =>
        soak_ok s' ∧
        (done = true → sk_servers s' = replicate (Z.to_nat maxServers) None ∧
                       sk_clients s' = replicate (Z.to_nat maxClients) None ∧
                       ∀ ipv6, open_conns ipv6 s' = 0) ∧
        (0 < numIterationsOf args ≤ Z.of_nat fuel → done = true) ∧
        (∀ k, pending k → (k < fuel)%nat → done = true)
    end.
Proof.
  apply wp_inv. apply wpe_bind. eapply wpe_mono; [apply soakInitialize_wp, initial_ok|]. intros [] s1 [H1 _].
  apply wpe_bind. eapply wpe_mono; [by apply soakLoop_wp|]. intros [done i] s2 (H2 & Hn & Hk). cbn [fst] in *.
  destruct done; cbn [negb].
  - apply wpe_bind. eapply wpe_mono; [by apply soakShutdown_wp|]. intros [] s3 ([H3 _] & Hs & Hc).
    apply wpe_ret. split_and!; [done| |done|done]. intros _. split_and!; [done|done|].
    intros ipv6. rewrite (so_balance _ H3). unfold held_conns. by rewrite Hs, Hc, !sum_with_replicate.
  - apply wpe_ret. split_and!; [done|done|done|]. intros k Hp Hlt. by rewrite <-(Hk k Hp Hlt).
Qed.
End proofs.

(** ** A run

    Three iterations in a world in which every random number is 0, so that a
    client and a server are created and destroyed in each of them. *)
Definition sample_args : list (list byte) := [ascii "soak"; ascii "3"].
Lemma soak_runs_clean_witness :
  numIterationsOf sample_args = 3 ∧
  ∃ s', soakMain (W := sample_world) (R := sample_rand) (C := sample_crypto) sample_args 10 initial = Some (inr true, s') ∧
    soak_ok s' ∧ sk_servers s' = replicate (Z.to_nat maxServers) None ∧
    sk_clients s' = replicate (Z.to_nat maxClients) None ∧ ∀ ipv6, open_conns ipv6 s' = 0.
Proof.
  split; [vm_compute; reflexivity|].
  destruct (soak_runs_clean (W := sample_world) (R := sample_rand) (C := sample_crypto) sample_args 10)
    as (r & s' & Hrun & Hr).
  assert (fst <$> soakMain (W := sample_world) (R := sample_rand) (C := sample_crypto) sample_args 10 initial =
    Some (inr true)) as Hfst by (vm_compute; reflexivity).
  rewrite Hrun in Hfst. injection Hfst as ->. destruct Hr as (Hok & Hend & _).
  exists s'. exact (conj Hrun (conj Hok (Hend eq_refl))).
Defined.
End Soak.
