(* ===== verification/ServerClaims.v ===== *)
(** The claims about the server: it never panics and counts its clients exactly,
    lets a client in only on a sealed response with a sealed challenge token,
    ignores forgeries, never amplifies, and accepts each packet of a client once.
    At the end, a concrete server that has run the handshake. *)

From S2P Require Import Prelude Constants Float64 Buffer Replay Queue Address Crypto.
From S2P Require Import SampleCrypto Token Packet TokenEntries Encryption Socket Server.
From S2P Require Import ServerInvariant ServerHandlers ServerConnect ServerReceive ServerRun Footprint.

(** ** Sequences of calls *)
Inductive server_op :=
| OpServerStart (maxClients now : Z) (challengeKey : list byte)
| OpServerStop
| OpServerClose
| OpServerUpdate (now : Z) (arr : serverArrivals) (time : float64)
| OpServerProcessPacket (now now' : Z) (from : Address) (packetData : list byte)
| OpServerSendPacket (clientIndex : Z) (packetData : list byte)
| OpServerReceivePacket (clientIndex : Z)
| OpServerDisconnectClient (clientIndex : Z)
| OpServerDisconnectAllClients
| OpServerConnectLoopback (clientIndex clientID : Z) (userData : list byte)
| OpServerDisconnectLoopback (clientIndex : Z)
| OpServerProcessLoopback (clientIndex : Z) (packetData : list byte) (packetSequence : Z).

(** The challenge key that Start draws has 32 bytes, and the callbacks that a
    call needs are set. *)
Definition server_op_ok (c : serverConfig) (op : server_op) : Prop :=
  match op with
  | OpServerStart _ _ challengeKey => length challengeKey = KeyBytes
  | OpServerUpdate _ _ _ => server_receive_ok c
  | OpServerConnectLoopback _ _ _ => sc_sendLoopbackPacketCallback c = true
  | _ => True
  end.

Section claims.
Context {C : CryptoLib} {L : CryptoLaws C}.

Definition server_step (op : server_op) : M Server unit :=
  match op with
  | OpServerStart n now key => ServerOps.Start n now key
  | OpServerStop => ServerOps.Stop
  | OpServerClose => ServerOps.Close
  | OpServerUpdate now arr time => ServerOps.Update now arr time
  | OpServerProcessPacket now now' from d => ServerOps.ProcessPacket now now' from d
  | OpServerSendPacket i d => ServerOps.SendPacket i d
  | OpServerReceivePacket i => _ ← ServerOps.ReceivePacket i; mret tt
  | OpServerDisconnectClient i => ServerOps.DisconnectClient i
  | OpServerDisconnectAllClients => ServerOps.DisconnectAllClients
  | OpServerConnectLoopback i id userData => ServerOps.ConnectLoopbackClient i id userData
  | OpServerDisconnectLoopback i => ServerOps.DisconnectLoopbackClient i
  | OpServerProcessLoopback i d sequence => ServerOps.ProcessLoopbackPacket i d sequence
  end.
Definition server_run (ops : list server_op) : M Server unit := for_ ops server_step.

(** Only ConnectLoopbackClient makes a loopback client. *)
Definition stays_free (s s' : Server) : Prop :=
  Forall (eq false) (sv_clientLoopback s) → Forall (eq false) (sv_clientLoopback s').
#[export] Instance stays_free_preorder : PreOrder stays_free.
Proof. split; [by intros s H|]. intros s1 s2 s3 H1 H2 H. by apply H2, H1. Qed.
Lemma quiet_stays_free {A} (m : M Server A) : keeps server_quiet m → keeps stays_free m.
Proof. intros H s. eapply wlp_mono; [apply H|]. intros a s' Hq. exact (sq_loopback _ _ Hq). Qed.
Lemma server_step_free op :
  (∀ i id userData, op ≠ OpServerConnectLoopback i id userData) → keeps stays_free (server_step op).
Proof.
  intros Hop. destruct op; try (by destruct (Hop clientIndex clientID userData)); cbn [server_step];
    try (by apply quiet_stays_free; auto with quiet nocore);
    unfold ServerOps.Close, ServerOps.emit, ServerOps.ProcessPacket, ServerOps.DisconnectAllClients,
      ServerOps.DisconnectLoopbackClient, ServerOps.ProcessLoopbackPacket, ServerOps.pushPacket;
    keeps_auto ltac:(first [apply quiet_stays_free, Stop_quiet | apply quiet_stays_free, readAndProcessPacket_quiet
      | apply quiet_stays_free, disconnectClientInternal_quiet | apply quiet_stays_free, connectDisconnect_quiet
      | apply quiet_stays_free, resetClientSlot_quiet | apply quiet_stays_free, server_ReceivePacket_quiet | by intros ?]).
Qed.

Lemma server_step_kept s op :
  server_wf s → server_send_ok s → server_op_ok (sv_config s) op →
  wp (server_step op) (λ _ s', kept s s') s.
Proof.
  intros Hwf Hcb Hok. destruct op; cbn [server_step].
  - eapply wp_mono; [by apply Start_wp|]. intros [] s' (?&?&_). by split.
  - eapply wp_mono; [by apply Stop_wp|]. intros [] s' (?&_&_&?&_). by split.
  - by apply Close_kept.
  - by apply server_Update_wp.
  - eapply wp_mono; [by apply readAndProcessPacket_wp|]. intros [] s' [Hp _]. by eapply processed_kept.
  - apply server_SendPacket_wp; [done|]. intros Hl. destruct Hcb as [|Hf]; [done|].
    by apply (aget_Forall _ _ _ _ Hf) in Hl.
  - apply wp_bind. eapply wp_mono; [by apply server_ReceivePacket_wp|]. intros r s' [Hk _]. by apply wp_ret.
  - eapply wp_mono; [by apply DisconnectClient_wp|]. intros [] s' (?&?&_). by apply kept_scalars.
  - eapply wp_mono; [by apply DisconnectAllClients_wp|]. intros [] s' ?. by eapply swept_kept.
  - by apply ConnectLoopbackClient_wp.
  - by apply DisconnectLoopback_kept.
  - by apply ProcessLoopbackPacket_wp.
Qed.
Lemma server_step_served s op :
  server_wf s → server_send_ok s → server_op_ok (sv_config s) op →
  wp (server_step op) (λ _ s', kept s s' ∧ server_send_ok s') s.
Proof.
  intros Hwf Hcb Hok. pose proof (server_step_kept s op Hwf Hcb Hok) as H. destruct Hcb as [Hcb|Hfree].
  { eapply wp_mono; [exact H|]. intros [] s' Hk. split; [done|]. left. by rewrite (proj2 Hk). }
  assert ((∃ i id u, op = OpServerConnectLoopback i id u) ∨ ∀ i id u, op ≠ OpServerConnectLoopback i id u)
    as [(i & id & u & ->)|Hno] by (destruct op; naive_solver).
  - eapply wp_mono; [exact H|]. intros [] s' Hk. split; [done|]. left. by rewrite (proj2 Hk).
  - eapply wp_mono; [exact (wp_and_wlp _ _ _ _ H (server_step_free op Hno s))|].
    intros [] s' [Hk Hf]. split; [done|]. right. by apply Hf.
Qed.

Lemma server_run_kept s ops :
  server_wf s → server_send_ok s → Forall (server_op_ok (sv_config s)) ops →
  wp (server_run ops) (λ _ s', kept s s') s.
Proof.
  intros Hwf Hcb. unfold server_run. revert s Hwf Hcb.
  induction ops as [|op ops IH]; intros s Hwf Hcb Hops; [by apply wp_ret|]. cbn [for_].
  apply Forall_cons in Hops as [H1 H2]. apply wp_bind. eapply wp_mono; [by apply server_step_served|].
  intros [] s1 [[Hwf1 Hc1] Hcb1]. eapply wp_mono; [apply IH; [done|done|by rewrite Hc1]|].
  intros [] s2 Hk. eapply kept_trans; [by split|done].
Qed.

Lemma new_send_ok config a a2 v4 v6 time : server_send_ok (ServerOps.new config a a2 v4 v6 time).
Proof. right. by apply Forall_replicate. Qed.
Lemma new_ops_ok config a a2 v4 v6 time ops :
  Forall (server_op_ok config) ops →
  Forall (server_op_ok (sv_config (ServerOps.new config a a2 v4 v6 time))) ops.
Proof.
  intros H. eapply Forall_impl; [exact H|]. intros op. simpl.
  destruct op; try done; by destruct (sc_maxConnectTokenLifetime config <=? 0).
Qed.
Lemma new_run_kept config a a2 v4 v6 time ops :
  length (sc_privateKey config) = KeyBytes → Forall (server_op_ok config) ops →
  let s := ServerOps.new config a a2 v4 v6 time in wp (server_run ops) (λ _ s', kept s s') s.
Proof. intros Hkey Hops s. apply server_run_kept; [by apply new_wf|apply new_send_ok|by apply new_ops_ok]. Qed.

(** C2. Safety: whatever sequence of API calls is made on a new server (datagrams
    of any bytes from any address, any clock values, any slot indices), no call
    panics, provided the private key and the challenge keys have 32 bytes; and
    the server stays well formed: free slots hold nothing of an earlier client,
    every network client owns the encryption mapping of its address and no
    mapping has another owner, no two clients share an address. Any configuration
    will do, with two exceptions for callbacks that the code calls without a
    test: ConnectLoopbackClient needs SendLoopbackPacketCallback, and Update
    needs ReceivePacketOverride when OverrideSendAndReceive replaces the
    sockets. *)
Theorem server_never_panics (config : serverConfig) (address address2 : Address)
  (ipv4 ipv6 : option Address) (time : float64) (ops : list server_op)
  (Hkey : length (sc_privateKey config) = KeyBytes) (Hops : Forall (server_op_ok config) ops) :
  ∃ s', server_run ops (ServerOps.new config address address2 ipv4 ipv6 time) = Some (tt, s') ∧
    server_wf s'.
Proof.
  pose proof (new_run_kept config address address2 ipv4 ipv6 time ops Hkey Hops) as H.
  apply wp_inv in H as ([] & s' & ? & ? & _). eauto.
Qed.

(** The exception is real: without SendLoopbackPacketCallback, a payload sent to
    a loopback client panics, on every running server with that slot free. *)
Theorem server_loopback_needs_callback (s : Server) (i id : Z) (userData data : list byte)
  (Hwf : server_wf s) (Hrange : ServerOps.in_slot_range i s = true)
  (Hfree : aget (sv_clientConnected s) i = Some false)
  (Hdata : (1 ≤ length data ≤ MaxPacketSize)%nat) (Hno : sc_sendLoopbackPacketCallback (sv_config s) = false) :
  server_run [OpServerConnectLoopback i id userData; OpServerSendPacket i data] s = None.
Proof.
  apply wlp_never. cbn [server_run for_ server_step]. apply wlp_bind.
  apply (wlp_mono _ (λ _ s1, ServerOps.in_slot_range i s1 = true ∧ aget (sv_clientConnected s1) i = Some true ∧
    aget (sv_clientLoopback s1) i = Some true ∧ sv_config s1 = sv_config s)).
  - unfold ServerOps.ConnectLoopbackClient. apply wlp_bind, wlp_gets. rewrite Hrange. cbn [negb].
    apply wlp_bind, wlp_aread. intros b Hb. rewrite Hfree in Hb. injection Hb as <-.
    apply wlp_bind, wlp_gets, wlp_bind, wlp_modify.
    apply wlp_bind, wlp_awrite. intros H1. apply wlp_bind, wlp_awrite. intros H2.
    repeat (apply wlp_bind, wlp_awrite; intros _).
    assert (∀ A (l : list A) x, 0 ≤ i < Z.of_nat (length l) → aget (ainsert i x l) i = Some x) as Hget
      by (intros A l x Hl; by apply aget_ainsert_eq).
    unfold ServerOps.connectDisconnect, ServerOps.emit. apply wlp_bind, wlp_gets.
    case_match; [apply wlp_modify|apply wlp_ret]; by split_and!; try apply Hget.
  - intros [] s1 (Hr1 & Hc1 & Hl1 & Hcfg1). apply wlp_bind. unfold ServerOps.SendPacket.
    rewrite (bool_decide_eq_false_2 (_ ≤ 0)%nat), (bool_decide_eq_false_2 (_ < _)%nat) by lia. cbn [orb].
    apply wlp_bind, wlp_gets. rewrite Hr1. cbn [negb]. apply wlp_bind, wlp_aread. intros b Hb.
    rewrite Hc1 in Hb. injection Hb as <-. cbn [negb]. apply wlp_bind, wlp_aread. intros b Hb.
    rewrite Hl1 in Hb. injection Hb as <-. cbn [negb]. apply wlp_bind, wlp_gets. by rewrite Hcfg1, Hno.
Qed.

(** C16. Counting: after any sequence of calls on a new server, under the
    conditions on keys and callbacks under which no call panics (the default
    configuration meets them without loopback clients), NumConnectedClients is
    the number of slots whose ClientConnected flag is set, it never exceeds
    MaxClients, and only slots below MaxClients are connected. *)
Theorem server_counts_clients (config : serverConfig) (address address2 : Address)
  (ipv4 ipv6 : option Address) (time : float64) (ops : list server_op)
  (Hkey : length (sc_privateKey config) = KeyBytes) (Hops : Forall (server_op_ok config) ops) :
  ∃ s', server_run ops (ServerOps.new config address address2 ipv4 ipv6 time) = Some (tt, s') ∧
  ServerOps.NumConnectedClients s' = count_true (sv_clientConnected s') ∧
  0 ≤ ServerOps.NumConnectedClients s' ≤ ServerOps.MaxClients_ s' ∧
  ServerOps.MaxClients_ s' ≤ MaxClients ∧
  ∀ i, aget (sv_clientConnected s') i = Some true → i < ServerOps.MaxClients_ s'.
Proof.
  pose proof (new_run_kept config address address2 ipv4 ipv6 time ops Hkey Hops) as H.
  apply wp_inv in H as ([] & s' & Hrun & Hwf & _). exists s'.
  split_and!; [done|apply (sw_count _ Hwf)|by apply num_clients_range..|by apply active_range|].
  intros i Hi. pose proof (aget_range _ _ _ Hi) as Hr. rewrite (ss_connected _ (sw_shape _ Hwf)) in Hr.
  destruct (slot_at_Some s' i (sw_shape _ Hwf)) as [x Hx]; [unfold num_slots in Hr; clia|].
  apply (sw_active _ Hwf i x Hx). destruct (slot_at_inv _ _ _ Hx) as (Hc & _). congruence.
Qed.

(** The effect of one datagram, as a fact about the run. *)
Lemma processed_run s s' now now' from d :
  server_wf s → ServerOps.ProcessPacket now now' from d s = Some (tt, s') → processed s from d s'.
Proof.
  intros Hwf Hrun. pose proof (readAndProcessPacket_wp s now now' from d Hwf) as H.
  apply wp_inv in H as ([] & s1 & H1 & Hp & _).
  unfold ServerOps.ProcessPacket in Hrun. rewrite Hrun in H1. by injection H1 as <-.
Qed.

(** ** Admission *)

(** What let the client of slot [i] in. *)
Record let_in (s : Server) (from : Address) (d : list byte) (x' : slot) : Prop := {
  li_token : ∃ y token sequence data sequenceBytes,
    em_at (sv_encryptionManager s) (sl_encryptionIndex x') = Some y ∧
    Equal (mp_address y) from = true ∧
    d = sealed_packet (mp_receiveKey y) (sc_protocolID (sv_config s)) connectionResponsePacket
          sequenceBytes (enc_body (Response sequence data)) ∧
    sealed_challenge (sv_challengeKey s) sequence token data ∧
    sl_id x' = cht_clientID token ∧ sl_userData x' = cht_userData token ∧
    id_unused s (cht_clientID token);
  li_address : sl_address x' = from ∧ address_free s from;
  li_fresh : sl_confirmed x' = false ∧ sl_replay x' = Replay.reset ∧ sl_queue x' = Queue.clear;
}.

Lemma requested_slots s from s' i x :
  requested s from s' → slot_at s' i = Some x → slot_at s i = Some x.
Proof. intros H. by rewrite (rq_slots _ _ _ H). Qed.

Lemma slot_updated_connected s j z s' i x x' :
  slot_updated s j z s' → slot_at s i = Some x → sl_connected x = false → slot_at s' i = Some x' →
  sl_connected x' = true → i = j ∧ x' = z.
Proof.
  intros Hup Hx Hc Hx' Hc'. rewrite (su_at _ _ _ _ Hup) in Hx'. case_decide; [|congruence].
  by injection Hx' as ->.
Qed.

Lemma responded_let_in s0 s from d e y q data sb s' i x x' :
  server_wf s0 → responded s0 from q data e s' → (∀ j, slot_at s0 j = slot_at s j) →
  sv_challengeKey s0 = sv_challengeKey s → em_at (sv_encryptionManager s) e = Some y →
  Equal (mp_address y) from = true →
  d = sealed_packet (mp_receiveKey y) (sc_protocolID (sv_config s)) connectionResponsePacket sb
        (enc_body (Response q data)) →
  slot_at s i = Some x → sl_connected x = false → slot_at s' i = Some x' → sl_connected x' = true →
  let_in s from d x'.
Proof.
  intros Hwf Hresp Hat Hck Hy Ha Hd Hx Hc Hx' Hc'. rewrite <-Hat in Hx.
  destruct Hresp as [s' Hreq _|j z timeout token s' Hseal Hfree Hid Hj Hz Hzc Hadm].
  { rewrite (rq_slots _ _ _ Hreq), Hx in Hx'. injection Hx' as <-. congruence. }
  destruct (slot_updated_connected _ _ _ _ i x x' (am_slot _ _ _ _ _ _ _ _ _ Hadm) Hx Hc Hx' Hc')
    as [-> ->].
  rewrite Hx in Hz. injection Hz as <-.
  destruct (sx_free _ (sw_slots _ Hwf _ _ Hx) Hc) as (_ & _ & _ & _ & Hrp & _ & Hq & _).
  split; [|split; [done|]|done].
  - exists y, token, q, data, sb. rewrite <-Hck. split_and!; try done.
    intros k w Hw. apply (Hid k). by rewrite Hat.
  - intros k w Hw. apply (Hfree k). by rewrite Hat.
Qed.

(** A packet of the client in slot [j] changes no other slot. *)
Lemma client_packet_slots s from sequence e j z p s' i x' :
  handled s from sequence e j p s' → slot_at s j = Some z → sl_connected z = true →
  Equal (sl_address z) from = true → slot_at s' i = Some x' → i = j ∨ slot_at s i = Some x'.
Proof.
  intros Hh Hz Hc Ha Hx'. destruct (decide (i = j)) as [|Hij]; [by left|right].
  destruct Hh as [p|r s' H|q data s' H|? ? w s' Hw H|? w ? ? s' Hw _ H|w s' Hw H]; try done.
  - by rewrite (rq_slots _ _ _ H) in Hx'.
  - destruct H as [s' H _|k w ? ? s' _ Hfree]; [by rewrite (rq_slots _ _ _ H) in Hx'|].
    rewrite (Hfree j z Hz Hc) in Ha. done.
  - by rewrite (su_at _ _ _ _ (so_slot _ _ _ _ H)), decide_False in Hx' by done.
  - by rewrite (su_at _ _ _ _ (so_slot _ _ _ _ H)), decide_False in Hx' by done.
  - by rewrite (su_at _ _ _ _ (dc_slot _ _ _ _ _ _ H)), decide_False in Hx' by done.
Qed.

(** C1. Admission: a datagram connects the client of a slot only if it is a
    connection response sealed under the receive key of an encryption mapping
    for its source address, and the challenge token it carries was sealed under
    the server's own challenge key; the client's id and user data are those of
    that token, no connected client had this address or this id, and the slot
    starts with an empty queue, an empty replay window and unconfirmed. *)
Theorem server_admits_only_challenged (s s' : Server) (now now' : Z) (from : Address) (d : list byte)
  (i : Z) (x x' : slot)
  (Hwf : server_wf s) (Hrun : ServerOps.ProcessPacket now now' from d s = Some (tt, s'))
  (Hx : slot_at s i = Some x) (Hc : sl_connected x = false)
  (Hx' : slot_at s' i = Some x') (Hc' : sl_connected x' = true) :
  let_in s from d x'.
Proof.
  apply processed_run in Hrun; [|done].
  destruct Hrun as [|e m Hfree Hf|s0 ? ? ? s' _ _ H0 _ H1|e m y ? sb ? p s' Hfree Hf Hy Ha Hd _ Hb Hh
    |j z y ? sb ? p rp s1 s' Hz Hn Hza Hy Ha Hd _ _ Hb _ _ H1 Hh].
  - congruence.
  - change (slot_at s i = Some x') in Hx'. congruence.
  - rewrite (rq_slots _ _ _ H1), (rq_slots _ _ _ H0) in Hx'. congruence.
  - pose proof (found_requested s from e m Hwf Hfree Hf) as H0. destruct (Hb p eq_refl) as (Hty & -> & _).
    destruct Hh as [p|r s' H|q data s' H|? ? w s' Hw H|? w ? ? s' Hw _ H|w s' Hw H].
    + change (slot_at s i = Some x') in Hx'. congruence.
    + rewrite (rq_slots _ _ _ H), (rq_slots _ _ _ H0) in Hx'. congruence.
    + rewrite <-Hty in Hd. eapply (responded_let_in (with_mappings s m) s from d e y q data sb s' i x x');
        try done. apply H0.
    + apply slot_at_range in Hw; [lia|apply H0].
    + apply slot_at_range in Hw; [lia|apply H0].
    + apply slot_at_range in Hw; [lia|apply H0].
  - exfalso. destruct (decide (i = j)) as [->|Hij].
    { rewrite Hx in Hz. injection Hz as ->. destruct Hn. congruence. }
    assert (slot_at s1 i = Some x) as Hx1 by (by rewrite (su_at _ _ _ _ (so_slot _ _ _ _ H1)), decide_False).
    destruct p as [p|]; [|subst s'; congruence].
    pose proof (slot_updated_at _ _ _ _ (so_slot _ _ _ _ H1)) as Hz1.
    destruct (client_packet_slots s1 from _ _ j _ p s' i x' Hh Hz1 (proj1 Hn) Hza) as [Hs|Hs]; congruence.
Qed.

(** ** Forgeries *)

(** The datagram is a connection request sealed under the private key, or a
    packet sealed under the receive key of a mapping for its source. *)
Definition authentic (s : Server) (from : Address) (d : list byte) : Prop :=
  (∃ expire nonce plaintext, d = sealed_request (sc_privateKey (sv_config s))
     (sc_protocolID (sv_config s)) expire nonce plaintext) ∨
  (∃ e y type sequenceBytes plaintext, em_at (sv_encryptionManager s) e = Some y ∧
     Equal (mp_address y) from = true ∧
     d = sealed_packet (mp_receiveKey y) (sc_protocolID (sv_config s)) type sequenceBytes plaintext).

(** What a forgery may do to the mappings: nothing, or the last access time of
    the first live mapping for its source becomes the server's time. *)
Definition refreshed (s : Server) (from : Address) (m : encryptionManager) : Prop :=
  m = sv_encryptionManager s ∨
  ∃ e y, em_at (sv_encryptionManager s) e = Some y ∧ live_for y from (sv_time s) = true ∧
    (∀ j z, 0 ≤ j < e → em_at (sv_encryptionManager s) j = Some z → live_for z from (sv_time s) = false) ∧
    m = (sv_encryptionManager s) <| em_lastAccessTime :=
          ainsert e (sv_time s) (em_lastAccessTime (sv_encryptionManager s)) |>.
Lemma forgery_ignored s now now' from d :
  server_wf s → ¬ authentic s from d →
  ∃ m, ServerOps.ProcessPacket now now' from d s = Some (tt, with_mappings s m) ∧ refreshed s from m ∧
    (∀ e y, em_at (sv_encryptionManager s) e = Some y →
      ∃ t, em_at m e = Some (y <| mp_lastAccessTime := t |>)) ∧ server_wf (with_mappings s m).
Proof.
  intros Hwf Hforged. pose proof (readAndProcessPacket_wp s now now' from d Hwf) as H.
  apply wp_inv in H as ([] & s' & Hrun & Hp & _). unfold ServerOps.ProcessPacket.
  assert (server_wf s') as Hwf' by (by eapply processed_kept).
  destruct Hp as [|e m Hfree Hf|s0 ? ? ? s' Hd _ H0 _ H1|e m y ? sb ? p s' Hfree Hf Hy Ha Hd _ Hb Hh
    |j z y ? sb ? p rp s1 s' Hz Hn Hza Hy Ha Hd _ _ Hb _ _ H1 Hh].
  - exists (sv_encryptionManager s). rewrite with_mappings_same. split_and!; [done|by left| |done].
    intros e y Hy. exists (mp_lastAccessTime y). by destruct y.
  - destruct (fd_at _ _ _ _ _ Hf) as (y & Hy & Hlive & Hup). exists m. split_and!; [done| | |done].
    { right. exists e, y. split_and!; [done|done|apply (fd_first _ _ _ _ _ Hf)|apply (fd_exact _ _ _ _ _ Hf)]. }
    intros k z Hz. rewrite (up_at _ _ _ _ Hup). case_decide as Hk; [|exists (mp_lastAccessTime z); by destruct z].
    subst k. rewrite Hy in Hz. injection Hz as <-. by eexists.
  - destruct Hforged. left. eauto.
  - destruct Hforged. right. eauto 10.
  - destruct Hforged. right. eauto 10.
Qed.


(** ** Replies *)
Lemma handled_replies s from sequence e i p s' :
  handled s from sequence e i p s' → valid_encrypted p →
  replies s s' from (if bool_decide (packetType p = connectionResponsePacket) then 33 else 0).
Proof.
  intros Hh Hv. destruct Hh as [p|r s' H|q data s' H|? ? w s' Hw H|? w ? ? s' Hw _ H|w s' Hw H]; try done.
  - by apply replies_none.
  - cbn [packetType]. rewrite bool_decide_eq_true_2 by done.
    destruct H as [s' _ H|? ? ? ? s' _ _ _ _ _ _ H]; [eapply replies_weaken, H; lia|apply H].
  - apply replies_none, H.
  - apply replies_none, H.
  - destruct (dc_events _ _ _ _ _ _ H) as (evs & He & _ & Hd). exists evs. auto.
Qed.
Lemma length_sealed_body key pid p sb :
  length key = KeyBytes → valid_encrypted p →
  ((if bool_decide (packetType p = connectionResponsePacket) then 33 else 0) <
   length (sealed_packet key pid (packetType p) sb (enc_body p)))%nat.
Proof.
  intros Hk Hv. rewrite length_sealed_packet by done. case_bool_decide as Hty; [|lia].
  destruct p; try done. destruct Hv as [_ Hl]. cbn [enc_body]. rewrite length_app, length_le_split, Hl.
  clia.
Qed.
Lemma replies_shorter s s' from n (d : list byte) :
  replies s s' from n → (n < length d)%nat →
  ∃ evs, sv_events s' = sv_events s ++ evs ∧
    (datagrams evs = [] ∨ ∃ r, datagrams evs = [(from, r)] ∧ (length r < length d)%nat).
Proof.
  intros (evs & He & [Hd|(r & Hd & Hl)]) Hn; exists evs; split; auto. right. exists r. split; [done|lia].
Qed.

(** C15. No amplification: whatever datagram the server processes, it answers with
    at most one datagram, to the source address, and the answer is strictly
    shorter than the datagram. *)
Theorem server_never_amplifies (s s' : Server) (now now' : Z) (from : Address) (d : list byte)
  (Hwf : server_wf s) (Hrun : ServerOps.ProcessPacket now now' from d s = Some (tt, s')) :
  ∃ evs, sv_events s' = sv_events s ++ evs ∧
    (datagrams evs = [] ∨ ∃ r, datagrams evs = [(from, r)] ∧ (length r < length d)%nat).
Proof.
  apply processed_run in Hrun; [|done].
  destruct Hrun as [|e m Hfree Hf|s0 ? ? ? s' _ Hl H0 Hev H1|e m y ? sb ? p s' Hfree Hf Hy Ha Hd _ Hb Hh
    |j z y ? sb ? p rp s1 s' Hz Hn Hza Hy Ha Hd _ _ Hb _ _ H1 Hh].
  - exists []. rewrite app_nil_r. auto.
  - exists []. rewrite app_nil_r. auto.
  - rewrite <-Hev. eapply replies_shorter; [apply H1|]. rewrite Hl. unfold requestPacketBytes. clia.
  - destruct (Hb p eq_refl) as (<- & -> & Hv). change (sv_events s) with (sv_events (with_mappings s m)).
    eapply replies_shorter; [by eapply handled_replies|]. rewrite Hd. apply length_sealed_body; [|done].
    by apply (ew_keys _ (sw_em _ Hwf) _ _ Hy).
  - destruct p as [p|]; [|subst s'; rewrite (so_events _ _ _ _ H1); exists []; rewrite app_nil_r; auto].
    destruct (Hb p eq_refl) as (<- & -> & Hv). rewrite <-(so_events _ _ _ _ H1).
    eapply replies_shorter; [by eapply handled_replies|]. rewrite Hd. apply length_sealed_body; [|done].
    by apply (ew_keys _ (sw_em _ Hwf) _ _ Hy).
Qed.

(** ** Payloads *)
Lemma sealed_packet_inj key key' pid pid' type type' sb sb' plain plain' :
  sealed_packet key pid type sb plain = sealed_packet key' pid' type' sb' plain' →
  0 ≤ type < connectionNumPackets → 0 ≤ type' < connectionNumPackets →
  (1 ≤ length sb ≤ 8)%nat → (1 ≤ length sb' ≤ 8)%nat → type = type' ∧ sb = sb'.
Proof.
  unfold sealed_packet. intros [= Hp Hr] H1 H2 H3 H4. apply (f_equal byte.unsigned) in Hp.
  rewrite !byte_of_Z_u8 in Hp by (unfold prefix_byte; split; clia).
  pose proof (prefix_byte_fields type (Z.of_nat (length sb)) ltac:(clia) ltac:(lia)) as [F1 F2].
  pose proof (prefix_byte_fields type' (Z.of_nat (length sb')) ltac:(clia) ltac:(lia)) as [F1' F2'].
  rewrite Hp in F1, F2. assert (length sb = length sb') as Hl by lia.
  apply app_inj_1 in Hr as [Hr _]; [|done]. split; [congruence|done].
Qed.
Lemma sealed_packet_request key key' pid pid' type sb plain expire nonce plain' :
  0 ≤ type < connectionNumPackets → (1 ≤ length sb ≤ 8)%nat →
  sealed_packet key pid type sb plain ≠ sealed_request key' pid' expire nonce plain'.
Proof.
  intros H1 H2 [= Hp _]. apply (f_equal byte.unsigned) in Hp.
  rewrite !byte_of_Z_u8 in Hp by (unfold prefix_byte; split; clia). unfold prefix_byte in Hp. clia.
Qed.

(** A connected client, and the mapping it owns. *)
Record client_at (s : Server) (i : Z) (x : slot) (y : mapping) (from : Address) : Prop := {
  ca_slot : slot_at s i = Some x;
  ca_network : network x;
  ca_address : Equal (sl_address x) from = true;
  ca_mapping : em_at (sv_encryptionManager s) (sl_encryptionIndex x) = Some y;
}.

Section payload.
Context (s : Server) (i : Z) (x : slot) (y : mapping) (from : Address) (data sb : list byte).
Context (Hwf : server_wf s) (Hrunning : sv_running s = true) (Hclient : client_at s i x y from).
Context (Hdata : valid_encrypted (Payload data)) (Hsb : (1 ≤ length sb ≤ 8)%nat).
Context (Hfresh : Replay.alreadyReceived (sl_replay x) (le_combine sb) = Some false).

Let d := sealed_packet (mp_receiveKey y) (sc_protocolID (sv_config s)) connectionPayloadPacket sb
           (enc_body (Payload data)).

Lemma payload_processed_wp now now' :
  wp (ServerOps.ProcessPacket now now' from d) (λ _ s', ∃ rp b q,
    Replay.advanceSequence (le_combine sb) (sl_replay x) = Some rp ∧
    Queue.push data (le_combine sb) (sl_queue x) = Some (b, q) ∧
    slot_only s i (x <| sl_replay := rp |> <| sl_lastReceive := sv_time s |>
                     <| sl_confirmed := true |> <| sl_queue := q |>) s') s.
Proof.
  destruct Hclient as [Hx Hn Ha Hy]. pose proof (sw_slots _ Hwf _ _ Hx) as Hloc.
  destruct (ew_keys _ (sw_em _ Hwf) _ _ Hy) as [_ Hk].
  destruct (advanceSequence_total (sl_replay x) (le_combine sb) (sx_replay _ Hloc)) as (rp & Hrp & Hrpwf).
  unfold ServerOps.ProcessPacket. eapply (read_prefix_client s now now' from d i x y); try done.
  { unfold d. rewrite length_sealed_packet by done. clia. }
  unfold client_block. apply wp_bind. eapply wp_lift.
  { unfold d. change connectionPayloadPacket with (packetType (Payload data)).
    apply (readPacket_sealed (mp_receiveKey y)) with (replay' := Some rp); try done.
    cbn [replay_advance packetType]. by rewrite Hrp. }
  cbn [rd_replay rd_packet rd_sequence]. apply wp_bind.
  eapply wp_mono; [apply (replay_wp s i x); [done|done|apply Hn|done|destruct Hn; congruence]|].
  intros [] s1 H1. unfold ServerOps.processPacketInternal. apply wp_bind, wp_gets.
  assert (i ≠ -1) as Hi. { pose proof (slot_at_range _ _ _ (sw_shape _ Hwf) Hx). lia. }
  destruct (Z.eqb_spec i (-1)); [done|]. cbn [negb]. apply wp_bind.
  eapply wp_mono; [eapply (confirmClient_wp s1 i); [apply H1|by eapply slot_updated_at, H1|apply Hn]|].
  intros [] s2 H2. eapply wp_mono.
  { eapply (pushPacket_wp s2 i); [apply H2|by eapply slot_updated_at, H2|apply Hn]. }
  intros [] s3 (b & q & Hq & H3). exists rp, b, q. split; [done|]. split; [exact Hq|].
  eapply slot_only_trans; [exact H1|]. eapply slot_only_trans; [exact H2|].
  unfold heard in H3. rewrite (sm_time _ _ (so_scalars _ _ _ _ H1)) in H3. exact H3.
Qed.
End payload.

(** A datagram of a connected client whose sequence number the window has
    already received does nothing. *)
Lemma replayed_ignored s i x y from type sb plain now now' :
  server_wf s → client_at s i x y from → connectionKeepAlivePacket ≤ type < connectionNumPackets →
  (1 ≤ length sb ≤ 8)%nat → Replay.alreadyReceived (sl_replay x) (le_combine sb) = Some true →
  let d := sealed_packet (mp_receiveKey y) (sc_protocolID (sv_config s)) type sb plain in
  ServerOps.ProcessPacket now now' from d s = Some (tt, s).
Proof.
  intros Hwf [Hx Hn Ha Hy] Hty Hsb Hrec d.
  pose proof (readAndProcessPacket_wp s now now' from d Hwf) as H.
  apply wp_inv in H as ([] & s' & Hrun & Hp & _). unfold ServerOps.ProcessPacket. rewrite Hrun.
  assert (¬ address_free s from) as Hnf.
  { intros Hfree. rewrite (Hfree i x Hx (proj1 Hn)) in Ha. done. }
  destruct Hp as [|e m Hfree Hf|s0 ? ? ? s' Hd|e m y' ? sb' ? p s' Hfree
    |j z y' type' sb' plain' p rp s1 s' Hz Hnz Hza Hy' _ Hd Hsb' Hty' _ Hchk]; try done.
  - by apply sealed_packet_request in Hd; [|clia|].
  - assert (j = i) as ->.
    { apply (lk_distinct _ (sw_linked _ Hwf) j i z x Hz Hx Hnz Hn). apply Equal_spec.
      apply Equal_spec in Ha, Hza. by rewrite Hza. }
    rewrite Hx in Hz. injection Hz as <-.
    destruct (sealed_packet_inj _ _ _ _ _ _ _ _ _ _ Hd) as [<- <-]; [clia|done..|].
    unfold replay_check in Hchk. rewrite Z.geb_leb in Hchk.
    destruct (Z.leb_spec connectionKeepAlivePacket type); [congruence|lia].
Qed.

(** Delivery, at most once: a payload packet sealed under the receive key of a
    connected client, with a sequence number its replay window has not received
    and room in its queue, is appended to that client's queue with its sequence
    number, and changes no other slot and sends nothing; and processing the
    same datagram again, at any time, does nothing at all. *)
Theorem server_delivers_payload_once (s : Server) (i : Z) (x : slot) (y : mapping) (from : Address)
  (data sb : list byte) (l : list (list byte * Z)) (now now' : Z)
  (Hwf : server_wf s) (Hrunning : sv_running s = true) (Hclient : client_at s i x y from)
  (Hdata : (1 ≤ length data ≤ maxPayloadBytes)%nat) (Hsb : (1 ≤ length sb ≤ 8)%nat)
  (Hsequence : windowed (le_combine sb))
  (Hfresh : Replay.alreadyReceived (sl_replay x) (le_combine sb) = Some false)
  (Hqueue : queue_repr (sl_queue x) l) (Hroom : Z.of_nat (length l) < packetQueueSize) :
  let d := sealed_packet (mp_receiveKey y) (sc_protocolID (sv_config s)) connectionPayloadPacket sb data in
  ∃ s1 x1, ServerOps.ProcessPacket now now' from d s = Some (tt, s1) ∧
    slot_at s1 i = Some x1 ∧ queue_repr (sl_queue x1) (l ++ [(data, le_combine sb)]) ∧
    (∀ j, j ≠ i → slot_at s1 j = slot_at s j) ∧ sv_events s1 = sv_events s ∧
    ∀ later later', ServerOps.ProcessPacket later later' from d s1 = Some (tt, s1).
Proof.
  intros d.
  pose proof (payload_processed_wp s i x y from data sb Hwf Hrunning Hclient Hdata Hsb Hfresh now now') as H.
  apply wp_inv in H as ([] & s1 & Hrun & rp & b & q' & Hrp & Hpush & H1). destruct Hclient as [Hx Hn Ha Hy].
  destruct (push_room (sl_queue x) l data (le_combine sb) Hqueue Hroom) as (q & Hq' & Hq).
  rewrite Hq' in Hpush. injection Hpush as _ <-.
  pose proof (slot_updated_at _ _ _ _ (so_slot _ _ _ _ H1)) as Hx1.
  eexists s1, _. split_and!; [exact Hrun|exact Hx1|exact Hq| |apply H1|].
  - intros j Hj. by rewrite (su_at _ _ _ _ (so_slot _ _ _ _ H1)), decide_False by congruence.
  - intros later later'. unfold d. rewrite <-(sm_config _ _ (so_scalars _ _ _ _ H1)).
    eapply (replayed_ignored s1 i); [apply H1| |clia|done|].
    + split; [exact Hx1|done|done|]. by rewrite (so_em _ _ _ _ H1).
    + eapply advance_received; [apply (sx_replay _ (sw_slots _ Hwf _ _ Hx))|done|exact Hrp].
Qed.
End claims.

(** ** A concrete server: one client has gone through the handshake *)
Definition sample_server_config : serverConfig :=
  mkServerConfig 7 sample_key 30 false true true true true true.
Definition sample_new_server : Server :=
  ServerOps.new sample_server_config sample_ipv4 zeroAddress None None f64_1.
Definition sample_connect_request : list byte :=
  sealed_request (C := sample_crypto) sample_key 7 1030 (zeros connectTokenNonceBytes)
    (take (connectTokenPrivateBytes - MacBytes) (enc_private sample_private ++ zeros 1024)).
Definition sample_challenge_data : list byte :=
  Seal (chacha20poly1305 (CryptoLib := sample_crypto)) sample_key (packet_nonce 0) []
    (enc_challenge sample_challenge ++ zeros 20).
Definition sample_response : list byte :=
  sealed_packet (C := sample_crypto) (replicate KeyBytes (byte.of_Z 17)) 7 connectionResponsePacket
    [byte.of_Z 0] (enc_body (Response 0 sample_challenge_data)).
(** Start with four slots, the request, then the response. *)
Definition sample_challenged_ops : list server_op :=
  [OpServerStart 4 1000 sample_key;
   OpServerProcessPacket 1000 1000 sample_ipv6 sample_connect_request].
Definition sample_ops : list server_op :=
  sample_challenged_ops ++ [OpServerProcessPacket 1001 1001 sample_ipv6 sample_response].
(** The state after a run. *)
Definition after (m : M Server unit) (s : Server) : Server :=
  match m s with Some (_, s') => s' | None => s end.
Definition slot_or_fresh (s : Server) (i : Z) : slot :=
  match slot_at s i with Some x => x | None => fresh_slot end.
Definition sample_challenged : Server :=
  after (server_run (C := sample_crypto) sample_challenged_ops) sample_new_server.
Definition sample_server : Server :=
  after (ServerOps.ProcessPacket (C := sample_crypto) 1001 1001 sample_ipv6 sample_response) sample_challenged.
Definition sample_counted : Server :=
  after (server_run (C := sample_crypto) sample_ops) sample_new_server.
Definition sample_slot : slot := slot_or_fresh sample_server 0.
Definition sample_mapping : mapping :=
  match em_at (sv_encryptionManager sample_server) 0 with
  | Some y => y
  | None => mkMapping 0 f64_0 f64_0 zeroAddress 0 0 [] []
  end.

Lemma after_run m Q s : wp m Q s → m s = Some (tt, after m s) ∧ Q tt (after m s).
Proof. intros H. apply wp_inv in H as ([] & s' & Hr & HQ). unfold after. by rewrite Hr. Qed.
Lemma slot_or_fresh_at s i : server_wf s → 0 ≤ i < MaxClients → slot_at s i = Some (slot_or_fresh s i).
Proof.
  intros Hwf Hi. unfold slot_or_fresh. by destruct (slot_at_Some s i (sw_shape _ Hwf) Hi) as [x ->].
Qed.
Lemma sample_ops_ok : Forall (server_op_ok sample_server_config) sample_ops.
Proof. repeat constructor. Qed.
Lemma sample_challenged_ops_ok : Forall (server_op_ok sample_server_config) sample_challenged_ops.
Proof. repeat constructor. Qed.
Lemma sample_run_kept ops :
  Forall (server_op_ok sample_server_config) ops →
  wp (server_run (C := sample_crypto) ops) (λ _ s', kept sample_new_server s') sample_new_server.
Proof. intros Hops. by apply (new_run_kept (C := sample_crypto)). Qed.
Lemma sample_after_wf ops :
  Forall (server_op_ok sample_server_config) ops →
  server_run (C := sample_crypto) ops sample_new_server =
    Some (tt, after (server_run (C := sample_crypto) ops) sample_new_server) ∧
  server_wf (after (server_run (C := sample_crypto) ops) sample_new_server).
Proof.
  intros Hops. pose proof (after_run _ _ _ (sample_run_kept ops Hops)) as [H1 [H2 _]]. by split.
Qed.
Lemma sample_challenged_wf : server_wf sample_challenged.
Proof. exact (proj2 (sample_after_wf _ sample_challenged_ops_ok)). Qed.
Lemma process_after_wf {C : CryptoLib} {L : CryptoLaws C} s now now' from d :
  server_wf s →
  ServerOps.ProcessPacket now now' from d s = Some (tt, after (ServerOps.ProcessPacket now now' from d) s) ∧
  server_wf (after (ServerOps.ProcessPacket now now' from d) s).
Proof.
  intros Hwf. pose proof (after_run _ _ _ (readAndProcessPacket_wp s now now' from d Hwf)) as [H1 [H2 _]].
  split; [done|]. by eapply processed_kept.
Qed.
Lemma sample_server_run :
  ServerOps.ProcessPacket (C := sample_crypto) 1001 1001 sample_ipv6 sample_response sample_challenged =
    Some (tt, sample_server) ∧ server_wf sample_server.
Proof.
  exact (process_after_wf (C := sample_crypto) sample_challenged 1001 1001 sample_ipv6 sample_response
    sample_challenged_wf).
Qed.
Lemma sample_client_at : client_at sample_server 0 sample_slot sample_mapping sample_ipv6.
Proof.
  pose proof (proj2 sample_server_run) as Hwf. split.
  - by apply slot_or_fresh_at.
  - split; vm_compute; reflexivity.
  - vm_compute. reflexivity.
  - replace (sl_encryptionIndex sample_slot) with 0 by (vm_compute; reflexivity).
    unfold sample_mapping. by destruct (em_at_Some _ 0 (ew_shape _ (sw_em _ Hwf))) as [y ->].
Qed.

(** No datagram that short is authentic. *)
Lemma short_not_authentic {C : CryptoLib} {L : CryptoLaws C} s from d :
  server_wf s → (length d ≤ 16)%nat → ¬ authentic s from d.
Proof.
  intros Hwf Hl [(expire & nonce & plain & ->)|(e & y & type & sb & plain & Hy & _ & ->)].
  - unfold sealed_request in Hl. cbn [length] in Hl. rewrite !length_app, !length_le_split in Hl.
    change (length versionInfo) with 13%nat in Hl. lia.
  - rewrite length_sealed_packet in Hl by (by apply (ew_keys _ (sw_em _ Hwf) e y Hy)). clia.
Qed.

(** ** Witnesses *)
(** A server of the default configuration, and one with a loopback client. *)
Lemma server_never_panics_witness :
  (∃ s', server_run (C := sample_crypto)
     (sample_ops ++ [OpServerSendPacket 0 [byte.of_Z 1]; OpServerUpdate 1002 (mkServerArrivals [] [] []) (f64_of_Z 2);
                     OpServerClose])
     (ServerOps.new (mkServerConfig 7 sample_key 0 false false false false false false) sample_ipv4 zeroAddress
        (Some sample_ipv4) None f64_1) = Some (tt, s') ∧ server_wf s') ∧
  ∃ s', server_run (C := sample_crypto)
     [OpServerStart 4 1000 sample_key; OpServerConnectLoopback 1 9 []; OpServerSendPacket 1 [byte.of_Z 1]]
     sample_new_server = Some (tt, s') ∧ server_wf s'.
Proof.
  split; apply (server_never_panics (C := sample_crypto)); [reflexivity| |reflexivity|];
    by repeat (apply Forall_cons; split; [first [done|exact eq_refl]|]).
Defined.
Lemma server_counts_clients_witness :
  ServerOps.NumConnectedClients sample_counted = 1 ∧
  ∃ s', server_run (C := sample_crypto) sample_ops sample_new_server = Some (tt, s') ∧
    ServerOps.NumConnectedClients s' = count_true (sv_clientConnected s').
Proof.
  split; [vm_compute; reflexivity|].
  destruct (server_counts_clients (C := sample_crypto) sample_server_config sample_ipv4 zeroAddress
    None None f64_1 sample_ops eq_refl sample_ops_ok) as (s' & Hrun & Hcount & _).
  exists s'. exact (conj Hrun Hcount).
Defined.
Lemma server_admits_only_challenged_witness :
  sl_id sample_slot = 123456789 ∧ let_in (C := sample_crypto) sample_challenged sample_ipv6 sample_response sample_slot.
Proof.
  split; [vm_compute; reflexivity|].
  exact (server_admits_only_challenged (C := sample_crypto) sample_challenged sample_server 1001 1001
    sample_ipv6 sample_response 0 (slot_or_fresh sample_challenged 0) sample_slot sample_challenged_wf
    (proj1 sample_server_run) (slot_or_fresh_at _ 0 sample_challenged_wf ltac:(done))
    ltac:(vm_compute; reflexivity) (ca_slot _ _ _ _ _ sample_client_at)
    (proj1 (ca_network _ _ _ _ _ sample_client_at))).
Defined.
Lemma server_never_amplifies_witness :
  ∃ evs, sv_events sample_server = sv_events sample_challenged ++ evs ∧
    (datagrams evs = [] ∨ ∃ r, datagrams evs = [(sample_ipv6, r)] ∧
       (length r < length sample_response)%nat).
Proof.
  exact (server_never_amplifies (C := sample_crypto) sample_challenged sample_server 1001 1001
    sample_ipv6 sample_response sample_challenged_wf (proj1 sample_server_run)).
Defined.
(** The sample client with a timeout of five seconds, a minute later. *)
Definition sample_overdue : Server :=
  sample_server <| sv_clientTimeout := ainsert 0 5 (sv_clientTimeout sample_server) |>
                <| sv_time := f64_of_Z 62 |>.
Lemma timeout_wf s i x t :
  server_wf s → slot_at s i = Some x →
  server_wf (s <| sv_clientTimeout := ainsert i t (sv_clientTimeout s) |>).
Proof.
  intros Hwf Hx. pose proof (slot_at_inv _ _ _ Hx) as Hat. pose proof (sw_shape _ Hwf) as Hs.
  pose proof (slot_at_range _ _ _ Hs Hx) as Hi. pose proof (sw_slots _ Hwf _ _ Hx) as Hloc.
  eapply (server_wf_write s i x (x <| sl_timeout := t |>)); [done|done| |done| |by split|done|done].
  - destruct Hs as []. sv_updated Hat.
  - destruct Hloc. by split.
Qed.
Lemma sample_overdue_wf : server_wf sample_overdue.
Proof.
  apply time_kept. exact (timeout_wf sample_server 0 sample_slot 5 (proj2 sample_server_run)
    (ca_slot _ _ _ _ _ sample_client_at)).
Qed.
Lemma server_times_out_exactly_witness :
  ∃ s' x, ServerOps.checkForTimeouts (C := sample_crypto) sample_overdue = Some (tt, s') ∧ server_wf s' ∧
    slot_at sample_overdue 0 = Some x ∧ sl_connected x = true ∧
    slot_at s' 0 = Some (freed x DisconnectReasonTimedOut).
Proof.
  destruct (server_times_out_exactly (C := sample_crypto) sample_overdue sample_overdue_wf)
    as (s' & Hrun & Hwf & Hall).
  pose proof (slot_or_fresh_at sample_overdue 0 sample_overdue_wf ltac:(clia)) as Hx.
  assert (timed_out (sv_time sample_overdue) (slot_or_fresh sample_overdue 0) = true) as Ht
    by (vm_compute; reflexivity).
  assert (sl_connected (slot_or_fresh sample_overdue 0) = true) as Hc by (vm_compute; reflexivity).
  specialize (Hall 0 _ Hx). rewrite Ht in Hall. exists s', (slot_or_fresh sample_overdue 0).
  exact (conj Hrun (conj Hwf (conj Hx (conj Hc Hall)))).
Defined.
Lemma server_delivers_payload_once_witness :
  let d := sealed_packet (C := sample_crypto) (mp_receiveKey sample_mapping)
             (sc_protocolID (sv_config sample_server)) connectionPayloadPacket [byte.of_Z 5] [byte.of_Z 42] in
  ∃ s1 x1, ServerOps.ProcessPacket (C := sample_crypto) 1002 1002 sample_ipv6 d sample_server = Some (tt, s1) ∧
    slot_at s1 0 = Some x1 ∧ queue_repr (sl_queue x1) ([] ++ [([byte.of_Z 42], le_combine [byte.of_Z 5])]) ∧
    (∀ j, j ≠ 0 → slot_at s1 j = slot_at sample_server j) ∧ sv_events s1 = sv_events sample_server ∧
    ∀ later later', ServerOps.ProcessPacket (C := sample_crypto) later later' sample_ipv6 d s1 = Some (tt, s1).
Proof.
  apply (server_delivers_payload_once (C := sample_crypto) sample_server 0 sample_slot sample_mapping
    sample_ipv6 [byte.of_Z 42] [byte.of_Z 5] [] 1002 1002);
    [exact (proj2 sample_server_run)|vm_compute; reflexivity|exact sample_client_at
    |split; apply Nat.leb_le; reflexivity|simpl; lia
    |by split|vm_compute; reflexivity| |simpl; clia].
  replace (sl_queue sample_slot) with (Queue.clear (P := list byte)) by (vm_compute; reflexivity).
  apply queue_repr_clear.
Defined.
Lemma server_start_fresh_witness :
  ∃ s', ServerOps.Start (C := sample_crypto) 16 2000 sample_send_key sample_server = Some (tt, s') ∧ server_wf s' ∧
    if (1 <=? 16) && (16 <=? MaxClients)
    then sv_running s' = true ∧ sv_maxClients s' = 16 ∧ idle s' ∧
      sv_globalSequence s' = 2 ^ 63 ∧ sv_challengeKey s' = sample_send_key
    else s' = sample_server.
Proof.
  exact (server_start_fresh (C := sample_crypto) sample_server 16 2000 sample_send_key
    (proj2 sample_server_run) eq_refl).
Defined.
Lemma server_disconnects_exactly_witness :
  ∃ s', ServerOps.DisconnectClient (C := sample_crypto) 0 sample_server = Some (tt, s') ∧ server_wf s' ∧
    if ServerOps.in_slot_range 0 sample_server
    then ∀ j x, slot_at sample_server j = Some x →
      slot_at s' j = Some (if decide (j = 0) then
        if sl_connected x && negb (sl_loopback x) then freed x DisconnectReasonServerDisconnect else x
        else x)
    else s' = sample_server.
Proof.
  exact (server_disconnects_exactly (C := sample_crypto) sample_server 0 (proj2 sample_server_run)).
Defined.
