(* ===== verification/SessionMachine.v ===== *)
(** What the server promises of its sessions: an abstract machine whose steps are
    guarded, the steps each call of the API may take, and the distinctness of the
    sequence numbers in any run of it. Nothing here mentions the server's
    handlers; ServerSession proves that they follow the machine. *)

From S2P Require Import Prelude Constants Float64 Buffer Replay Queue Address Crypto.
From S2P Require Import Token Packet Encryption Socket Server ServerClaims.

(** ** The machine

    There is one stream of sequence numbers per slot, and a global one for packets
    to addresses that are not connected. *)
Inductive stream := Global | Slot (i : Z).
#[export] Instance stream_eq_dec : EqDecision stream.
Proof. solve_decision. Defined.

Record sessions := mkSessions {
  ab_running : bool;
  ab_maxClients : Z;
  ab_global : Z;
  ab_connected : list bool;
  ab_loopback : list bool;
  ab_address : list Address;
  ab_sequence : list Z;
}.
#[export] Instance eta_sessions : Eta sessions := λ v,
  mkSessions (ab_running v) (ab_maxClients v) (ab_global v) (ab_connected v) (ab_loopback v)
    (ab_address v) (ab_sequence v).

(** One step: packet [p] is sent as datagram [d] under number [n]; a payload goes
    to a loopback client; a client joins, from an address or over the loopback; a
    client leaves, by a datagram from an address or by a decision of the server;
    the server starts or stops. *)
Inductive action :=
| Send (st : stream) (n : Z) (to : Address) (p : packet) (d : list byte)
| Loop (i n : Z) (d : list byte)
| Join (i : Z) (who : option Address)
| Leave (i : Z) (by_ : option Address)
| StartUp (maxClients : Z)
| ShutDown.

(** The slot holds a network or a loopback client of a running server. *)
Definition occupied (v : sessions) (i : Z) (loopback : bool) : bool :=
  ab_running v && bool_decide (aget (ab_connected v) i = Some true) &&
  bool_decide (aget (ab_loopback v) i = Some loopback).
Definition vacant (v : sessions) (i : Z) : bool :=
  ab_running v && (0 <=? i) && (i <? ab_maxClients v) && bool_decide (aget (ab_connected v) i = Some false).
Definition may_leave (v : sessions) (i : Z) (by_ : option Address) : bool :=
  ab_running v && bool_decide (aget (ab_connected v) i = Some true) &&
  match by_ with
  | Some from => from_option (λ a, Equal a from) false (aget (ab_address v) i)
  | None => true
  end.
Definition first_global : Z := 2 ^ 63.
Definition assign (v : sessions) (i : Z) (connected loopback : bool) (a : Address) : sessions :=
  v <| ab_connected := ainsert i connected (ab_connected v) |>
    <| ab_loopback := ainsert i loopback (ab_loopback v) |>
    <| ab_address := ainsert i a (ab_address v) |>
    <| ab_sequence := ainsert i 0 (ab_sequence v) |>.

(** A packet takes the next number of its stream, and on the stream of a slot it
    goes to the address of the network client there. A client joins only a vacant
    slot below maxClients; it leaves only while it is there, and by a datagram only
    from its own address. The server starts only when stopped, and stops only with
    all slots free. Numbers start anew only at those four steps. *)
Definition act (v : sessions) (a : action) : option sessions :=
  match a with
  | Send Global n _ _ _ =>
      if ab_running v && (ab_global v =? n) then Some (v <| ab_global := u64 (n + 1) |>) else None
  | Send (Slot i) n to _ _ =>
      if occupied v i false && bool_decide (aget (ab_address v) i = Some to) &&
         bool_decide (aget (ab_sequence v) i = Some n)
      then Some (v <| ab_sequence := ainsert i (u64 (n + 1)) (ab_sequence v) |>) else None
  | Loop i n _ =>
      if occupied v i true && bool_decide (aget (ab_sequence v) i = Some n)
      then Some (v <| ab_sequence := ainsert i (u64 (n + 1)) (ab_sequence v) |>) else None
  | Join i who =>
      if vacant v i
      then Some (assign v i true (negb (is_some who)) (default zeroAddress who)) else None
  | Leave i by_ =>
      if may_leave v i by_ then Some (assign v i false false zeroAddress) else None
  | StartUp n =>
      if negb (ab_running v) && (1 <=? n) && (n <=? MaxClients)
      then Some (v <| ab_running := true |> <| ab_maxClients := n |> <| ab_global := first_global |>)
      else None
  | ShutDown =>
      if ab_running v && forallb negb (ab_connected v)
      then Some (v <| ab_running := false |> <| ab_maxClients := 0 |> <| ab_global := first_global |>)
      else None
  end.
Fixpoint acts (v : sessions) (l : list action) : option sessions :=
  match l with [] => Some v | a :: l => v ← act v a; acts v l end.
Lemma acts_app v l l' : acts v (l ++ l') = v ← acts v l; acts v l'.
Proof.
  revert v. induction l as [|a l IH]; intros v; [done|]. simpl. destruct (act v a); [apply IH|done].
Qed.

(** ** The steps of each call *)

(** The packet type in the first byte of a datagram. *)
Definition kind (d : list byte) : Z :=
  match d with b :: _ => Z.land (byte.unsigned b) 0xF | [] => -1 end.
(** A challenge answers a request; a denial answers a request or a response. *)
Definition reply (k : Z) (p : packet) : Prop :=
  match p with
  | Challenge_ _ _ => k = connectionRequestPacket
  | Denied => k = connectionRequestPacket ∨ k = connectionResponsePacket
  | _ => False
  end.
(** One datagram [d] from [from]: nothing, one reply to that address, the
    admission of that address, greeted by at most one keep alive, or the departure
    of its client. *)
Inductive answered (from : Address) (d : list byte) : list action → Prop :=
| answered_nothing : answered from d []
| answered_reply n p r : reply (kind d) p → answered from d [Send Global n from p r]
| answered_join i : kind d = connectionResponsePacket → answered from d [Join i (Some from)]
| answered_greet i n j m r : kind d = connectionResponsePacket →
    answered from d [Join i (Some from); Send (Slot i) n from (KeepAlive j m) r]
| answered_leave i : kind d = connectionDisconnectPacket → answered from d [Leave i (Some from)].

(** Steps for some of the slots, once each and in order. *)
Definition per_slot (P : Z → list action → Prop) (l : list action) : Prop :=
  ∃ ixs ls, sublist ixs (seqZ 0 MaxClients) ∧ Forall2 P ixs ls ∧ l = concat ls.
Definition kept_alive (i : Z) (l : list action) : Prop :=
  ∃ n to m d, l = [Send (Slot i) n to (KeepAlive (i32 i) m) d].
Definition dropped (i : Z) (l : list action) : Prop := l = [Leave i None].
(** Ten disconnect packets, and the client is gone. *)
Definition goodbye (i : Z) (a : action) : Prop := ∃ n to d, a = Send (Slot i) n to Disconnect d.
Definition farewell (i : Z) (l : list action) : Prop :=
  ∃ sends, length sends = Z.to_nat numDisconnectPackets ∧ Forall (goodbye i) sends ∧ l = sends ++ [Leave i None].
Definition stopping (v : sessions) (l : list action) : Prop :=
  if ab_running v
  then ∃ l1 l2, per_slot farewell l1 ∧ per_slot dropped l2 ∧ l = (l1 ++ l2) ++ [ShutDown]
  else l = [].

(** The datagrams that Update takes from where the configuration says. *)
Definition arrived (c : serverConfig) (h : socketHolder) (arr : serverArrivals) : list serverArrival :=
  if sc_networkSimulator c then take serverMaxReceivePackets (sa_simulator arr)
  else if sc_overrideSendAndReceive c then sa_override arr
  else if is_some (sh_ipv4 h) || is_some (sh_ipv6 h) then sa_sockets arr else [].
Definition payload_size (d : list byte) : bool :=
  negb (bool_decide (length d ≤ 0)%nat || bool_decide (MaxPacketSize < length d)%nat).

(** [allowed c h v op l v']: from [v] to [v'], the call [op] may take the steps
    [l]. *)
Definition allowed (c : serverConfig) (h : socketHolder) (v : sessions) (op : server_op)
  (l : list action) (v' : sessions) : Prop :=
  match op with
  | OpServerStart n _ _ =>
      if (n <=? 0) || (n >? MaxClients) then l = [] else ∃ l0, stopping v l0 ∧ l = l0 ++ [StartUp n]
  | OpServerStop | OpServerClose => stopping v l
  | OpServerUpdate _ arr _ => ∃ ls l2 l3,
      Forall2 (λ a, answered (rp_from (sa_packet a)) (rp_data (sa_packet a))) (arrived c h arr) ls ∧
      per_slot kept_alive l2 ∧ per_slot dropped l3 ∧ l = concat ls ++ l2 ++ l3
  | OpServerProcessPacket _ _ from d => answered from d l
  | OpServerSendPacket i d =>
      if payload_size d && occupied v i true then ∃ n, l = [Loop i n d]
      else if payload_size d && occupied v i false then ∃ greeting n to r,
        (greeting = [] ∨ kept_alive i greeting) ∧ l = greeting ++ [Send (Slot i) n to (Payload d) r]
      else l = []
  | OpServerReceivePacket _ | OpServerProcessLoopback _ _ _ => l = []
  | OpServerDisconnectClient i => if occupied v i false then farewell i l else l = []
  | OpServerDisconnectAllClients => per_slot farewell l ∧ ∀ i, occupied v' i false = false
  | OpServerConnectLoopback i _ _ => if vacant v i then l = [Join i None] else l = []
  | OpServerDisconnectLoopback i => if occupied v i true then l = [Leave i None] else l = []
  end.

(** A run of the machine under a sequence of calls. *)
Inductive session_run (c : serverConfig) (h : socketHolder)
  : sessions → list server_op → list action → sessions → Prop :=
| session_done v : session_run c h v [] [] v
| session_call v op ops l l' v1 v' :
    acts v l = Some v1 → allowed c h v op l v1 → session_run c h v1 ops l' v' →
    session_run c h v (op :: ops) (l ++ l') v'.
Lemma session_run_acts c h v ops l v' : session_run c h v ops l v' → acts v l = Some v'.
Proof. induction 1 as [|v op ops l l' v1 v' Ha _ _ IH]; [done|]. by rewrite acts_app, Ha. Qed.

(** ** How many steps a call may take *)
Definition budget (c : serverConfig) (h : socketHolder) (op : server_op) : Z :=
  4096 + match op with OpServerUpdate _ arr _ => 2 * Z.of_nat (length (arrived c h arr)) | _ => 0 end.
Fixpoint total_budget (c : serverConfig) (h : socketHolder) (ops : list server_op) : Z :=
  match ops with [] => 0 | op :: ops => budget c h op + total_budget c h ops end.

Lemma length_concat_le {A B : Type} (P : A → list B → Prop) (k : nat) xs ls :
  (∀ x l, P x l → (length l ≤ k)%nat) → Forall2 P xs ls → (length (concat ls) ≤ k * length xs)%nat.
Proof.
  intros Hk. induction 1 as [|x l xs ls Hl _ IH]; simpl; [lia|]. rewrite length_app.
  specialize (Hk x l Hl). lia.
Qed.
Lemma per_slot_length (P : Z → list action → Prop) (k : nat) l :
  (∀ i l, P i l → (length l ≤ k)%nat) → per_slot P l → (length l ≤ k * 256)%nat.
Proof.
  intros Hk (ixs & ls & Hsub & Hall & ->). apply sublist_length in Hsub.
  pose proof (length_concat_le _ k _ _ Hk Hall) as Hle.
  change (length (seqZ 0 MaxClients)) with 256%nat in Hsub. nia.
Qed.
Lemma answered_length from d l : answered from d l → (length l ≤ 2)%nat.
Proof. destruct 1; simpl; lia. Qed.
Lemma farewell_length i l : farewell i l → (length l ≤ 11)%nat.
Proof.
  intros (sends & Hn & _ & ->). rewrite length_app, Hn. change (Z.to_nat numDisconnectPackets) with 10%nat.
  simpl. lia.
Qed.
Lemma kept_alive_length i l : kept_alive i l → (length l ≤ 1)%nat.
Proof. intros (n & to & m & d & ->). done. Qed.
Lemma dropped_length i l : dropped i l → (length l ≤ 1)%nat.
Proof. by intros ->. Qed.
Lemma stopping_length v l : stopping v l → (length l ≤ 3073)%nat.
Proof.
  unfold stopping. destruct (ab_running v); [|intros ->; simpl; lia]. intros (l1 & l2 & H1 & H2 & ->).
  apply (per_slot_length _ 11) in H1; [|apply farewell_length].
  apply (per_slot_length _ 1) in H2; [|apply dropped_length]. rewrite !length_app. simpl. lia.
Qed.
Lemma allowed_length c h v op l v' : allowed c h v op l v' → Z.of_nat (length l) ≤ budget c h op.
Proof.
  unfold budget. destruct op; cbn [allowed].
  - case_match; [intros ->; simpl; lia|]. intros (l0 & Hl%stopping_length & ->). rewrite length_app. simpl. lia.
  - intros Hl%stopping_length. lia.
  - intros Hl%stopping_length. lia.
  - intros (ls & l2 & l3 & H1 & H2 & H3 & ->).
    apply (length_concat_le _ 2) in H1; [|intros a l' Ha; by eapply answered_length].
    apply (per_slot_length _ 1) in H2; [|apply kept_alive_length].
    apply (per_slot_length _ 1) in H3; [|apply dropped_length]. rewrite !length_app. lia.
  - intros Hl%answered_length. lia.
  - case_match; [intros (n & ->); simpl; lia|]. case_match; [|intros ->; simpl; lia].
    intros (g & n & to & r & Hg & ->). rewrite length_app. simpl.
    destruct Hg as [->|Hg%kept_alive_length]; simpl; lia.
  - intros ->. simpl. lia.
  - case_match; [intros Hl%farewell_length|intros ->; simpl]; lia.
  - intros [Hl%(per_slot_length _ 11) _]; [lia|apply farewell_length].
  - case_match; intros ->; simpl; lia.
  - case_match; intros ->; simpl; lia.
  - intros ->. simpl. lia.
Qed.
Lemma session_run_length c h v ops l v' :
  session_run c h v ops l v' → Z.of_nat (length l) ≤ total_budget c h ops.
Proof.
  induction 1 as [|v op ops l l' v1 v' _ Hl _ IH]; simpl; [lia|]. rewrite length_app.
  apply allowed_length in Hl. lia.
Qed.

(** ** Sequence numbers

    What a step does to the streams: it takes a number from one, or it starts one
    anew. *)
Inductive effect := Takes (st : stream) (n : Z) | Restarts (st : stream).
Definition effect_of (a : action) : effect :=
  match a with
  | Send st n _ _ _ => Takes st n
  | Loop i n _ => Takes (Slot i) n
  | Join i _ | Leave i _ => Restarts (Slot i)
  | StartUp _ | ShutDown => Restarts Global
  end.
(** The numbers taken, each with its stream and with the number of the connection,
    or of the session for the global stream. *)
Definition bump (st : stream) (epoch : stream → nat) : stream → nat :=
  λ st', if decide (st = st') then S (epoch st') else epoch st'.
Fixpoint uses (epoch : stream → nat) (l : list action) : list (stream * nat * Z) :=
  match l with
  | [] => []
  | a :: l => match effect_of a with
              | Takes st n => (st, epoch st, n) :: uses epoch l
              | Restarts st => uses (bump st epoch) l
              end
  end.
(** The streams draw from two halves of the 64 bit numbers. *)
Definition base (st : stream) : Z := match st with Global => first_global | Slot _ => 0 end.
Definition next (v : sessions) (st : stream) : option Z :=
  match st with Global => Some (ab_global v) | Slot i => aget (ab_sequence v) i end.
(** No stream can wrap within [k] more numbers. *)
Definition roomy (v : sessions) (k : Z) : Prop :=
  k < 2 ^ 63 ∧ ∀ st n, next v st = Some n → base st ≤ n ∧ n + k < base st + 2 ^ 63.
(** From [v] to [v'], stream [st0] went to [x], the others stayed. *)
Definition moved (v v' : sessions) (st0 : stream) (x : Z) : Prop :=
  ∀ st m, next v' st = Some m → (st = st0 ∧ m = x) ∨ (st ≠ st0 ∧ next v st = Some m).

Lemma moved_slot v v' i x y b :
  aget (ab_connected v) i = Some b ∨ aget (ab_sequence v) i = Some y →
  ab_sequence v' = ainsert i x (ab_sequence v) → ab_global v' = ab_global v → moved v v' (Slot i) x.
Proof.
  intros Hi Hs Hg [|j] m; simpl; [rewrite Hg; by right|]. rewrite Hs. intros H.
  assert (0 ≤ i) as Hi0 by (destruct Hi as [Hi|Hi]; apply aget_range in Hi; lia).
  destruct (aget_ainsert_some _ _ _ _ _ Hi0 H) as [[<- ->]|[Hne ?]]; [by left|right].
  split; [congruence|done].
Qed.
Lemma moved_global v v' x :
  ab_global v' = x → ab_sequence v' = ab_sequence v → moved v v' Global x.
Proof. intros <- Hs [|j] m; simpl; [intros [= <-]; by left|rewrite Hs; by right]. Qed.
Ltac guards :=
  repeat match goal with
  | H : (if ?b then _ else None) = Some _ |- _ => destruct b eqn:?; [|done]
  | H : _ && _ = true |- _ => apply andb_true_iff in H as [? ?]
  | H : bool_decide _ = true |- _ => apply bool_decide_eq_true in H
  | H : (_ =? _) = true |- _ => apply Z.eqb_eq in H
  | H : Some _ = Some _ |- _ => injection H as H
  end.
Lemma act_moves v a v' :
  act v a = Some v' →
  match effect_of a with
  | Takes st n => next v st = Some n ∧ moved v v' st (u64 (n + 1))
  | Restarts st => moved v v' st (base st)
  end.
Proof.
  intros Ha. destruct a as [[|i] n to p d|i n d|i who|i by_|k|]; cbn [effect_of act] in *; guards; subst.
  - split; [done|]. by apply moved_global.
  - split; [done|]. eapply moved_slot; [by right|done..].
  - split; [done|]. eapply moved_slot; [by right|done..].
  - unfold vacant in *. guards. eapply (moved_slot _ _ _ _ 0); [by left|done..].
  - unfold may_leave in *. guards. eapply (moved_slot _ _ _ _ 0); [by left|done..].
  - by apply moved_global.
  - by apply moved_global.
  Unshelve. all: exact false.
Qed.

Lemma act_roomy v a v' k : act v a = Some v' → roomy v (k + 1) → 0 ≤ k → roomy v' k.
Proof.
  intros Ha [Hk Hr] H0. split; [lia|]. intros st m Hm. apply act_moves in Ha.
  destruct (effect_of a) as [st0 n|st0]; [destruct Ha as [Hn Ha]|];
    (destruct (Ha st m Hm) as [[-> ->]|[_ Hv]]; [|specialize (Hr st m Hv); lia]); [|lia].
  specialize (Hr st0 n Hn). unfold base, first_global in *.
  rewrite u64_id; [lia|]. unfold is_u64. destruct st0; lia.
Qed.

(** A use in what follows: in a later connection, or not below the next number. *)
Definition later (v : sessions) (epoch : stream → nat) (u : stream * nat * Z) : Prop :=
  let '(st, e, n) := u in
  base st ≤ n < base st + 2 ^ 63 ∧ (epoch st ≤ e)%nat ∧
  (e = epoch st → ∃ m, next v st = Some m ∧ m ≤ n).
Lemma later_restart st0 x v v' epoch u :
  moved v v' st0 x → later v' (bump st0 epoch) u → later v epoch u.
Proof.
  destruct u as [[st e] n]. intros Hv (Hr & He & Hn). unfold bump in *. split; [done|].
  case_decide as Hd; [subst; split; lia|]. split; [done|]. intros Heq.
  destruct (Hn Heq) as (m & Hm & Hle). exists m. split; [|done].
  by destruct (Hv st m Hm) as [[-> _]|[_ ?]].
Qed.
Lemma later_take st0 n v v' epoch u :
  next v st0 = Some n → moved v v' st0 (n + 1) → later v' epoch u → later v epoch u ∧ u ≠ (st0, epoch st0, n).
Proof.
  destruct u as [[st e] n']. intros Hn Hv (Hr & He & Hm). split.
  - split; [done|]. split; [done|]. intros Heq. destruct (Hm Heq) as (m & Hm' & Hle).
    destruct (Hv st m Hm') as [[-> ->]|[_ ?]]; [|by exists m]. exists n. split; [done|lia].
  - intros [= -> -> ->]. destruct (Hm eq_refl) as (m & Hm' & Hle).
    destruct (Hv st0 m Hm') as [[_ ->]|[? _]]; [lia|done].
Qed.
Lemma uses_distinct v l v' epoch :
  acts v l = Some v' → roomy v (Z.of_nat (length l)) →
  NoDup (uses epoch l) ∧ Forall (later v epoch) (uses epoch l).
Proof.
  revert v epoch. induction l as [|a l IH]; intros v epoch Hl Hr; [by repeat constructor|].
  cbn [acts] in Hl. destruct (act v a) as [v1|] eqn:Ha; [|done]. cbn [mbind option_bind] in Hl.
  cbn [length] in Hr. rewrite Nat2Z.inj_succ in Hr.
  pose proof (act_roomy _ _ _ (Z.of_nat (length l)) Ha Hr ltac:(lia)) as Hr1.
  apply act_moves in Ha. cbn [uses]. destruct (effect_of a) as [st n|st].
  - destruct Ha as [Hn Hv], Hr as [_ Hr]. specialize (Hr st n Hn). rewrite u64_id in Hv.
    2: { unfold is_u64, base, first_global in *. destruct st; lia. }
    destruct (IH v1 epoch Hl Hr1) as [H1 H2]. rewrite list.Forall_forall in H2. split.
    + constructor; [|done]. intros Hin. by destruct (later_take _ _ _ _ _ _ Hn Hv (H2 _ Hin)).
    + constructor; [split; [lia|split; [done|intros _; by exists n]]|].
      apply list.Forall_forall. intros u Hin. by destruct (later_take _ _ _ _ _ _ Hn Hv (H2 _ Hin)).
  - destruct (IH v1 (bump st epoch) Hl Hr1) as [H1 H2]. split; [done|].
    eapply Forall_impl; [exact H2|]. intros u. by eapply later_restart.
Qed.
