(* ===== verification/ServerSession.v ===== *)
(** The server follows the machine of SessionMachine: every call of the API takes
    steps that the machine allows for that call, its datagrams are those of the
    steps, and no sequence number is used twice in a connection. *)

From S2P Require Import Prelude Constants Float64 Buffer Replay Queue Address Crypto.
From S2P Require Import SampleCrypto Token Packet TokenEntries Encryption Socket Server.
From S2P Require Import ServerInvariant ServerHandlers ServerConnect ServerReceive ServerRun ServerClaims Footprint.
From S2P Require Import SessionMachine.

(** ** Simulation *)
Definition view (s : Server) : sessions :=
  mkSessions (sv_running s) (sv_maxClients s) (sv_globalSequence s) (sv_clientConnected s)
    (sv_clientLoopback s) (sv_clientAddress s) (sv_clientSequence s).
(** The datagram of a step, when there is a transport for its destination. *)
Definition out_of (reach : Address → bool) (a : action) : option (Address * list byte) :=
  match a with
  | Send _ _ to _ d => if reach to then Some (to, d) else None
  | _ => None
  end.

Section simulation.
Context {C : CryptoLib}.

(** A datagram is its packet, written under the number it takes. *)
Definition sealed_with (pid : Z) (a : action) : Prop :=
  match a with
  | Send _ n _ p d => ∃ key len b,
      writePacket p (zeros maxPacketBytes) n key pid = Some (len, b) ∧ d = take len b
  | _ => True
  end.
(** From [s] to [s'] the server took the steps [l], and sent what they say. *)
Record simulates (s s' : Server) (l : list action) : Prop := {
  sim_acts : acts (view s) l = Some (view s');
  sim_sent : datagrams (sv_events s') = datagrams (sv_events s) ++ omap (out_of (reaches s)) l;
  sim_sealed : Forall (sealed_with (sc_protocolID (sv_config s))) l;
  sim_config : sv_config s' = sv_config s;
  sim_holder : sv_socketHolder s' = sv_socketHolder s;
}.
(** Nothing the machine sees has changed. *)
Record still (s s' : Server) : Prop := {
  stl_view : view s' = view s;
  stl_sent : datagrams (sv_events s') = datagrams (sv_events s);
  stl_config : sv_config s' = sv_config s;
  stl_holder : sv_socketHolder s' = sv_socketHolder s;
}.
#[export] Instance still_preorder : PreOrder still.
Proof. split; [by split|]. intros s1 s2 s3 [] []. split; by etrans. Qed.

Lemma simulates_still s s' : still s s' → simulates s s' [].
Proof. intros [Hv He Hc Hh]. split; [by rewrite Hv|by rewrite He, app_nil_r|constructor|done|done]. Qed.
Lemma simulates_trans s s1 s2 l l' : simulates s s1 l → simulates s1 s2 l' → simulates s s2 (l ++ l').
Proof.
  intros [A1 B1 C1 D1 E1] [A2 B2 C2 D2 E2]. split; [| | |congruence|congruence].
  - by rewrite acts_app, A1.
  - rewrite B2, B1, omap_app, app_assoc. f_equal. unfold reaches. by rewrite D1, E1.
  - rewrite D1 in C2. by apply Forall_app.
Qed.
Lemma simulates_after s s1 s2 l : still s s1 → simulates s1 s2 l → simulates s s2 l.
Proof. intros H1%simulates_still H2. exact (simulates_trans _ _ _ _ _ H1 H2). Qed.
Lemma simulates_before s s1 s2 l : simulates s s1 l → still s1 s2 → simulates s s2 l.
Proof. intros H1 H2%simulates_still. rewrite <-(app_nil_r l). exact (simulates_trans _ _ _ _ _ H1 H2). Qed.
Lemma simulates_one s s' a :
  act (view s) a = Some (view s') →
  datagrams (sv_events s') = datagrams (sv_events s) ++ option_list (out_of (reaches s) a) →
  sealed_with (sc_protocolID (sv_config s)) a →
  sv_config s' = sv_config s → sv_socketHolder s' = sv_socketHolder s → simulates s s' [a].
Proof.
  intros Ha He Hs Hc Hh. split; [by simpl; rewrite Ha| |by constructor|done|done].
  rewrite He. simpl. by destruct (out_of (reaches s) a).
Qed.

(** A computation from [s] whose steps have the shape [P]. *)
Definition shaped {A} (m : M Server A) (P : list action → Prop) (s : Server) : Prop :=
  wlp m (λ _ s', ∃ l, simulates s s' l ∧ P l) s.
Lemma shaped_mono {A} (m : M Server A) (P P' : list action → Prop) s :
  shaped m P s → (∀ l, P l → P' l) → shaped m P' s.
Proof. intros H HP. eapply wlp_mono; [exact H|]. intros a s' (l & ? & ?). eauto. Qed.
Lemma shaped_still {A} (m : M Server A) (P : list action → Prop) s : keeps still m → P [] → shaped m P s.
Proof.
  intros Hm HP. eapply wlp_mono; [apply Hm|]. intros a s' Hs. exists []. split; [by apply simulates_still|done].
Qed.
Lemma shaped_ret {A} (a : A) (P : list action → Prop) s : P [] → shaped (mret a) P s.
Proof. apply shaped_still, keeps_ret, _. Qed.
Lemma shaped_before {A B} (m : M Server A) (k : A → M Server B) P s :
  keeps still m → (∀ a s1, still s s1 → shaped (k a) P s1) → shaped (m ≫= k) P s.
Proof.
  intros Hm Hk. apply wlp_bind. eapply wlp_mono; [apply Hm|]. intros a s1 H1.
  eapply wlp_mono; [by apply Hk|]. intros b s2 (l & Hl & HP). exists l. split; [exact (simulates_after _ _ _ _ H1 Hl)|done].
Qed.
Lemma shaped_bind {A B} (m : M Server A) (k : A → M Server B) P Q s :
  shaped m P s → (∀ a s1 l, simulates s s1 l → P l → shaped (k a) (λ l', Q (l ++ l')) s1) →
  shaped (m ≫= k) Q s.
Proof.
  intros Hm Hk. apply wlp_bind. eapply wlp_mono; [exact Hm|]. intros a s1 (l & H1 & HP).
  eapply wlp_mono; [by eapply Hk|]. intros b s2 (l' & H2 & HQ). exists (l ++ l').
  split; [exact (simulates_trans _ _ _ _ _ H1 H2)|done].
Qed.
Lemma shaped_after {A B} (m : M Server A) (k : A → M Server B) P s :
  shaped m P s → (∀ a, keeps still (k a)) → shaped (m ≫= k) P s.
Proof.
  intros Hm Hk. eapply shaped_bind; [exact Hm|]. intros a s1 l _ HP. apply shaped_still; [apply Hk|].
  by rewrite app_nil_r.
Qed.
Lemma shaped_gets {A B} (f : Server → A) (k : A → M Server B) P s :
  shaped (k (f s)) P s → shaped (gets f ≫= k) P s.
Proof. intros H. by apply wlp_bind, wlp_gets. Qed.
Lemma shaped_aread {A B} (fld : Server → list A) i (k : A → M Server B) P s :
  (∀ x, aget (fld s) i = Some x → shaped (k x) P s) → shaped (aread fld i ≫= k) P s.
Proof. intros H. by apply wlp_bind, wlp_aread. Qed.
(** A loop over the slots: what its body does for some of them, in order. *)
Lemma shaped_slots (body : Z → M Server unit) (I : Server → Prop) P n s :
  n ≤ MaxClients → I s →
  (∀ i s1, I s1 → wlp (body i) (λ _ s2, I s2 ∧ ∃ l, simulates s1 s2 l ∧ (l = [] ∨ P i l)) s1) →
  wlp (for_ (seqZ 0 n) body) (λ _ s', I s' ∧ ∃ l, simulates s s' l ∧ per_slot P l) s.
Proof.
  intros Hn HI Hbody.
  cut (wlp (for_ (seqZ 0 n) body) (λ _ s', I s' ∧ ∃ ixs ls, simulates s s' (concat ls) ∧
         sublist ixs (seqZ 0 n) ∧ Forall2 P ixs ls) s).
  { intros H. eapply wlp_mono; [exact H|]. intros [] s' (HI' & ixs & ls & Hs & Hsub & HP).
    split; [done|]. exists (concat ls). split; [done|]. exists ixs, ls. split_and!; [|done..].
    etrans; [exact Hsub|]. destruct (decide (0 ≤ n)); [|unfold seqZ; rewrite Z2Nat.nonpos by lia; apply sublist_nil_l].
    replace MaxClients with (n + (MaxClients - n)) by lia. rewrite seqZ_app by lia. apply sublist_inserts_r. done. }
  generalize (seqZ 0 n). intros ixs. revert s HI. induction ixs as [|i ixs IH]; intros s HI; cbn [for_].
  { apply wlp_ret. split; [done|]. exists [], []. split_and!; [by apply simulates_still|done|constructor]. }
  apply wlp_bind. eapply wlp_mono; [by apply Hbody|]. intros [] s1 (HI1 & l & H1 & Hl).
  eapply wlp_mono; [by apply IH|]. intros [] s2 (HI2 & js & ls & H2 & Hsub & HP). split; [done|].
  pose proof (simulates_trans _ _ _ _ _ H1 H2) as H. destruct Hl as [->|Hl].
  - exists js, ls. split_and!; [done|by apply sublist_cons|done].
  - exists (i :: js), (l :: ls). split_and!; [done|by apply sublist_skip|by constructor].
Qed.
End simulation.
Create HintDb still.
Ltac still_auto := keeps_auto ltac:(first [solve [auto with still nocore] | by split]).

Section silent.
Context {C : CryptoLib}.
Lemma emit_still evs : datagrams evs = [] → keeps still (ServerOps.emit evs).
Proof.
  intros H s. apply wlp_modify. split; [done| |done|done]. simpl. by rewrite datagrams_app, H, app_nil_r.
Qed.
Lemma connectDisconnect_still i b : keeps still (ServerOps.connectDisconnect i b).
Proof. unfold ServerOps.connectDisconnect. keeps_auto ltac:(by apply emit_still). Qed.
Lemma findSlot_still test : (∀ i, keeps still (test i)) → keeps still (ServerOps.findSlot test).
Proof. intros H. unfold ServerOps.findSlot. still_auto. Qed.
Lemma findClientIndexByID_still id : keeps still (ServerOps.findClientIndexByID id).
Proof. apply findSlot_still. intros i. still_auto. Qed.
Lemma findClientIndexByAddress_still a : keeps still (ServerOps.findClientIndexByAddress a).
Proof. apply findSlot_still. intros i. still_auto. Qed.
Lemma confirmClient_still i : keeps still (ServerOps.confirmClient i).
Proof. unfold ServerOps.confirmClient. still_auto. Qed.
Lemma pushPacket_still i d n : keeps still (ServerOps.pushPacket i d n).
Proof. unfold ServerOps.pushPacket. still_auto. Qed.
Lemma server_ReceivePacket_still i : keeps still (ServerOps.ReceivePacket i).
Proof. unfold ServerOps.ReceivePacket. still_auto. Qed.
End silent.
#[export] Hint Resolve connectDisconnect_still findClientIndexByID_still findClientIndexByAddress_still
  confirmClient_still pushPacket_still server_ReceivePacket_still : still.

(** ** The steps *)
Section steps.
Context {C : CryptoLib} {L : CryptoLaws C}.

Lemma sent_out s to (d : list byte) st n p :
  (if reaches s to then [(to, d)] else []) = option_list (out_of (reaches s) (Send st n to p d)).
Proof. simpl. by destruct (reaches s to). Qed.

Definition replied (to : Address) (p : packet) (l : list action) : Prop :=
  l = [] ∨ ∃ n d, l = [Send Global n to p d].
Lemma sendGlobalPacket_shaped p to key s :
  sv_running s = true → shaped (ServerOps.sendGlobalPacket p to key) (replied to p) s.
Proof.
  intros Hrun. unfold ServerOps.sendGlobalPacket. apply shaped_gets. cbv beta delta [id].
  apply wlp_bind, wlp_lift. intros [len b] Hw. cbv beta iota. case_bool_decide.
  { apply shaped_ret. by left. }
  apply wlp_bind. unfold ServerOps.dispatch. apply wlp_bind, wlp_gets. cbv beta delta [id].
  apply wlp_modify, wlp_modify. eexists [Send Global (sv_globalSequence s) to p (take len b)].
  split; [|right; eauto]. apply simulates_one; [| |by exists key, len, b|done|done].
  - cbn [act view ab_running ab_global]. by rewrite Hrun, Z.eqb_refl.
  - cbn [sv_events set]. simpl. rewrite datagrams_app, datagrams_send. f_equal. apply (sent_out s to _ Global 0 p).
Qed.

(** A packet to the network client of slot [i]. *)
Definition sends (i : Z) (p : packet) (l : list action) : Prop :=
  ∃ n to d, l = [Send (Slot i) n to p d].
Lemma sendClientPacket_shaped p i s :
  occupied (view s) i false = true →
  shaped (ServerOps.sendClientPacket p i)
    (λ l, l = [] ∨ ∃ n to d, aget (sv_clientAddress s) i = Some to ∧ l = [Send (Slot i) n to p d]) s.
Proof.
  intros Hocc. unfold ServerOps.sendClientPacket.
  apply shaped_aread. intros e _. apply shaped_aread. intros to Hto.
  apply shaped_gets, wlp_bind, wlp_zoom. intros ok m. destruct ok; cbn [negb].
  2: { apply wlp_ret. exists []. split; [by apply simulates_still|by left]. }
  apply wlp_bind, wlp_zoom. intros key m'. apply wlp_bind, wlp_aread. intros n Hn.
  apply wlp_bind, wlp_gets, wlp_bind, wlp_lift. intros [len b] Hw. cbv beta iota. case_bool_decide.
  { apply wlp_ret. exists []. split; [by apply simulates_still|by left]. }
  apply wlp_bind. unfold ServerOps.dispatch. apply wlp_bind, wlp_gets. cbv beta delta [id].
  apply wlp_modify, wlp_bind, wlp_awrite. intros _. apply wlp_awrite. intros _.
  exists [Send (Slot i) n to p (take len b)]. split; [|right; eauto].
  apply simulates_one; [| |by eexists _, len, b|done|done].
  - simpl in Hn. cbn [act]. rewrite Hocc. cbn [view ab_address ab_sequence].
    by rewrite !bool_decide_true by done.
  - simpl. rewrite datagrams_app, datagrams_send. f_equal. apply (sent_out s to _ (Slot i) 0 p).
Qed.

(** What the machine sees of a slot. *)
Lemma view_slot s i x :
  slot_at s i = Some x →
  aget (ab_connected (view s)) i = Some (sl_connected x) ∧ aget (ab_loopback (view s)) i = Some (sl_loopback x) ∧
  aget (ab_address (view s)) i = Some (sl_address x) ∧ aget (ab_sequence (view s)) i = Some (sl_sequence x).
Proof. intros H%slot_at_inv. split_and!; apply H. Qed.
Lemma occupied_slot s i x lo :
  slot_at s i = Some x →
  occupied (view s) i lo = sv_running s && sl_connected x && bool_decide (sl_loopback x = lo).
Proof.
  intros (Hc & Hl & _)%view_slot. unfold occupied. rewrite Hc, Hl. cbn [view ab_running].
  f_equal; [f_equal; by destruct (sl_connected x)|]. by apply bool_decide_ext; split; [intros [= ->]|intros ->].
Qed.
Lemma occupied_inv s i lo :
  server_wf s → occupied (view s) i lo = true →
  ∃ x, slot_at s i = Some x ∧ sl_connected x = true ∧ sl_loopback x = lo ∧ sv_running s = true ∧
    ServerOps.in_slot_range i s = true.
Proof.
  intros Hwf Hocc. assert (∃ x, slot_at s i = Some x) as [x Hx].
  { unfold occupied in Hocc. guards. apply slot_at_Some; [apply Hwf|].
    pose proof (ss_connected _ (sw_shape _ Hwf)) as Hlen. cbn [view ab_connected] in *.
    match goal with H : aget _ i = Some true |- _ => apply aget_range in H end.
    rewrite Hlen in *. unfold num_slots in *. clia. }
  rewrite (occupied_slot s i x) in Hocc by done. guards.
  pose proof (sw_active _ Hwf i x Hx ltac:(done)). pose proof (slot_at_range _ _ _ (sw_shape _ Hwf) Hx).
  exists x. split_and!; [done..|]. unfold ServerOps.in_slot_range.
  match goal with H : sv_running s = true |- _ => rewrite H end. rewrite Z.geb_leb.
  destruct (Z.ltb_spec i 0), (Z.leb_spec (sv_maxClients s) i); simpl; done || lia.
Qed.
Lemma occupied_network s i x :
  slot_at s i = Some x → network x → sv_running s = true → occupied (view s) i false = true.
Proof. intros Hx [Hc Hl] Hrun. rewrite (occupied_slot s i x) by done. by rewrite Hrun, Hc, Hl. Qed.

(** On a well formed server exactly one packet goes out: the sequence number
    moves on. *)
Lemma u64_succ_ne n : is_u64 n → u64 (n + 1) ≠ n.
Proof.
  intros Hn. unfold is_u64, u64 in *. destruct (decide (n + 1 < 2 ^ 64)); [rewrite Z.mod_small; lia|].
  replace (n + 1) with (2 ^ 64) by lia. rewrite Z_mod_same_full. lia.
Qed.
Lemma serving_sends s i x reason s1 p :
  network x → valid_encrypted p → sv_running s = true → serving s i x true reason s1 →
  wp (ServerOps.sendClientPacket p i)
    (λ _ s2, serving s i x true reason s2 ∧ ∃ l, simulates s1 s2 l ∧ sends i p l) s1.
Proof.
  intros Hn Hp Hrun Hsg. pose proof (serving_send s i x reason s1 p Hn Hp Hsg) as H1.
  destruct Hsg as [Hwf (x1 & Hup & Hl & _) _ Hsc _ _]. pose proof (slot_updated_at _ _ _ _ Hup) as Hx1.
  assert (network x1) as Hn1 by (injection Hl as E1 E2 _ _; split; [rewrite E1|rewrite E2]; apply Hn).
  pose proof (sendClientPacket_wp p i x1 s1 Hwf Hx1 Hn1 Hp) as H2.
  assert (occupied (view s1) i false = true) as Hocc.
  { apply (occupied_network s1 i x1); [done..|]. by rewrite (sm_running _ _ Hsc). }
  pose proof (sendClientPacket_shaped p i s1 Hocc) as H3.
  apply wp_inv in H2 as ([] & s2 & Hrun2 & y & _ & Hsent). eapply wp_run; [exact Hrun2|].
  split; [by apply (wp_run _ _ _ _ _ Hrun2) in H1|].
  destruct (wlp_inv _ _ _ _ _ H3 Hrun2) as (l & Hs & [->|(n & to & d & _ & ->)]); [|by eexists; split; [|eexists _, _, _]].
  exfalso. pose proof (sim_acts _ _ _ Hs) as Hv. injection Hv as Hv.
  destruct (view_slot _ _ _ (slot_updated_at _ _ _ _ (st_slot _ _ _ _ _ _ Hsent))) as (_ & _ & _ & Hq).
  destruct (view_slot _ _ _ Hx1) as (_ & _ & _ & Hq1). simpl in Hq, Hq1.
  replace (sv_clientSequence s2) with (sv_clientSequence s1) in Hq by congruence.
  rewrite Hq1 in Hq. injection Hq as Hq. symmetry in Hq. revert Hq. apply u64_succ_ne.
  apply (sx_sequence _ (sw_slots _ Hwf _ _ Hx1)).
Qed.
End steps.

(** ** Leaving *)
Section leaving.
Context {C : CryptoLib} {L : CryptoLaws C}.

Lemma resetClientSlot_shaped i by_ s :
  may_leave (view s) i by_ = true → shaped (ServerOps.resetClientSlot i) (eq [Leave i by_]) s.
Proof.
  intros Hmay. unfold ServerOps.resetClientSlot. repeat (apply wlp_bind, wlp_awrite; intros _). apply wlp_modify.
  exists [Leave i by_]. split; [|done]. apply simulates_one; [|simpl; by rewrite app_nil_r|done..].
  cbn [act]. by rewrite Hmay.
Qed.
Lemma release_shaped i by_ s :
  may_leave (view s) i by_ = true →
  shaped (awrite sv_clientReplayProtection i Replay.reset;;
     encryptionIndex ← aread sv_clientEncryptionIndex i;
     zoom sv_encryptionManager (awrite em_clientIndex encryptionIndex (-1));;
     address ← aread sv_clientAddress i;
     time ← gets sv_time;
     _ ← zoom sv_encryptionManager (EncryptionManager.removeEncryptionMapping address time);
     ServerOps.resetClientSlot i) (eq [Leave i by_]) s.
Proof.
  intros Hmay. do 6 (apply shaped_before; [still_auto|]; intros ? ? [E _ _ _]; rewrite <-E in Hmay; clear E).
  by apply resetClientSlot_shaped.
Qed.
(** Without disconnect packets. *)
Lemma disconnect_shaped i by_ reason s :
  may_leave (view s) i by_ = true →
  shaped (ServerOps.disconnectClientInternal i false reason) (eq [Leave i by_]) s.
Proof.
  intros Hmay. unfold ServerOps.disconnectClientInternal.
  do 3 (apply shaped_before; [still_auto|]; intros ? ? [E _ _ _]; rewrite <-E in Hmay; clear E).
  by apply release_shaped.
Qed.
(** With them. *)
Lemma goodbyes_wp s i x reason s1 :
  network x → sv_running s = true → serving s i x true reason s1 →
  wp (for_ (seqZ 0 numDisconnectPackets) (λ _, ServerOps.sendClientPacket Disconnect i))
    (λ _ s2, serving s i x true reason s2 ∧ ∃ l, simulates s1 s2 l ∧
       length l = Z.to_nat numDisconnectPackets ∧ Forall (goodbye i) l) s1.
Proof.
  intros Hn Hrun H1. change (Z.to_nat numDisconnectPackets) with (length (seqZ 0 numDisconnectPackets)).
  revert s1 H1. induction (seqZ 0 numDisconnectPackets) as [|k ks IH]; intros s1 H1; cbn [for_].
  { apply wp_ret. split; [done|]. exists []. split_and!; [by apply simulates_still|done|constructor]. }
  apply wp_bind. eapply wp_mono; [by apply serving_sends|]. intros [] s2 (H2 & l & Hs & n & to & d & ->).
  eapply wp_mono; [by apply IH|]. intros [] s3 (H3 & l' & Hs' & Hlen & Hall). split; [done|].
  eexists. split; [exact (simulates_trans _ _ _ _ _ Hs Hs')|]. split; [simpl; lia|].
  constructor; [by exists n, to, d|done].
Qed.
Lemma disconnect_farewell s i x reason :
  server_wf s → slot_at s i = Some x → network x → sv_running s = true →
  wp (ServerOps.disconnectClientInternal i true reason)
    (λ _ s', server_wf s' ∧ same_scalars s s' ∧ ∃ l, simulates s s' l ∧ farewell i l) s.
Proof.
  intros Hwf Hx Hn Hrun. pose proof (disconnectClientInternal_wp s i x true reason Hwf Hx Hn) as H.
  eapply wp_mono; [apply (wp_and_wlp _ _ (λ _ s', ∃ l, simulates s s' l ∧ farewell i l) _ H)|].
  2: { intros [] s' [Hd Hl]. split_and!; [apply Hd|apply Hd|done]. }
  unfold ServerOps.disconnectClientInternal. apply wlp_assoc, wlp_bind.
  eapply wlp_mono; [apply wlp_and; [apply wp_wlp, (disconnect_reason_wp s i x true reason); done|]|].
  { match goal with |- wlp ?m _ _ => assert (keeps still m) as Hm by still_auto end. apply Hm. }
  intros [] s1 [Hsg Hst]. apply wlp_bind. eapply wlp_mono; [by apply wp_wlp, (goodbyes_wp s i x reason s1)|].
  intros [] s2 (Hsg2 & l & Hs & Hlen & Hall). destruct Hsg2 as [_ (x2 & Hup & Hl & _) _ Hsc _ _].
  eapply wlp_mono; [apply (release_shaped i None s2)|].
  - apply slot_updated_at, view_slot in Hup as (Hc & _). unfold may_leave. rewrite Hc.
    injection Hl as -> _ _ _. rewrite (proj1 Hn). cbn [view ab_running]. by rewrite (sm_running _ _ Hsc), Hrun.
  - intros [] s3 (l' & Hs' & <-). exists (l ++ [Leave i None]). split; [|by exists l].
    eapply simulates_after; [exact Hst|]. exact (simulates_trans _ _ _ _ _ Hs Hs').
Qed.
End leaving.

(** ** Disconnecting, stopping and starting *)
Section stopping.
Context {C : CryptoLib} {L : CryptoLaws C}.

Lemma not_in_range s i lo :
  server_wf s → ServerOps.in_slot_range i s = false → occupied (view s) i lo = false.
Proof.
  intros Hwf Hr. apply not_true_is_false. intros (x & _ & _ & _ & _ & Hr')%occupied_inv; [congruence|done].
Qed.
Lemma in_range_running s i : ServerOps.in_slot_range i s = true → sv_running s = true.
Proof. unfold ServerOps.in_slot_range. by destruct (sv_running s). Qed.

Lemma DisconnectClient_shaped s i :
  server_wf s →
  shaped (ServerOps.DisconnectClient i)
    (λ l, if occupied (view s) i false then farewell i l else l = []) s.
Proof.
  intros Hwf. unfold ServerOps.DisconnectClient. apply shaped_gets.
  destruct (ServerOps.in_slot_range i s) eqn:Hr; cbn [negb].
  2: { apply shaped_ret. by rewrite not_in_range. }
  destruct (in_slot_range_slot s i Hwf Hr) as [x Hx]. apply in_range_running in Hr as Hrun.
  destruct (slot_at_inv _ _ _ Hx) as (Hc & _ & Hl & _). rewrite (occupied_slot s i x), Hrun by done.
  apply shaped_aread. intros b Hb. rewrite Hb in Hc. injection Hc as ->.
  destruct (sl_connected x) eqn:Hcx; cbn [negb andb]; [|by apply shaped_ret].
  apply shaped_aread. intros b Hb'. rewrite Hb' in Hl. injection Hl as ->.
  destruct (sl_loopback x) eqn:Hlx; [by apply shaped_ret|].
  eapply wlp_mono; [by apply wp_wlp, (disconnect_farewell s i x)|]. intros [] s' (_ & _ & Hs). exact Hs.
Qed.

(** A server that is still running with the same slots in use. *)
Definition continues (s s' : Server) : Prop := server_wf s' ∧ same_scalars s s'.
Lemma DisconnectAllClients_shaped s :
  server_wf s →
  wlp ServerOps.DisconnectAllClients
    (λ _ s', continues s s' ∧ ∃ l, simulates s s' l ∧ per_slot farewell l) s.
Proof.
  intros Hwf. unfold ServerOps.DisconnectAllClients. apply wlp_bind, wlp_gets. cbv beta delta [id].
  destruct (sv_running s) eqn:Hrun; cbn [negb].
  2: { apply wlp_ret. split; [by split|]. exists []. split; [by apply simulates_still|].
       exists [], []. split_and!; [apply sublist_nil_l|constructor|done]. }
  apply shaped_slots; [apply active_range, Hwf|by split|]. intros i s1 [Hwf1 Hsc1].
  apply wlp_bind, wlp_aread. intros c Hc. apply wlp_bind, wlp_aread. intros lo Hlo.
  destruct c, lo; cbn [negb andb];
    try (apply wlp_ret; split; [by split|]; exists []; split; [by apply simulates_still|by left]).
  pose proof (aget_range _ _ _ Hc) as Hi. rewrite (ss_connected _ (sw_shape _ Hwf1)) in Hi.
  destruct (slot_at_Some s1 i (sw_shape _ Hwf1)) as [x Hx]; [unfold num_slots in Hi; clia|].
  destruct (slot_at_inv _ _ _ Hx) as (Hc' & _ & Hl' & _).
  eapply wlp_mono.
  { apply wp_wlp, (disconnect_farewell s1 i x); [done|done|split; congruence|by rewrite (sm_running _ _ Hsc1)]. }
  intros [] s2 (Hwf2 & Hsc2 & l & Hs & Hf). split; [split; [done|by etrans]|]. exists l. auto.
Qed.
(** Afterwards no network client is left. *)
Lemma DisconnectAllClients_empties s :
  server_wf s → wlp ServerOps.DisconnectAllClients (λ _ s', ∀ i, occupied (view s') i false = false) s.
Proof.
  intros Hwf. eapply wlp_mono; [by apply wp_wlp, DisconnectAllClients_wp|]. intros [] s' [Hwf' Hsc Hat] i.
  apply not_true_is_false. intros (x & Hx & Hc & Hl & _)%occupied_inv; [|done].
  pose proof (sw_active _ Hwf' i x Hx Hc) as Hi. rewrite (sm_maxClients _ _ Hsc) in Hi.
  pose proof (slot_at_range _ _ _ (sw_shape _ Hwf') Hx). rewrite Hat, decide_True in Hx by lia.
  apply fmap_Some in Hx as (z & _ & ->). unfold drop_network in *.
  destruct (sl_connected z) eqn:Ez, (sl_loopback z) eqn:El; simpl in Hc, Hl; congruence.
Qed.

Lemma DisconnectLoopbackClient_shaped s i :
  server_wf s →
  shaped (ServerOps.DisconnectLoopbackClient i)
    (λ l, if occupied (view s) i true then l = [Leave i None] else l = []) s.
Proof.
  intros Hwf. unfold ServerOps.DisconnectLoopbackClient. apply shaped_gets.
  destruct (ServerOps.in_slot_range i s) eqn:Hr; cbn [negb].
  2: { apply shaped_ret. by rewrite not_in_range. }
  destruct (in_slot_range_slot s i Hwf Hr) as [x Hx]. apply in_range_running in Hr as Hrun.
  destruct (slot_at_inv _ _ _ Hx) as (Hc & _ & Hl & _). rewrite (occupied_slot s i x), Hrun by done.
  apply shaped_aread. intros b Hb. rewrite Hb in Hc. injection Hc as ->.
  apply shaped_aread. intros b Hb'. rewrite Hb' in Hl. injection Hl as ->.
  destruct (sl_connected x) eqn:Hcx, (sl_loopback x) eqn:Hlx; cbn [negb andb orb]; try by apply shaped_ret.
  assert (may_leave (view s) i None = true) as Hmay.
  { unfold may_leave. cbn [view ab_running ab_connected]. by rewrite Hrun, Hb. }
  do 2 (apply shaped_before; [still_auto|]; intros ? ? [E _ _ _]; rewrite <-E in Hmay; clear E).
  eapply shaped_mono; [by apply resetClientSlot_shaped|]. by intros l <-.
Qed.

Lemma DisconnectLoopback_continues s i :
  server_wf s → wp (ServerOps.DisconnectLoopbackClient i) (λ _ s', continues s s') s.
Proof.
  intros Hwf. destruct (ServerOps.in_slot_range i s) eqn:Hr.
  - destruct (in_slot_range_slot s i Hwf Hr) as [x Hx].
    eapply wp_mono; [by apply (DisconnectLoopbackClient_wp s i x)|]. by intros [] s' (?&?&_).
  - unfold ServerOps.DisconnectLoopbackClient. apply wp_bind, wp_gets. rewrite Hr. by apply wp_ret.
Qed.

Lemma idle_free s : server_shape s → idle s → forallb negb (sv_clientConnected s) = true.
Proof.
  intros Hs Hid. apply forallb_forall. intros b Hb. apply list_elem_of_In, list_elem_of_lookup in Hb as [k Hk].
  pose proof (lookup_lt_Some _ _ _ Hk) as Hlt. rewrite (ss_connected _ Hs) in Hlt.
  destruct (slot_at_Some s (Z.of_nat k) Hs) as [x Hx]; [unfold num_slots in Hlt; clia|].
  destruct (slot_at_inv _ _ _ Hx) as (Hc & _). apply (id_free _ Hid) in Hx. rewrite Hx in Hc.
  unfold aget in Hc. case_match; [|done]. rewrite Nat2Z.id in Hc. by simplify_eq.
Qed.
(** What Stop leaves of the fields it assigns at the end. *)
Definition shut (s : Server) : Server :=
  s <| sv_running := false |> <| sv_maxClients := 0 |>
    <| sv_numConnectedClients := 0 |> <| sv_globalSequence := Z.shiftl 1 63 |>
    <| sv_challengeSequence := 0 |> <| sv_challengeKey := zeros KeyBytes |>
    <| sv_connectTokenEntries := connectTokenEntriesReset |>
    <| sv_encryptionManager := EncryptionManager.reset |>.
Lemma Stop_disconnects s :
  server_wf s → sv_running s = true →
  wlp ServerOps.Stop (λ _ s', ∃ s2 l1 l2, simulates s s2 (l1 ++ l2) ∧ same_scalars s s2 ∧
    per_slot farewell l1 ∧ per_slot dropped l2 ∧ s' = shut s2) s.
Proof.
  intros Hwf Hrun. unfold ServerOps.Stop. apply wlp_bind, wlp_gets. cbv beta delta [id]. rewrite Hrun. cbn [negb].
  apply wlp_bind. eapply wlp_mono; [by apply DisconnectAllClients_shaped|]. intros [] s1 ([Hwf1 Hsc1] & l1 & Hs1 & Hp1).
  apply wlp_bind. eapply wlp_mono.
  { apply (shaped_slots _ (continues s1) dropped); [apply active_range, Hwf|by split|].
    intros i s2 [Hwf2 Hsc2]. apply wlp_bind, wlp_aread. intros c Hc. apply wlp_bind, wlp_aread. intros lo Hlo.
    destruct c, lo; cbn [negb andb];
      try (apply wlp_ret; split; [by split|]; exists []; split; [by apply simulates_still|by left]).
    eapply wlp_mono; [apply wlp_and; [by apply (DisconnectLoopbackClient_shaped s2)|
      by apply wp_wlp, DisconnectLoopback_continues]|].
    intros [] s3 [(l & Hs & Hl) [Hwf3 Hsc3]]. split; [split; [done|by etrans]|]. exists l. split; [done|].
    case_match; auto. }
  intros [] s2 ([Hwf2 Hsc2] & l2 & Hs2 & Hp2). apply wlp_modify. exists s2, l1, l2.
  split_and!; [by eapply simulates_trans|by etrans|done..].
Qed.
Lemma Stop_shaped s : server_wf s → shaped ServerOps.Stop (stopping (view s)) s.
Proof.
  intros Hwf. unfold stopping. cbn [view ab_running]. destruct (sv_running s) eqn:Hrun.
  2: { unfold ServerOps.Stop. apply shaped_gets. cbv beta delta [id]. rewrite Hrun. by apply shaped_ret. }
  eapply wlp_mono; [apply wlp_and; [by apply Stop_disconnects|by apply wp_wlp, Stop_wp]|].
  intros [] s' [(s2 & l1 & l2 & Hs & Hsc & Hp1 & Hp2 & ->) (Hwf' & _ & Hid & _)].
  exists ((l1 ++ l2) ++ [ShutDown]). split; [|eauto 10]. eapply simulates_trans; [exact Hs|].
  apply simulates_one; [|simpl; by rewrite app_nil_r|done..]. cbn [act].
  cbn [view ab_running ab_connected]. rewrite (sm_running _ _ Hsc), Hrun.
  by rewrite (idle_free (shut s2) (sw_shape _ Hwf') Hid : forallb negb (sv_clientConnected s2) = true).
Qed.
Lemma Start_shaped s n now key :
  server_wf s →
  shaped (ServerOps.Start n now key)
    (λ l, if (n <=? 0) || (n >? MaxClients) then l = [] else ∃ l0, stopping (view s) l0 ∧ l = l0 ++ [StartUp n]) s.
Proof.
  intros Hwf. unfold ServerOps.Start. destruct ((n <=? 0) || (n >? MaxClients)) eqn:Hn; [by apply shaped_ret|].
  apply shaped_gets. apply wlp_bind, (wlp_mono _ (λ _ s1, sv_running s1 = false ∧
    ∃ l0, simulates s s1 l0 ∧ stopping (view s) l0)).
  { destruct (sv_running s) eqn:Hrun.
    - eapply wlp_mono; [apply wlp_and; [by apply Stop_shaped|by apply wp_wlp, Stop_wp]|].
      intros [] s1 [Hl (_ & Hoff & _)]. done.
    - apply wlp_ret. split; [done|]. exists []. split; [by apply simulates_still|].
      unfold stopping. cbn [view ab_running]. by rewrite Hrun. }
  intros [] s1 (Hoff & l0 & Hs & Hl0).
  eapply (wlp_mono _ (λ _ s', ∃ l, simulates s1 s' l ∧ [StartUp n] = l)).
  2: { intros [] s' (l & Hs' & <-). exists (l0 ++ [StartUp n]). split; [exact (simulates_trans _ _ _ _ _ Hs Hs')|eauto]. }
  eapply shaped_after; [|intros ?; still_auto]. apply wlp_modify. exists [StartUp n]. split; [|done].
  apply simulates_one; [|simpl; by rewrite app_nil_r|done..]. cbn [act view ab_running]. rewrite Hoff.
  apply orb_false_iff in Hn as [H1%Z.leb_gt H2]. rewrite Z.gtb_ltb in H2. apply Z.ltb_ge in H2.
  by rewrite (proj2 (Z.leb_le 1 n)), (proj2 (Z.leb_le n MaxClients)) by lia.
Qed.
End stopping.

(** ** Datagrams *)
Section reading.
Context {C : CryptoLib}.
(** The type of a packet is in the first byte of the datagram it was read from. *)
Lemma readBody_kind type n r : wlp (readBody type n) (λ o _, ∀ p, o = Some p → packetType p = type) r.
Proof.
  unfold readBody. repeat (case_match; try (apply wlp_ret; intros p [= <-]; simpl; lia); try by apply wlp_ret);
    repeat (apply wlp_skip; intros); apply wlp_ret; intros p [= <-]; simpl; lia.
Qed.
Lemma readEncrypted_kind len prefix key pid allowed rp r :
  wlp (readEncrypted len prefix key pid allowed rp)
    (λ res _, ∀ p, rd_packet res = Some p → packetType p = Z.land prefix 0xF) r.
Proof.
  unfold readEncrypted. cbv zeta.
  repeat (first [apply wlp_ret; by intros p [=]
     | apply wlp_bind; eapply wlp_mono; [apply readBody_kind|]; intros ? ? Hp; apply wlp_ret; exact Hp
     | case_match | apply wlp_skip; intros]).
Qed.
Lemma readRequest_kind len pid now minExpire pk allowed r :
  wlp (readRequest len pid now minExpire pk allowed)
    (λ o _, ∀ p, o = Some p → packetType p = connectionRequestPacket) r.
Proof.
  unfold readRequest.
  repeat (first [apply wlp_ret; by intros p [= <-] | case_match | apply wlp_skip; intros]).
Qed.
Lemma readPacket_kind b rest key pid now minExpire pk allowed rp res p :
  readPacket (b :: rest) key pid now minExpire pk allowed rp = Some res → rd_packet res = Some p →
  packetType p = kind (b :: rest).
Proof.
  unfold readPacket. case_bool_decide; [by intros [= <-]|].
  intros ([res' r] & Hrun & Hres)%fmap_Some Hp. simpl in Hres. subst res'. revert p Hp. revert Hrun.
  apply (wlp_inv _ (λ res _, ∀ p, rd_packet res = Some p → packetType p = kind (b :: rest))).
  apply wlp_bind, (wlp_mono _ (λ v _, v = byte.unsigned b)); [done|]. intros v r' ->.
  destruct (Z.eqb_spec (byte.unsigned b) connectionRequestPacket) as [Hb|_]; [|apply readEncrypted_kind].
  apply wlp_bind. eapply wlp_mono; [apply readRequest_kind|]. intros o r1 Ho. apply wlp_ret.
  intros p Hp. cbn [kind]. rewrite Hb. by apply Ho.
Qed.
End reading.

(** Past a computation that changes nothing the machine sees; facts about the
    view go along. *)
Ltac past_still :=
  apply shaped_before; [still_auto|];
  let a := fresh "a" in let s1 := fresh "s" in let E := fresh "E" in
  intros a s1 [E _ _ _];
  match type of E with view _ = ?v =>
    repeat match goal with
    | H : context [v] |- _ => lazymatch H with E => fail | _ => rewrite <-E in H end
    end
  end; clear E.
Ltac shaped_auto tac :=
  repeat lazymatch goal with
  | |- shaped (mret _) _ _ => apply shaped_ret; solve [tac]
  | |- shaped (ServerOps.findFreeClientIndex ≫= _) _ _ => solve [tac]
  | |- shaped (_ ≫= _) _ _ => past_still
  | |- shaped (match _ with _ => _ end) _ _ => case_match
  | |- _ => solve [tac]
  end.

Section datagrams.
Context {C : CryptoLib} {L : CryptoLaws C}.

Lemma replied_answered from d p l : reply (kind d) p → replied from p l → answered from d l.
Proof. intros Hp [->|(n & r & ->)]; by constructor. Qed.
Lemma sendChallenge_shaped from d token s :
  ab_running (view s) = true → kind d = connectionRequestPacket →
  shaped (ServerOps.sendChallenge from token) (answered from d) s.
Proof.
  intros Hrun Hd. unfold ServerOps.sendChallenge. do 3 past_still. destruct a1 as [ok data].
  case_match; [apply shaped_ret; constructor|]. past_still.
  eapply shaped_mono; [by apply sendGlobalPacket_shaped|]. intros l. by apply replied_answered.
Qed.
Lemma denied_shaped from d key s :
  ab_running (view s) = true → kind d = connectionRequestPacket ∨ kind d = connectionResponsePacket →
  shaped (ServerOps.sendGlobalPacket Denied from key) (answered from d) s.
Proof.
  intros Hrun Hd. eapply shaped_mono; [by apply sendGlobalPacket_shaped|]. intros l. by apply replied_answered.
Qed.
Lemma processConnectionRequestPacket_shaped now from d r s :
  ab_running (view s) = true → kind d = connectionRequestPacket →
  shaped (ServerOps.processConnectionRequestPacket now from r) (answered from d) s.
Proof.
  intros Hrun Hd. unfold ServerOps.processConnectionRequestPacket.
  shaped_auto ltac:(first [by constructor | by apply denied_shaped; [|left] | by apply sendChallenge_shaped]).
Qed.

(** A free slot holds no loopback client. *)
Definition clean (v : sessions) : Prop :=
  ∀ i, aget (ab_connected v) i = Some false → aget (ab_loopback v) i = Some false.
Lemma wf_clean s : server_wf s → clean (view s).
Proof.
  intros Hwf i Hi. cbn [view ab_connected ab_loopback] in *. pose proof (aget_range _ _ _ Hi) as Hr.
  rewrite (ss_connected _ (sw_shape _ Hwf)) in Hr.
  destruct (slot_at_Some s i (sw_shape _ Hwf)) as [x Hx]; [unfold num_slots in Hr; clia|].
  destruct (slot_at_inv _ _ _ Hx) as (Hc & _ & Hl & _). rewrite Hi in Hc. injection Hc as Hc.
  rewrite Hl. f_equal. by apply (sx_free _ (sw_slots _ Hwf _ _ Hx)).
Qed.
Lemma ainsert_id {A : Type} i (x : A) l : aget l i = Some x → ainsert i x l = l.
Proof. unfold aget, ainsert. case_match; [|done]. apply list_insert_id. Qed.

(** A search ends in a slot that passes the test, or in none. *)
Lemma findSlot_found (test : Z → M Server bool) (P : Z → Prop) s :
  (∀ i, wlp (test i) (λ b s', s' = s ∧ (b = true → P i)) s) →
  wlp (ServerOps.findSlot test) (λ i s', s' = s ∧ (i = -1 ∨ 0 ≤ i < sv_maxClients s ∧ P i)) s.
Proof.
  intros Htest. unfold ServerOps.findSlot. apply wlp_bind, wlp_gets, wlp_bind.
  apply (wlp_mono _ (λ r s', s' = s ∧ from_option (λ i, i ∈ seqZ 0 (sv_maxClients s) ∧ P i) True r)).
  2: { intros [i|] s' [-> Hr]; apply wlp_ret; (split; [done|]); [right|by left].
       destruct Hr as [Hi%elem_of_seqZ HP]. split; [lia|done]. }
  assert (∀ i, i ∈ seqZ 0 (sv_maxClients s) → i ∈ seqZ 0 (sv_maxClients s)) as Hsub by done.
  revert Hsub. generalize (seqZ 0 (sv_maxClients s)) at 1 3. intros ixs.
  induction ixs as [|i ixs IH]; intros Hsub; cbn [first_]; [done|]. apply wlp_bind.
  eapply wlp_mono; [apply Htest|]. intros b s' [-> Hb]. destruct b.
  - apply wlp_ret. split; [done|]. split; [apply Hsub; by left|by apply Hb].
  - apply IH. intros j Hj. apply Hsub. by right.
Qed.
Lemma findFreeClientIndex_vacant s :
  ab_running (view s) = true →
  wlp ServerOps.findFreeClientIndex (λ i s', s' = s ∧ (i = -1 ∨ vacant (view s) i = true)) s.
Proof.
  intros Hrun. eapply wlp_mono.
  { apply (findSlot_found _ (λ i, aget (sv_clientConnected s) i = Some false)). intros i.
    apply wlp_bind, wlp_aread. intros b Hb. apply wlp_ret. split; [done|]. by destruct b. }
  intros i s' [-> [->|[Hi Hc]]]; (split; [done|]); [by left|right]. unfold vacant. rewrite Hrun.
  cbn [view ab_connected ab_maxClients]. rewrite (proj2 (Z.leb_le 0 i)), (proj2 (Z.ltb_lt i _)) by lia.
  by rewrite bool_decide_true.
Qed.
Lemma findClientIndexByAddress_found a s :
  ab_running (view s) = true →
  wlp (ServerOps.findClientIndexByAddress a) (λ i s', s' = s ∧ (i = -1 ∨ may_leave (view s) i (Some a) = true)) s.
Proof.
  intros Hrun. eapply wlp_mono.
  { apply (findSlot_found _ (λ i, may_leave (view s) i (Some a) = true)). intros i.
    apply wlp_bind, wlp_aread. intros b Hb. destruct b; [|by apply wlp_ret].
    apply wlp_bind, wlp_aread. intros a' Ha. apply wlp_ret. split; [done|]. intros He.
    unfold may_leave. rewrite Hrun. cbn [view ab_connected ab_address]. rewrite Ha, bool_decide_true by done. done. }
  intros i s' [-> [->|[Hi Hc]]]; auto.
Qed.

(** ** Joining *)
Lemma fillClientSlot_shaped i a id e timeout userData s :
  i = -1 ∨ vacant (view s) i = true → clean (view s) →
  shaped (ServerOps.fillClientSlot i a id e timeout userData) (eq [Join i (Some a)]) s.
Proof.
  intros Hfree Hclean. unfold ServerOps.fillClientSlot. apply shaped_gets.
  apply wlp_bind, wlp_awrite. intros Hi. repeat (apply wlp_bind, wlp_awrite; intros _).
  apply wlp_bind, wlp_aread. intros old _. apply wlp_awrite. intros _.
  exists [Join i (Some a)]. split; [|done]. destruct Hfree as [->|Hfree]; [lia|].
  apply simulates_one; [|simpl; by rewrite app_nil_r|done..]. cbn [act]. rewrite Hfree. f_equal.
  unfold vacant in Hfree. guards. unfold assign, view. simpl.
  match goal with H : aget (ab_connected _) i = Some false |- _ => apply Hclean in H as Hlo end.
  cbn [view ab_loopback] in Hlo. by rewrite (ainsert_id _ _ _ Hlo).
Qed.
Lemma aget_in {A : Type} i (x y : A) l : aget l i = Some y → aget (ainsert i x l) i = Some x.
Proof. intros H. apply aget_ainsert_eq. by apply aget_range in H. Qed.
Lemma joined v v' i a :
  acts v [Join i (Some a)] = Some v' → clean v →
  occupied v' i false = true ∧ ∀ to, aget (ab_address v') i = Some to → to = a.
Proof.
  intros Hv Hclean. cbn [acts act] in Hv. destruct (vacant v i) eqn:Hvac; [|done]. injection Hv as <-.
  unfold vacant in Hvac. guards. match goal with H : aget (ab_connected v) i = _ |- _ => apply Hclean in H as Hlo end.
  split.
  - unfold occupied, assign. simpl. do 2 erewrite aget_in by done. rewrite !bool_decide_true by done.
    by rewrite !andb_true_r.
  - intros to Hto. simpl in Hto. apply aget_ainsert_some in Hto as [[_ ->]|[? _]]; [done..|lia].
Qed.
Lemma connectClient_shaped i from d id e timeout userData s :
  i = -1 ∨ vacant (view s) i = true → clean (view s) → kind d = connectionResponsePacket →
  shaped (ServerOps.connectClient i from id e timeout userData) (answered from d) s.
Proof.
  intros Hfree Hclean Hd. unfold ServerOps.connectClient. do 3 past_still.
  eapply shaped_bind; [by apply fillClientSlot_shaped|]. intros _ s3 l Hs <-.
  destruct (joined _ _ _ _ (sim_acts _ _ _ Hs) Hclean) as [Hocc Hto]. clear Hfree Hclean Hs.
  do 3 past_still. eapply shaped_after; [|intros ?; still_auto].
  eapply shaped_mono; [by apply sendClientPacket_shaped|].
  intros l [->|(n & to & r & Ha & ->)]; [by constructor|]. rewrite (Hto to Ha). by constructor.
Qed.
Lemma admit_shaped from d e id userData s :
  ab_running (view s) = true → clean (view s) → kind d = connectionResponsePacket →
  shaped (clientIndex ← ServerOps.findFreeClientIndex;
         timeoutSeconds ← zoom sv_encryptionManager (EncryptionManager.getTimeout e);
         ServerOps.connectClient clientIndex from id e timeoutSeconds userData) (answered from d) s.
Proof.
  intros Hrun Hclean Hd. apply wlp_bind. eapply wlp_mono; [by apply findFreeClientIndex_vacant|].
  intros i s1 [-> Hfree]. change (shaped (timeoutSeconds ← zoom sv_encryptionManager (EncryptionManager.getTimeout e);
         ServerOps.connectClient i from id e timeoutSeconds userData) (answered from d) s).
  past_still. by apply connectClient_shaped.
Qed.
Lemma processConnectionResponsePacket_shaped from d q data e s :
  ab_running (view s) = true → clean (view s) → kind d = connectionResponsePacket →
  shaped (ServerOps.processConnectionResponsePacket from q data e) (answered from d) s.
Proof.
  intros Hrun Hclean Hd. unfold ServerOps.processConnectionResponsePacket.
  shaped_auto ltac:(first [by constructor | by apply denied_shaped; [|right] | by apply admit_shaped]).
Qed.

Lemma server_processPacketInternal_shaped now from d p n e i s :
  ab_running (view s) = true → clean (view s) → packetType p = kind d →
  i = -1 ∨ may_leave (view s) i (Some from) = true →
  shaped (ServerOps.processPacketInternal now from p n e i) (answered from d) s.
Proof.
  intros Hrun Hclean Hd Hi. unfold ServerOps.processPacketInternal. past_still.
  destruct p; symmetry in Hd; cbn [packetType] in Hd.
  - case_match; [by apply processConnectionRequestPacket_shaped|by apply shaped_ret; constructor].
  - by apply shaped_ret; constructor.
  - by apply shaped_ret; constructor.
  - case_match; [by apply processConnectionResponsePacket_shaped|by apply shaped_ret; constructor].
  - case_match; [apply shaped_still; [still_auto|constructor]|by apply shaped_ret; constructor].
  - case_match; [apply shaped_still; [still_auto|constructor]|by apply shaped_ret; constructor].
  - destruct (Z.eqb_spec i (-1)) as [|Hne]; cbn [negb]; [by apply shaped_ret; constructor|].
    destruct Hi as [?|Hi]; [done|].
    eapply shaped_mono; [by apply disconnect_shaped|]. intros l <-. by constructor.
Qed.
Lemma readAndProcessPacket_shaped from d now now' allowed s :
  clean (view s) → shaped (ServerOps.readAndProcessPacket from d now now' allowed) (answered from d) s.
Proof.
  intros Hclean. unfold ServerOps.readAndProcessPacket. apply shaped_gets.
  destruct (sv_running s) eqn:Hrun; cbn [negb]; [|apply shaped_ret; constructor].
  change (ab_running (view s) = true) in Hrun.
  case_match; [apply shaped_ret; constructor|]. destruct d as [|b rest]; [done|].
  apply wlp_bind. eapply wlp_mono; [by apply findClientIndexByAddress_found|]. intros i s1 [-> Hi].
  match goal with |- wlp ?m _ _ => change (shaped m (answered from (b :: rest)) s) end.
  do 4 past_still. case_match; [apply shaped_ret; constructor|]. do 2 past_still.
  apply wlp_bind, wlp_lift. intros res Hres.
  match goal with |- wlp ?m _ ?s => change (shaped m (answered from (b :: rest)) s) end.
  past_still. destruct (rd_packet res) as [p|] eqn:Hp; [|apply shaped_ret; constructor].
  apply server_processPacketInternal_shaped; [done..| |done]. by eapply readPacket_kind.
Qed.
End datagrams.

(** ** The calls of the API *)
Section calls.
Context {C : CryptoLib} {L : CryptoLaws C}.

Lemma processAll_shaped s now arr :
  server_wf s →
  wlp (ServerOps.processAll now arr) (λ _ s', server_wf s' ∧ ∃ ls, simulates s s' (concat ls) ∧
    Forall2 (λ a, answered (rp_from (sa_packet a)) (rp_data (sa_packet a))) arr ls) s.
Proof.
  unfold ServerOps.processAll. revert s. induction arr as [|a arr IH]; intros s Hwf; cbn [for_].
  { apply wlp_ret. split; [done|]. exists []. split; [by apply simulates_still|constructor]. }
  apply wlp_bind. eapply wlp_mono; [apply wlp_and; [by apply readAndProcessPacket_shaped, wf_clean|
    by apply wp_wlp, readAndProcessPacket_wp]|].
  intros [] s1 [(l & Hs & Hl) [Hp _]]. apply processed_kept in Hp as [Hwf1 _]; [|done].
  eapply wlp_mono; [by apply IH|]. intros [] s2 (Hwf2 & ls & Hs2 & Hall). split; [done|].
  exists (l :: ls). split; [exact (simulates_trans _ _ _ _ _ Hs Hs2)|by constructor].
Qed.
Lemma receivePackets_shaped s now arr :
  server_wf s →
  wlp (ServerOps.receivePackets now arr) (λ _ s', server_wf s' ∧ ∃ ls, simulates s s' (concat ls) ∧
    Forall2 (λ a, answered (rp_from (sa_packet a)) (rp_data (sa_packet a)))
      (arrived (sv_config s) (sv_socketHolder s) arr) ls) s.
Proof.
  intros Hwf. unfold ServerOps.receivePackets, arrived. apply wlp_bind, wlp_gets. cbv beta delta [id].
  destruct (sc_networkSimulator (sv_config s)); cbn [negb]; [by apply processAll_shaped|].
  destruct (sc_overrideSendAndReceive (sv_config s)); [case_match; [by apply processAll_shaped|done]|].
  case_match; [by apply processAll_shaped|]. apply wlp_ret. split; [done|]. exists [].
  split; [by apply simulates_still|constructor].
Qed.

(** Packets and departures leave a running server running. *)
Lemma sim_running s s' l :
  simulates s s' l → Forall (λ a, match effect_of a with Restarts Global => False | _ => True end) l →
  sv_running s' = sv_running s.
Proof.
  intros Hs Hl. apply sim_acts in Hs. change (ab_running (view s') = ab_running (view s)).
  revert Hs. generalize (view s), (view s'). intros v v'. revert v.
  induction Hl as [|a l Ha _ IH]; intros v; cbn [acts]; [by intros [= ->]|].
  destruct (act v a) as [v1|] eqn:Hv; [|done]. intros Hrest. rewrite (IH v1 Hrest).
  destruct a as [[|i] n to p d|i n d|i who|i by_|k|]; cbn [act effect_of] in *; try done; guards; by subst.
Qed.
Lemma sendPackets_shaped s :
  server_wf s → shaped ServerOps.sendPackets (per_slot kept_alive) s.
Proof.
  intros Hwf. unfold ServerOps.sendPackets. apply shaped_gets. cbv beta delta [id].
  destruct (sv_running s) eqn:Hrun; cbn [negb].
  2: { apply shaped_ret. exists [], []. split_and!; [apply sublist_nil_l|constructor|done]. }
  eapply wlp_mono; [apply (shaped_slots _ (λ s1, sv_running s1 = true) kept_alive);
    [apply active_range, Hwf|done|]|by intros [] s' [_ H]].
  intros i s1 Hrun1. apply wlp_bind, wlp_aread. intros c Hc. apply wlp_bind, wlp_aread. intros lo Hlo.
  apply wlp_bind, wlp_aread. intros last _. apply wlp_bind, wlp_gets.
  destruct (c && negb lo && _) eqn:Hdue.
  2: { apply wlp_ret. split; [done|]. exists []. split; [by apply simulates_still|by left]. }
  guards. destruct c, lo; try done. apply wlp_bind, wlp_gets.
  eapply wlp_mono; [apply sendClientPacket_shaped|].
  { unfold occupied. cbn [view ab_running ab_connected ab_loopback]. by rewrite Hrun1, Hc, Hlo. }
  intros [] s2 (l & Hs & Hl). split.
  - rewrite (sim_running _ _ _ Hs); [done|]. destruct Hl as [->|(n & to & d & _ & ->)]; by repeat constructor.
  - exists l. split; [done|]. destruct Hl as [->|(n & to & d & _ & ->)]; [by left|right]. by eexists _, _, _, _.
Qed.
Lemma checkForTimeouts_shaped s :
  server_wf s → shaped ServerOps.checkForTimeouts (per_slot dropped) s.
Proof.
  intros Hwf. unfold ServerOps.checkForTimeouts. apply shaped_gets. cbv beta delta [id].
  destruct (sv_running s) eqn:Hrun; cbn [negb].
  2: { apply shaped_ret. exists [], []. split_and!; [apply sublist_nil_l|constructor|done]. }
  eapply wlp_mono; [apply (shaped_slots _ (λ s1, sv_running s1 = true) dropped);
    [apply active_range, Hwf|done|]|by intros [] s' [_ H]].
  intros i s1 Hrun1.
  assert (∀ A (m : A), wlp (mret m) (λ _ s2, sv_running s2 = true ∧
    ∃ l, simulates s1 s2 l ∧ (l = [] ∨ dropped i l)) s1) as Hret.
  { intros A m. apply wlp_ret. split; [done|]. exists []. split; [by apply simulates_still|by left]. }
  apply wlp_bind, wlp_aread. intros c Hc. apply wlp_bind, wlp_aread. intros t _.
  apply wlp_bind, wlp_aread. intros lo _. apply wlp_bind, wlp_aread. intros last _. apply wlp_bind, wlp_gets.
  destruct c; cbn [negb]; [|apply Hret]. repeat (case_match; [apply Hret|]). case_match; [|apply Hret].
  eapply wlp_mono; [apply (disconnect_shaped i None)|].
  { unfold may_leave. cbn [view ab_running ab_connected]. by rewrite Hrun1, Hc. }
  intros [] s2 (l & Hs & <-). split; [rewrite (sim_running _ _ _ Hs); [done|by repeat constructor]|].
  eexists. split; [exact Hs|by right].
Qed.
Lemma server_Update_shaped s now arr time :
  server_wf s →
  shaped (ServerOps.Update now arr time) (λ l, ∃ ls l2 l3,
    Forall2 (λ a, answered (rp_from (sa_packet a)) (rp_data (sa_packet a)))
      (arrived (sv_config s) (sv_socketHolder s) arr) ls ∧
    per_slot kept_alive l2 ∧ per_slot dropped l3 ∧ l = concat ls ++ l2 ++ l3) s.
Proof.
  intros Hwf. unfold ServerOps.Update. apply wlp_bind, wlp_modify.
  pose proof (time_kept s time Hwf) as [Hwf0 _]. set (s0 := s <| sv_time := time |>) in *.
  assert (still s s0) as H0 by done. apply wlp_bind.
  eapply wlp_mono; [by apply (receivePackets_shaped s0)|]. intros [] s1 (Hwf1 & ls & Hs1 & Hls).
  apply wlp_bind. eapply wlp_mono; [apply wlp_and; [by apply sendPackets_shaped|by apply wp_wlp, server_sendPackets_wp]|].
  intros [] s2 [(l2 & Hs2 & Hl2) [Hwf2 _ _]].
  eapply wlp_mono; [by apply checkForTimeouts_shaped|]. intros [] s3 (l3 & Hs3 & Hl3).
  exists (concat ls ++ l2 ++ l3). split; [|by eexists ls, l2, l3].
  eapply simulates_after; [exact H0|]. eapply simulates_trans; [exact Hs1|]. by eapply simulates_trans.
Qed.

(** A payload to a loopback client. *)
Lemma loopback_sent_shaped i d s :
  occupied (view s) i true = true →
  shaped (sequence ← aread sv_clientSequence i;
          ServerOps.emit [EvLoopback i d sequence];;
          awrite sv_clientSequence i (u64 (sequence + 1));;
          time ← gets sv_time;
          awrite sv_clientLastPacketSendTime i time) (λ l, ∃ n, l = [Loop i n d]) s.
Proof.
  intros Hocc. apply shaped_aread. intros n Hn. apply wlp_bind, wlp_modify, wlp_bind, wlp_awrite.
  intros _. apply wlp_bind, wlp_gets, wlp_awrite. intros _. exists [Loop i n d]. split; [|by exists n].
  apply simulates_one; [|simpl; by rewrite datagrams_app|done..]. cbn [act]. rewrite Hocc.
  cbn [view ab_sequence]. by rewrite bool_decide_true.
Qed.
(** Two packets to a network client, one of them optional. *)
Lemma greeted_shaped s i x (confirmed : bool) k m d :
  server_wf s → slot_at s i = Some x → network x → sv_running s = true →
  k = i32 i → valid_encrypted (KeepAlive k (i32 m)) → valid_encrypted (Payload d) →
  shaped ((if negb confirmed then ServerOps.sendClientPacket (KeepAlive k (i32 m)) i else mret tt);;
          ServerOps.sendClientPacket (Payload d) i)
    (λ l, ∃ greeting n to r, (greeting = [] ∨ kept_alive i greeting) ∧
       l = greeting ++ [Send (Slot i) n to (Payload d) r]) s.
Proof.
  intros Hwf Hx Hn Hrun -> Hk Hd. apply wlp_bind.
  assert (serving s i x true (sl_reason x) s) as H0.
  { split; try done; [|by exists []; rewrite app_nil_r].
    exists x. split; [apply slot_updated_refl; [apply Hwf|done]|done]. }
  eapply (wlp_mono _ (λ _ s1, serving s i x true (sl_reason x) s1 ∧
    ∃ l, simulates s s1 l ∧ (l = [] ∨ kept_alive i l))).
  - destruct confirmed; cbn [negb].
    + apply wlp_ret. split; [done|]. exists []. split; [by apply simulates_still|by left].
    + eapply wlp_mono; [by apply wp_wlp, serving_sends|]. intros [] s1 (H1 & l & Hs & n & to & r & ->).
      split; [done|]. eexists. split; [exact Hs|]. right. by eexists _, _, _, _.
  - intros [] s1 (H1 & l & Hs & Hl). eapply wlp_mono; [by apply wp_wlp, (serving_sends s i x (sl_reason x))|].
    intros [] s2 (_ & l' & Hs' & n & to & r & ->). eexists. split; [by eapply simulates_trans|]. eauto 10.
Qed.
Lemma server_SendPacket_shaped s i d :
  server_wf s →
  shaped (ServerOps.SendPacket i d) (λ l,
    if payload_size d && occupied (view s) i true then ∃ n, l = [Loop i n d]
    else if payload_size d && occupied (view s) i false then ∃ greeting n to r,
      (greeting = [] ∨ kept_alive i greeting) ∧ l = greeting ++ [Send (Slot i) n to (Payload d) r]
    else l = []) s.
Proof.
  intros Hwf. unfold ServerOps.SendPacket, payload_size. destruct (_ || _) eqn:Hsize; cbn [negb andb].
  { by apply shaped_ret. }
  apply payload_valid in Hsize. apply shaped_gets.
  destruct (ServerOps.in_slot_range i s) eqn:Hr; cbn [negb].
  2: { apply shaped_ret. by rewrite !not_in_range. }
  destruct (in_slot_range_slot s i Hwf Hr) as [x Hx]. apply in_range_running in Hr as Hrun.
  destruct (slot_at_inv _ _ _ Hx) as (Hc & _ & Hl & _).
  pose proof (occupied_slot s i x true Hx) as Ht. pose proof (occupied_slot s i x false Hx) as Hf.
  rewrite Ht, Hf, Hrun. apply shaped_aread. intros b Hb. rewrite Hb in Hc. injection Hc as ->.
  destruct (sl_connected x) eqn:Hcx; cbn [negb andb]; [|by apply shaped_ret].
  apply shaped_aread. intros b Hb'. rewrite Hb' in Hl. injection Hl as ->.
  destruct (sl_loopback x) eqn:Hlx; cbn [negb].
  - apply shaped_gets. case_match; [|done]. apply loopback_sent_shaped. by rewrite Ht, Hrun.
  - apply shaped_aread. intros confirmed _. apply shaped_gets.
    apply (greeted_shaped s i x); [done..|apply keepAlive_valid|done].
Qed.
Lemma ConnectLoopbackClient_shaped s i id userData :
  server_wf s →
  shaped (ServerOps.ConnectLoopbackClient i id userData)
    (λ l, if vacant (view s) i then l = [Join i None] else l = []) s.
Proof.
  intros Hwf. unfold ServerOps.ConnectLoopbackClient. apply shaped_gets.
  assert (vacant (view s) i = ServerOps.in_slot_range i s && bool_decide (aget (sv_clientConnected s) i = Some false))
    as Hvac.
  { unfold vacant, ServerOps.in_slot_range. cbn [view ab_running ab_maxClients ab_connected].
    rewrite Z.geb_leb. destruct (sv_running s), (Z.leb_spec 0 i), (Z.ltb_spec i 0), (Z.leb_spec (sv_maxClients s) i),
      (Z.ltb_spec i (sv_maxClients s)); simpl; done || lia. }
  destruct (ServerOps.in_slot_range i s) eqn:Hr; cbn [negb andb] in *; [|apply shaped_ret; by rewrite Hvac].
  apply shaped_aread. intros b Hb. destruct b.
  { apply shaped_ret. by rewrite Hvac, Hb. }
  rewrite bool_decide_true in Hvac by done. rewrite Hvac.
  apply shaped_gets. apply wlp_bind, wlp_modify. repeat (apply wlp_bind, wlp_awrite; intros _).
  match goal with |- wlp _ _ ?s1 => assert (simulates s s1 [Join i None]) as Hs end.
  { apply simulates_one; [|simpl; by rewrite app_nil_r|done..]. cbn [act]. by rewrite Hvac. }
  eapply wlp_mono; [apply connectDisconnect_still|]. intros [] s2 H2. exists [Join i None].
  split; [by eapply simulates_before|done].
Qed.
Lemma ProcessLoopbackPacket_still i d n : keeps still (ServerOps.ProcessLoopbackPacket i d n).
Proof. unfold ServerOps.ProcessLoopbackPacket. still_auto. Qed.

Lemma server_step_shaped s op :
  server_wf s →
  wlp (server_step op) (λ _ s', ∃ l, simulates s s' l ∧
    allowed (sv_config s) (sv_socketHolder s) (view s) op l (view s')) s.
Proof.
  intros Hwf. destruct op; cbn [server_step allowed].
  - by apply Start_shaped.
  - by apply Stop_shaped.
  - eapply shaped_after; [by apply Stop_shaped|]. intros _. by apply emit_still.
  - by apply server_Update_shaped.
  - by apply readAndProcessPacket_shaped, wf_clean.
  - by apply server_SendPacket_shaped.
  - apply shaped_still; [still_auto|done].
  - by apply DisconnectClient_shaped.
  - eapply wlp_mono; [apply wlp_and; [by apply DisconnectAllClients_shaped|by apply DisconnectAllClients_empties]|].
    intros [] s' [[_ (l & Hs & Hl)] He]. by exists l.
  - by apply ConnectLoopbackClient_shaped.
  - by apply DisconnectLoopbackClient_shaped.
  - apply shaped_still; [apply ProcessLoopbackPacket_still|done].
Qed.
Lemma server_run_follows s ops :
  server_wf s → server_send_ok s → Forall (server_op_ok (sv_config s)) ops →
  wp (server_run ops) (λ _ s', ∃ l, simulates s s' l ∧
    session_run (sv_config s) (sv_socketHolder s) (view s) ops l (view s')) s.
Proof.
  unfold server_run. revert s. induction ops as [|op ops IH]; intros s Hwf Hcb Hops; cbn [for_].
  { apply wp_ret. exists []. split; [by apply simulates_still|constructor]. }
  apply Forall_cons in Hops as [H1 H2]. apply wp_bind.
  eapply wp_mono; [apply wp_and_wlp; [by apply server_step_served|by apply server_step_shaped]|].
  intros [] s1 [[[Hwf1 Hc1] Hcb1] (l & Hs & Hl)].
  eapply wp_mono; [apply IH; [done|done|by rewrite Hc1]|]. intros [] s2 (l' & Hs' & Hrun).
  rewrite (sim_config _ _ _ Hs), (sim_holder _ _ _ Hs) in Hrun. exists (l ++ l').
  split; [by eapply simulates_trans|]. econstructor; [apply Hs|exact Hl|exact Hrun].
Qed.

Lemma new_roomy config a a2 v4 v6 time k :
  k < 2 ^ 63 → roomy (view (ServerOps.new config a a2 v4 v6 time)) k.
Proof.
  intros Hk. split; [done|]. intros [|i] n; cbn [next view ab_global ab_sequence ServerOps.new
    sv_globalSequence sv_clientSequence base].
  - intros [= <-]. change (Z.shiftl 1 63) with first_global. unfold first_global. lia.
  - intros ->%aget_replicate_inv. lia.
Qed.
End calls.

(** ** Claims *)
Section session_claims.
Context {C : CryptoLib} {L : CryptoLaws C}.

(** C6. Refinement: whatever calls are made on a well formed server (with the
    callbacks they need), they succeed and follow the abstract machine of
    SessionMachine, call by call. The machine lets a client join only a vacant slot
    below maxClients, leave only while connected (and by a datagram only from its
    own address), sends on a slot only to the network client there, hands out the
    numbers of each slot and of the global stream in order, starts only when
    stopped and stops only with all slots free; numbers start anew only at those
    steps, the global ones at 2^63. Each call is allowed only its own steps: a
    datagram from an address at most one reply there, or that address joins after a
    response, or its client leaves after a disconnect packet; SendPacket to a
    network client exactly the payload, after at most one keep alive; a
    disconnection exactly ten disconnect packets and the departure; Start exactly
    the steps of Stop and one start; the other calls as [allowed] says. The
    datagrams sent are exactly those of the steps whose destination has a
    transport, each the named packet written under the number it takes. *)
Theorem server_refines_sessions (s : Server) (ops : list server_op)
  (Hwf : server_wf s) (Hcb : server_send_ok s) (Hops : Forall (server_op_ok (sv_config s)) ops) :
  ∃ s' l, server_run ops s = Some (tt, s') ∧
    session_run (sv_config s) (sv_socketHolder s) (view s) ops l (view s') ∧
    datagrams (sv_events s') = datagrams (sv_events s) ++ omap (out_of (reaches s)) l ∧
    Forall (sealed_with (sc_protocolID (sv_config s))) l.
Proof.
  pose proof (server_run_follows s ops Hwf Hcb Hops) as H.
  apply wp_inv in H as ([] & s' & Hrun & l & [_ H2 H3 _ _] & Hl). by exists s', l.
Qed.

(** C7. Nonce uniqueness of the server: for any sequence of API calls on a new
    server that can take fewer than 2^63 steps (4096 for each call and two for each
    datagram that arrives), the run follows the machine of C6, and in its steps no
    two packets of one connection, and no two challenge or denied packets of one
    run from Start to Stop, use the same sequence number; packets to connected
    clients use numbers below 2^63 and the others numbers from 2^63 on, so that a
    packet of a connection never shares its nonce with the challenge that preceded
    it under the same key. *)
Theorem server_nonces_distinct (config : serverConfig) (address address2 : Address)
  (ipv4 ipv6 : option Address) (time : float64) (ops : list server_op)
  (Hkey : length (sc_privateKey config) = KeyBytes) (Hops : Forall (server_op_ok config) ops)
  (Hlong : let s := ServerOps.new config address address2 ipv4 ipv6 time in
           total_budget (sv_config s) (sv_socketHolder s) ops < 2 ^ 63) :
  let s := ServerOps.new config address address2 ipv4 ipv6 time in
  ∃ s' l, server_run ops s = Some (tt, s') ∧
    session_run (sv_config s) (sv_socketHolder s) (view s) ops l (view s') ∧
    datagrams (sv_events s') = omap (out_of (reaches s)) l ∧
    Forall (sealed_with (sc_protocolID config)) l ∧
    NoDup (uses (λ _, 0%nat) l) ∧
    Forall (λ '(st, _, n), match st with
                           | Global => 2 ^ 63 ≤ n < 2 ^ 64
                           | Slot _ => 0 ≤ n < 2 ^ 63
                           end) (uses (λ _, 0%nat) l).
Proof.
  intros s. pose proof (server_run_follows s ops) as H.
  apply wp_inv in H as ([] & s' & Hrun & l & [H1 H2 H3 _ _] & Hl);
    [|by apply new_wf|apply new_send_ok|by apply new_ops_ok].
  replace (sc_protocolID (sv_config s)) with (sc_protocolID config) in H3.
  2: { unfold s. simpl. by destruct (sc_maxConnectTokenLifetime config <=? 0). }
  apply session_run_length in Hl as Hlen. change (total_budget (sv_config s) (sv_socketHolder s) ops < 2 ^ 63) in Hlong.
  destruct (uses_distinct _ _ _ (λ _, 0%nat) H1) as [Hnd Hlater]; [apply new_roomy; lia|].
  exists s', l. split_and!; [done..|]. eapply Forall_impl; [exact Hlater|].
  intros [[[|i] e] n] [Hb _]; simpl in Hb; unfold first_global in Hb; lia.
Qed.
End session_claims.

(** A handshake, a payload to the client, a loopback client, and the end of the
    session: a challenge, the greeting, a keep alive and the payload, and ten
    disconnect packets. *)
Definition session_ops : list server_op :=
  sample_ops ++ [OpServerSendPacket 0 [byte.of_Z 1]; OpServerConnectLoopback 2 9 [];
                 OpServerSendPacket 2 [byte.of_Z 1]; OpServerStop].
Lemma session_ops_ok : Forall (server_op_ok sample_server_config) session_ops.
Proof. repeat constructor. Qed.
Definition sample_session_end : Server :=
  after (server_run (C := sample_crypto) session_ops) sample_new_server.
Lemma server_refines_sessions_witness :
  length (datagrams (sv_events sample_session_end)) = 14%nat ∧
  ∃ s' l, server_run (C := sample_crypto) session_ops sample_new_server = Some (tt, s') ∧
    session_run (sv_config sample_new_server) (sv_socketHolder sample_new_server) (view sample_new_server)
      session_ops l (view s') ∧
    datagrams (sv_events s') = datagrams (sv_events sample_new_server) ++ omap (out_of (reaches sample_new_server)) l ∧
    Forall (sealed_with (C := sample_crypto) 7) l.
Proof.
  split; [vm_compute; reflexivity|].
  apply (server_refines_sessions (C := sample_crypto) sample_new_server session_ops).
  - by apply new_wf.
  - apply new_send_ok.
  - exact session_ops_ok.
Defined.
(** The same calls twice: the slot's numbers start anew in the second session. *)
Lemma server_nonces_distinct_witness :
  length (datagrams (sv_events
    (after (server_run (C := sample_crypto) (session_ops ++ session_ops)) sample_new_server))) = 28%nat ∧
  ∃ s' l, server_run (C := sample_crypto) (session_ops ++ session_ops) sample_new_server = Some (tt, s') ∧
    session_run (sv_config sample_new_server) (sv_socketHolder sample_new_server) (view sample_new_server)
      (session_ops ++ session_ops) l (view s') ∧
    datagrams (sv_events s') = omap (out_of (reaches sample_new_server)) l ∧
    NoDup (uses (λ _, 0%nat) l).
Proof.
  split; [vm_compute; reflexivity|].
  destruct (server_nonces_distinct (C := sample_crypto) sample_server_config sample_ipv4 zeroAddress None None
    f64_1 (session_ops ++ session_ops) eq_refl (Forall_app_2 _ _ _ session_ops_ok session_ops_ok)
    ltac:(vm_compute; reflexivity)) as (s' & l & H1 & H2 & H3 & _ & H4 & _).
  exists s', l. exact (conj H1 (conj H2 (conj H3 H4))).
Defined.
