(* ===== verification/Handshake.v ===== *)
(** A client and a server together: the four datagrams of the handshake, from a
    connection request to a connected client. *)

From stdpp Require Import gmap.
From S2P Require Import Prelude Constants Float64 Buffer Replay Queue Address Crypto.
From S2P Require Import SampleCrypto Token Packet TokenEntries Encryption Socket Client Server.
From S2P Require Import ServerInvariant ServerHandlers ServerConnect ServerReceive ServerRun ServerClaims.

Section handshake.
Context {C : CryptoLib} {L : CryptoLaws C}.

(** ** Searches that find nobody *)
Lemma search_address_none s from :
  server_wf s → address_free s from → ServerOps.findClientIndexByAddress from s = Some (-1, s).
Proof.
  intros Hwf Hfree. destruct (findClientIndexByAddress_spec from s Hwf) as (r & Hr & [[-> _]|(Hri & x & Hx & Hb)]); [done|].
  exfalso. apply andb_prop in Hb as [Hc He]. by rewrite (Hfree _ _ Hx Hc) in He.
Qed.
Lemma search_id_none s id :
  server_wf s → id_unused s id → ServerOps.findClientIndexByID id s = Some (-1, s).
Proof.
  intros Hwf Hun. destruct (findClientIndexByID_spec id s Hwf) as (r & Hr & [[-> _]|(Hri & x & Hx & Hb)]); [done|].
  exfalso. apply andb_prop in Hb as [Hc He%Z.eqb_eq]. by apply (Hun _ _ Hx Hc).
Qed.

(** ** Reading a connection request *)

(** A request around a token sealed under the private key, for this protocol id
    and not expired, is read. *)
Lemma readPacket_token key pid expire nonce plaintext readKey now minExpire allowed replay :
  length key = KeyBytes → length nonce = connectTokenNonceBytes →
  length plaintext = (connectTokenPrivateBytes - MacBytes)%nat →
  is_u64 pid → is_u64 expire → now < expire → minExpire ≤ expire →
  aget allowed connectionRequestPacket = Some true →
  let sealed := Seal xchacha20poly1305 key nonce (connect_token_additional pid expire) plaintext in
  readPacket (sealed_request key pid expire nonce plaintext) readKey pid now minExpire (Some key) allowed replay =
  Some (mkRead (Some (Request (mkRequest versionInfo pid expire nonce
          (plaintext ++ drop (connectTokenPrivateBytes - MacBytes) sealed)))) 0 replay).
Proof.
  intros Hk Hn Hp Hpid Hexp Hnow Hmin Hal sealed. set (buf := sealed_request key pid expire nonce plaintext).
  assert (length buf = requestPacketBytes) as Hlen by (by apply length_sealed_request).
  assert (length buf = 1078%nat) as Hlen' by done.
  assert (drop 1 buf = versionInfo ++ le_split 8 pid ++ le_split 8 expire ++ nonce ++ sealed) as E1 by done.
  assert (drop 14 buf = le_split 8 pid ++ le_split 8 expire ++ nonce ++ sealed) as E2.
  { change 14%nat with (1 + versionInfoBytes)%nat. rewrite <-drop_drop, E1, <-length_versionInfo. apply drop_app_length. }
  assert (drop 22 buf = le_split 8 expire ++ nonce ++ sealed) as E3.
  { change 22%nat with (14 + 8)%nat. rewrite <-drop_drop, E2. apply drop_app_length'. by rewrite length_le_split. }
  assert (drop 30 buf = nonce ++ sealed) as E4.
  { change 30%nat with (22 + 8)%nat. rewrite <-drop_drop, E3. apply drop_app_length'. by rewrite length_le_split. }
  assert (drop 54 buf = sealed) as E5.
  { change 54%nat with (30 + 24)%nat. rewrite <-drop_drop, E4. by apply drop_app_length'. }
  assert (length sealed = connectTokenPrivateBytes) as Hsl by (unfold sealed; rewrite Seal_length, Hp by done; clia).
  unfold readPacket. fold buf.
  rewrite bool_decide_eq_false_2 by lia.
  enough (wp (prefixByte ← Reader.uint8;
              if prefixByte =? connectionRequestPacket then
                (p ← readRequest (length buf) pid now minExpire (Some key) allowed;
                 mret (mkRead p 0 replay))
              else readEncrypted (length buf) prefixByte readKey pid allowed replay)
            (λ res _, res = mkRead (Some (Request (mkRequest versionInfo pid expire nonce
               (plaintext ++ drop (connectTokenPrivateBytes - MacBytes) sealed)))) 0 replay) (mkReader buf 0)) as Hwp.
  { apply wp_inv in Hwp as (res & st & -> & ->). done. }
  apply wp_bind. eapply (wp_reads _ [byte.of_Z connectionRequestPacket] connectionRequestPacket); [by apply reads_uint8|lia|done|].
  rewrite Z.eqb_refl. apply wp_bind. unfold readRequest.
  apply wp_bind. eapply wp_lift; [done|]. cbn [negb]. rewrite (bool_decide_eq_true_2 (length buf = _)) by done. cbn [negb].
  apply wp_bind. eapply wp_reads; [by apply reads_bytes, length_versionInfo|cbn [length]; clia|exact E1|].
  rewrite bool_decide_eq_true_2 by done. cbn [negb]. rewrite length_versionInfo.
  apply wp_bind. eapply wp_reads; [exact (reads_uint64 pid Hpid)|cbn [length]; clia|exact E2|].
  rewrite Z.eqb_refl, length_le_split. cbn [negb].
  apply wp_bind. eapply wp_reads; [exact (reads_uint64 expire Hexp)|cbn [length]; clia|exact E3|].
  rewrite length_le_split. destruct (Z.leb_spec expire now); [lia|]. destruct (Z.ltb_spec expire minExpire); [lia|].
  apply wp_bind. eapply wp_reads; [exact (reads_bytes _ nonce Hn)|cbn [length]; clia|exact E4|].
  rewrite Hn. apply wp_bind.
  eapply (wp_decrypt_rest _ (Some (plaintext ++ drop (connectTokenPrivateBytes - MacBytes) sealed))).
  { change (drop _ buf) with (drop 54 buf). rewrite E5. by apply decryptConnectTokenPrivate_seal. }
  cbn [negb]. apply wp_bind. eapply (wp_reads _ (plaintext ++ drop (connectTokenPrivateBytes - MacBytes) sealed) _ _ _ _ []).
  - apply reads_bytes. rewrite length_app, Hp, length_drop, Hsl. clia.
  - rewrite length_app, length_take, Hlen'. cbn [length]. clia.
  - rewrite app_nil_r. apply drop_app_length'. rewrite length_take, Hlen'. cbn [length]. clia.
  - by do 2 apply wp_ret.
Qed.

(** ** The server answers a request with a challenge *)

(** The packet that carries a challenge: a sealed challenge token of the client. *)
Definition challenge_for (s : Server) (token : connectTokenPrivate) (data : list byte) : Prop :=
  length data = challengeTokenBytes ∧
  sealed_challenge (sv_challengeKey s) (sv_challengeSequence s)
    (mkChallengeToken (ctp_clientID token) (ctp_userData token)) data.
(** The server after a request was answered. *)
Record challenged (s : Server) (from : Address) (token : connectTokenPrivate) (s1 : Server) : Prop := {
  ch_wf : server_wf s1;
  ch_slots i : slot_at s1 i = slot_at s i;
  ch_count : sv_numConnectedClients s1 = sv_numConnectedClients s;
  ch_config : sv_config s1 = sv_config s;
  ch_holder : sv_socketHolder s1 = sv_socketHolder s;
  ch_flags : sv_flags s1 = sv_flags s;
  ch_time : sv_time s1 = sv_time s;
  ch_running : sv_running s1 = sv_running s;
  ch_max : sv_maxClients s1 = sv_maxClients s;
  ch_key : sv_challengeKey s1 = sv_challengeKey s;
  (** The mapping that decrypts the response. *)
  ch_mapping : ∃ e y, em_at (sv_encryptionManager s1) e = Some y ∧
    live_for y from (sv_time s) = true ∧ mp_sendKey y = ctp_serverToClientKey token ∧
    mp_receiveKey y = ctp_clientToServerKey token ∧
    ∀ j z, 0 ≤ j < e → em_at (sv_encryptionManager s1) j = Some z → live_for z from (sv_time s) = false;
  ch_sent : ∃ evs data, sv_events s1 = sv_events s ++ evs ∧ challenge_for s token data ∧
    datagrams evs = if reaches s from
      then [(from, encoding (Challenge_ (sv_challengeSequence s) data) (sv_globalSequence s)
                     (ctp_serverToClientKey token) (sc_protocolID (sv_config s)))] else [];
}.

Lemma sendChallenge_exact s from token :
  server_wf s → wf_private token →
  wp (ServerOps.sendChallenge from token) (λ _ s', server_wf s' ∧ ∃ evs data,
    s' = s <| sv_challengeSequence := u64 (sv_challengeSequence s + 1) |>
           <| sv_events := sv_events s ++ evs |>
           <| sv_globalSequence := u64 (sv_globalSequence s + 1) |> ∧
    challenge_for s token data ∧
    datagrams evs = if reaches s from
      then [(from, encoding (Challenge_ (sv_challengeSequence s) data) (sv_globalSequence s)
                     (ctp_serverToClientKey token) (sc_protocolID (sv_config s)))] else []) s.
Proof.
  intros Hwf Ht. set (ct := mkChallengeToken (ctp_clientID token) (ctp_userData token)).
  assert (valid_challenge ct) as Hct by (split; apply Ht).
  unfold ServerOps.sendChallenge. apply wp_bind, wp_gets. cbv beta delta [id].
  apply wp_bind. eapply wp_lift; [apply challenge_write_spec; [exact Hct|apply length_zeros]|].
  set (plain := enc_challenge _ ++ _).
  assert (length plain = challengeTokenBytes) as Hd.
  { unfold plain. rewrite length_app, length_enc_challenge by exact Hct. done. }
  apply wp_bind. eapply wp_lift; [apply encryptChallengeToken_spec; [done|apply Hwf]|].
  cbn [negb]. apply wp_bind, wp_modify. set (sealed := Seal _ _ _ _ _).
  assert (length sealed = challengeTokenBytes) as Hsl.
  { unfold sealed. rewrite Seal_length, length_take, Hd; [done|apply Hwf]. }
  pose proof (rq_wf _ _ _ (challenge_sequence_requested s from (sv_challengeSequence s + 1) Hwf)) as Hwf1.
  eapply wp_mono; [apply sendGlobalPacket_wp; [exact Hwf1|split; [apply Hwf|exact Hsl]|apply Ht]|].
  intros [] s' (Hwf' & evs & -> & Hevs). split; [done|]. exists evs, sealed. split_and!; [done| |done].
  split; [done|]. unfold sealed, plain. rewrite take_app_ge by (rewrite length_enc_challenge by exact Hct; clia).
  by eexists.
Qed.

Section request.
Context (s : Server) (from : Address) (token : connectTokenPrivate) (request : connectionRequest) (now' : Z).
Context (Hwf : server_wf s) (Hfrom : Equal from from = true) (Hfree : address_free s from)
  (Hunused : id_unused s (ctp_clientID token)).
Context (Hlen : length (req_connectTokenData request) = connectTokenPrivateBytes)
  (Hread : Private.read zeroPrivate (req_connectTokenData request) = Some (None, token)).
(** One of the server's addresses is in the token. *)
Context (Haddress : ServerOps.foundServerAddress (sv_address s) (sv_address2 s) (ctp_serverAddresses token)
  (seqZ 0 (ctp_numServerAddresses token)) false = Some true).
(** The token history admits the token, there is a free slot, and a free
    encryption mapping. *)
Context (k : Z) (entries : list connectTokenEntry)
  (Hhistory : connectTokenEntriesFindOrAdd (sv_connectTokenEntries s) from
     (drop (connectTokenPrivateBytes - MacBytes) (req_connectTokenData request))
     (req_connectTokenExpireTimestamp request) now' (sv_time s) = Some (k, entries)) (Hk : 0 ≤ k).
Context (Hroom : sv_numConnectedClients s ≠ sv_maxClients s).
Context (Hmapping : ∃ j y, em_at (sv_encryptionManager s) j = Some y ∧ free_slot y (sv_time s) = true)
  (Hexpire : not_yet_expired (sv_time s) (ServerOps.mappingExpireTime (sv_time s) (ctp_timeoutSeconds token))
     (ctp_timeoutSeconds token)).

Lemma request_challenged_wp :
  wp (ServerOps.processConnectionRequestPacket now' from request) (λ _ s1, challenged s from token s1) s.
Proof.
  destruct (private_read_total (req_connectTokenData request)) as (err & t & Hr & Htok).
  rewrite Hread in Hr. injection Hr as <- <-. specialize (Htok eq_refl).
  unfold ServerOps.processConnectionRequestPacket. apply wp_bind. eapply wp_lift; [done|]. cbv beta iota.
  apply wp_bind, wp_gets. cbv beta delta [id]. apply wp_bind. eapply wp_lift; [done|]. cbn [negb].
  apply wp_bind. eapply wp_run; [by apply search_address_none|]. rewrite Z.eqb_refl. cbn [negb].
  apply wp_bind. eapply wp_run; [by apply search_id_none|]. rewrite Z.eqb_refl. cbn [negb].
  apply wp_bind. eapply wp_lift; [done|]. cbv beta iota. apply wp_bind, wp_modify.
  destruct (find_or_add_total (sv_connectTokenEntries s) from
              (drop (connectTokenPrivateBytes - MacBytes) (req_connectTokenData request))
              (req_connectTokenExpireTimestamp request) now' (sv_time s)) as (k' & entries' & Hk' & Hent & _);
    [apply Hwf|rewrite length_drop, Hlen; clia|].
  rewrite Hhistory in Hk'. injection Hk' as <- <-.
  pose proof (rq_wf _ _ _ (entries_requested s from entries Hwf Hent)) as Hwf1.
  set (s1 := s <| sv_connectTokenEntries := entries |>) in *.
  destruct (Z.eqb_spec k connectTokenHistoryFull) as [->|]; [done|].
  destruct (Z.eqb_spec k connectTokenEntryRefused) as [->|]; [done|].
  destruct (Z.eqb_spec (sv_numConnectedClients s) (sv_maxClients s)); [done|].
  destruct (add_spec (sv_encryptionManager s1) from (ctp_serverToClientKey token)
    (ctp_clientToServerKey token) (sv_time s)
    (ServerOps.mappingExpireTime (sv_time s) (ctp_timeoutSeconds token)) (ctp_timeoutSeconds token) k)
    as (b & m' & Hadd & Hb); [apply Hwf1|apply Htok..|].
  apply wp_bind, wp_zoom. eapply wp_run; [done|]. destruct b; cbn [negb].
  2: { exfalso. destruct Hb as [_ Hno]. destruct Hmapping as (j & y & Hy & Hf).
       destruct (Hno j y Hy). congruence. }
  destruct Hb as [e Hb]. pose proof (mapping_requested s1 from _ _ _ _ _ e m' Hwf1 Hfree Hb) as H2.
  eapply wp_mono; [apply sendChallenge_exact; [apply H2|done]|].
  intros [] s' (Hwf' & evs & data & -> & Hdata & Hevs).
  split; try done.
  - destruct Hb as [_ _ (x & a & Hx & Hnew & Hcase) Hframe _ Hfirst]. exists e. eexists. split; [exact Hnew|].
    assert (Equal a from = true) as Haa.
    { destruct Hcase as [[Hl ->]|[_ ->]]; [|done]. by apply andb_true_iff in Hl as [? _]. }
    split_and!; [|done|done|].
    + unfold live_for. simpl. rewrite Haa. destruct Hexpire as [He1 He2]. unfold expired. simpl. by rewrite He1, He2.
    + intros j z Hj Hz. simpl in Hz. rewrite Hframe in Hz by lia. by eapply Hfirst.
  - by exists evs, data.
Qed.
End request.

(** ** The server lets the sender of a response in *)

Lemma challenge_decrypted key sequence token data :
  length key = KeyBytes → length data = challengeTokenBytes → sealed_challenge key sequence token data →
  ∃ d, decryptChallengeToken data sequence key = Some (Some d) ∧
    Challenge.read zeroChallengeToken d = Some (None, token).
Proof.
  intros Hk Hl (padding & -> & Hv). unfold decryptChallengeToken. rewrite packetNonce_spec.
  cbn [mbind option_bind]. unfold decryptAEAD. rewrite Seal_length in Hl by done.
  pose proof (decrypt_in_place_seal chacha20poly1305 chachaNonceSize key (packet_nonce sequence) []
    (enc_challenge token ++ padding) [] Hk (length_packet_nonce _)) as Hd.
  rewrite app_nil_r in Hd. rewrite <-Hl, Hd. eexists. split; [done|].
  rewrite <-app_assoc. apply challenge_read_spec; [done|].
  rewrite app_assoc, length_app, length_drop, Seal_length by done. lia.
Qed.

(** Slot [i] was free and the client is in it. *)
Definition let_in (s : Server) (from : Address) (token : challengeToken) (e : Z) (s' : Server) : Prop :=
  ∃ i x timeout, 0 ≤ i < sv_maxClients s ∧ slot_at s i = Some x ∧ sl_connected x = false ∧
    admitted s i x from (cht_clientID token) e timeout (cht_userData token) s'.

Lemma response_admitted_wp s from q data e y token :
  server_wf s → length data = challengeTokenBytes →
  em_at (sv_encryptionManager s) e = Some y → Equal (mp_address y) from = true →
  sealed_challenge (sv_challengeKey s) q token data → address_free s from →
  id_unused s (cht_clientID token) → sv_numConnectedClients s ≠ sv_maxClients s →
  wp (ServerOps.processConnectionResponsePacket from q data e) (λ _ s', let_in s from token e s') s.
Proof.
  intros Hwf Hlen Hy Ha Hsealed Hfree Hunused Hroom.
  destruct (challenge_decrypted _ q token data (sw_challengeKey _ Hwf) Hlen Hsealed) as (d & Hd & Hread).
  unfold ServerOps.processConnectionResponsePacket. apply wp_bind, wp_gets.
  apply wp_bind. eapply wp_lift; [exact Hd|]. apply wp_bind. eapply wp_lift; [exact Hread|]. cbv beta iota.
  apply wp_bind, wp_zoom. eapply wp_run; [by apply getSendKey_spec|].
  replace (s <| sv_encryptionManager := sv_encryptionManager s |>) with s by (by destruct s).
  apply wp_bind. eapply wp_run; [by apply search_address_none|]. rewrite Z.eqb_refl. cbn [negb].
  apply wp_bind. eapply wp_run; [by apply search_id_none|]. rewrite Z.eqb_refl. cbn [negb].
  apply wp_bind, wp_gets. cbv beta delta [id].
  destruct (Z.eqb_spec (sv_numConnectedClients s) (sv_maxClients s)); [done|].
  destruct (findFreeClientIndex_spec s Hwf) as (i & Hfi & Hsi).
  destruct (search_free s i Hwf Hroom Hsi) as (Hi & x & Hx & Hc).
  apply wp_bind. eapply wp_run; [done|].
  apply wp_bind, wp_zoom. eapply wp_run; [by apply getTimeout_spec|].
  replace (s <| sv_encryptionManager := sv_encryptionManager s |>) with s by (by destruct s).
  eapply wp_mono; [eapply (connectClient_wp s i x from _ e _ _ y); try done|].
  - by destruct Hsealed as (? & _ & _ & ?).
  - intros [] s' H. by exists i, x, (mp_timeout y).
Qed.

(** ** A datagram from an address nobody is connected from *)
Lemma stranger_wp s now now' from d b0 e m key p sequence Q :
  server_wf s → sv_running s = true → address_free s from → (1 < length d)%nat → aget d 0 = Some b0 →
  EncryptionManager.findEncryptionMapping from (sv_time s) (sv_encryptionManager s) = Some (e, m) →
  EncryptionManager.getReceiveKey e m = Some (key, m) →
  is_some key = true ∨ byte.unsigned b0 = 0 →
  readPacket d key (sc_protocolID (sv_config s)) now (sv_minConnectTokenExpireTimestamp s)
    (Some (sc_privateKey (sv_config s))) ServerOps.serverAllowedPackets None =
    Some (mkRead (Some p) sequence None) →
  wp (ServerOps.processPacketInternal now' from p sequence e (-1)) Q (with_mappings s m) →
  wp (ServerOps.ProcessPacket now now' from d) Q s.
Proof.
  intros Hwf Hrun Hfree Hlen Hb0 Hfind Hgk Hkey Hread HQ.
  unfold ServerOps.ProcessPacket, ServerOps.readAndProcessPacket.
  apply wp_bind, wp_gets. rewrite Hrun. cbn [negb]. rewrite bool_decide_eq_false_2 by lia.
  apply wp_bind. eapply wp_run; [by apply search_address_none|]. apply wp_bind, wp_gets.
  rewrite Z.eqb_refl. cbn [negb]. apply wp_bind, wp_zoom. eapply wp_run; [done|]. fold (with_mappings s m).
  apply wp_bind, wp_zoom. eapply wp_run; [exact Hgk|].
  change ((with_mappings s m) <| sv_encryptionManager := m |>) with (with_mappings s m).
  apply wp_bind. eapply wp_lift; [done|].
  assert (negb (is_some key) && negb (byte.unsigned b0 =? 0) = false) as ->
    by (destruct Hkey as [-> | ->]; [done|by rewrite andb_false_r]).
  apply wp_bind, wp_ret, wp_bind, wp_gets. cbv beta delta [id].
  apply wp_bind. eapply wp_lift; [exact Hread|]. cbn [rd_replay rd_packet rd_sequence].
  apply wp_bind, wp_ret. exact HQ.
Qed.

(** ** The client's side *)

(** Whether the client has a transport for its server. *)
Definition client_reaches (c : Client) : bool :=
  reachable (cc_networkSimulator (cl_config c))
    (if cc_overrideSendAndReceive (cl_config c) then cc_sendPacketOverride (cl_config c) else false)
    (cl_socketHolder c) (cl_serverAddress c).
(** The client after one packet went out. *)
Definition client_sent (c : Client) (evs : list event) : Client :=
  c <| cl_sequence := u64 (cl_sequence c + 1) |> <| cl_events := cl_events c ++ evs |>
    <| cl_lastPacketSendTime := cl_time c |>.
Lemma client_sends_wp c p n b d :
  writePacket p (zeros maxPacketBytes) (cl_sequence c) (cl_writePacketKey c)
    (ct_protocolID (cl_connectToken c)) = Some (n, b) →
  n ≠ 0%nat → take n b = d → client_reaches c = true →
  wp (ClientOps.sendPacketToServerInternal p) (λ _ c', ∃ evs, c' = client_sent c evs ∧
    datagrams evs = [(cl_serverAddress c, d)]) c.
Proof.
  intros Hw Hn <- Hreach. unfold ClientOps.sendPacketToServerInternal. apply wp_bind, wp_gets. cbv beta delta [id].
  apply wp_bind. eapply wp_lift; [exact Hw|]. cbv beta iota. apply wp_bind, wp_modify.
  rewrite bool_decide_eq_false_2 by done. apply wp_bind, wp_modify, wp_modify. eexists. split; [done|].
  rewrite datagrams_send. unfold client_reaches in Hreach. by rewrite Hreach.
Qed.

(** A packet sealed under the read key, and fresh. *)
Lemma client_reads_wp c now from p sequence rp Q :
  client_wf c → cl_hasPacketKeys c = true → valid_encrypted p → is_u64 sequence →
  aget ClientOps.clientAllowedPackets (packetType p) = Some true →
  replay_check (Some (cl_replayProtection c)) (packetType p) sequence = Some false →
  replay_advance (Some (cl_replayProtection c)) (packetType p) sequence = Some (Some rp) →
  wp (ClientOps.processPacketInternal from p sequence) Q (c <| cl_replayProtection := rp |>) →
  wp (ClientOps.ProcessPacket now from
        (encoding p sequence (cl_readPacketKey c) (ct_protocolID (cl_connectToken c)))) Q c.
Proof.
  intros Hwf Hkeys Hp Hs Hal Hchk Hadv HQ. unfold ClientOps.ProcessPacket. apply wp_bind, wp_gets.
  cbv beta delta [id] zeta. rewrite Hkeys. apply wp_bind. eapply wp_lift.
  { unfold encoding. apply readPacket_sealed with (replay' := Some rp);
      rewrite ?le_combine_sequence_bytes by done; try done; [apply Hwf|by apply sequence_bytes_range]. }
  cbn [rd_replay rd_packet rd_sequence]. rewrite le_combine_sequence_bytes by done.
  apply wp_bind, wp_modify. exact HQ.
Qed.

(** The first packet of a connection, whatever its sequence number, is not a
    replay. *)
Lemma fresh_window type sequence :
  replay_check (Some Replay.reset) type sequence = Some false ∧
  ∃ rp, replay_advance (Some Replay.reset) type sequence = Some (Some rp).
Proof.
  destruct (replay_advance_total (Some Replay.reset) type sequence) as (r & Hr & _);
    [apply replay_wf_reset|]. split.
  - unfold replay_check. destruct (type >=? _); [|done]. unfold Replay.alreadyReceived.
    change (mostRecentSequence Replay.reset >=? replayProtectionBufferSize) with false. cbn [andb].
    pose proof (window_index sequence). unfold Replay.reset. cbn [receivedPacket].
    rewrite aget_replicate by clia. cbn [mbind option_bind]. by rewrite Z.eqb_refl.
  - unfold replay_advance in *. destruct (type >=? _); [|eauto].
    destruct (Replay.advanceSequence sequence Replay.reset); [eauto|done].
Qed.

Lemma wf_keys c : client_wf c → ClientStateDisconnected < cl_state c → cl_loopback c = false → cl_hasPacketKeys c = true.
Proof. intros Hwf Hst Hlb. by destruct (cw_active _ Hwf Hst Hlb) as (? & _). Qed.

Lemma client_process_run now from d c c' :
  client_wf c → ClientOps.ProcessPacket now from d c = Some (tt, c') → client_wf c'.
Proof.
  intros Hwf Hrun. pose proof (ProcessPacket_wp now from d c Hwf) as H. unfold wp in H. rewrite Hrun in H.
  by eapply received_wf.
Qed.

(** A challenge turns a request into a response. *)
Definition client_challenged (c : Client) (q : Z) (data : list byte) (evs : list event) : Client :=
  c <| cl_challengeTokenSequence := q |> <| cl_challengeTokenData := data |>
    <| cl_lastPacketReceiveTime := cl_time c |> <| cl_events := cl_events c ++ evs |>
    <| cl_state := ClientStateSendingConnectionResponse |>.
Lemma client_challenged_wp c now q data sequence :
  client_wf c → cl_state c = ClientStateSendingConnectionRequest → cl_loopback c = false →
  valid_encrypted (Challenge_ q data) → is_u64 sequence → Equal (cl_serverAddress c) (cl_serverAddress c) = true →
  wp (ClientOps.ProcessPacket now (cl_serverAddress c)
        (encoding (Challenge_ q data) sequence (cl_readPacketKey c) (ct_protocolID (cl_connectToken c))))
    (λ _ c', ∃ evs, datagrams evs = [] ∧ c' = client_challenged c q data evs) c.
Proof.
  intros Hwf Hst Hlb Hp Hs Heq. apply (client_reads_wp _ _ _ _ _ (cl_replayProtection c)); try done.
  { apply wf_keys; [done|rewrite Hst; clia|done]. }
  replace (c <| cl_replayProtection := cl_replayProtection c |>) with c by (by destruct c).
  unfold ClientOps.processPacketInternal. apply wp_bind, wp_gets. cbv beta delta [id] zeta.
  rewrite Hst, Z.eqb_refl, Heq. cbn [andb]. apply wp_bind, wp_modify, wp_setState. intros evs Hevs. by exists evs.
Qed.
(** A keep alive turns a response into a connection. *)
Definition client_connected (c : Client) (rp : replayProtection) (i m : Z) (evs : list event) : Client :=
  c <| cl_replayProtection := rp |> <| cl_lastPacketReceiveTime := cl_time c |> <| cl_clientIndex := i |>
    <| cl_maxClients := m |> <| cl_events := cl_events c ++ evs |> <| cl_state := ClientStateConnected |>.
Lemma client_connected_wp c now i m sequence :
  client_wf c → cl_state c = ClientStateSendingConnectionResponse → cl_loopback c = false →
  valid_encrypted (KeepAlive i m) → is_u64 sequence → Equal (cl_serverAddress c) (cl_serverAddress c) = true →
  cl_replayProtection c = Replay.reset →
  wp (ClientOps.ProcessPacket now (cl_serverAddress c)
        (encoding (KeepAlive i m) sequence (cl_readPacketKey c) (ct_protocolID (cl_connectToken c))))
    (λ _ c', ∃ rp evs, datagrams evs = [] ∧ c' = client_connected c rp i m evs ∧
       Replay.advanceSequence sequence Replay.reset = Some rp) c.
Proof.
  intros Hwf Hst Hlb Hp Hs Heq Hrp. destruct (fresh_window connectionKeepAlivePacket sequence) as [Hchk [rp Hadv]].
  apply (client_reads_wp _ _ _ _ _ rp); rewrite ?Hrp; try done.
  { apply wf_keys; [done|rewrite Hst; clia|done]. }
  unfold ClientOps.processPacketInternal. apply wp_bind, wp_gets. cbv beta delta [id] zeta.
  change (cl_serverAddress (c <| cl_replayProtection := rp |>)) with (cl_serverAddress c).
  change (cl_state (c <| cl_replayProtection := rp |>)) with (cl_state c).
  rewrite Heq, Hst. change (ClientStateSendingConnectionResponse =? ClientStateConnected) with false.
  rewrite Z.eqb_refl. apply wp_bind, wp_modify, wp_setState. intros evs Hevs. exists rp, evs.
  split_and!; [done|done|]. unfold replay_advance in Hadv. rewrite Z.geb_leb, Z.leb_refl in Hadv.
  destruct (Replay.advanceSequence sequence Replay.reset); [by injection Hadv as ->|done].
Qed.
(** The response goes out. *)
Lemma client_responds_wp c :
  client_wf c → cl_state c = ClientStateSendingConnectionResponse → ClientOps.sentRecently c = false →
  client_reaches c = true →
  wp ClientOps.sendPackets (λ _ c', ∃ evs, c' = client_sent c evs ∧
    datagrams evs = [(cl_serverAddress c,
      encoding (Response (cl_challengeTokenSequence c) (cl_challengeTokenData c)) (cl_sequence c)
        (cl_writePacketKey c) (ct_protocolID (cl_connectToken c)))]) c.
Proof.
  intros Hwf Hst Hsend Hreach. unfold ClientOps.sendPackets. apply wp_bind, wp_gets. cbv beta delta [id] zeta.
  rewrite Hst, Hsend. change (ClientStateSendingConnectionResponse =? ClientStateSendingConnectionRequest) with false.
  rewrite Z.eqb_refl.
  destruct (writePacket_encoding (Response (cl_challengeTokenSequence c) (cl_challengeTokenData c)) (cl_sequence c)
    (cl_writePacketKey c) (ct_protocolID (cl_connectToken c))) as (n & b & Hw & Hn & He); [apply Hwf..|].
  by eapply client_sends_wp.
Qed.

(** ** Sessions *)

(** A connected client and the server that has it in slot [i]: they share the
    session keys and the protocol id. *)
Record session (c : Client) (s : Server) (i : Z) (x : slot) (y : mapping) (from : Address) : Prop := {
  sn_client : client_wf c;
  sn_connected : cl_state c = ClientStateConnected;
  sn_network : cl_loopback c = false;
  sn_server : server_wf s;
  sn_running : sv_running s = true;
  sn_slot : client_at s i x y from;
  sn_protocol : ct_protocolID (cl_connectToken c) = sc_protocolID (sv_config s);
  sn_up : cl_writePacketKey c = mp_receiveKey y;
  sn_down : cl_readPacketKey c = mp_sendKey y;
}.
(** The queue is empty and the window has only received numbers below [n]. *)
Record expecting (r : replayProtection) (q : packetQueue (list byte)) (n : Z) : Prop := {
  ex_queue : queue_repr q [];
  ex_window : ∃ w, replay_repr r w ∧ a_recent w ≤ n ∧ ∀ k, k ∈ a_received w → k < n;
}.
Lemma expecting_first q n : queue_repr q [] → 0 ≤ n → expecting Replay.reset q n.
Proof.
  intros Hq Hn. split; [done|]. exists AbsReplay.init. split; [apply replay_repr_init|]. split; [done|].
  intros k Hk. by apply not_elem_of_empty in Hk.
Qed.
(** After the packet number 0. *)
Lemma expecting_second q r :
  queue_repr q [] → Replay.advanceSequence 0 Replay.reset = Some r → expecting r q 1.
Proof.
  intros Hq Hr. split; [done|].
  destruct (advanceSequence_spec Replay.reset AbsReplay.init 0 replay_repr_init ltac:(done) ltac:(done)) as (r' & E & Hr').
  rewrite Hr in E. injection E as <-. eexists. split; [exact Hr'|]. split; [done|].
  intros k Hk. cbn in Hk. apply elem_of_union in Hk as [->%elem_of_singleton|Hk%not_elem_of_empty]; [lia|done].
Qed.

(** A session as it starts: both sides expect the packets the other will send,
    and have a transport for them. *)
Record opened (c : Client) (s : Server) (i : Z) (from : Address) : Prop := {
  od_session : ∃ x y, session c s i x y from ∧ sl_address x = from ∧
    expecting (sl_replay x) (sl_queue x) (cl_sequence c) ∧
    expecting (cl_replayProtection c) (cl_packetReceiveQueue c) (sl_sequence x);
  od_up : client_reaches c = true;
  od_down : reaches s from = true;
}.

(** ** The handshake *)
Section exchange.
Context (c : Client) (s : Server) (from : Address) (now now' : Z)
  (token : connectTokenPrivate) (decrypted : list byte) (k : Z) (entries : list connectTokenEntry).

(** A client with a new connection attempt that may send, holding a token that
    the private key of the server opens, with the session keys it has. *)
Record client_ready : Prop := {
  cr_wf : client_wf c;
  cr_state : cl_state c = ClientStateSendingConnectionRequest;
  cr_loopback : cl_loopback c = false;
  cr_send : ClientOps.sentRecently c = false;
  cr_reaches : client_reaches c = true;
  cr_replay : cl_replayProtection c = Replay.reset;
  cr_server : Equal (cl_serverAddress c) (cl_serverAddress c) = true;
  cr_protocol : ct_protocolID (cl_connectToken c) = sc_protocolID (sv_config s);
  cr_decrypts : decryptConnectTokenPrivate (ct_privateData (cl_connectToken c))
    (ct_protocolID (cl_connectToken c)) (ct_expireTimestamp (cl_connectToken c))
    (ct_nonce (cl_connectToken c)) (sc_privateKey (sv_config s)) = Some (Some decrypted);
  cr_token : Private.read zeroPrivate decrypted = Some (None, token);
  cr_readKey : cl_readPacketKey c = ctp_serverToClientKey token;
  cr_writeKey : cl_writePacketKey c = ctp_clientToServerKey token;
  cr_queue : queue_repr (cl_packetReceiveQueue c) [];
}.
(** A running server, named in the token, with a free slot and a free mapping,
    that does not know the client and has not seen the token. *)
Record server_ready : Prop := {
  sr_wf : server_wf s;
  sr_running : sv_running s = true;
  sr_flags : Z.land (sv_flags s) serverFlagIgnoreConnectionRequestPackets = 0 ∧
             Z.land (sv_flags s) serverFlagIgnoreConnectionResponsePackets = 0;
  sr_reaches : reaches s from = true;
  sr_from : Equal from from = true;
  sr_free : address_free s from;
  sr_unused : id_unused s (ctp_clientID token);
  sr_room : sv_numConnectedClients s ≠ sv_maxClients s;
  sr_listed : ServerOps.foundServerAddress (sv_address s) (sv_address2 s) (ctp_serverAddresses token)
    (seqZ 0 (ctp_numServerAddresses token)) false = Some true;
  sr_current : now < ct_expireTimestamp (cl_connectToken c) ∧
    sv_minConnectTokenExpireTimestamp s ≤ ct_expireTimestamp (cl_connectToken c);
  sr_history : connectTokenEntriesFindOrAdd (sv_connectTokenEntries s) from
    (drop (connectTokenPrivateBytes - MacBytes) decrypted)
    (ct_expireTimestamp (cl_connectToken c)) now' (sv_time s) = Some (k, entries) ∧ 0 ≤ k;
  sr_unmapped j y : em_at (sv_encryptionManager s) j = Some y → live_for y from (sv_time s) = false;
  sr_mapping : ∃ j y, em_at (sv_encryptionManager s) j = Some y ∧ free_slot y (sv_time s) = true;
  sr_expire : not_yet_expired (sv_time s) (ServerOps.mappingExpireTime (sv_time s) (ctp_timeoutSeconds token))
    (ctp_timeoutSeconds token);
}.
Context (Hc : client_ready) (Hs : server_ready).

Definition request_of : connectionRequest :=
  let t := cl_connectToken c in
  mkRequest versionInfo (ct_protocolID t) (ct_expireTimestamp t) (ct_nonce t) (ct_privateData t).

(** First datagram. *)
Lemma client_requests_wp :
  wp ClientOps.sendPackets (λ _ c1, ∃ evs, c1 = client_sent c evs ∧
    datagrams evs = [(cl_serverAddress c, enc_request request_of)]) c.
Proof.
  destruct Hc. unfold ClientOps.sendPackets. apply wp_bind, wp_gets. cbv beta delta [id] zeta.
  rewrite cr_state0, Z.eqb_refl, cr_send0.
  assert (request_shape request_of) as Hr by (apply token_request_shape, cr_wf0).
  pose proof (length_enc_request _ Hr) as Hl.
  eapply client_sends_wp; [apply writeRequest_spec; [exact Hr|by rewrite length_zeros]|done| |done].
  by apply take_app_length'.
Qed.

Lemma client_token_wf : wf_public (cl_connectToken c).
Proof. destruct (cw_active _ (cr_wf Hc)) as (_ & H & _); [rewrite (cr_state Hc); clia|apply (cr_loopback Hc)|done]. Qed.
(** What the client sends is a request sealed under the server's key. *)
Lemma request_sealed :
  ∃ plaintext, length plaintext = (connectTokenPrivateBytes - MacBytes)%nat ∧
    ct_privateData (cl_connectToken c) =
      Seal xchacha20poly1305 (sc_privateKey (sv_config s)) (ct_nonce (cl_connectToken c))
        (connect_token_additional (sc_protocolID (sv_config s)) (ct_expireTimestamp (cl_connectToken c)))
        plaintext ∧
    decrypted = plaintext ++ drop (connectTokenPrivateBytes - MacBytes) (ct_privateData (cl_connectToken c)).
Proof.
  pose proof (cr_decrypts Hc) as Hd. unfold decryptConnectTokenPrivate in Hd.
  rewrite connectTokenAdditionalData_spec, (cr_protocol Hc) in Hd. cbn [mbind option_bind] in Hd.
  unfold decryptAEADBigNonce in Hd. destruct (decrypt_in_place_inv _ _ _ _ _ _ _ _ Hd) as (plain & Hseal & Hl & _ & Hdec).
  pose proof (ps_privateData _ (cw_shape _ (cr_wf Hc))) as Hp. rewrite take_ge in Hseal by lia.
  assert (length plain = (connectTokenPrivateBytes - MacBytes)%nat) as Hlp by lia.
  exists plain. by rewrite <-Hlp.
Qed.
Lemma decrypted_length : length decrypted = connectTokenPrivateBytes.
Proof.
  destruct request_sealed as (plain & Hl & _ & ->).
  rewrite length_app, length_drop, Hl, (ps_privateData _ (cw_shape _ (cr_wf Hc))). clia.
Qed.
Lemma request_read :
  readPacket (enc_request request_of) None (sc_protocolID (sv_config s)) now
    (sv_minConnectTokenExpireTimestamp s) (Some (sc_privateKey (sv_config s)))
    ServerOps.serverAllowedPackets None =
  Some (mkRead (Some (Request (mkRequest versionInfo (sc_protocolID (sv_config s))
     (ct_expireTimestamp (cl_connectToken c)) (ct_nonce (cl_connectToken c)) decrypted))) 0 None).
Proof.
  destruct request_sealed as (plain & Hl & Hp & ->). pose proof client_token_wf as Hwt.
  assert (enc_request request_of = sealed_request (sc_privateKey (sv_config s)) (sc_protocolID (sv_config s))
    (ct_expireTimestamp (cl_connectToken c)) (ct_nonce (cl_connectToken c)) plain) as ->.
  { unfold enc_request, sealed_request, request_of. cbn [req_versionInfo req_protocolID
      req_connectTokenExpireTimestamp req_connectTokenNonce req_connectTokenData].
    by rewrite <-Hp, (cr_protocol Hc). }
  rewrite Hp. destruct (sr_current Hs).
  apply readPacket_token; try done; [apply (sr_wf Hs)|apply (cr_wf Hc)|
    rewrite <-(cr_protocol Hc)|]; apply Hwt.
Qed.

(** Second datagram. *)
Lemma server_challenges_wp :
  wp (ServerOps.ProcessPacket now now' from (enc_request request_of)) (λ _ s1, challenged s from token s1) s.
Proof.
  pose proof Hs as [Hwf Hrun [Hfl _] _ Hfrom Hfree Hun Hroom Hlist _ [Hhist Hk] Hunm Hmap Hexp].
  destruct (find_spec (sv_encryptionManager s) from (sv_time s) (sw_em _ Hwf)) as (e & m & Hfind & Hcase).
  assert (e = -1 ∧ m = sv_encryptionManager s) as [-> ->].
  { destruct Hcase as [(-> & -> & _)|Hf]; [done|]. destruct (fd_at _ _ _ _ _ Hf) as (y & Hy & Hl & _).
    by rewrite (Hunm _ _ Hy) in Hl. }
  assert (length (enc_request request_of) = requestPacketBytes) as Hl
    by (apply length_enc_request, token_request_shape, (cr_wf Hc)).
  eapply (stranger_wp _ _ _ _ _ (byte.of_Z connectionRequestPacket)); try done.
  - rewrite Hl. unfold requestPacketBytes. clia.
  - by right.
  - exact request_read.
  - rewrite with_mappings_same. unfold ServerOps.processPacketInternal. apply wp_bind, wp_gets.
    rewrite Hfl. cbn [Z.eqb]. eapply request_challenged_wp; try done.
    + exact decrypted_length.
    + apply (cr_token Hc).
Qed.

(** Fourth datagram: what the server does with the response. *)
Lemma server_admits_wp s1 now2 now2' q data sequence :
  challenged s from token s1 → challenge_for s token data → q = sv_challengeSequence s → is_u64 sequence →
  wp (ServerOps.ProcessPacket now2 now2' from
        (encoding (Response q data) sequence (ctp_clientToServerKey token) (sc_protocolID (sv_config s))))
    (λ _ s2, ∃ i x e y timeout m, 0 ≤ i < sv_maxClients s ∧ slot_at s i = Some x ∧ sl_connected x = false ∧
       sv_events (with_mappings s1 m) = sv_events s1 ∧
       em_at m e = Some y ∧ mp_sendKey y = ctp_serverToClientKey token ∧
       mp_receiveKey y = ctp_clientToServerKey token ∧
       admitted (with_mappings s1 m) i x from (ctp_clientID token) e timeout (ctp_userData token) s2) s1.
Proof.
  intros Hch [Hdl Hsealed] -> Hseq. pose proof Hch as [Hwf Hsl Hcount Hcfg Hholder Hflags Htime Hrun Hmax Hkey Hmap _].
  destruct Hmap as (e & y & Hy & Hlive & Hsk & Hrk & Hfirst).
  assert (address_free s1 from) as Hfree1 by (intros j x; rewrite Hsl; apply (sr_free Hs)).
  destruct (find_spec (sv_encryptionManager s1) from (sv_time s1) (sw_em _ Hwf)) as (e' & m & Hfind & Hcase).
  rewrite Htime in Hcase, Hfind.
  destruct Hcase as [(_ & _ & Hno)|Hf]; [by rewrite (Hno _ _ Hy) in Hlive|].
  destruct (fd_at _ _ _ _ _ Hf) as (y' & Hy' & Hl' & Hup).
  assert (e' = e) as ->.
  { destruct (Z.lt_trichotomy e' e) as [Hlt|[->|Hlt]]; [|done|].
    - destruct (fd_range _ _ _ _ _ Hf). rewrite (Hfirst e' y') in Hl'; [done|lia|done].
    - apply em_at_range in Hy as Hye; [|apply Hwf]. rewrite (fd_first _ _ _ _ _ Hf e y) in Hlive; [done|lia|done]. }
  rewrite Hy in Hy'. injection Hy' as <-.
  pose proof (up_at _ _ _ _ Hup e) as Hym. rewrite decide_True in Hym by done.
  rewrite <-Htime in Hf. pose proof (rq_wf _ _ _ (found_requested s1 from e m Hwf Hfree1 Hf)) as Hwfm.
  assert (valid_encrypted (Response (sv_challengeSequence s) data)) as Hv
    by (split; [apply (sr_wf Hs)|done]).
  assert (length (mp_receiveKey y) = KeyBytes) as Hkl by (by apply (ew_keys _ (sw_em _ Hwf) _ _ Hy)).
  pose proof (sequence_bytes_range sequence Hseq) as Hsb.
  rewrite <-Hrk. unfold encoding.
  eapply (stranger_wp _ _ _ _ _ _ e m (Some (mp_receiveKey y)));
    [done|rewrite Hrun; apply (sr_running Hs)|done| |done|by rewrite Htime|
     exact (getReceiveKey_spec m e _ Hym)|by left| |].
  - rewrite length_sealed_packet by done. lia.
  - rewrite Hcfg. by apply readPacket_sealed with (replay' := None).
  - unfold ServerOps.processPacketInternal. apply wp_bind, wp_gets.
    change (sv_flags (with_mappings s1 m)) with (sv_flags s1). rewrite Hflags, (proj2 (sr_flags Hs)). cbn [Z.eqb].
    eapply wp_mono; [apply (response_admitted_wp _ _ _ _ e (y <| mp_lastAccessTime := sv_time s |>) (mkChallengeToken (ctp_clientID token) (ctp_userData token)));
      [done|done|exact Hym| |change (sv_challengeKey _) with (sv_challengeKey s1); by rewrite Hkey|done| |]|].
    + by apply andb_true_iff in Hlive as [? _].
    + intros j x Hx. change (slot_at s1 j = Some x) in Hx. rewrite Hsl in Hx. by apply (sr_unused Hs j).
    + change (sv_numConnectedClients s1 ≠ sv_maxClients s1). rewrite Hcount, Hmax. apply (sr_room Hs).
    + intros [] s2 (i & x & timeout & Hi & Hx & Hfx & Had). exists i, x, e, (y <| mp_lastAccessTime := sv_time s |>), timeout, m.
      change (sv_maxClients (with_mappings s1 m)) with (sv_maxClients s1) in Hi. rewrite Hmax in Hi.
      change (slot_at s1 i = Some x) in Hx. rewrite Hsl in Hx.
      split_and!; [lia|lia|done|done|done|exact Hym|done|done|exact Had].
Qed.

(** Exactly these datagrams were sent between two event lists. *)
Definition sent (before after : list event) (ds : list (Address * list byte)) : Prop :=
  ∃ evs, after = before ++ evs ∧ datagrams evs = ds.
(** The client is in slot [i], which was free, and nothing else changed hands. *)
Record joined (s s2 : Server) (from : Address) (token : connectTokenPrivate) (i : Z) : Prop := {
  jn_wf : server_wf s2;
  jn_range : 0 ≤ i < sv_maxClients s;
  jn_was_free : ∃ x, slot_at s i = Some x ∧ sl_connected x = false;
  jn_slot : ∃ x, slot_at s2 i = Some x ∧ network x ∧ sl_address x = from ∧
    sl_id x = ctp_clientID token ∧ sl_userData x = ctp_userData token ∧ sl_confirmed x = false;
  jn_others j : j ≠ i → slot_at s2 j = slot_at s j;
  jn_count : sv_numConnectedClients s2 = sv_numConnectedClients s + 1;
}.

Lemma admitted_joined s1 s2 m i x e timeout :
  challenged s from token s1 → 0 ≤ i < sv_maxClients s → slot_at s i = Some x → sl_connected x = false →
  admitted (with_mappings s1 m) i x from (ctp_clientID token) e timeout (ctp_userData token) s2 →
  joined s s2 from token i.
Proof.
  intros Hch Hi Hx Hfx Had. pose proof (su_at _ _ _ _ (am_slot _ _ _ _ _ _ _ _ _ Had)) as Hat.
  split; [apply Had|done|by exists x| | |].
  - eexists. split; [rewrite Hat, decide_True by done; done|]. by split_and!.
  - intros j Hj. rewrite Hat, decide_False by done.
    change (slot_at (with_mappings s1 m) j) with (slot_at s1 j). apply (ch_slots _ _ _ _ Hch).
  - rewrite (am_count _ _ _ _ _ _ _ _ _ Had).
    change (sv_numConnectedClients (with_mappings s1 m)) with (sv_numConnectedClients s1).
    by rewrite (ch_count _ _ _ _ Hch).
Qed.

(** The client once it has answered the challenge. *)
Record client_answered (c3 : Client) : Prop := {
  ca_wf : client_wf c3;
  ca_state : cl_state c3 = ClientStateSendingConnectionResponse;
  ca_loopback : cl_loopback c3 = false;
  ca_replay : cl_replayProtection c3 = Replay.reset;
  ca_server : cl_serverAddress c3 = cl_serverAddress c;
  ca_readKey : cl_readPacketKey c3 = ctp_serverToClientKey token;
  ca_writeKey : cl_writePacketKey c3 = ctp_clientToServerKey token;
  ca_queue : cl_packetReceiveQueue c3 = cl_packetReceiveQueue c;
  ca_protocol : ct_protocolID (cl_connectToken c3) = sc_protocolID (sv_config s);
  ca_reaches : client_reaches c3 = true;
}.

(** The session that opens when the client [c3] gets its keep alive. *)
Lemma admitted_opened s1 s2 m i x e y timeout c3 rp evs now3 :
  challenged s from token s1 → slot_at s i = Some x → sl_connected x = false →
  em_at m e = Some y → mp_sendKey y = ctp_serverToClientKey token → mp_receiveKey y = ctp_clientToServerKey token →
  admitted (with_mappings s1 m) i x from (ctp_clientID token) e timeout (ctp_userData token) s2 →
  client_answered c3 →
  ClientOps.ProcessPacket now3 (cl_serverAddress c)
    (encoding (KeepAlive i (sv_maxClients s)) 0 (ctp_serverToClientKey token) (sc_protocolID (sv_config s))) c3 =
    Some (tt, client_connected c3 rp i (sv_maxClients s) evs) →
  Replay.advanceSequence 0 Replay.reset = Some rp →
  opened (client_connected c3 rp i (sv_maxClients s) evs) s2 i from.
Proof.
  intros Hch Hx Hfx Hy Hsk Hrk Had [Hwf3 Hst3 Hlb3 Hrp3 Hsa3 Hrk3 Hwk3 Hq3 Hpid3 Hr3] Hrun Hadv.
  pose proof (slot_updated_at _ _ _ _ (am_slot _ _ _ _ _ _ _ _ _ Had)) as Hx2.
  destruct (am_mapping _ _ _ _ _ _ _ _ _ Had y Hy) as (y' & Hy' & Hsk' & Hrk').
  destruct (sx_free _ (sw_slots _ (sr_wf Hs) _ _ Hx) Hfx) as (_ & _ & _ & _ & Hxr & _ & Hxq & _).
  assert (client_wf (client_connected c3 rp i (sv_maxClients s) evs)) as Hwf4.
  { by eapply client_process_run, Hrun. }
  assert (sv_config s2 = sv_config s) as Hcfg.
  { rewrite (am_config _ _ _ _ _ _ _ _ _ Had). apply (ch_config _ _ _ _ Hch). }
  split.
  - match type of Hx2 with _ = Some ?x2 => exists x2, y' end. split; [|split; [done|split]].
    + split; try done; [apply Had| |split; try done; apply (sr_from Hs)|..]; simpl.
      * rewrite (am_running _ _ _ _ _ _ _ _ _ Had). change (sv_running s1 = true).
        rewrite (ch_running _ _ _ _ Hch). apply (sr_running Hs).
      * by rewrite Hcfg.
      * by rewrite Hrk', Hrk.
      * by rewrite Hsk', Hsk.
    + simpl. rewrite Hxr, Hxq. apply expecting_first; [apply queue_repr_clear|apply Hwf3].
    + simpl. rewrite Hq3. by apply expecting_second; [apply (cr_queue Hc)|].
  - exact Hr3.
  - rewrite <-(sr_reaches Hs). unfold reaches. rewrite Hcfg, (am_holder _ _ _ _ _ _ _ _ _ Had).
    change (sv_socketHolder (with_mappings s1 m)) with (sv_socketHolder s1). by rewrite (ch_holder _ _ _ _ Hch).
Qed.

(** The client from its challenge to the response. *)
Lemma client_answers c1 t q data sequence evs now1 :
  c1 = client_sent c evs → valid_encrypted (Challenge_ q data) → is_u64 sequence →
  ClientOps.sentRecently (c1 <| cl_time := t |>) = false →
  ∃ c2 c3, ClientOps.ProcessPacket now1 (cl_serverAddress c)
      (encoding (Challenge_ q data) sequence (ctp_serverToClientKey token) (sc_protocolID (sv_config s))) c1 =
      Some (tt, c2) ∧
    ClientOps.sendPackets (c2 <| cl_time := t |>) = Some (tt, c3) ∧
    sent (cl_events c2) (cl_events c3) [(cl_serverAddress c,
      encoding (Response q data) (cl_sequence c2) (ctp_clientToServerKey token) (sc_protocolID (sv_config s)))] ∧
    is_u64 (cl_sequence c2) ∧
    client_answered c3.
Proof.
  intros -> Hv Hseq Hsend. pose proof Hc as [Hwf Hst Hlb _ Hreach Hrp Heq Hpid _ _ Hrk Hwk _].
  assert (client_wf (client_sent c evs)) as Hwf1.
  { eapply client_wf_sent; [done|rewrite Hst; clia|]. right. by exists evs. }
  pose proof (client_challenged_wp (client_sent c evs) now1 q data sequence Hwf1 Hst Hlb Hv Hseq Heq) as H2.
  change (cl_readPacketKey (client_sent c evs)) with (cl_readPacketKey c) in H2.
  change (cl_connectToken (client_sent c evs)) with (cl_connectToken c) in H2.
  change (cl_serverAddress (client_sent c evs)) with (cl_serverAddress c) in H2. rewrite Hrk, Hpid in H2.
  apply wp_inv in H2 as ([] & c2 & Hrun2 & evs2 & Hevs2 & Hc2).
  assert (client_wf c2) as Hwf2 by (by eapply client_process_run, Hrun2).
  set (c2' := c2 <| cl_time := t |>). assert (client_wf c2') as Hwf2' by (by apply client_wf_time).
  assert (ClientOps.sentRecently c2' = false) as Hsend2 by (unfold c2'; rewrite Hc2; exact Hsend).
  assert (client_reaches c2' = true) as Hreach2 by (unfold c2'; rewrite Hc2; exact Hreach).
  pose proof (client_responds_wp c2' Hwf2' ltac:(unfold c2'; by rewrite Hc2) Hsend2 Hreach2) as H3.
  apply wp_inv in H3 as ([] & c3 & Hrun3 & evs3 & Hc3 & Hevs3).
  exists c2, c3. split_and!; [exact Hrun2|exact Hrun3| |apply Hwf2|].
  - exists evs3. rewrite Hc3. split; [done|]. rewrite Hevs3. unfold c2'. rewrite Hc2. cbn. by rewrite Hwk, Hpid.
  - split; try (rewrite Hc3; unfold c2'; rewrite Hc2; done).
    rewrite Hc3. eapply client_wf_sent; [exact Hwf2'|unfold c2'; rewrite Hc2; done|]. right. by exists evs3.
Qed.

(** C3. Liveness of the handshake: a client with a fresh connection attempt,
    whose token the private key of a running server opens, that the server does
    not know and has room for, connects in two round trips. The client's request
    makes the server send back exactly one challenge; the challenge makes the
    client answer (once its send interval has passed); the answer makes the
    server put the client in a slot that was free, with the client id and user
    data of its token and its address, and send one keep alive; the keep alive
    connects the client, which then knows its slot and the server's number of
    slots. No other slot changes. The two then have a session: the same keys and
    protocol id, and each expects the other's next packet. *)
Theorem handshake_completes
  (now1 now2 now2' now3 : Z) (t : float64)
  (Hlater : ClientOps.sentRecently (c <| cl_time := t |> <| cl_lastPacketSendTime := cl_time c |>) = false) :
  ∃ c1 s1 c2 c3 s2 c4 request challenge response keepAlive i,
    ClientOps.sendPackets c = Some (tt, c1) ∧
    sent (cl_events c) (cl_events c1) [(cl_serverAddress c, request)] ∧
    ServerOps.ProcessPacket now now' from request s = Some (tt, s1) ∧
    sent (sv_events s) (sv_events s1) [(from, challenge)] ∧
    ClientOps.ProcessPacket now1 (cl_serverAddress c) challenge c1 = Some (tt, c2) ∧
    ClientOps.sendPackets (c2 <| cl_time := t |>) = Some (tt, c3) ∧
    sent (cl_events c2) (cl_events c3) [(cl_serverAddress c, response)] ∧
    ServerOps.ProcessPacket now2 now2' from response s1 = Some (tt, s2) ∧
    sent (sv_events s1) (sv_events s2) [(from, keepAlive)] ∧
    joined s s2 from token i ∧
    ClientOps.ProcessPacket now3 (cl_serverAddress c) keepAlive c3 = Some (tt, c4) ∧
    cl_state c4 = ClientStateConnected ∧ cl_clientIndex c4 = i ∧ cl_maxClients c4 = sv_maxClients s ∧
    opened c4 s2 i from.
Proof.
  pose proof (wp_inv _ _ _ client_requests_wp) as ([] & c1 & Hrun1 & evs1 & Hc1 & Hd1).
  pose proof (wp_inv _ _ _ server_challenges_wp) as ([] & s1 & Hrun2 & Hch).
  destruct (ch_sent _ _ _ _ Hch) as (evs2 & data & Hev2 & Hdata & Hd2). rewrite (sr_reaches Hs) in Hd2.
  destruct (client_answers c1 t (sv_challengeSequence s) data (sv_globalSequence s) evs1 now1 Hc1)
    as (c2 & c3 & Hrun3 & Hrun4 & Hsent4 & Hseq & Hans).
  { split; [apply (sr_wf Hs)|apply Hdata]. }
  { apply (sr_wf Hs). }
  { rewrite Hc1. exact Hlater. }
  pose proof Hans as [Hwf3 Hst3 Hlb3 Hrp3 Hsa3 Hrk3 Hwk3 Hq3 Hpid3 _].
  pose proof (wp_inv _ _ _ (server_admits_wp s1 now2 now2' _ data _ Hch Hdata eq_refl Hseq))
    as ([] & s2 & Hrun5 & i & x & e & y & timeout & m & Hi & Hx & Hfx & Hevm & Hy & Hsk & Hrcv & Had).
  destruct (am_keepAlive _ _ _ _ _ _ _ _ _ Had y Hy) as (evs5 & Hev5 & Hd5).
  change (sv_maxClients (with_mappings s1 m)) with (sv_maxClients s1) in Hd5.
  change (sv_config (with_mappings s1 m)) with (sv_config s1) in Hd5.
  assert (reaches (with_mappings s1 m) from = true) as Hr5.
  { unfold reaches. change (sv_config (with_mappings s1 m)) with (sv_config s1).
    change (sv_socketHolder (with_mappings s1 m)) with (sv_socketHolder s1).
    rewrite (ch_config _ _ _ _ Hch), (ch_holder _ _ _ _ Hch). apply (sr_reaches Hs). }
  rewrite Hr5, Hsk, (ch_config _ _ _ _ Hch), (ch_max _ _ _ _ Hch) in Hd5.
  pose proof (active_range s (sr_wf Hs)) as Hact.
  rewrite !i32_id in Hd5 by (unfold is_i32; clia).
  pose proof (client_connected_wp c3 now3 i (sv_maxClients s) 0 Hwf3 Hst3 Hlb3) as H6.
  rewrite Hsa3, Hrk3, Hpid3 in H6.
  destruct (wp_inv _ _ _ (H6 ltac:(split; unfold is_i32; clia) ltac:(done) (cr_server Hc) Hrp3))
    as ([] & c4 & Hrun6 & rp & evs6 & _ & -> & Hadv).
  exists c1, s1, c2, c3, s2, (client_connected c3 rp i (sv_maxClients s) evs6).
  do 4 eexists. exists i. split_and!; try done.
  - exists evs1. split; [by rewrite Hc1|exact Hd1].
  - exists evs2. by split.
  - exists evs5. by rewrite Hevm in Hev5.
  - by eapply admitted_joined.
  - eapply admitted_opened; try done.
Qed.
End exchange.
End handshake.

(** ** A concrete pair: a client with a token for the first server address, and
    a server that has just started *)
Lemma all_get {A : Type} (f : A → bool) l i x : forallb f l = true → aget l i = Some x → f x = true.
Proof.
  unfold aget. intros Hf. destruct (0 <=? i); [|done]. intros Hx%list_elem_of_lookup_2.
  rewrite forallb_forall in Hf. apply Hf, base.list_elem_of_In, Hx.
Qed.

Lemma nobody_connected s a id :
  forallb negb (sv_clientConnected s) = true → address_free s a ∧ id_unused s id.
Proof.
  intros Hfree. split; intros j x (Hx & _)%slot_at_inv Hc;
    apply (all_get _ _ _ _ Hfree) in Hx; by rewrite Hc in Hx.
Qed.
Lemma nothing_mapped m a time :
  em_wf m → forallb (λ a, Type_ a =? AddressNone) (em_address m) = true →
  (∀ j y, em_at m j = Some y → live_for y a time = false) ∧
  ∃ j y, em_at m j = Some y ∧ free_slot y time = true.
Proof.
  intros Hwf Hmap. split.
  - intros j y (_ & _ & _ & Ha & _)%em_at_inv. apply (all_get _ _ _ _ Hmap), Z.eqb_eq in Ha.
    apply andb_false_intro1, not_true_is_false. intros [H _]%Equal_not_none. done.
  - destruct (em_at_Some m 0 (ew_shape _ Hwf)) as [y Hy]; [clia|]. exists 0, y. split; [done|].
    apply em_at_inv in Hy as (_ & _ & _ & Ha & _). apply (all_get _ _ _ _ Hmap) in Ha.
    unfold free_slot. by rewrite Ha.
Qed.

Definition handshake_plaintext : list byte :=
  take (connectTokenPrivateBytes - MacBytes) (enc_private sample_private ++ zeros 1024).
Definition handshake_sealed : list byte :=
  Seal (xchacha20poly1305 (CryptoLib := sample_crypto)) sample_key (replicate connectTokenNonceBytes (byte.of_Z 9))
    (connect_token_additional 7 1030) handshake_plaintext.
Definition handshake_token : connectToken :=
  mkConnectToken 7 1000 1030 (replicate connectTokenNonceBytes (byte.of_Z 9)) handshake_sealed 5 2 sample_addresses
    (replicate KeyBytes (byte.of_Z 17)) (replicate KeyBytes (byte.of_Z 34)).
Definition handshake_client : Client :=
  (ClientOps.new sample_client_config sample_ipv6 None None f64_1)
    <| cl_state := ClientStateSendingConnectionRequest |>
    <| cl_connectToken := handshake_token |>
    <| cl_serverAddress := sample_ipv4 |>
    <| cl_readPacketKey := ct_serverToClientKey handshake_token |>
    <| cl_writePacketKey := ct_clientToServerKey handshake_token |>
    <| cl_hasPacketKeys := true |>.
Definition handshake_server : Server :=
  after (server_run (C := sample_crypto) [OpServerStart 4 1000 sample_key]) sample_new_server.
Definition handshake_decrypted : list byte :=
  handshake_plaintext ++ drop (connectTokenPrivateBytes - MacBytes) handshake_sealed.
Definition handshake_history : Z * list connectTokenEntry :=
  default (-1, []) (connectTokenEntriesFindOrAdd (sv_connectTokenEntries handshake_server) sample_ipv6
    (drop (connectTokenPrivateBytes - MacBytes) handshake_decrypted) 1030 1000 (sv_time handshake_server)).

Lemma handshake_server_wf : server_wf handshake_server.
Proof. apply sample_after_wf. repeat constructor. Qed.
Lemma handshake_client_ready :
  client_ready (C := sample_crypto) handshake_client handshake_server sample_private handshake_decrypted.
Proof.
  split; try (by vm_compute). split; try (by vm_compute).
  - split; try (by vm_compute). repeat constructor; by vm_compute.
  - apply queue_wf_clear.
  - intros _ _. split; [done|]. split; [|done]. destruct sample_public_wf. by split.
Qed.
Lemma handshake_history_some :
  connectTokenEntriesFindOrAdd (sv_connectTokenEntries handshake_server) sample_ipv6
    (drop (connectTokenPrivateBytes - MacBytes) handshake_decrypted) 1030 1000 (sv_time handshake_server) =
  Some handshake_history.
Proof.
  destruct (find_or_add_total (sv_connectTokenEntries handshake_server) sample_ipv6
    (drop (connectTokenPrivateBytes - MacBytes) handshake_decrypted) 1030 1000 (sv_time handshake_server))
    as (k & entries & Hk & _); [exact (sw_entries _ handshake_server_wf)|by vm_compute|].
  rewrite Hk. f_equal. symmetry. exact (f_equal (default (-1, [])) Hk).
Qed.
Lemma handshake_server_ready :
  server_ready handshake_client handshake_server sample_ipv6 1000 1000 sample_private handshake_decrypted
    (fst handshake_history) (snd handshake_history).
Proof.
  assert (forallb negb (sv_clientConnected handshake_server) = true) as Hfree by (by vm_compute).
  assert (forallb (λ a, Type_ a =? AddressNone) (em_address (sv_encryptionManager handshake_server)) = true) as Hmap
    by (by vm_compute).
  assert (fst handshake_history = 0) as Hk by (by vm_compute).
  split; [apply handshake_server_wf|by vm_compute|split; by vm_compute|by vm_compute|by vm_compute| | |
    by vm_compute|by vm_compute|split; by vm_compute| | | |split; by vm_compute].
  - exact (proj1 (nobody_connected _ sample_ipv6 (ctp_clientID sample_private) Hfree)).
  - exact (proj2 (nobody_connected _ sample_ipv6 (ctp_clientID sample_private) Hfree)).
  - split; [|rewrite Hk; lia]. clear Hk Hfree Hmap.
    change (ct_expireTimestamp (cl_connectToken handshake_client)) with 1030. rewrite <-surjective_pairing.
    exact handshake_history_some.
  - exact (proj1 (nothing_mapped _ sample_ipv6 (sv_time handshake_server) (sw_em _ handshake_server_wf) Hmap)).
  - exact (proj2 (nothing_mapped _ sample_ipv6 (sv_time handshake_server) (sw_em _ handshake_server_wf) Hmap)).
Qed.

Lemma handshake_completes_witness :
  ∃ c1 s1 c2 c3 s2 c4 request challenge response keepAlive i,
    ClientOps.sendPackets (C := sample_crypto) handshake_client = Some (tt, c1) ∧
    sent (cl_events handshake_client) (cl_events c1) [(sample_ipv4, request)] ∧
    ServerOps.ProcessPacket (C := sample_crypto) 1000 1000 sample_ipv6 request handshake_server = Some (tt, s1) ∧
    sent (sv_events handshake_server) (sv_events s1) [(sample_ipv6, challenge)] ∧
    ClientOps.ProcessPacket (C := sample_crypto) 1000 sample_ipv4 challenge c1 = Some (tt, c2) ∧
    ClientOps.sendPackets (C := sample_crypto) (c2 <| cl_time := f64_of_Z 2 |>) = Some (tt, c3) ∧
    sent (cl_events c2) (cl_events c3) [(sample_ipv4, response)] ∧
    ServerOps.ProcessPacket (C := sample_crypto) 1001 1001 sample_ipv6 response s1 = Some (tt, s2) ∧
    sent (sv_events s1) (sv_events s2) [(sample_ipv6, keepAlive)] ∧
    joined handshake_server s2 sample_ipv6 sample_private i ∧
    ClientOps.ProcessPacket (C := sample_crypto) 1001 sample_ipv4 keepAlive c3 = Some (tt, c4) ∧
    cl_state c4 = ClientStateConnected ∧ cl_clientIndex c4 = i ∧ cl_maxClients c4 = sv_maxClients handshake_server ∧
    opened c4 s2 i sample_ipv6.
Proof.
  apply (handshake_completes (C := sample_crypto) handshake_client handshake_server sample_ipv6 1000 1000
    sample_private handshake_decrypted (fst handshake_history) (snd handshake_history)
    handshake_client_ready handshake_server_ready 1000 1001 1001 1001 (f64_of_Z 2)). by vm_compute.
Defined.
