(* ===== verification/Delivery.v ===== *)
(** Delivery end to end: payloads that one side hands to SendPacket, a network
    that loses, duplicates, reorders and injects datagrams, and what the other
    side gets from ReceivePacket. The receiver is first described as an inbox (a
    replay window and a bounded queue), then the client and the server are shown
    to implement the two ends, and the theorem of the inbox is carried over to
    both directions. *)

From stdpp Require Import gmap.
From S2P Require Import Prelude Constants Float64 Buffer Replay Queue Address Crypto.
From S2P Require Import SampleCrypto Token Packet TokenEntries Encryption Socket Client Server.
From S2P Require Import ServerInvariant ServerHandlers ServerConnect ServerReceive ServerRun ServerClaims.
From S2P Require Import Handshake.

(** ** The inbox of a receiver *)

(** A payload and the sequence number it was sent under. *)
Abbreviation message := (list byte * Z)%type.
Record inbox := mkInbox { in_window : absReplay; in_queue : list message }.

(** A message arrives: when the window takes it, it is queued if there is room. *)
Definition arrive (b : inbox) (m : message) : inbox :=
  if decide (AbsReplay.fresh (in_window b) m.2)
  then mkInbox (AbsReplay.accept (in_window b) m.2).2
         (if decide (Z.of_nat (length (in_queue b)) < packetQueueSize) then in_queue b ++ [m] else in_queue b)
  else b.
(** The oldest message is taken out. *)
Definition take_out (b : inbox) : list message * inbox :=
  (take 1 (in_queue b), mkInbox (in_window b) (drop 1 (in_queue b))).

(** A run of arrivals ([Some]) and removals ([None]), and what was taken out. *)
Fixpoint inbox_run (b : inbox) (evs : list (option message)) : list message * inbox :=
  match evs with
  | [] => ([], b)
  | Some m :: evs => inbox_run (arrive b m) evs
  | None :: evs => let '(l, b) := take_out b in let '(l', b) := inbox_run b evs in (l ++ l', b)
  end.

Lemma arrive_cases b m :
  arrive b m = b ∨
  (AbsReplay.fresh (in_window b) m.2 ∧ arrive b m =
     mkInbox (mkAbs (Z.max (a_recent (in_window b)) m.2) ({[m.2]} ∪ a_received (in_window b))) (in_queue b) ∧
   ¬ Z.of_nat (length (in_queue b)) < packetQueueSize) ∨
  (AbsReplay.fresh (in_window b) m.2 ∧ arrive b m =
     mkInbox (mkAbs (Z.max (a_recent (in_window b)) m.2) ({[m.2]} ∪ a_received (in_window b)))
       (in_queue b ++ [m])).
Proof.
  unfold arrive, AbsReplay.accept. case_decide; [|by left]. right.
  case_decide; [right|left]; by split_and!.
Qed.

(** Whatever arrives, what comes out and what is left is what was there and
    then messages that arrived, in order of arrival, none of them twice, and
    none with a sequence number received before. *)
Lemma inbox_run_once b evs :
  ∃ l, (inbox_run b evs).1 ++ in_queue (inbox_run b evs).2 = in_queue b ++ l ∧
    l `sublist_of` omap id evs ∧ NoDup l.*2 ∧ ∀ m, m ∈ l → m.2 ∉ a_received (in_window b).
Proof.
  revert b. induction evs as [|[m|] evs IH]; intros b; cbn [inbox_run omap list_omap id].
  - exists []. rewrite app_nil_r. split_and!; [done|done|constructor|]. by intros m ?%not_elem_of_nil.
  - destruct (IH (arrive b m)) as (l & Hl & Hsub & Hnd & Hout). rewrite Hl.
    destruct (arrive_cases b m) as [E|[(_ & E & _)|((Hnew & _) & E)]]; rewrite E in *; cbn [in_window in_queue a_received] in *.
    + exists l. split_and!; [done|by constructor|done|done].
    + exists l. split_and!; [done|by constructor|done|]. intros z Hz. specialize (Hout z Hz). set_solver.
    + exists (m :: l). rewrite <-app_assoc. split_and!; [done|by constructor| |].
      * cbn [fmap list_fmap]. constructor; [|done]. intros (z & Hz & Hzl)%list_elem_of_fmap.
        specialize (Hout z Hzl). set_solver.
      * intros z [->|Hz]%elem_of_cons; [done|]. specialize (Hout z Hz). set_solver.
  - unfold take_out. destruct (IH (mkInbox (in_window b) (drop 1 (in_queue b)))) as (l & Hl & H).
    destruct (inbox_run _ evs) as [out b']. cbn [fst snd in_queue in_window] in *. exists l.
    split; [|done]. by rewrite <-app_assoc, Hl, app_assoc, take_drop.
Qed.

(** Inboxes whose messages all have sequence numbers of one window: the queue
    cannot overflow and the window takes every number once. *)
Record in_range (lo : Z) (b : inbox) : Prop := {
  ir_recent : a_recent (in_window b) < lo + replayProtectionBufferSize;
  ir_nodup : NoDup (in_queue b).*2;
  ir_queue m : m ∈ in_queue b → lo ≤ m.2 < lo + replayProtectionBufferSize ∧ m.2 ∈ a_received (in_window b);
}.
(** A list of distinct numbers of a window has at most as many elements. *)
Lemma window_pigeonhole lo (l : list Z) :
  NoDup l → (∀ n, n ∈ l → lo ≤ n < lo + replayProtectionBufferSize) → Z.of_nat (length l) ≤ packetQueueSize.
Proof.
  intros Hnd Hin. assert (l ⊆+ seqZ lo replayProtectionBufferSize) as Hsub%submseteq_length.
  { apply NoDup_submseteq; [done|]. intros n Hn. apply elem_of_seqZ. by apply Hin. }
  rewrite length_seqZ in Hsub. clia.
Qed.
Lemma in_range_arrive lo b m :
  in_range lo b → lo ≤ m.2 < lo + replayProtectionBufferSize →
  in_range lo (arrive b m) ∧ m.2 ∈ a_received (in_window (arrive b m)) ∧
  (m.2 ∉ a_received (in_window b) → in_queue (arrive b m) = in_queue b ++ [m]) ∧
  a_received (in_window (arrive b m)) ⊆ {[m.2]} ∪ a_received (in_window b).
Proof.
  intros [Hrec Hnd Hq] Hm. destruct (decide (m.2 ∈ a_received (in_window b))) as [Hold|Hnew].
  { assert (arrive b m = b) as ->; [|split_and!; try done; set_solver].
    unfold arrive. rewrite decide_False; [done|]. by intros []. }
  assert (AbsReplay.fresh (in_window b) m.2) as Hf by (split; [done|lia]).
  assert (NoDup (in_queue b ++ [m]).*2) as Hnd'.
  { rewrite fmap_app. apply NoDup_app. split_and!; [done| |apply NoDup_singleton].
    intros n (z & -> & Hz)%list_elem_of_fmap Hn. apply list_elem_of_singleton in Hn.
    apply Hnew. rewrite <-Hn. by apply Hq. }
  assert (∀ z, z ∈ in_queue b ++ [m] → lo ≤ z.2 < lo + replayProtectionBufferSize) as Hall.
  { intros z [Hz| ->%list_elem_of_singleton]%elem_of_app; [by apply Hq|done]. }
  pose proof (window_pigeonhole lo _ Hnd') as Hp. rewrite length_fmap, length_app in Hp. cbn [length] in Hp.
  destruct (arrive_cases b m) as [E|[(_ & _ & Hno)|(_ & E)]].
  - exfalso. unfold arrive in E. rewrite decide_True in E by done. apply (f_equal in_window) in E.
    unfold AbsReplay.accept in E. rewrite decide_True in E by done. cbn in E. apply Hnew. rewrite <-E. set_solver.
  - exfalso. apply Hno. enough (Z.of_nat (length (in_queue b) + 1) ≤ packetQueueSize) by lia.
    apply Hp. intros n (z & -> & Hz)%list_elem_of_fmap. by apply Hall.
  - rewrite E. cbn. split_and!; [|set_solver|done|done]. split; cbn; [lia|done|].
    intros z Hz. split; [by apply Hall|]. apply elem_of_app in Hz as [Hz| ->%list_elem_of_singleton]; [|set_solver].
    apply elem_of_union_r. by apply Hq.
Qed.
Lemma in_range_take_out lo b : in_range lo b → in_range lo (take_out b).2.
Proof.
  intros [Hrec Hnd Hq]. split; cbn [take_out snd in_window in_queue]; [done| |].
  - rewrite fmap_drop. eapply sublist_NoDup; [exact Hnd|apply sublist_drop].
  - intros m Hm. apply Hq. eapply elem_of_sublist; [exact Hm|apply sublist_drop].
Qed.

(** Within one window every sequence number that arrives comes out. *)
Lemma inbox_run_all lo b evs :
  in_range lo b → (∀ m, m ∈ omap id evs → lo ≤ m.2 < lo + replayProtectionBufferSize) →
  ∀ m, m ∈ omap id evs → m.2 ∉ a_received (in_window b) →
    m.2 ∈ ((inbox_run b evs).1 ++ in_queue (inbox_run b evs).2).*2.
Proof.
  revert b. induction evs as [|[m|] evs IH]; intros b Hb Hall z Hz Hnew; cbn [inbox_run omap list_omap id] in *.
  - by apply not_elem_of_nil in Hz.
  - destruct (in_range_arrive lo b m Hb) as (Hb' & Hin & Hq & Hrec); [apply Hall; by constructor|].
    destruct (decide (z.2 = m.2)) as [E|Hne].
    + destruct (inbox_run_once (arrive b m) evs) as (l & -> & _). rewrite Hq by congruence.
      rewrite E, !fmap_app. set_solver.
    + apply IH; [done|intros; apply Hall; by constructor| |set_solver].
      apply elem_of_cons in Hz as [->|Hz]; [done|exact Hz].
  - destruct (take_out b) as [out b1] eqn:E. pose proof (in_range_take_out lo b Hb) as Hb1.
    rewrite E in Hb1. pose proof (IH b1 Hb1 Hall z Hz) as Hout. destruct (inbox_run b1 evs) as [out' b2].
    cbn [fst snd] in *. rewrite <-app_assoc, fmap_app. apply elem_of_app. right. apply Hout.
    unfold take_out in E. by injection E as _ <-.
Qed.

Lemma inbox_run_app b evs evs' :
  inbox_run b (evs ++ evs') =
  (((inbox_run b evs).1 ++ (inbox_run (inbox_run b evs).2 evs').1), (inbox_run (inbox_run b evs).2 evs').2).
Proof.
  revert b. induction evs as [|[m|] evs IH]; intros b; cbn [app inbox_run].
  - cbn [fst snd]. by destruct (inbox_run b evs').
  - apply IH.
  - cbn [take_out]. rewrite IH. destruct (inbox_run _ evs) as [l b1]. cbn [fst snd]. by rewrite app_assoc.
Qed.
Lemma inbox_bounded b evs :
  Z.of_nat (length (in_queue b)) ≤ packetQueueSize →
  Z.of_nat (length (in_queue (inbox_run b evs).2)) ≤ packetQueueSize.
Proof.
  revert b. induction evs as [|[m|] evs IH]; intros b Hb; cbn [inbox_run]; [done| |].
  - apply IH. unfold arrive. case_decide; [|done]. cbn [in_queue]. case_decide; [|done].
    rewrite length_app. cbn [length]. lia.
  - cbn [take_out]. specialize (IH (mkInbox (in_window b) (drop 1 (in_queue b)))).
    destruct (inbox_run _ evs). apply IH. cbn [in_queue]. rewrite length_drop. lia.
Qed.
Lemma inbox_drained b n :
  (length (in_queue b) ≤ n)%nat → inbox_run b (replicate n None) = (in_queue b, mkInbox (in_window b) []).
Proof.
  revert b. induction n as [|n IH]; intros [w q] Hn; cbn [in_queue in_window] in *.
  { by destruct q; [|cbn in Hn; lia]. }
  change (replicate (S n) (@None message)) with (@None message :: replicate n None).
  cbn [inbox_run take_out in_queue in_window]. rewrite IH by (cbn [in_queue]; rewrite length_drop; lia). cbn [in_queue in_window]. by rewrite take_drop.
Qed.

(** The number of removals that empties every queue. *)
Definition drain_count : nat := Z.to_nat packetQueueSize.
(** From an empty queue, with the queue emptied in the end. *)
Lemma inbox_delivers w evs :
  let got := (inbox_run (mkInbox w []) (evs ++ replicate drain_count None)).1 in
  got `sublist_of` omap id evs ∧ NoDup got.*2 ∧
  ∀ lo, a_recent w < lo + replayProtectionBufferSize →
    (∀ m, m ∈ omap id evs → lo ≤ m.2 < lo + replayProtectionBufferSize ∧ m.2 ∉ a_received w) →
    ∀ m, m ∈ omap id evs → m.2 ∈ got.*2.
Proof.
  intros got. assert (got = (inbox_run (mkInbox w []) evs).1 ++ in_queue (inbox_run (mkInbox w []) evs).2) as ->.
  { unfold got. rewrite inbox_run_app, inbox_drained; [done|].
    pose proof (inbox_bounded (mkInbox w []) evs ltac:(done)). unfold drain_count. clia. }
  destruct (inbox_run_once (mkInbox w []) evs) as (l & Hl & Hsub & Hnd & _).
  cbn [in_queue app] in Hl. rewrite Hl. split_and!; [done|done|].
  intros lo Hlo Hall m Hm. rewrite <-Hl. apply (inbox_run_all lo); [|intros; by apply Hall|done|by apply Hall].
  split; cbn [in_window in_queue]; [done|constructor|]. by intros z ?%not_elem_of_nil.
Qed.

(** ** The two ends *)

(** What the two ends offer: a sender takes payloads and has sent datagrams; a
    receiver processes datagrams that arrive (in a context [A]: where from and
    when) and hands out payloads. *)
Class Sender (S : Type) := {
  transmit : list byte → M S unit;
  transmitted : S → list (Address * list byte);
}.
Class Receiver (S A : Type) := {
  process : A → list byte → M S unit;
  fetch : M S (option (list byte) * Z);
}.

(** What happens at the receiver: a datagram of the sender is delivered (any of
    them, any number of times, in any order), a foreign datagram is injected,
    or a payload is fetched. *)
Inductive network_step (A : Type) :=
| Deliver (a : A) (k : nat)
| Inject (a : A) (d : list byte)
| Fetch.
Arguments Deliver {A}. Arguments Inject {A}. Arguments Fetch {A}.

Definition transmit_all {S : Type} `{T : Sender S} (payloads : list (list byte)) : M S unit := for_ payloads transmit.

Section play.
Context {S A : Type} `{R : Receiver S A}.
Definition play (ds : list (Address * list byte)) (x : network_step A) : M S (list message) :=
  match x with
  | Deliver a k => match ds !! k with Some d => process a d.2;; mret [] | None => mret [] end
  | Inject a d => process a d;; mret []
  | Fetch => r ← fetch; mret (match r with (Some p, n) => [(p, n)] | (None, _) => [] end)
  end.
Fixpoint play_all (ds : list (Address * list byte)) (l : list (network_step A)) : M S (list message) :=
  match l with
  | [] => mret []
  | x :: l => out ← play ds x; rest ← play_all ds l; mret (out ++ rest)
  end.
End play.

(** The payloads, numbered from [n] on. *)
Definition numbered (n : Z) (payloads : list (list byte)) : list message :=
  imap (λ k p, (p, n + Z.of_nat k)) payloads.
(** The message a step delivers. *)
Definition delivered {A : Type} (ms : list message) (x : network_step A) : option message :=
  match x with Deliver _ k => ms !! k | _ => None end.
(** What the steps mean for the inbox. *)
Definition inbox_events {A : Type} (ms : list message) (l : list (network_step A)) : list (option message) :=
  omap (λ x, match x with
             | Deliver _ k => Some <$> ms !! k
             | Inject _ _ => None
             | Fetch => Some None
             end) l.
Lemma inbox_events_delivered {A : Type} ms (l : list (network_step A)) :
  omap id (inbox_events ms l) = omap (delivered ms) l.
Proof.
  induction l as [|[a k|a d|] l IH]; cbn; [done| |done|done]. destruct (ms !! k); cbn; [by f_equal|done].
Qed.

Section laws.
Context {C : CryptoLib} {L : CryptoLaws C}.

(** The laws of a sender under a key: each payload goes out as one datagram to
    [to], under the next sequence number. *)
Class SenderLaws (S : Type) `{Sender S} (key : list byte) (pid : Z) (to : Address) (ready : S → Z → Prop) :=
  transmit_law c n data : ready c n → valid_encrypted (Payload data) → windowed n →
    wp (transmit data) (λ _ c', ready c' (n + 1) ∧
      transmitted c' = transmitted c ++ [(to, encoding (Payload data) n key pid)]) c.
(** The laws of a receiver: it implements the inbox, for datagrams in a
    [genuine] context, and [forged] ones do nothing to it. *)
Class ReceiverLaws (S A : Type) `{Receiver S A} (key : list byte) (pid : Z)
  (holds : S → inbox → Prop) (genuine : A → Prop) (forged : A → list byte → Prop) := {
  process_law s b a data n : holds s b → genuine a → valid_encrypted (Payload data) → windowed n →
    wp (process a (encoding (Payload data) n key pid)) (λ _ s', holds s' (arrive b (data, n))) s;
  forged_law s b a d : holds s b → forged a d → wp (process a d) (λ _ s', holds s' b) s;
  fetch_law s b : holds s b →
    wp fetch (λ r s', match r with (Some p, n) => [(p, n)] | (None, _) => [] end = (take_out b).1 ∧
                      holds s' (take_out b).2) s;
}.

Section channel.
Context (S T A : Type) `{Sender S} `{Receiver T A} (key : list byte) (pid : Z) (to : Address).
Context (ready : S → Z → Prop) (holds : T → inbox → Prop) (genuine : A → Prop) (forged : A → list byte → Prop).
Context `{!SenderLaws S key pid to ready} `{!ReceiverLaws T A key pid holds genuine forged}.

Definition datagram_of (m : message) : Address * list byte := (to, encoding (Payload m.1) m.2 key pid).
Definition message_ok (m : message) : Prop := valid_encrypted (Payload m.1) ∧ windowed m.2.
Definition step_ok (x : network_step A) : Prop :=
  match x with Deliver a _ => genuine a | Inject a d => forged a d | Fetch => True end.

Lemma numbered_cons n p payloads : numbered n (p :: payloads) = (p, n) :: numbered (n + 1) payloads.
Proof.
  unfold numbered. cbn [imap]. rewrite Z.add_0_r. f_equal. apply imap_ext. intros k q _. cbn. f_equal. lia.
Qed.
Lemma transmit_all_wp payloads n c :
  ready c n → Forall message_ok (numbered n payloads) →
  wp (transmit_all payloads) (λ _ c', transmitted c' =
    transmitted c ++ map datagram_of (numbered n payloads)) c.
Proof.
  unfold transmit_all. revert n c. induction payloads as [|p payloads IH]; intros n c Hc Hok; cbn [for_].
  { apply wp_ret. by rewrite app_nil_r. }
  rewrite numbered_cons in Hok |- *. apply Forall_cons in Hok as [[Hp Hn] Hok]. apply wp_bind.
  eapply wp_mono; [by apply (transmit_law c n p)|]. intros [] c1 [Hc1 Ht1].
  eapply wp_mono; [by apply (IH (n + 1))|]. intros [] c2 ->. by rewrite Ht1, <-app_assoc.
Qed.
Lemma play_all_wp ms l s b :
  holds s b → Forall message_ok ms → Forall step_ok l →
  wp (play_all (map datagram_of ms) l) (λ out s', out = (inbox_run b (inbox_events ms l)).1 ∧
    holds s' (inbox_run b (inbox_events ms l)).2) s.
Proof.
  intros Hs Hms. revert s b Hs. induction l as [|x l IH]; intros s b Hs Hl; [by apply wp_ret|].
  apply Forall_cons in Hl as [Hx Hl]. cbn [play_all]. apply wp_bind. destruct x as [a k|a d|]; cbn [play].
  - rewrite list_lookup_fmap. cbn [inbox_events omap list_omap].
    destruct (ms !! k) as [m|] eqn:Hk; cbn [fmap option_fmap option_map].
    + destruct (Forall_lookup_1 _ _ _ _ Hms Hk) as [Hp Hn]. apply wp_bind.
      eapply wp_mono; [by apply (process_law s b a m.1 m.2)|]. intros [] s1 Hs1. apply wp_ret, wp_bind.
      rewrite <-surjective_pairing in Hs1. eapply wp_mono; [by apply IH|]. intros out s2 Hout. by apply wp_ret.
    + apply wp_ret, wp_bind. eapply wp_mono; [by apply IH|]. intros out s2 Hout. by apply wp_ret.
  - apply wp_bind. eapply wp_mono; [by apply (forged_law s b a d)|]. intros [] s1 Hs1.
    apply wp_ret, wp_bind. eapply wp_mono; [by apply IH|]. intros out s2 Hout. by apply wp_ret.
  - apply wp_bind. eapply wp_mono; [by apply (fetch_law s b)|]. intros r s1 [Hr Hs1].
    apply wp_ret, wp_bind. eapply wp_mono; [by apply IH|]. intros out s2 [-> Hs2]. apply wp_ret.
    rewrite Hr. change (inbox_events ms (Fetch :: l)) with (@None message :: inbox_events ms l).
    cbn [inbox_run]. revert Hs2. destruct (take_out b) as [l1 b1]. by destruct (inbox_run _ _).
Qed.

(** Among the messages of the steps: what a receiver got, in the order of their
    first arrival at the earliest, no sequence number twice; and all of them
    when they fit in one window. *)
Record delivers (ms : list message) (l : list (network_step A)) (got : list message) : Prop := {
  dl_order : got `sublist_of` omap (delivered ms) l;
  dl_once : NoDup got.*2;
  dl_all : Z.of_nat (length ms) ≤ packetQueueSize → ∀ m, m ∈ omap (delivered ms) l → m ∈ got;
}.
(** The window has only seen sequence numbers below [n]. *)
Definition before (w : absReplay) (n : Z) : Prop := a_recent w ≤ n ∧ ∀ k, k ∈ a_received w → k < n.

Lemma numbered_elem n payloads m :
  m ∈ numbered n payloads → n ≤ m.2 < n + Z.of_nat (length payloads) ∧
    ∀ m', m' ∈ numbered n payloads → m'.2 = m.2 → m' = m.
Proof.
  intros [k (p & Hp & ->)%list_lookup_imap_Some]%list_elem_of_lookup. cbn.
  pose proof (lookup_lt_Some _ _ _ Hp). split; [lia|].
  intros z [j (q & Hq & ->)%list_lookup_imap_Some]%list_elem_of_lookup E. cbn in E.
  assert (j = k) as -> by lia. by simplify_eq.
Qed.
Lemma delivered_elem ms (l : list (network_step A)) m : m ∈ omap (delivered ms) l → m ∈ ms.
Proof.
  intros ([a k|a d|] & _ & Hk)%list_elem_of_omap; try done. by eapply list_elem_of_lookup_2.
Qed.
Lemma inbox_events_drain ms (l : list (network_step A)) n :
  inbox_events ms (l ++ replicate n Fetch) = inbox_events ms l ++ replicate n None.
Proof.
  unfold inbox_events. rewrite omap_app. f_equal. induction n as [|n IH]; [done|]. exact (f_equal (cons None) IH).
Qed.

(** Everything the sender takes goes out, and the receiver gets from it what
    [delivers] says, when the queue is emptied after the steps [l]. *)
Lemma channel_delivers payloads n c s w l :
  ready c n → holds s (mkInbox w []) → before w n →
  Forall (λ p, valid_encrypted (Payload p)) payloads → 0 ≤ n →
  n + Z.of_nat (length payloads) ≤ emptySequence → Forall step_ok l →
  ∃ c' ds s' got, transmit_all payloads c = Some (tt, c') ∧ transmitted c' = transmitted c ++ ds ∧
    length ds = length payloads ∧ Forall (λ d, d.1 = to) ds ∧
    play_all ds (l ++ replicate drain_count Fetch) s = Some (got, s') ∧
    delivers (numbered n payloads) l got.
Proof.
  intros Hc Hs [Hrecent Hbelow] Hp Hn Hlast Hl. set (ms := numbered n payloads).
  assert (Forall message_ok ms) as Hms.
  { apply Forall_forall. intros m Hm. destruct (numbered_elem n payloads m Hm) as [Hr _]. split.
    - apply list_elem_of_lookup in Hm as [k (p & Hk & ->)%list_lookup_imap_Some].
      by apply (Forall_lookup_1 _ _ _ _ Hp Hk).
    - unfold windowed. lia. }
  assert (Forall step_ok (l ++ replicate drain_count Fetch)) as Hl'
    by (apply Forall_app; split; [done|by apply Forall_replicate]).
  pose proof (wp_inv _ _ _ (transmit_all_wp payloads n c Hc Hms)) as ([] & c' & Hrun & Hc').
  pose proof (wp_inv _ _ _ (play_all_wp ms _ s _ Hs Hms Hl')) as (got & s' & Hplay & Hgot & _).
  exists c', (map datagram_of ms), s', got. split_and!; try done.
  - rewrite length_map. apply length_imap.
  - by apply Forall_fmap, Forall_forall.
  - rewrite inbox_events_drain in Hgot. destruct (inbox_delivers w (inbox_events ms l)) as (H1 & H2 & H3).
    rewrite <-Hgot in H1, H2, H3. rewrite inbox_events_delivered in H1, H3. split; [done|done|].
    intros Hlen m Hm. assert (m.2 ∈ got.*2) as (m' & E & Hm')%list_elem_of_fmap.
    { apply (H3 n); [clia| |done]. intros z Hz%delivered_elem%numbered_elem. destruct Hz as [Hz _].
      unfold ms, numbered in Hlen. rewrite length_imap in Hlen. split; [clia|]. intros Hr%Hbelow. lia. }
    destruct (numbered_elem n payloads m (delivered_elem _ _ _ Hm)) as [_ Hu].
    rewrite <-(Hu m'); [done| |done]. eapply delivered_elem, elem_of_sublist; done.
Qed.
End channel.
End laws.
Arguments step_ok {A}.
Arguments delivers {A}.

(** ** The window and the queue implement the inbox *)
Record implements (r : replayProtection) (q : packetQueue (list byte)) (b : inbox) : Prop := {
  im_window : replay_repr r (in_window b);
  im_queue : queue_repr q (in_queue b);
}.
Lemma implements_stale r q b data n :
  implements r q b → windowed n → Replay.alreadyReceived r n = Some true → arrive b (data, n) = b.
Proof.
  intros [Hr _] Hn. rewrite (alreadyReceived_spec _ _ _ Hr Hn). intros [= H%bool_decide_eq_true].
  unfold arrive. by rewrite decide_False.
Qed.
Lemma implements_fresh r q b data n r' ok q' :
  implements r q b → windowed n → Replay.alreadyReceived r n = Some false →
  Replay.advanceSequence n r = Some r' → Queue.push data n q = Some (ok, q') →
  implements r' q' (arrive b (data, n)).
Proof.
  intros [Hr Hq] Hn. rewrite (alreadyReceived_spec _ _ _ Hr Hn). intros [= H%bool_decide_eq_false%dec_stable] Hadv Hpush.
  destruct (advanceSequence_spec _ _ _ Hr Hn H) as (r1 & E & Hr1). rewrite Hadv in E. injection E as <-.
  unfold arrive, AbsReplay.accept. rewrite !decide_True by done. split; [exact Hr1|]. cbn [in_queue].
  case_decide as Hroom.
  - destruct (push_room q _ data n Hq Hroom) as (q1 & E & Hq1). rewrite Hpush in E. by injection E as _ <-.
  - rewrite (push_full q (in_queue b)) in Hpush; [by injection Hpush as _ <-|done|].
    pose proof (qr_bound _ _ Hq). lia.
Qed.
Lemma implements_pop r q b :
  implements r q b → ∃ o n q', Queue.pop q = Some ((o, n), q') ∧ implements r q' (take_out b).2 ∧
    match (o, n) with (Some p, n) => [(p, n)] | (None, _) => [] end = (take_out b).1 ∧
    (o = None → n = 0).
Proof.
  intros [Hr Hq]. unfold take_out. destruct b as [w [|[p n] l]]; cbn [in_window in_queue fst snd] in *.
  - exists None, 0, q. split; [by apply pop_empty|]. by split; [split|].
  - destruct (pop_cons q p n l Hq) as (q' & Hp & Hq'). exists (Some p), n, q'. split; [done|].
    by split; [split|].
Qed.

(** ** The server *)
Section server.
Context {C : CryptoLib} {L : CryptoLaws C}.
Context (s0 : Server) (i : Z) (from : Address) (receiveKey sendKey : list byte).

(** A running server that talks to the client of slot [i]; [s0] is the server at
    the start, for the keys it accepts. *)
Record server_link (s : Server) (x : slot) (y : mapping) : Prop := {
  vl_wf : server_wf s;
  vl_running : sv_running s = true;
  vl_config : sv_config s = sv_config s0;
  vl_client : client_at s i x y from;
  vl_receiveKey : mp_receiveKey y = receiveKey;
  vl_sendKey : mp_sendKey y = sendKey;
  vl_authentic a d : authentic s a d → authentic s0 a d;
}.
Definition server_holds (s : Server) (b : inbox) : Prop :=
  ∃ x y, server_link s x y ∧ implements (sl_replay x) (sl_queue x) b.

(** The mappings are the same up to their last access times. *)
Definition accessed (m m' : encryptionManager) : Prop :=
  ∀ e z, em_at m e = Some z → ∃ t, em_at m' e = Some (z <| mp_lastAccessTime := t |>).
Lemma accessed_refl m : accessed m m.
Proof. intros e z Hz. exists (mp_lastAccessTime z). by destruct z. Qed.
Lemma accessed_updated m e y t m' :
  em_at m e = Some y → updated m e (y <| mp_lastAccessTime := t |>) m' → accessed m m'.
Proof.
  intros Hy Hup k z Hz. rewrite (up_at _ _ _ _ Hup). case_decide as Hk.
  - subst k. rewrite Hy in Hz. injection Hz as <-. by exists t.
  - by apply accessed_refl.
Qed.
Lemma authentic_accessed s s' a d :
  server_wf s → server_wf s' → sv_config s' = sv_config s →
  accessed (sv_encryptionManager s) (sv_encryptionManager s') → authentic s' a d → authentic s a d.
Proof.
  intros Hwf Hwf' Hcfg Hm. unfold authentic. rewrite Hcfg. intros [Hd|(e & z & type & sb & plain & Hz & Hza & Hd)]; [by left|].
  right. pose proof (em_at_range _ _ _ (ew_shape _ (sw_em _ Hwf')) Hz) as He.
  destruct (em_at_Some (sv_encryptionManager s) e (ew_shape _ (sw_em _ Hwf)) He) as [z0 Hz0].
  destruct (Hm e z0 Hz0) as [t' Hz']. rewrite Hz in Hz'. injection Hz' as ->. by exists e, z0, type, sb, plain.
Qed.
Lemma server_link_step s s' x x' y :
  server_link s x y → server_wf s' → same_scalars s s' → slot_at s' i = Some x' → link_of x' = link_of x →
  accessed (sv_encryptionManager s) (sv_encryptionManager s') → ∃ y', server_link s' x' y'.
Proof.
  intros [Hwf Hrun Hcfg [Hx [Hc Hlo] Ha Hy] Hrk Hsk Hauth] Hwf' Hsc Hx' Hlink Hm. injection Hlink as E1 E2 E3 E4.
  destruct (Hm _ _ Hy) as [t Hy']. rewrite <-E3 in Hy'. exists (y <| mp_lastAccessTime := t |>).
  split; [done|by rewrite (sm_running _ _ Hsc)|by rewrite (sm_config _ _ Hsc)| |exact Hrk|exact Hsk|].
  - split; [done|by split; congruence|by rewrite E4|exact Hy'].
  - intros a d Hd. by eapply Hauth, authentic_accessed, Hd; [..|apply Hsc|].
Qed.
Lemma server_link_slot s s' x x' y :
  server_link s x y → slot_only s i x' s' → link_of x' = link_of x → ∃ y', server_link s' x' y'.
Proof.
  intros Hl H1 Hlink. eapply server_link_step; [exact Hl|apply H1|apply H1|by apply slot_updated_at with s, H1|done|].
  rewrite (so_em _ _ _ _ H1). apply accessed_refl.
Qed.

(** When and from where a datagram reaches the server. *)
Definition server_arrival : Type := Z * Z * Address.
#[local] Instance server_receiver : Receiver Server server_arrival := {|
  process '(now, now', a) d := ServerOps.ProcessPacket now now' a d;
  fetch := ServerOps.ReceivePacket i;
|}.
#[local] Instance server_sender : Sender Server := {|
  transmit := ServerOps.SendPacket i;
  transmitted s := datagrams (sv_events s);
|}.
Definition from_client (a : server_arrival) : Prop := a.2 = from.
Definition forged_to_server (a : server_arrival) (d : list byte) : Prop := ¬ authentic s0 a.2 d.

Lemma windowed_u64 n : windowed n → is_u64 n.
Proof. unfold windowed, is_u64, emptySequence. lia. Qed.

Lemma server_process_law s b a data n :
  server_holds s b → from_client a → valid_encrypted (Payload data) → windowed n →
  wp (process a (encoding (Payload data) n receiveKey (sc_protocolID (sv_config s0))))
    (λ _ s', server_holds s' (arrive b (data, n))) s.
Proof.
  intros (x & y & Hl & Him) Ha Hp Hn. destruct a as [[now now'] a]. unfold from_client in Ha. cbn in Ha. subst a.
  pose proof Hl as [Hwf Hrun Hcfg Hcl Hrk _ _]. pose proof (sequence_bytes_range n (windowed_u64 n Hn)) as Hsb.
  pose proof (le_combine_sequence_bytes n (windowed_u64 n Hn)) as Hle.
  pose proof (sw_slots _ Hwf _ _ (ca_slot _ _ _ _ _ Hcl)) as Hloc.
  cbn [process server_receiver]. unfold encoding. rewrite <-Hrk, <-Hcfg. cbn [packetType].
  destruct (alreadyReceived_total (sl_replay x) n (sx_replay _ Hloc)) as [[|] Hrec].
  - rewrite (implements_stale _ _ _ data n Him Hn Hrec). eapply wp_run.
    { eapply (replayed_ignored s i); [done|exact Hcl|clia|done|by rewrite Hle]. }
    by exists x, y.
  - eapply wp_mono; [eapply (payload_processed_wp s i); try done; by rewrite Hle|].
    intros [] s' (rp & ok & q & Hrp & Hq & H1). rewrite Hle in Hrp, Hq.
    edestruct (server_link_slot s s') as [y' Hl']; [exact Hl|exact H1|done|].
    eexists _, y'. split; [exact Hl'|]. by eapply implements_fresh.
Qed.

Lemma server_forged_law s b a d :
  server_holds s b → forged_to_server a d → wp (process a d) (λ _ s', server_holds s' b) s.
Proof.
  intros (x & y & Hl & Him) Hforged. destruct a as [[now now'] a]. cbn [process server_receiver].
  pose proof (vl_wf _ _ _ Hl) as Hwf.
  destruct (forgery_ignored s now now' a d Hwf) as (m & Hrun & _ & Hm & Hwf').
  { intros Hd. by apply Hforged, (vl_authentic _ _ _ Hl). }
  eapply wp_run; [exact Hrun|]. 
  edestruct (server_link_step s (with_mappings s m) x x) as [y' Hl']; [exact Hl|done|by split|apply Hl|done|done|].
  by exists x, y'.
Qed.

Lemma server_in_range s x y : server_link s x y → ServerOps.in_slot_range i s = true.
Proof.
  intros [Hwf Hrun _ [Hx Hn _ _] _ _ _]. pose proof (slot_at_range _ _ _ (sw_shape _ Hwf) Hx).
  pose proof (sw_active _ Hwf i x Hx (proj1 Hn)). unfold ServerOps.in_slot_range. rewrite Hrun.
  destruct (Z.ltb_spec i 0), (Z.geb_spec i (sv_maxClients s)); (done || lia).
Qed.
Lemma server_fetch_law s b :
  server_holds s b →
  wp fetch (λ r s', match r with (Some p, n) => [(p, n)] | (None, _) => [] end = (take_out b).1 ∧
    server_holds s' (take_out b).2) s.
Proof.
  intros (x & y & Hl & Him). cbn [fetch server_receiver]. unfold ServerOps.ReceivePacket. apply wp_bind, wp_gets.
  rewrite (server_in_range s x y Hl). pose proof Hl as [Hwf Hrun _ [Hx [Hc Hlo] _ _] _ _ _].
  cbn [negb]. pose proof (slot_at_inv _ _ _ Hx) as Hat. sv_read Hat. rewrite Hc. cbn [negb]. sv_read Hat.
  destruct (implements_pop _ _ _ Him) as (o & n & q & Hq & Him' & Hout & Hnone).
  apply wp_bind. eapply wp_lift; [exact Hq|]. cbv beta iota. cbn [fst snd].
  pose proof (sw_shape _ Hwf) as Hs. pose proof (slot_at_range _ _ _ Hs Hx) as Hi.
  pose proof (sw_slots _ Hwf _ _ Hx) as Hloc.
  assert (slot_local (x <| sl_queue := q |>)) as Hl'.
  { destruct Hloc. split; try done; [by eexists; apply Him'|]. intros H. simpl in H. congruence. }
  destruct Hs as []. sv_write. match goal with |- wp _ _ ?s' =>
    assert (slot_only s i (x <| sl_queue := q |>) s') as H1 end.
  { apply (slot_write_only s i x Hwf Hx); [sv_updated Hat|done || by split..]. }
  match goal with |- wp _ _ ?s' => assert (server_holds s' (take_out b).2) as H2 end.
  { edestruct (server_link_slot s) as [y' Hy']; [exact Hl|exact H1|done|]. by eexists _, y'. }
  destruct o as [p|]; apply wp_ret; by split.
Qed.

(** The server has heard from the client, and can send to it. *)
Definition server_ready (to : Address) (s : Server) (n : Z) : Prop :=
  ∃ x y, server_link s x y ∧ sl_confirmed x = true ∧ sl_sequence x = n ∧ sl_address x = to ∧ reaches s to = true.
Lemma server_transmit_law to s n data :
  server_ready to s n → valid_encrypted (Payload data) → windowed n →
  wp (transmit data) (λ _ s', server_ready to s' (n + 1) ∧ transmitted s' =
    transmitted s ++ [(to, encoding (Payload data) n sendKey (sc_protocolID (sv_config s0)))]) s.
Proof.
  intros (x & y & Hl & Hcf & Hseq & Hto & Hreach) Hp Hn. cbn [transmit transmitted server_sender].
  pose proof Hl as [Hwf Hrun Hcfg [Hx [Hc Hlo] Ha Hy] Hrk Hsk _]. pose proof (slot_at_inv _ _ _ Hx) as Hat.
  unfold ServerOps.SendPacket.
  rewrite (bool_decide_eq_false_2 (_ ≤ 0)%nat), (bool_decide_eq_false_2 (_ < _)%nat) by (destruct Hp; clia).
  cbn [orb]. apply wp_bind, wp_gets. rewrite (server_in_range s x y Hl). cbn [negb].
  sv_read Hat. rewrite Hc. cbn [negb]. sv_read Hat. rewrite Hlo. cbn [negb]. sv_read Hat. rewrite Hcf. cbn [negb].
  apply wp_bind, wp_gets, wp_bind, wp_ret.
  eapply wp_mono; [by apply (sendClientPacket_wp _ i x)|]. intros [] s' (y1 & Hy1 & [Hwf' Hup Hem Hsc _ (evs & Hev & Hd)]).
  rewrite Hy in Hy1. injection Hy1 as <-. rewrite Hto, Hreach, Hseq, Hsk, Hcfg in Hd. split.
  - edestruct (server_link_step s s' x) as [y' Hl'];
      [exact Hl|done|done|by apply slot_updated_at with s|done|by eapply accessed_updated|].
    eexists _, y'. split; [exact Hl'|]. split_and!; [done| |done|by rewrite (reaches_scalars _ _ _ Hsc)].
    cbn. rewrite Hseq. apply u64_id. unfold windowed, is_u64, emptySequence in *. lia.
  - by rewrite Hev, datagrams_app, Hd.
Qed.
End server.

(** ** The client *)
Section client.
Context {C : CryptoLib} {L : CryptoLaws C}.
Context (server : Address) (readKey writeKey : list byte) (pid : Z).

Record client_link (c : Client) : Prop := {
  kl_wf : client_wf c;
  kl_state : cl_state c = ClientStateConnected;
  kl_loopback : cl_loopback c = false;
  kl_server : cl_serverAddress c = server;
  kl_protocol : ct_protocolID (cl_connectToken c) = pid;
  kl_readKey : cl_readPacketKey c = readKey;
  kl_writeKey : cl_writePacketKey c = writeKey;
}.
Definition client_holds (c : Client) (b : inbox) : Prop :=
  client_link c ∧ implements (cl_replayProtection c) (cl_packetReceiveQueue c) b.
Definition client_sends_ready (c : Client) (n : Z) : Prop :=
  client_link c ∧ client_reaches c = true ∧ cl_sequence c = n.

(** When and from where a datagram reaches the client. *)
Definition client_arrival : Type := Z * Address.
#[local] Instance client_receiver : Receiver Client client_arrival := {|
  process '(now, a) d := ClientOps.ProcessPacket now a d;
  fetch := ClientOps.ReceivePacket;
|}.
#[local] Instance client_sender : Sender Client := {|
  transmit := ClientOps.SendPacket;
  transmitted c := datagrams (cl_events c);
|}.
Definition from_server (a : client_arrival) : Prop := Equal a.2 server = true.
Definition forged_to_client (a : client_arrival) (d : list byte) : Prop :=
  ∀ type sb plain, d ≠ sealed_packet readKey pid type sb plain.

Lemma client_transmit_law c n data :
  client_sends_ready c n → valid_encrypted (Payload data) → windowed n →
  wp (transmit data) (λ _ c', client_sends_ready c' (n + 1) ∧
    transmitted c' = transmitted c ++ [(server, encoding (Payload data) n writeKey pid)]) c.
Proof.
  intros ([Hwf Hst Hlb Hsrv Hpid Hrk Hwk] & Hreach & Hseq) Hp Hn. cbn [transmit transmitted client_sender].
  unfold ClientOps.SendPacket. apply wp_bind, wp_gets. cbv beta delta [id].
  rewrite (bool_decide_eq_false_2 (_ ≤ 0)%nat), (bool_decide_eq_false_2 (_ < _)%nat) by (destruct Hp; clia).
  cbn [orb]. rewrite Hst, Z.eqb_refl, Hlb. cbn [negb].
  destruct (writePacket_encoding (Payload data) (cl_sequence c) (cl_writePacketKey c)
    (ct_protocolID (cl_connectToken c)) Hp (cw_sequence _ Hwf) (cw_writeKey _ Hwf)) as (k & b & Hw & Hk & He).
  eapply wp_mono; [by eapply client_sends_wp|]. intros [] c' (evs & -> & Hevs). split.
  - split; [|split; [exact Hreach|]].
    + split; try done. eapply client_wf_sent; [done|rewrite Hst; clia|]. right. by exists evs.
    + cbn. rewrite Hseq. apply u64_id. unfold windowed, is_u64, emptySequence in *. lia.
  - cbn. by rewrite datagrams_app, Hevs, Hsrv, Hseq, Hwk, Hpid.
Qed.

Lemma client_process_law c b a data n :
  client_holds c b → from_server a → valid_encrypted (Payload data) → windowed n →
  wp (process a (encoding (Payload data) n readKey pid)) (λ _ c', client_holds c' (arrive b (data, n))) c.
Proof.
  intros [Hl Him] Ha Hp Hn. destruct a as [now a]. unfold from_server in Ha. cbn in Ha. cbn [process client_receiver].
  pose proof Hl as [Hwf Hst Hlb Hsrv Hpid Hrk Hwk]. pose proof (windowed_u64 n Hn) as Hu.
  destruct (alreadyReceived_total (cl_replayProtection c) n (cw_replay _ Hwf)) as [[|] Hrec].
  - rewrite (implements_stale _ _ _ data n Him Hn Hrec).
    eapply wp_mono; [by apply ProcessPacket_wp|]. intros [] c' [|type sb plain rp op c2 _ Hd Hchk _ _ _ [Hsb Hty]]; [done|].
    exfalso. unfold encoding in Hd. rewrite <-Hrk, <-Hpid in Hd.
    destruct (sealed_packet_inj _ _ _ _ _ _ _ _ _ _ Hd) as [<- <-]; [cbn [packetType]; clia|done|by apply sequence_bytes_range|done|].
    rewrite le_combine_sequence_bytes in Hchk by done. 
    change (Replay.alreadyReceived (cl_replayProtection c) n = Some false) in Hchk. congruence.
  - destruct (advanceSequence_total (cl_replayProtection c) n (cw_replay _ Hwf)) as (rp & Hadv & Hrp).
    rewrite <-Hrk, <-Hpid. apply (client_reads_wp c now a (Payload data) n rp); try done.
    { apply wf_keys; [done|rewrite Hst; clia|done]. }
    { cbn [replay_advance packetType]. by rewrite Hadv. }
    unfold ClientOps.processPacketInternal. apply wp_bind, wp_gets. cbv beta delta [id] zeta.
    change (cl_state (c <| cl_replayProtection := rp |>)) with (cl_state c).
    change (cl_serverAddress (c <| cl_replayProtection := rp |>)) with (cl_serverAddress c).
    rewrite Hst, Z.eqb_refl, Hsrv, Ha. cbn [andb].
    destruct (push_total (cl_packetReceiveQueue c) data n (cw_queue _ Hwf)) as (ok & q & Hq & Hqwf).
    apply wp_bind, wp_zoom. eapply wp_run; [exact Hq|]. apply wp_modify. split.
    + split; try done. apply client_wf_heard; [by apply client_wf_replay|done].
    + cbn. by eapply implements_fresh.
Qed.

Lemma client_forged_law c b a d :
  client_holds c b → forged_to_client a d → wp (process a d) (λ _ c', client_holds c' b) c.
Proof.
  intros [Hl Him] Hforged. destruct a as [now a]. cbn [process client_receiver].
  pose proof Hl as [Hwf _ _ _ Hpid Hrk _]. eapply wp_mono; [by apply ProcessPacket_wp|].
  intros [] c' [|type sb plain rp op c2 _ Hd]; [done|]. rewrite Hrk, Hpid in Hd. by destruct (Hforged type sb plain).
Qed.
Lemma client_fetch_law c b :
  client_holds c b →
  wp fetch (λ r c', match r with (Some p, n) => [(p, n)] | (None, _) => [] end = (take_out b).1 ∧
    client_holds c' (take_out b).2) c.
Proof.
  intros [Hl Him]. cbn [fetch client_receiver]. unfold ClientOps.ReceivePacket.
  destruct (implements_pop _ _ _ Him) as (o & n & q & Hq & Him' & Hout & _).
  apply wp_bind, wp_zoom. eapply wp_run; [exact Hq|]. cbv beta iota.
  assert (client_holds (c <| cl_packetReceiveQueue := q |>) (take_out b).2) as H2.
  { split; [|exact Him']. destruct Hl as [Hwf ? ? ? ? ? ?]. split; try done.
    exact (client_wf_heard c q (cl_lastPacketReceiveTime c) Hwf ltac:(eexists; apply Him')). }
  by destruct o as [p|]; apply wp_ret.
Qed.
End client.

(** ** Both directions *)
Section directions.
Context {C : CryptoLib} {L : CryptoLaws C}.

#[local] Instance server_receiver_laws s0 i from receiveKey sendKey :
  ReceiverLaws Server server_arrival (H := server_receiver i) receiveKey (sc_protocolID (sv_config s0))
    (server_holds s0 i from receiveKey sendKey) (from_client from) (forged_to_server s0).
Proof. split; [apply server_process_law|apply server_forged_law|apply server_fetch_law]. Qed.
#[local] Instance server_sender_laws s0 i from receiveKey sendKey to :
  SenderLaws Server (H := server_sender i) sendKey (sc_protocolID (sv_config s0)) to
    (server_ready s0 i from receiveKey sendKey to).
Proof. intros s n data. apply server_transmit_law. Qed.
#[local] Instance client_receiver_laws server readKey writeKey pid :
  ReceiverLaws Client client_arrival (H := client_receiver) readKey pid
    (client_holds server readKey writeKey pid) (from_server server) (forged_to_client readKey pid).
Proof. split; [apply client_process_law|apply client_forged_law|apply client_fetch_law]. Qed.
#[local] Instance client_sender_laws server readKey writeKey pid :
  SenderLaws Client (H := client_sender) writeKey pid server (client_sends_ready server readKey writeKey pid).
Proof. intros c n data. apply client_transmit_law. Qed.

Definition payloads_ok (payloads : list (list byte)) : Prop :=
  Forall (λ p, (1 ≤ length p ≤ maxPayloadBytes)%nat) payloads.

Lemma session_server c s i x y from :
  session c s i x y from → server_link s i from (cl_writePacketKey c) (cl_readPacketKey c) s x y.
Proof. intros []. by split. Qed.
Lemma session_client c s i x y from :
  session c s i x y from → client_link (cl_serverAddress c) (cl_readPacketKey c) (cl_writePacketKey c)
    (sc_protocolID (sv_config s)) c.
Proof. intros []. by split. Qed.

(** C4. Delivery from the client to the server. A connected client is handed
    payloads (SendPacket); each goes out as one datagram to the server. The
    network then delivers any of these datagrams to the server, any number of
    times and in any order, mixed with forged datagrams from any address and
    with calls of ReceivePacket. Nothing panics, and what the server's calls of
    ReceivePacket return in all, the queue being emptied at the end, are
    payloads the client sent, unaltered and with the sequence numbers they were
    sent under, in the order in which they arrived, none of them twice; and when
    at most 256 were sent, every payload that arrived at least once. *)
Theorem client_to_server_delivery (c : Client) (s : Server) (i : Z) (x : slot) (y : mapping) (from : Address)
  (payloads : list (list byte)) (l : list (network_step server_arrival))
  (Hsession : session c s i x y from) (Hreach : client_reaches c = true)
  (Hexpect : expecting (sl_replay x) (sl_queue x) (cl_sequence c)) (Hpayloads : payloads_ok payloads)
  (Hlast : cl_sequence c + Z.of_nat (length payloads) ≤ emptySequence)
  (Hsteps : Forall (step_ok (from_client from) (forged_to_server s)) l) :
  ∃ c' ds s' got, transmit_all (T := client_sender) payloads c = Some (tt, c') ∧
    datagrams (cl_events c') = datagrams (cl_events c) ++ ds ∧
    length ds = length payloads ∧ Forall (λ d, d.1 = cl_serverAddress c) ds ∧
    play_all (R := server_receiver i) ds (l ++ replicate drain_count Fetch) s = Some (got, s') ∧
    delivers (numbered (cl_sequence c) payloads) l got.
Proof.
  destruct Hexpect as [Hq (w & Hw & Hbefore)].
  apply (channel_delivers Client Server server_arrival (H := client_sender) (H0 := server_receiver i)
    (cl_writePacketKey c) (sc_protocolID (sv_config s)) (cl_serverAddress c)
    (client_sends_ready (cl_serverAddress c) (cl_readPacketKey c) (cl_writePacketKey c) (sc_protocolID (sv_config s)))
    (server_holds s i from (cl_writePacketKey c) (cl_readPacketKey c)) (from_client from) (forged_to_server s))
    with w; try done.
  - split; [by eapply session_client|done].
  - exists x, y. by split; [apply session_server|].
  - apply (cw_sequence _ (sn_client _ _ _ _ _ _ Hsession)).
Qed.

(** C5. Delivery from the server to the client: the same for payloads the server
    sends to a client it has heard from, and the client's calls of
    ReceivePacket, with the datagrams coming from the server's address and any
    datagrams injected that are not sealed under the client's read key. *)
Theorem server_to_client_delivery (c : Client) (s : Server) (i : Z) (x : slot) (y : mapping) (from : Address)
  (payloads : list (list byte)) (l : list (network_step client_arrival))
  (Hsession : session c s i x y from) (Hconfirmed : sl_confirmed x = true)
  (Hreach : reaches s (sl_address x) = true)
  (Hexpect : expecting (cl_replayProtection c) (cl_packetReceiveQueue c) (sl_sequence x))
  (Hpayloads : payloads_ok payloads)
  (Hlast : sl_sequence x + Z.of_nat (length payloads) ≤ emptySequence)
  (Hsteps : Forall (step_ok (from_server (cl_serverAddress c))
     (forged_to_client (cl_readPacketKey c) (sc_protocolID (sv_config s)))) l) :
  ∃ s' ds c' got, transmit_all (T := server_sender i) payloads s = Some (tt, s') ∧
    datagrams (sv_events s') = datagrams (sv_events s) ++ ds ∧
    length ds = length payloads ∧ Forall (λ d, d.1 = sl_address x) ds ∧
    play_all (R := client_receiver) ds (l ++ replicate drain_count Fetch) c = Some (got, c') ∧
    delivers (numbered (sl_sequence x) payloads) l got.
Proof.
  destruct Hexpect as [Hq (w & Hw & Hbefore)].
  apply (channel_delivers Server Client client_arrival (H := server_sender i) (H0 := client_receiver)
    (cl_readPacketKey c) (sc_protocolID (sv_config s)) (sl_address x)
    (server_ready s i from (cl_writePacketKey c) (cl_readPacketKey c) (sl_address x))
    (client_holds (cl_serverAddress c) (cl_readPacketKey c) (cl_writePacketKey c) (sc_protocolID (sv_config s)))
    (from_server (cl_serverAddress c)) (forged_to_client (cl_readPacketKey c) (sc_protocolID (sv_config s))))
    with w; try done.
  - exists x, y. by split; [apply session_server|].
  - by split; [eapply session_client|].
  - apply (sx_sequence _ (sw_slots _ (sn_server _ _ _ _ _ _ Hsession) _ _
      (ca_slot _ _ _ _ _ (sn_slot _ _ _ _ _ _ Hsession)))).
Qed.
End directions.

(** ** A concrete session: the client of the handshake, connected, and the server
    that has it in slot 0 *)
Definition delivery_client : Client := handshake_client <| cl_state := ClientStateConnected |>.
Definition delivery_payloads : list (list byte) := [[byte.of_Z 1]; [byte.of_Z 2; byte.of_Z 3]; [byte.of_Z 4]].
(** The server after one payload of the client: it has confirmed the client. *)
Definition delivery_datagram : list byte :=
  sealed_packet (C := sample_crypto) (mp_receiveKey sample_mapping) 7 connectionPayloadPacket [byte.of_Z 0] [byte.of_Z 9].
Definition confirmed_server : Server :=
  after (ServerOps.ProcessPacket (C := sample_crypto) 1002 1002 sample_ipv6 delivery_datagram) sample_server.
Definition mapping_or_none (s : Server) : mapping :=
  match em_at (sv_encryptionManager s) 0 with
  | Some y => y
  | None => mkMapping 0 f64_0 f64_0 zeroAddress 0 0 [] []
  end.

Lemma client_wf_connected c :
  client_wf c → ClientStateDisconnected < cl_state c → client_wf (c <| cl_state := ClientStateConnected |>).
Proof. intros [] Hst. split; simpl; auto; unfold_constants; try lia. Qed.
Lemma delivery_client_wf : client_wf delivery_client.
Proof. apply client_wf_connected; [exact (cr_wf _ _ _ _ handshake_client_ready)|by vm_compute]. Qed.
Lemma delivery_slot s from :
  server_wf s → network (slot_or_fresh s 0) → Equal (sl_address (slot_or_fresh s 0)) from = true →
  sl_encryptionIndex (slot_or_fresh s 0) = 0 → client_at s 0 (slot_or_fresh s 0) (mapping_or_none s) from.
Proof.
  intros Hwf Hn Ha He. split; [by apply slot_or_fresh_at|done|done|].
  rewrite He. unfold mapping_or_none. by destruct (em_at_Some _ 0 (ew_shape _ (sw_em _ Hwf))) as [y ->].
Qed.
Lemma delivery_session s :
  server_wf s → sv_running s = true → network (slot_or_fresh s 0) →
  Equal (sl_address (slot_or_fresh s 0)) sample_ipv6 = true → sl_encryptionIndex (slot_or_fresh s 0) = 0 →
  sc_protocolID (sv_config s) = 7 →
  mp_receiveKey (mapping_or_none s) = replicate KeyBytes (byte.of_Z 17) →
  mp_sendKey (mapping_or_none s) = replicate KeyBytes (byte.of_Z 34) →
  session delivery_client s 0 (slot_or_fresh s 0) (mapping_or_none s) sample_ipv6.
Proof.
  intros Hwf Hrun Hn Ha He Hpid Hk1 Hk2.
  split; [exact delivery_client_wf|by vm_compute|by vm_compute|done|done|by apply delivery_slot|rewrite Hpid|
    rewrite Hk1|rewrite Hk2]; by vm_compute.
Qed.
Lemma expecting_fresh r q n : r = Replay.reset → q = Queue.clear → 0 ≤ n → expecting r q n.
Proof. intros -> -> Hn. by apply expecting_first, Hn; apply queue_repr_clear. Qed.

(** The third datagram comes first and again later, the second is lost, a
    forged datagram comes in between, and one payload is fetched early. *)
Definition up_steps : list (network_step server_arrival) :=
  [Deliver (1002, 1002, sample_ipv6) 2; Inject (1002, 1002, sample_ipv6) [byte.of_Z 21; byte.of_Z 1];
   Fetch; Deliver (1003, 1003, sample_ipv6) 0; Deliver (1003, 1003, sample_ipv6) 2].
Lemma client_to_server_delivery_witness :
  ∃ c' ds s' got, transmit_all (T := client_sender (C := sample_crypto)) delivery_payloads delivery_client = Some (tt, c') ∧
    datagrams (cl_events c') = datagrams (cl_events delivery_client) ++ ds ∧
    length ds = 3%nat ∧ Forall (λ d, d.1 = sample_ipv4) ds ∧
    play_all (R := server_receiver (C := sample_crypto) 0) ds (up_steps ++ replicate drain_count Fetch) sample_server =
      Some (got, s') ∧
    delivers (numbered 0 delivery_payloads) up_steps got.
Proof.
  pose proof (proj2 sample_server_run) as Hwf.
  apply (client_to_server_delivery (C := sample_crypto) delivery_client sample_server 0 (slot_or_fresh sample_server 0)
    (mapping_or_none sample_server) sample_ipv6 delivery_payloads up_steps).
  - apply delivery_session; [exact Hwf|by vm_compute|split; by vm_compute|by vm_compute..].
  - by vm_compute.
  - apply expecting_fresh; by vm_compute.
  - repeat constructor.
  - by vm_compute.
  - repeat constructor. intros Hd. revert Hd. apply short_not_authentic; [exact Hwf|cbn; lia].
Defined.
(** The same run, evaluated. *)
Example up_delivery_computed :
  match transmit_all (T := client_sender (C := sample_crypto)) delivery_payloads delivery_client with
  | Some (_, c') =>
      fst <$> play_all (R := server_receiver (C := sample_crypto) 0) (datagrams (cl_events c'))
                (up_steps ++ replicate 3 Fetch) sample_server
  | None => None
  end = Some [([byte.of_Z 4], 2); ([byte.of_Z 1], 0)].
Proof. vm_compute. reflexivity. Qed.

Lemma confirmed_server_wf : server_wf confirmed_server.
Proof.
  exact (proj2 (process_after_wf (C := sample_crypto) sample_server 1002 1002 sample_ipv6 delivery_datagram
    (proj2 sample_server_run))).
Qed.
Definition down_steps : list (network_step client_arrival) :=
  [Deliver (1002, sample_ipv4) 1; Deliver (1002, sample_ipv4) 1; Inject (1003, sample_ipv6) [byte.of_Z 21];
   Deliver (1003, sample_ipv4) 0; Fetch].
Lemma server_to_client_delivery_witness :
  ∃ s' ds c' got, transmit_all (T := server_sender (C := sample_crypto) 0) delivery_payloads confirmed_server = Some (tt, s') ∧
    datagrams (sv_events s') = datagrams (sv_events confirmed_server) ++ ds ∧
    length ds = 3%nat ∧ Forall (λ d, d.1 = sl_address (slot_or_fresh confirmed_server 0)) ds ∧
    play_all (R := client_receiver (C := sample_crypto)) ds (down_steps ++ replicate drain_count Fetch) delivery_client =
      Some (got, c') ∧
    delivers (numbered (sl_sequence (slot_or_fresh confirmed_server 0)) delivery_payloads) down_steps got.
Proof.
  apply (server_to_client_delivery (C := sample_crypto) delivery_client confirmed_server 0
    (slot_or_fresh confirmed_server 0) (mapping_or_none confirmed_server) sample_ipv6 delivery_payloads down_steps).
  - apply delivery_session; [exact confirmed_server_wf|by vm_compute|split; by vm_compute|by vm_compute..].
  - by vm_compute.
  - by vm_compute.
  - apply expecting_fresh; by vm_compute.
  - repeat constructor.
  - by vm_compute.
  - repeat constructor. intros type sb plain Hd%(f_equal length).
    rewrite length_sealed_packet in Hd by (by vm_compute). cbn [length] in Hd. clia.
Defined.
